(** * ECHR crawler: the D1 adapter and the monthly crawl loop

    A shallow embedding of [db-old/d1-adapter.js] (class [D1Adapter]) and of
    the monthly scraper (class [MonthlyECHRScraper]), with the properties
    their specification states about them.

    Conventions.
    - A JavaScript string is a sequence of UTF-16 code units.  It is
      modelled by [string], every character standing for one code unit;
      the model therefore covers the code units below 256.
    - A value that may be [null] or [undefined] is an [option]; JavaScript
      truthiness of such a value is [truthy].
    - JavaScript numbers that count things are integers in [Z]. *)

From Stdlib Require Import ZArith Lia Bool Ascii String List.
From stdpp Require Import base option list gmap strings.

Local Open Scope Z_scope.

(* ===================================================================== *)
(** * JavaScript strings *)
(* ===================================================================== *)

Module Js.

(** [!s] is false exactly for a string with at least one code unit. *)
Definition nonEmpty (s : string) : bool :=
  match s with "" => false | String _ _ => true end.

(** Truthiness of [string | null | undefined]. *)
Definition truthy (o : option string) : bool :=
  match o with Some s => nonEmpty s | None => false end.

(** A template literal prints [null] as the four letters "null". *)
Definition interp (o : option string) : string :=
  match o with Some s => s | None => "null" end.

(** [\d] *)
Definition isDigit (c : ascii) : bool :=
  let n := nat_of_ascii c in (48 <=? n)%nat && (n <=? 57)%nat.

(** LineTerminator: LF and CR (U+2028 and U+2029 lie outside the model). *)
Definition isLineTerminator (c : ascii) : bool :=
  let n := nat_of_ascii c in (n =? 10)%nat || (n =? 13)%nat.

(** [\s], also the set stripped by [trim]: TAB, LF, VT, FF, CR, SP, NBSP. *)
Definition isWhiteSpace (c : ascii) : bool :=
  let n := nat_of_ascii c in
  ((9 <=? n)%nat && (n <=? 13)%nat) || (n =? 32)%nat || (n =? 160)%nat.

Fixpoint all (p : ascii -> bool) (s : string) : bool :=
  match s with
  | "" => true
  | String c s' => p c && all p s'
  end.

(** [s.startsWith(p)] *)
Fixpoint startsWith (p s : string) : bool :=
  match p, s with
  | "", _ => true
  | String a p', String b s' => if ascii_dec a b then startsWith p' s' else false
  | String _ _, "" => false
  end.

(** [s.includes(p)] *)
Fixpoint includes (p s : string) : bool :=
  startsWith p s ||
  match s with
  | "" => false
  | String _ s' => includes p s'
  end.

(** [s.split(sep)] for a separator of one code unit: the pieces between
    the separators, so never an empty array. *)
Fixpoint split (sep : ascii) (s : string) : list string :=
  match s with
  | "" => [""]
  | String c s' =>
      if ascii_dec c sep then "" :: split sep s'
      else match split sep s' with
           | piece :: rest => String c piece :: rest
           | [] => [String c ""]
           end
  end.

(** [pieces.join(sep)] *)
Fixpoint join (sep : string) (pieces : list string) : string :=
  match pieces with
  | [] => ""
  | [p] => p
  | p :: rest => p +:+ sep +:+ join sep rest
  end.

Fixpoint repeat (c : ascii) (n : nat) : string :=
  match n with O => "" | S n' => String c (repeat c n') end.

(** [s.padStart(n, c)] for a filler of one code unit. *)
Definition padStart (n : nat) (c : ascii) (s : string) : string :=
  repeat c (n - String.length s) +:+ s.

Fixpoint trimStart (s : string) : string :=
  match s with
  | "" => ""
  | String c s' => if isWhiteSpace c then trimStart s' else s
  end.

Fixpoint trimEnd (s : string) : string :=
  match s with
  | "" => ""
  | String c s' =>
      match trimEnd s' with
      | "" => if isWhiteSpace c then "" else String c ""
      | t => String c t
      end
  end.

(** [s.trim()] *)
Definition trim (s : string) : string := trimEnd (trimStart s).

(** [s.replace(/'/g, "''")] *)
Fixpoint doubleQuotes (s : string) : string :=
  match s with
  | "" => ""
  | String c s' =>
      if ascii_dec c "'" then String "'" (String "'" (doubleQuotes s'))
      else String c (doubleQuotes s')
  end.

(** [s.toLowerCase()] on the code units of the model: A-Z and the
    Latin-1 capitals (all of U+00C0..U+00DE but the multiplication sign)
    move up by 32. *)
Definition lowerChar (c : ascii) : ascii :=
  let n := nat_of_ascii c in
  if ((65 <=? n)%nat && (n <=? 90)%nat)
     || ((192 <=? n)%nat && (n <=? 222)%nat && negb (n =? 215)%nat)
  then ascii_of_nat (n + 32) else c.

Fixpoint toLowerCase (s : string) : string :=
  match s with
  | "" => ""
  | String c s' => String (lowerChar c) (toLowerCase s')
  end.

End Js.

(* ===================================================================== *)
(** * The field normalisers of [D1Adapter] *)
(* ===================================================================== *)

(** [/^\d{4}-\d{2}-\d{2}$/]: four digits, a dash, two digits, a dash, two
    digits, and nothing before or after (no [m] flag, so [$] is the end of
    the input). *)
Definition matchesIsoDate (s : string) : bool :=
  match s with
  | String y1 (String y2 (String y3 (String y4 (String d1
      (String m1 (String m2 (String d2 (String a1 (String a2 "")))))))))
    => Js.isDigit y1 && Js.isDigit y2 && Js.isDigit y3 && Js.isDigit y4
       && bool_decide (d1 = "-"%char)
       && Js.isDigit m1 && Js.isDigit m2
       && bool_decide (d2 = "-"%char)
       && Js.isDigit a1 && Js.isDigit a2
  | _ => false
  end.

(** [convertDate(dateStr)]: DD/MM/YYYY to YYYY-MM-DD. *)
Definition convertDate (dateStr : option string) : option string :=
  match dateStr with
  | None => None
  | Some s =>
      if negb (Js.nonEmpty s) then None
      else if matchesIsoDate s then Some s
      else
        (* const [day, month, year] = dateStr.split('/') *)
        match Js.split "/" s with
        | day :: month :: year :: _ =>
            if negb (Js.nonEmpty day) || negb (Js.nonEmpty month)
               || negb (Js.nonEmpty year)
            then None
            else Some (year +:+ "-" +:+ Js.padStart 2 "0" month
                            +:+ "-" +:+ Js.padStart 2 "0" day)
        | _ => None
        end
  end.

(** [(.+)$] at [s]: at least one code unit, none of them a line
    terminator, up to the end of the input. *)
Definition restOfLine (s : string) : bool :=
  Js.nonEmpty s && Js.all (fun c => negb (Js.isLineTerminator c)) s.

(** [\s*(.+)$] at [s], called once [\s+] has taken its first code unit.
    [\s+] is greedy: it takes the next white space too when the match can
    still be completed, and gives it back to the group otherwise. *)
Fixpoint spacesThenGroup (s : string) : option string :=
  match s with
  | "" => None
  | String c s' =>
      if Js.isWhiteSpace c then
        match spacesThenGroup s' with
        | Some g => Some g
        | None => if restOfLine s then Some s else None
        end
      else if restOfLine s then Some s else None
  end.

(** [/v\.\s+(.+)$/] anchored at the first code unit of [s]; the result is
    group 1. *)
Definition matchCountryHere (s : string) : option string :=
  match s with
  | String "v" (String "." (String c rest)) =>
      if Js.isWhiteSpace c then spacesThenGroup rest else None
  | _ => None
  end.

(** [title.match(/v\.\s+(.+)$/)]: the match that starts leftmost. *)
Fixpoint matchCountry (s : string) : option string :=
  match matchCountryHere s with
  | Some g => Some g
  | None =>
      match s with
      | "" => None
      | String _ s' => matchCountry s'
      end
  end.

(** [extractCountry(title)] *)
Definition extractCountry (title : string) : option string :=
  match matchCountry title with
  | Some g => Some (Js.trim g)
  | None => None
  end.

(** [isCaseClosed(lastMajorEvent)] *)
Definition isCaseClosed (lastMajorEvent : option string) : bool :=
  if negb (Js.truthy lastMajorEvent) then false
  else
    let eventLower := Js.toLowerCase (Js.interp lastMajorEvent) in
    Js.includes "finished" eventLower || Js.includes "inadmissible" eventLower.

(** [escapeSQL], the arrow function of the statement builders. *)
Definition escapeSQL (str : option string) : option string :=
  match str with
  | Some s => if Js.nonEmpty s then Some (Js.doubleQuotes s) else None
  | None => None
  end.

(* ===================================================================== *)
(** * The storage engine

    The database is an external collaborator: the adapter hands it SQL
    text, through [wrangler d1 execute] or through the import API.  A
    statement is represented as the adapter writes it: one constructor
    per template, holding the expressions the adapter interpolates, each
    text by the characters written between its quotes.  The engine below
    is SQLite's reading of these statements on the tables [applications],
    [events] and [representatives], for the commands whose texts leave
    the template as it is ([reads], below); what becomes of any other
    command is not the model's to say, it is the world's ([beyond]). *)
(* ===================================================================== *)

Inductive Value :=
| VNull
| VInt (n : Z)
| VText (s : string).

Global Instance Value_eq_dec : EqDecision Value.
Proof. solve_decision. Defined.

Inductive Expr :=
| ENull                       (* NULL *)
| EInt (n : Z)                (* a number *)
| EText (body : string)       (* 'body' *)
| EToday                      (* DATE('now') *)
| ENow                        (* CURRENT_TIMESTAMP *)
| ERepId (body : string)      (* (SELECT id FROM representatives WHERE name='body' LIMIT 1) *)
| EAppId (body : string).     (* (SELECT id FROM applications WHERE application_number = 'body') *)

(** The VALUES list of the upsert into [applications].  The number and the
    title are always written as text literals.  [not_found_count] and
    [updated_at] are columns of the batch statement only. *)
Record AppValues := {
  v_application_number : string;
  v_application_title : string;
  v_country : Expr;
  v_date_introduction : string;
  v_representative_id : Expr;
  v_representative_name : Expr;
  v_last_major_event : Expr;
  v_last_major_event_date : Expr;
  v_is_closed : Expr;
  v_last_checked_date : Expr;
  v_not_found_count : option Expr;
  v_updated_at : option Expr
}.

(** One row of the VALUES list of the insert into [events]. *)
Record EventValues := {
  v_application_id : Expr;
  v_event_date : string;
  v_description : string;
  v_is_last_event : Expr
}.

Inductive Stmt :=
| SelectRepId (body : string)      (* SELECT id FROM representatives WHERE name = 'body' *)
| InsertReps (bodies : list string)(* INSERT OR IGNORE INTO representatives (name) VALUES ('b1'), ... *)
| UpsertApp (v : AppValues)        (* INSERT INTO applications ... ON CONFLICT(application_number) DO UPDATE SET ... *)
| SelectAppId (body : string)      (* SELECT id FROM applications WHERE application_number = 'body' *)
| DeleteEvents (app : Expr)        (* DELETE FROM events WHERE application_id = app *)
| InsertEvents (rows : list EventValues)
                                   (* INSERT INTO events (...) VALUES (...), ... *)
| MarkNotFound (body : string)     (* UPDATE applications SET not_found_count = not_found_count + 1, ... *)
| SelectSubscribed.                (* SELECT DISTINCT s.case_id, ... FROM subscriptions s INNER JOIN applications a ... *)

Record AppRow := {
  id : Z;
  application_title : Value;
  country : Value;
  date_introduction : Value;
  representative_id : Value;
  representative_name : Value;
  last_major_event : Value;
  last_major_event_date : Value;
  is_closed : Value;
  last_checked_date : Value;
  not_found_count : Z;
  skip_scraping : Z;
  updated_at : Value
}.

Record EventRow := {
  application_id : Value;
  event_date : Value;
  description : Value;
  is_last_event : Value
}.

Global Instance EventRow_eq_dec : EqDecision EventRow.
Proof. solve_decision. Defined.

(** [applications] is keyed by its UNIQUE [application_number] and
    [representatives] by its UNIQUE [name]; [events] is in insertion
    order.  Rows are never deleted from the keyed tables, so the next
    rowid of each is a counter. *)
Record Db := {
  applications : gmap string AppRow;
  next_application_id : Z;
  events : list EventRow;
  representatives : gmap string Z;
  next_representative_id : Z
}.

(** Modelled from the spec: the schema file is not part of the sources.
    The spec's conceptual schema names the columns; the values a new row
    takes in the columns an INSERT does not list are the schema's
    defaults, kept as parameters. *)
Record Schema := {
  default_not_found_count : Z;
  default_skip_scraping : Z;
  default_updated_at : Value
}.

(** The engine's clock at the time a command runs. *)
Record Clock := {
  today : string;
  timestamp : string
}.

Module Sql.

(** The string a text literal denotes: a doubled quote stands for one
    quote.  A quote that is not doubled ends the literal inside the
    interpolated text: there is no such string then, and what follows
    the quote is read as SQL. *)
Fixpoint text (body : string) : option string :=
  match body with
  | "" => Some ""
  | String c rest =>
      if ascii_dec c "'" then
        match rest with
        | String c' rest' =>
            if ascii_dec c' "'" then String "'" <$> text rest' else None
        | "" => None
        end
      else String c <$> text rest
  end.


Definition eval (clk : Clock) (db : Db) (e : Expr) : option Value :=
  match e with
  | ENull => Some VNull
  | EInt n => Some (VInt n)
  | EText body => VText <$> text body
  | EToday => Some (VText (today clk))
  | ENow => Some (VText (timestamp clk))
  | ERepId body =>
      name ← text body;
      Some (match representatives db !! name with
            | Some i => VInt i
            | None => VNull
            end)
  | EAppId body =>
      number ← text body;
      Some (match applications db !! number with
            | Some r => VInt (id r)
            | None => VNull
            end)
  end.

Definition set_applications (m : gmap string AppRow) (db : Db) : Db :=
  {| applications := m;
     next_application_id := next_application_id db;
     events := events db;
     representatives := representatives db;
     next_representative_id := next_representative_id db |}.

Definition set_events (l : list EventRow) (db : Db) : Db :=
  {| applications := applications db;
     next_application_id := next_application_id db;
     events := l;
     representatives := representatives db;
     next_representative_id := next_representative_id db |}.

(** INSERT OR IGNORE of one name: a new row with the next rowid unless
    the name is there. *)
Definition insert_rep (db : Db) (name : string) : Db :=
  match representatives db !! name with
  | Some _ => db
  | None =>
      {| applications := applications db;
         next_application_id := next_application_id db;
         events := events db;
         representatives := <[name := next_representative_id db]> (representatives db);
         next_representative_id := next_representative_id db + 1 |}
  end.

(** The upsert.  On a conflict the columns of the DO UPDATE SET list
    take the new values, [not_found_count] becomes 0, and the columns
    the list does not name ([id], [skip_scraping]) stay.  Without a
    conflict a row is inserted, the columns the INSERT does not list
    taking the schema's defaults. *)
Definition upsert (sch : Schema) (clk : Clock) (db : Db) (v : AppValues)
  : option Db :=
  number ← text (v_application_number v);
  title ← text (v_application_title v);
  ctry ← eval clk db (v_country v);
  intro ← text (v_date_introduction v);
  repid ← eval clk db (v_representative_id v);
  repname ← eval clk db (v_representative_name v);
  lastev ← eval clk db (v_last_major_event v);
  lastdate ← eval clk db (v_last_major_event_date v);
  closed ← eval clk db (v_is_closed v);
  checked ← eval clk db (v_last_checked_date v);
  nfc ← match v_not_found_count v with
        | Some e => Some <$> eval clk db e
        | None => Some None
        end;
  upd ← match v_updated_at v with
        | Some e => Some <$> eval clk db e
        | None => Some None
        end;
  match applications db !! number with
  | Some old =>
      let row := {|
        id := id old;
        application_title := VText title;
        country := ctry;
        date_introduction := VText intro;
        representative_id := repid;
        representative_name := repname;
        last_major_event := lastev;
        last_major_event_date := lastdate;
        is_closed := closed;
        last_checked_date := VText (today clk);
        not_found_count := 0;
        skip_scraping := skip_scraping old;
        updated_at := VText (timestamp clk) |} in
      Some (set_applications (<[number := row]> (applications db)) db)
  | None =>
      count ← match nfc with
              | Some (VInt n) => Some n
              | Some _ => None
              | None => Some (default_not_found_count sch)
              end;
      let row := {|
        id := next_application_id db;
        application_title := VText title;
        country := ctry;
        date_introduction := VText intro;
        representative_id := repid;
        representative_name := repname;
        last_major_event := lastev;
        last_major_event_date := lastdate;
        is_closed := closed;
        last_checked_date := checked;
        not_found_count := count;
        skip_scraping := default_skip_scraping sch;
        updated_at := default (default_updated_at sch) upd |} in
      Some {| applications := <[number := row]> (applications db);
              next_application_id := next_application_id db + 1;
              events := events db;
              representatives := representatives db;
              next_representative_id := next_representative_id db |}
  end.

Definition event_row (clk : Clock) (db : Db) (v : EventValues)
  : option EventRow :=
  app ← eval clk db (v_application_id v);
  date ← text (v_event_date v);
  desc ← text (v_description v);
  last ← eval clk db (v_is_last_event v);
  Some {| application_id := app; event_date := VText date;
          description := VText desc; is_last_event := last |}.

End Sql.

Module Engine.

(** INSERT OR IGNORE of every row of a VALUES list of names. *)
Definition insert_reps (db : Db) (names : list string) : Db :=
  foldl Sql.insert_rep db names.

(** [application_id = a] holds for no row when [a] is NULL. *)
Definition refers (a : Value) (r : EventRow) : bool :=
  match a with
  | VNull => false
  | _ => bool_decide (application_id r = a)
  end.

(** The UPDATE of [markAsNotFound] on one row; the right-hand sides
    read the row as it was. *)
Definition mark (clk : Clock) (r : AppRow) : AppRow :=
  {| id := id r;
     application_title := application_title r;
     country := country r;
     date_introduction := date_introduction r;
     representative_id := representative_id r;
     representative_name := representative_name r;
     last_major_event := last_major_event r;
     last_major_event_date := last_major_event_date r;
     is_closed := is_closed r;
     last_checked_date := VText (today clk);
     not_found_count := not_found_count r + 1;
     skip_scraping := if 60 <=? not_found_count r + 1 then 1 else skip_scraping r;
     updated_at := VText (timestamp clk) |}.

(** One statement: the database after it and the ids it prints, or
    [None] when the engine rejects it.  A VALUES list has at least one
    row.  The rows that the query of the subscribed cases prints hold
    columns of a table outside the model; they are the world's. *)
Definition exec (sch : Schema) (clk : Clock) (db : Db) (s : Stmt)
  : option (Db * list Z) :=
  match s with
  | SelectRepId body =>
      name ← Sql.text body;
      Some (db, match representatives db !! name with
                | Some i => [i]
                | None => []
                end)
  | InsertReps bodies =>
      match bodies with
      | [] => None
      | _ => names ← mapM Sql.text bodies;
             Some (insert_reps db names, [])
      end
  | UpsertApp v =>
      db' ← Sql.upsert sch clk db v;
      Some (db', [])
  | SelectAppId body =>
      number ← Sql.text body;
      Some (db, match applications db !! number with
                | Some r => [id r]
                | None => []
                end)
  | DeleteEvents app =>
      a ← Sql.eval clk db app;
      Some (Sql.set_events
              (List.filter (fun r => negb (refers a r)) (events db)) db, [])
  | InsertEvents rows =>
      match rows with
      | [] => None
      | _ => rs ← mapM (Sql.event_row clk db) rows;
             Some (Sql.set_events (events db ++ rs) db, [])
      end
  | MarkNotFound body =>
      number ← Sql.text body;
      Some (Sql.set_applications (alter (mark clk) number (applications db)) db, [])
  | SelectSubscribed => Some (db, [])
  end.

(** The statements of one command, in order, up to the first one the
    engine rejects: the database reached, and the ids printed when none
    was rejected. *)
Fixpoint run (sch : Schema) (clk : Clock) (db : Db) (sql : list Stmt)
  : Db * option (list Z) :=
  match sql with
  | [] => (db, Some [])
  | s :: rest =>
      match exec sch clk db s with
      | None => (db, None)
      | Some (db', ids) =>
          let (db'', r) := run sch clk db' rest in
          (db'', (fun more => ids ++ more) <$> r)
      end
  end.

End Engine.

(* ===================================================================== *)
(** * Effects: a state and exception monad *)
(* ===================================================================== *)

Inductive Res (A : Type) :=
| Val (a : A)
| Exn (message : string).
Arguments Val {A} a.
Arguments Exn {A} message.

(** A computation on a state [S] that returns or throws. *)
Definition M (S A : Type) : Type := S -> Res A * S.

Global Instance M_ret {S} : MRet (M S) := fun A a s => (Val a, s).

Global Instance M_bind {S} : MBind (M S) := fun A B f m s =>
  match m s with
  | (Val a, s') => f a s'
  | (Exn e, s') => (Exn e, s')
  end.

Definition throw {S A} (message : string) : M S A := fun s => (Exn message, s).

(** [try { body } catch (error) { handler }] *)
Definition tryCatch {S A} (body : M S A) (handler : string -> M S A) : M S A :=
  fun s =>
    match body s with
    | (Val a, s') => (Val a, s')
    | (Exn e, s') => handler e s'
    end.

Definition get {S} : M S S := fun s => (Val s, s).
Definition modify {S} (f : S -> S) : M S unit := fun s => (Val tt, f s).

(* ===================================================================== *)
(** * [D1ImportAPI] *)
(* ===================================================================== *)

Module ImportAPI.

(** The requests of the helper: the three actions on the import URL and
    the PUT of the statements to the upload URL. *)
Inductive Request :=
| Init (etag : string)
| Upload (uploadUrl body : string)
| Ingest (etag filename : string)
| Poll (bookmark : string).

(** The answers, as far as the helper reads them. *)
Record InitAnswer := {
  init_success : bool;
  upload_url : string;
  filename : string
}.

Record IngestAnswer := {
  ingest_success : bool;
  at_bookmark : string
}.

Record PollAnswer := {
  poll_success : bool;
  poll_error : option string
}.

(** The service: what the request sent after [n] others gets, an answer
    or a rejected promise.  For the upload the answer is the [ETag]
    header, if there is one. *)
Record Service := {
  onInit : nat -> string -> Res InitAnswer;
  onUpload : nat -> string -> string -> Res (option string);
  onIngest : nat -> string -> string -> Res IngestAnswer;
  onPoll : nat -> string -> Res PollAnswer
}.

(** [await fetch(...)] and the reading of the answer; the state is the
    list of the requests sent. *)
Definition fetch {A} (request : Request) (answer : nat -> Res A)
  : M (list Request) A :=
  fun sent => (answer (length sent), sent ++ [request]).

(** The header without its double quotes (code unit 34), as [replace]
    with the global pattern of that one character leaves it. *)
Fixpoint stripQuotes (s : string) : string :=
  match s with
  | "" => ""
  | String c s' =>
      if (nat_of_ascii c =? 34)%nat then stripQuotes s'
      else String c (stripQuotes s')
  end.

(** The answer of a poll that ends the wait. *)
Definition finished (result : PollAnswer) : bool :=
  poll_success result
  || (negb (poll_success result)
      && bool_decide (poll_error result = Some "Not currently importing anything.")).

Section Helper.

(** [crypto.createHash('md5').update(s).digest('hex')] *)
Variable md5 : string -> string.
Variable service : Service.

(** [pollImport(bookmark)], for at most [fuel] polls: [true] when it
    returns, [false] when the polls are used up first. *)
Fixpoint pollImport (fuel : nat) (bookmark : string) : M (list Request) bool :=
  match fuel with
  | O => mret false
  | S fuel' =>
      result ← fetch (Poll bookmark) (fun n => onPoll service n bookmark);
      if finished result then mret true
      else pollImport fuel' bookmark
  end.

(** [uploadSQL(sqlStatement)]: [true] when it returns [true], [false]
    when the polls are used up first; every error is thrown again. *)
Definition uploadSQL (fuel : nat) (sqlStatement : string)
  : M (list Request) bool :=
  tryCatch
    (let hashStr := md5 sqlStatement in
     uploadData ← fetch (Init hashStr) (fun n => onInit service n hashStr);
     if negb (init_success uploadData) then throw "Init failed"
     else
       let uploadUrl := upload_url uploadData in
       let filename := filename uploadData in
       header ← fetch (Upload uploadUrl sqlStatement)
                      (fun n => onUpload service n uploadUrl sqlStatement);
       match header with
       | None => throw "Cannot read properties of null (reading 'replace')"
       | Some etag =>
           let r2Etag := stripQuotes etag in
           if negb (bool_decide (r2Etag = hashStr))
           then throw "ETag mismatch - upload corrupted"
           else
             ingestData ← fetch (Ingest hashStr filename)
                                (fun n => onIngest service n hashStr filename);
             if negb (ingest_success ingestData) then throw "Ingest failed"
             else pollImport fuel (at_bookmark ingestData)
       end)
    (fun message => throw message).

End Helper.

End ImportAPI.

(* ===================================================================== *)
(** * The remote side *)
(* ===================================================================== *)

Inductive Command :=
| Execute (sql : list Stmt)    (* wrangler d1 execute --command *)
| Import (sql : list Stmt).    (* the import API *)

(** The statements of a command. *)
Definition statements (c : Command) : list Stmt :=
  match c with Execute sql => sql | Import sql => sql end.

(** ** The commands the engine reads as they are written *)

Module Shell.

(** [executeSQL] puts the SQL between double quotes on the command line
    that [execSync] hands to [/bin/sh], writing a backslash before every
    double quote of it.  Between double quotes sh leaves a code unit as
    it is unless it is a dollar sign, a back-quote or a backslash (the
    double quote comes back from its backslash); a code unit 0 cannot be
    passed on a command line. *)
Definition inert (c : ascii) : bool :=
  let n := nat_of_ascii c in
  negb ((n =? 36)%nat || (n =? 96)%nat || (n =? 92)%nat || (n =? 0)%nat).

(** sh passes the text on as it is. *)
Definition plain (text : string) : bool := Js.all inert text.

End Shell.

(** The texts an expression holds between quotes. *)
Definition exprTexts (e : Expr) : list string :=
  match e with
  | EText body => [body]
  | ERepId body => [body]
  | EAppId body => [body]
  | _ => []
  end.

(** The texts a statement holds between quotes. *)
Definition texts (s : Stmt) : list string :=
  match s with
  | SelectRepId body => [body]
  | InsertReps bodies => bodies
  | UpsertApp v =>
      [v_application_number v; v_application_title v]
      ++ exprTexts (v_country v)
      ++ [v_date_introduction v]
      ++ exprTexts (v_representative_id v)
      ++ exprTexts (v_representative_name v)
      ++ exprTexts (v_last_major_event v)
      ++ exprTexts (v_last_major_event_date v)
      ++ exprTexts (v_is_closed v)
      ++ exprTexts (v_last_checked_date v)
      ++ from_option exprTexts [] (v_not_found_count v)
      ++ from_option exprTexts [] (v_updated_at v)
  | SelectAppId body => [body]
  | DeleteEvents app => exprTexts app
  | InsertEvents rows =>
      concat (List.map (fun v => exprTexts (v_application_id v)
                                 ++ [v_event_date v; v_description v]
                                 ++ exprTexts (v_is_last_event v))
                       rows)
  | MarkNotFound body => [body]
  | SelectSubscribed => []
  end.

(** The text between two quotes is one literal: every quote in it is
    doubled. *)
Definition literal (body : string) : bool :=
  match Sql.text body with Some _ => true | None => false end.

(** The command goes through [wrangler d1 execute]. *)
Definition isExecute (c : Command) : bool :=
  match c with Execute _ => true | Import _ => false end.

(** The text gets to the engine as one literal: every quote in it is
    doubled, so that no part of it is read as SQL, and, on the way
    through sh, it is passed on as it is. *)
Definition fits (shell : bool) (body : string) : bool :=
  literal body && (if shell then Shell.plain body else true).

(** The engine reads the command as it is written: every text between
    quotes gets to it as one literal.  The templates themselves hold
    nothing that sh expands. *)
Definition reads (c : Command) : bool :=
  forallb (fits (isExecute c)) (concat (List.map texts (statements c))).

(** [id] is the primary key of [applications], and the next rowid is
    above every id in use. *)
Definition uniqueIds (d : Db) : Prop :=
  (forall k1 k2 r1 r2,
      applications d !! k1 = Some r1 -> applications d !! k2 = Some r2 ->
      id r1 = id r2 -> k1 = k2)
  /\ (forall k r, applications d !! k = Some r -> id r < next_application_id d).

(** How the n-th remote call goes: whether the command reaches the
    engine, whether the answer comes back, and the engine's clock. *)
Record Reply := {
  delivered : bool;
  answered : bool;
  clock : Clock
}.

(** What the run does not control.  [atomic] tells whether a command one
    of whose statements is rejected leaves the statements before it
    undone.  [beyond n c d] is what the n-th call makes of the database
    [d], and the ids it prints, for a command [c] that the engine does
    not read as it is written: sh has expanded a part of it, or a part
    of a text is read as SQL.  Nothing is known of it but that the
    engine enforces the primary key of [applications] whatever SQL it
    runs ([keyed]).  [importService n] is the import service as
    it answers the requests of the n-th call, an import, and [patience]
    the number of polls of one import that the process is left the time
    for.  Two functions of the code are kept as parameters beside them:
    [written], the text of a list of statements, and [hash], its MD5 in
    hexadecimal. *)
Record Remote := {
  schema : Schema;
  atomic : bool;
  wire : nat -> Reply;
  beyond : nat -> Command -> Db -> Db * option (list Z);
  keyed : forall n c d, uniqueIds d -> uniqueIds (beyond n c d).1;
  importService : nat -> ImportAPI.Service;
  patience : nat;
  written : list Stmt -> string;
  hash : string -> string
}.

(** The database, the number of remote calls made, the commands handed
    over, and whether the process is still waiting for an import to end:
    the model goes on from a wait as if it had ended, and [stalled]
    records that it has not. *)
Record Store := {
  db : Db;
  calls : nat;
  journal : list Command;
  stalled : bool
}.

(** The store after a command that leaves the database as it is. *)
Definition asked (c : Command) (st : Store) : Store :=
  {| db := db st; calls := S (calls st); journal := journal st ++ [c];
     stalled := stalled st |}.

Definition stall (st : Store) : Store :=
  {| db := db st; calls := calls st; journal := journal st; stalled := true |}.

(** What the engine makes of a command at the n-th call: the database
    after it and the ids printed, or [None] when it rejects it. *)
Definition outcome (rem : Remote) (n : nat) (c : Command) (d : Db)
  : Db * option (list Z) :=
  if reads c then
    let (reached, r) :=
      Engine.run (schema rem) (clock (wire rem n)) d (statements c) in
    (match r with
     | Some _ => reached
     | None => if atomic rem then d else reached
     end, r)
  else beyond rem n c d.

(** A command sent to the engine: the store after it, and the ids printed
    or [None] when the call fails. *)
Definition submit (rem : Remote) (c : Command) (st : Store)
  : option (list Z) * Store :=
  let reply := wire rem (calls st) in
  let (after, r) := outcome rem (calls st) c (db st) in
  (if delivered reply && answered reply then r else None,
   {| db := if delivered reply then after else db st;
      calls := S (calls st);
      journal := journal st ++ [c];
      stalled := stalled st |}).

(* ===================================================================== *)
(** * [D1Adapter] *)
(* ===================================================================== *)

Record MajorEvent := {
  ev_description : string;
  eventDate : string
}.

(** What [scrapeECHRApplication] returns for a page it found.  The number
    and the title are present and non-empty then; the other texts may be
    [null]. *)
Record CaseRecord := {
  applicationNumber : string;
  applicationTitle : string;
  dateIntroduction : option string;
  representant : option string;
  lastMajorEvent : option string;
  lastMajorEventDate : option string;
  majorEventsList : list MajorEvent
}.

(** The fields of the adapter object.  [importAPI] tells whether the
    import API was set up (credentials present) or is [null]. *)
Record D1Adapter := {
  repCache : gmap string Z;
  cacheCounter : Z;
  importAPI : bool
}.

Definition CACHE_FLUSH_INTERVAL : Z := 100.

(** The adapter and the store its calls act on. *)
Record D1 := {
  adapter : D1Adapter;
  store : Store
}.

Definition set_repCache (m : gmap string Z) (a : D1Adapter) : D1Adapter :=
  {| repCache := m; cacheCounter := cacheCounter a; importAPI := importAPI a |}.

Definition set_adapter (a : D1Adapter) (s : D1) : D1 :=
  {| adapter := a; store := store s |}.

(** [data.representant && data.representant.trim()] *)
Definition hasRepresentative (data : CaseRecord) : bool :=
  Js.truthy (representant data)
  && Js.nonEmpty (Js.trim (Js.interp (representant data))).

(** [${x ? `'${escapeSQL(x)}'` : 'NULL'}] *)
Definition quotedOrNull (x : option string) : Expr :=
  if Js.truthy x then EText (Js.interp (escapeSQL x)) else ENull.

(** [${lastMajorEventDate ? `'${lastMajorEventDate}'` : 'NULL'}] *)
Definition rawOrNull (x : option string) : Expr :=
  if Js.truthy x then EText (Js.interp x) else ENull.

(** The VALUES rows of the insert into [events], by
    [data.majorEventsList.map((event, i) => ...)]. *)
Definition eventValues (app : Expr) (data : CaseRecord) : list EventValues :=
  imap (fun i event =>
          let eventDate := convertDate (Some (eventDate event)) in
          let isLastEvent :=
            if Z.of_nat i =? Z.of_nat (length (majorEventsList data)) - 1
            then 1 else 0 in
          {| v_application_id := app;
             v_event_date := Js.interp eventDate;
             v_description := Js.interp (escapeSQL (Some (ev_description event)));
             v_is_last_event := EInt isLastEvent |})
       (majorEventsList data).

(** The first occurrence of every element, in order: [[...new Set(l)]]. *)
Fixpoint unique (seen l : list string) : list string :=
  match l with
  | [] => []
  | x :: rest =>
      if bool_decide (x ∈ seen) then unique seen rest
      else x :: unique (x :: seen) rest
  end.

Section Adapter.

Variable rem : Remote.

(** [this.importAPI.uploadSQL(batchSQL)]: the exchange of the helper
    with the import service, which counts as one remote call.  What it
    returns or throws is the helper's, from the answers of the service
    alone.  The statements can get to the engine once the ingest request,
    the third request of the exchange, is made, whatever answer that
    request gets; whether they do is the reply's [delivered], and what
    the engine makes of them the helper never learns.  When the polls
    the process is left the time for are used up, the helper is still
    waiting in its [while (true)]: the model goes on as if it had
    returned [true], with [stalled] set.  [exchange] is the run of the
    helper: what it returns ([false] for a wait that has not ended) or
    throws, and the requests it has made. *)
Definition exchange (sql : list Stmt) (st : Store)
  : Res bool * list ImportAPI.Request :=
  ImportAPI.uploadSQL (hash rem) (importService rem (calls st))
                      (patience rem) (written rem sql) [].

Definition uploadSQL (sql : list Stmt) : M D1 bool := fun s =>
  let st := store s in
  let st' :=
    if (3 <=? length (exchange sql st).2)%nat
    then (submit rem (Import sql) st).2
    else asked (Import sql) st in
  match (exchange sql st).1 with
  | Val true => (Val true, {| adapter := adapter s; store := st' |})
  | Val false => (Val true, {| adapter := adapter s; store := stall st' |})
  | Exn message => (Exn message, {| adapter := adapter s; store := st' |})
  end.

(** [result.match(/"id":\s*(\d+)/)] and [parseInt] of its group, on the
    ids as the output of wrangler prints them: the first id that is
    written with digits only, that is, the first that is not negative. *)
Definition idMatch (result : list Z) : option Z :=
  List.find (fun i => 0 <=? i) result.

(** [executeSQL(sql)]: the ids in the output of wrangler, or the error
    of [execSync] thrown again. *)
Definition executeSQL (sql : list Stmt) : M D1 (list Z) := fun s =>
  match submit rem (Execute sql) (store s) with
  | (Some ids, st) => (Val ids, {| adapter := adapter s; store := st |})
  | (None, st) => (Exn "SQL Error", {| adapter := adapter s; store := st |})
  end.

Definition cacheSet (name : string) (i : Z) : M D1 unit :=
  modify (fun s => set_adapter (set_repCache (<[name := i]> (repCache (adapter s))) (adapter s)) s).

(** [findOrCreateRepresentative(name)] *)
Definition findOrCreateRepresentative (name : option string) : M D1 Z :=
  if negb (Js.truthy name) then throw "Representative name is required"
  else
    let name := Js.interp name in
    s ← get;
    match repCache (adapter s) !! name with
    | Some cachedId => mret cachedId
    | None =>
        let checkSQL := [SelectRepId (Js.doubleQuotes name)] in
        found ← tryCatch
                  (result ← executeSQL checkSQL;
                   match idMatch result with
                   | Some i => cacheSet name i ;; mret (Some i)
                   | None => mret None
                   end)
                  (fun _ => mret None);
        match found with
        | Some i => mret i
        | None =>
            let insertSQL := [InsertReps [Js.doubleQuotes name]] in
            executeSQL insertSQL ;;
            let getIdSQL := [SelectRepId (Js.doubleQuotes name)] in
            idResult ← executeSQL getIdSQL;
            match idMatch idResult with
            | Some newId => cacheSet name newId ;; mret newId
            | None => throw "Failed to get representative ID"
            end
        end
    end.

(** [flushCacheIfNeeded()] *)
Definition flushCacheIfNeeded : M D1 unit :=
  modify (fun s =>
    let a := adapter s in
    let counter := cacheCounter a + 1 in
    set_adapter
      (if CACHE_FLUSH_INTERVAL <=? counter
       then {| repCache := ∅; cacheCounter := 0; importAPI := importAPI a |}
       else {| repCache := repCache a; cacheCounter := counter;
               importAPI := importAPI a |}) s).

(** The upsert of [saveApplication]. *)
Definition appSQL (data : CaseRecord) (representativeId : option Z) : Stmt :=
  let dateIntroduction := convertDate (dateIntroduction data) in
  let lastMajorEventDate := convertDate (lastMajorEventDate data) in
  let country := extractCountry (applicationTitle data) in
  let isClosed := isCaseClosed (lastMajorEvent data) in
  UpsertApp {|
    v_application_number := applicationNumber data;
    v_application_title := Js.interp (escapeSQL (Some (applicationTitle data)));
    v_country := quotedOrNull country;
    v_date_introduction := Js.interp dateIntroduction;
    v_representative_id :=
      match representativeId with
      | Some i => if i =? 0 then ENull else EInt i
      | None => ENull
      end;
    v_representative_name := quotedOrNull (representant data);
    v_last_major_event := quotedOrNull (lastMajorEvent data);
    v_last_major_event_date := rawOrNull lastMajorEventDate;
    v_is_closed := EInt (if isClosed then 1 else 0);
    v_last_checked_date := EToday;
    v_not_found_count := None;
    v_updated_at := None |}.

(** [saveApplication(data)] *)
Definition saveApplication (data : CaseRecord) : M D1 bool :=
  tryCatch
    (representativeId ←
       (if hasRepresentative data
        then i ← findOrCreateRepresentative (representant data); mret (Some i)
        else mret None);
     executeSQL [appSQL data representativeId] ;;
     let getAppIdSQL := [SelectAppId (applicationNumber data)] in
     appIdResult ← executeSQL getAppIdSQL;
     match idMatch appIdResult with
     | None => throw "Failed to get application ID"
     | Some applicationId =>
         let eventsSQL :=
           [DeleteEvents (EInt applicationId);
            InsertEvents (eventValues (EInt applicationId) data)] in
         executeSQL eventsSQL ;;
         flushCacheIfNeeded ;;
         mret true
     end)
    (fun _ => mret false).

(** The upsert of [buildBatchSQLWithReps]. *)
Definition batchAppSQL (data : CaseRecord) : Stmt :=
  let dateIntroduction := convertDate (dateIntroduction data) in
  let lastMajorEventDate := convertDate (lastMajorEventDate data) in
  let country := extractCountry (applicationTitle data) in
  let isClosed := isCaseClosed (lastMajorEvent data) in
  let repSubquery :=
    if hasRepresentative data
    then ERepId (Js.interp (escapeSQL (representant data)))
    else ENull in
  UpsertApp {|
    v_application_number := applicationNumber data;
    v_application_title := Js.interp (escapeSQL (Some (applicationTitle data)));
    v_country := quotedOrNull country;
    v_date_introduction := Js.interp dateIntroduction;
    v_representative_id := repSubquery;
    v_representative_name := quotedOrNull (representant data);
    v_last_major_event := quotedOrNull (lastMajorEvent data);
    v_last_major_event_date := rawOrNull lastMajorEventDate;
    v_is_closed := EInt (if isClosed then 1 else 0);
    v_last_checked_date := EToday;
    v_not_found_count := Some (EInt 0);
    v_updated_at := Some ENow |}.

(** The statements on [events] that [buildBatchSQLWithReps] writes for
    one case. *)
Definition batchEventSQL (data : CaseRecord) : list Stmt :=
  DeleteEvents (EAppId (applicationNumber data))
  :: (if (0 <? Z.of_nat (length (majorEventsList data)))
      then [InsertEvents (eventValues (EAppId (applicationNumber data)) data)]
      else []).

(** [buildBatchSQLWithReps(casesData)]: the representatives, then every
    upsert, then every statement on [events]. *)
Definition buildBatchSQLWithReps (casesData : list CaseRecord) : list Stmt :=
  let uniqueReps :=
    unique [] (List.map (fun d => Js.interp (representant d))
                        (List.filter hasRepresentative casesData)) in
  let repStatements :=
    if (0 <? Z.of_nat (length uniqueReps))
    then [InsertReps (List.map (fun name => Js.interp (escapeSQL (Some name))) uniqueReps)]
    else [] in
  let appStatements := List.map batchAppSQL casesData in
  let eventStatements := concat (List.map batchEventSQL casesData) in
  repStatements ++ appStatements ++ eventStatements.

(** The result of [saveBatch]. *)
Record BatchResult := {
  success : Z;
  failed : Z
}.

(** The loop of individual saves at the end of [saveBatch]. *)
Fixpoint saveEach (casesData : list CaseRecord) (acc : BatchResult)
  : M D1 BatchResult :=
  match casesData with
  | [] => mret acc
  | data :: rest =>
      saved ← saveApplication data;
      saveEach rest
        (if saved : bool
         then {| success := success acc + 1; failed := failed acc |}
         else {| success := success acc; failed := failed acc + 1 |})
  end.

(** [saveBatch(casesData)] *)
Definition saveBatch (casesData : list CaseRecord) : M D1 BatchResult :=
  if (length casesData =? 0)%nat then mret {| success := 0; failed := 0 |}
  else
    s ← get;
    imported ←
      (if importAPI (adapter s)
       then tryCatch
              (let batchSQL := buildBatchSQLWithReps casesData in
               uploadSQL batchSQL ;;
               mret (Some {| success := Z.of_nat (length casesData);
                             failed := 0 |}))
              (fun _ => mret None)
       else mret None);
    match imported with
    | Some result => mret result
    | None => saveEach casesData {| success := 0; failed := 0 |}
    end.

(** [markAsNotFound(applicationNumber, applicationYear)] *)
Definition markAsNotFound (applicationNumber applicationYear : string)
  : M D1 bool :=
  let fullNumber := applicationNumber +:+ "/" +:+ applicationYear in
  tryCatch
    (executeSQL [MarkNotFound fullNumber] ;; mret true)
    (fun _ => mret false).

End Adapter.

(* ===================================================================== *)
(** * [MonthlyECHRScraper] *)
(* ===================================================================== *)

(** The options object given to the constructor; a missing option is
    [None]. *)
Record Config := {
  cfg_startYear : option Z;
  cfg_maxYear : option Z;
  cfg_maxConsecutiveSkips : option Z;
  cfg_startNumber : option Z
}.

(** [x || d] for a number or [undefined]. *)
Definition orElse (x : option Z) (d : Z) : Z :=
  match x with
  | Some v => if v =? 0 then d else v
  | None => d
  end.

Record Stats := {
  found : Z;
  notFound : Z;
  errors : Z;
  totalChecked : Z
}.

(** The fields of the scraper object; [d1] is kept beside it, in [Run]. *)
Record MonthlyECHRScraper := {
  startYear : Z;
  maxYear : Z;
  maxConsecutiveSkips : Z;
  startNumber : Z;
  BATCH_ATTEMPTS : Z;
  batchQueue : list CaseRecord;
  attemptCounter : Z;
  stats : Stats
}.

(** [new MonthlyECHRScraper(config)], but for [this.d1]. *)
Definition constructor (config : Config) : MonthlyECHRScraper :=
  {| startYear := orElse (cfg_startYear config) 16;
     maxYear := orElse (cfg_maxYear config) 26;
     maxConsecutiveSkips := orElse (cfg_maxConsecutiveSkips config) 100;
     startNumber := orElse (cfg_startNumber config) 1;
     BATCH_ATTEMPTS := 250;
     batchQueue := [];
     attemptCounter := 0;
     stats := {| found := 0; notFound := 0; errors := 0; totalChecked := 0 |} |}.

(** [new D1Adapter('echr-db')]; the import API is set up when the two
    credentials are in the environment. *)
Definition newD1Adapter (credentials : bool) : D1Adapter :=
  {| repCache := ∅; cacheCounter := 0; importAPI := credentials |}.

(** What one call of [scrapeECHRApplication] gives: the record of the
    page, [null], or an exception. *)
Inductive Outcome :=
| Found (data : CaseRecord)
| NotFound
| Failed (message : string).

(** The summaries written to the console. *)
Inductive Printed :=
| Progress (s : Stats)
| Final (s : Stats).

(** The state of a run: the scraper object, its adapter with the store,
    the local variables of [run], the number of pages asked for so far,
    and the console. *)
Record Run := {
  this : MonthlyECHRScraper;
  d1 : D1;
  currentYear : Z;
  currentNumber : Z;
  consecutiveSkips : Z;
  visits : nat;
  console : list Printed
}.

(** Everything outside the process: the storage service and the site.
    [site n number year] is the outcome of the n-th call of
    [scrapeECHRApplication], made for [number]/[year]. *)
Record World := {
  remote : Remote;
  site : nat -> Z -> Z -> Outcome
}.

Definition set_this (t : MonthlyECHRScraper) (r : Run) : Run :=
  {| this := t; d1 := d1 r; currentYear := currentYear r;
     currentNumber := currentNumber r; consecutiveSkips := consecutiveSkips r;
     visits := visits r; console := console r |}.

Definition set_d1 (d : D1) (r : Run) : Run :=
  {| this := this r; d1 := d; currentYear := currentYear r;
     currentNumber := currentNumber r; consecutiveSkips := consecutiveSkips r;
     visits := visits r; console := console r |}.

Definition set_currentYear (y : Z) (r : Run) : Run :=
  {| this := this r; d1 := d1 r; currentYear := y;
     currentNumber := currentNumber r; consecutiveSkips := consecutiveSkips r;
     visits := visits r; console := console r |}.

Definition set_currentNumber (n : Z) (r : Run) : Run :=
  {| this := this r; d1 := d1 r; currentYear := currentYear r;
     currentNumber := n; consecutiveSkips := consecutiveSkips r;
     visits := visits r; console := console r |}.

Definition set_consecutiveSkips (k : Z) (r : Run) : Run :=
  {| this := this r; d1 := d1 r; currentYear := currentYear r;
     currentNumber := currentNumber r; consecutiveSkips := k;
     visits := visits r; console := console r |}.

Definition print (p : Printed) (r : Run) : Run :=
  {| this := this r; d1 := d1 r; currentYear := currentYear r;
     currentNumber := currentNumber r; consecutiveSkips := consecutiveSkips r;
     visits := visits r; console := console r ++ [p] |}.

Definition set_batchQueue (q : list CaseRecord) (t : MonthlyECHRScraper)
  : MonthlyECHRScraper :=
  {| startYear := startYear t; maxYear := maxYear t;
     maxConsecutiveSkips := maxConsecutiveSkips t; startNumber := startNumber t;
     BATCH_ATTEMPTS := BATCH_ATTEMPTS t; batchQueue := q;
     attemptCounter := attemptCounter t; stats := stats t |}.

Definition set_attemptCounter (n : Z) (t : MonthlyECHRScraper)
  : MonthlyECHRScraper :=
  {| startYear := startYear t; maxYear := maxYear t;
     maxConsecutiveSkips := maxConsecutiveSkips t; startNumber := startNumber t;
     BATCH_ATTEMPTS := BATCH_ATTEMPTS t; batchQueue := batchQueue t;
     attemptCounter := n; stats := stats t |}.

Definition set_stats (s : Stats) (t : MonthlyECHRScraper)
  : MonthlyECHRScraper :=
  {| startYear := startYear t; maxYear := maxYear t;
     maxConsecutiveSkips := maxConsecutiveSkips t; startNumber := startNumber t;
     BATCH_ATTEMPTS := BATCH_ATTEMPTS t; batchQueue := batchQueue t;
     attemptCounter := attemptCounter t; stats := s |}.

Definition incr_found (s : Stats) : Stats :=
  {| found := found s + 1; notFound := notFound s; errors := errors s;
     totalChecked := totalChecked s |}.
Definition incr_notFound (s : Stats) : Stats :=
  {| found := found s; notFound := notFound s + 1; errors := errors s;
     totalChecked := totalChecked s |}.
Definition incr_errors (s : Stats) : Stats :=
  {| found := found s; notFound := notFound s; errors := errors s + 1;
     totalChecked := totalChecked s |}.
Definition incr_totalChecked (s : Stats) : Stats :=
  {| found := found s; notFound := notFound s; errors := errors s;
     totalChecked := totalChecked s + 1 |}.

Section Scraper.

Variable world : World.

(** A method of [this.d1] called from the scraper. *)
Definition onD1 {A} (m : M D1 A) : M Run A := fun r =>
  let (res, d) := m (d1 r) in (res, set_d1 d r).

Definition update (f : MonthlyECHRScraper -> MonthlyECHRScraper) : M Run unit :=
  modify (fun r => set_this (f (this r)) r).

(** [await scrapeECHRApplication(number, year)] *)
Definition scrapeECHRApplication (number year : Z) : M Run (option CaseRecord) :=
  fun r =>
    let r' := {| this := this r; d1 := d1 r; currentYear := currentYear r;
                 currentNumber := currentNumber r;
                 consecutiveSkips := consecutiveSkips r;
                 visits := S (visits r); console := console r |} in
    match site world (visits r) number year with
    | Found data => (Val (Some data), r')
    | NotFound => (Val None, r')
    | Failed message => (Exn message, r')
    end.

(** [flushBatch()] *)
Definition flushBatch : M Run unit :=
  r ← get;
  if (length (batchQueue (this r)) =? 0)%nat then mret tt
  else
    onD1 (saveBatch (remote world) (batchQueue (this r))) ;;
    update (set_batchQueue []) ;;
    update (set_attemptCounter 0).

Definition flushIfDue : M Run unit :=
  r ← get;
  if BATCH_ATTEMPTS (this r) <=? attemptCounter (this r)
  then flushBatch else mret tt.

(** [printProgress()] and [printFinalStats()] *)
Definition printProgress : M Run unit :=
  modify (fun r => print (Progress (stats (this r))) r).
Definition printFinalStats : M Run unit :=
  modify (fun r => print (Final (stats (this r))) r).

(** The body of the inner loop of [run]: one check. *)
Definition attempt : M Run unit :=
  update (fun t => set_stats (incr_totalChecked (stats t)) t) ;;
  tryCatch
    (update (fun t => set_attemptCounter (attemptCounter t + 1) t) ;;
     r ← get;
     data ← scrapeECHRApplication (currentNumber r) (currentYear r);
     match data with
     | Some data =>
         update (fun t => set_batchQueue (batchQueue t ++ [data]) t) ;;
         update (fun t => set_stats (incr_found (stats t)) t) ;;
         modify (set_consecutiveSkips 0)
     | None =>
         modify (fun r => set_consecutiveSkips (consecutiveSkips r + 1) r) ;;
         update (fun t => set_stats (incr_notFound (stats t)) t)
     end ;;
     flushIfDue)
    (fun _ =>
       update (fun t => set_stats (incr_errors (stats t)) t) ;;
       modify (fun r => set_consecutiveSkips (consecutiveSkips r + 1) r) ;;
       update (fun t => set_attemptCounter (attemptCounter t + 1) t) ;;
       flushIfDue) ;;
  modify (fun r => set_currentNumber (currentNumber r + 1) r) ;;
  r ← get;
  if Z.rem (totalChecked (stats (this r))) 25 =? 0
  then printProgress else mret tt.

(** [while (consecutiveSkips < this.maxConsecutiveSkips) { ... }], for at
    most [fuel] rounds: [true] when the loop is left, [false] when the
    rounds are used up first. *)
Fixpoint whileSkips (fuel : nat) : M Run bool :=
  r ← get;
  if consecutiveSkips r <? maxConsecutiveSkips (this r) then
    match fuel with
    | O => mret false
    | S fuel' => attempt ;; whileSkips fuel'
    end
  else mret true.

(** [while (currentYear <= this.maxYear) { ... }], for at most [years]
    rounds of at most [fuel] checks each. *)
Fixpoint whileYears (years fuel : nat) : M Run bool :=
  r ← get;
  if currentYear r <=? maxYear (this r) then
    match years with
    | O => mret false
    | S years' =>
        modify (set_consecutiveSkips 0) ;;
        left ← whileSkips fuel;
        if left : bool then
          flushBatch ;;
          modify (fun r => set_currentYear (currentYear r + 1) r) ;;
          modify (set_currentNumber 1) ;;
          whileYears years' fuel
        else mret false
    end
  else mret true.

(** [run()]: [true] when it returns within the rounds given. *)
Definition run (years fuel : nat) : M Run bool :=
  r ← get;
  modify (set_currentYear (startYear (this r))) ;;
  modify (set_currentNumber (startNumber (this r))) ;;
  left ← whileYears years fuel;
  if left : bool then flushBatch ;; printFinalStats ;; mret true
  else mret false.

End Scraper.

(** The state in which [main] calls [run]. *)
Definition initial (config : Config) (credentials : bool) (database : Db) : Run :=
  {| this := constructor config;
     d1 := {| adapter := newD1Adapter credentials;
              store := {| db := database; calls := 0; journal := [];
                          stalled := false |} |};
     currentYear := 0;
     currentNumber := 0;
     consecutiveSkips := 0;
     visits := 0;
     console := [] |}.

(* ===================================================================== *)
(** * Sample data *)
(* ===================================================================== *)

Module Sample.

Definition noon : Clock :=
  {| today := "2025-06-01"; timestamp := "2025-06-01 12:00:00" |}.

Definition plainSchema : Schema :=
  {| default_not_found_count := 0;
     default_skip_scraping := 0;
     default_updated_at := VNull |}.

(** A digest for the samples: one hash for every text. *)
Definition digest (s : string) : string := "9e107d9d372bb6826bd81d3542a419d6".

(** A stand-in for the text of a list of statements; no sample depends
    on it. *)
Definition listing (sql : list Stmt) : string := "-- batch".

(** An import service that accepts everything, sends the hash back
    between double quotes, and has finished the import at the first
    poll. *)
Definition prompt : ImportAPI.Service :=
  {| ImportAPI.onInit := fun _ _ =>
       Val {| ImportAPI.init_success := true;
              ImportAPI.upload_url := "https://upload.example/slot";
              ImportAPI.filename := "slot.sql" |};
     ImportAPI.onUpload := fun _ _ _ =>
       Val (Some (String (ascii_of_nat 34)
                    ("9e107d9d372bb6826bd81d3542a419d6"
                     +:+ String (ascii_of_nat 34) "")));
     ImportAPI.onIngest := fun _ _ _ =>
       Val {| ImportAPI.ingest_success := true;
              ImportAPI.at_bookmark := "00000001" |};
     ImportAPI.onPoll := fun _ _ =>
       Val {| ImportAPI.poll_success := true;
              ImportAPI.poll_error := None |} |}.

(** An import service that cannot be reached: every request is rejected. *)
Definition silent : ImportAPI.Service :=
  {| ImportAPI.onInit := fun _ _ => Exn "fetch failed";
     ImportAPI.onUpload := fun _ _ _ => Exn "fetch failed";
     ImportAPI.onIngest := fun _ _ _ => Exn "fetch failed";
     ImportAPI.onPoll := fun _ _ => Exn "fetch failed" |}.

(** An import service that accepts everything and whose polls say for
    ever that the import is going on. *)
Definition endless : ImportAPI.Service :=
  {| ImportAPI.onInit := ImportAPI.onInit prompt;
     ImportAPI.onUpload := ImportAPI.onUpload prompt;
     ImportAPI.onIngest := ImportAPI.onIngest prompt;
     ImportAPI.onPoll := fun _ _ =>
       Val {| ImportAPI.poll_success := false;
              ImportAPI.poll_error := Some "Import in progress." |} |}.

(** The remote side with the calls going as [w] says and the import
    service [service]: an engine that rejects every command it does not
    read as it is written, and time for eight polls. *)
Definition remoteOf (w : nat -> Reply) (service : ImportAPI.Service) : Remote :=
  {| schema := plainSchema;
     atomic := true;
     wire := w;
     beyond := fun _ _ d => (d, None);
     keyed := fun _ _ _ H => H;
     importService := fun _ => service;
     patience := 8;
     written := listing;
     hash := digest |}.

(** A storage service every call to which goes through. *)
Definition reliable : Remote :=
  remoteOf (fun _ => {| delivered := true; answered := true; clock := noon |})
           prompt.

(** A storage service no call to which goes through. *)
Definition unreachable : Remote :=
  remoteOf (fun _ => {| delivered := false; answered := false; clock := noon |})
           silent.

(** A storage service every call to which goes through, but for the
    imports, which never end. *)
Definition waiting : Remote :=
  remoteOf (fun _ => {| delivered := true; answered := true; clock := noon |})
           endless.

Definition emptyDb : Db :=
  {| applications := ∅;
     next_application_id := 1;
     events := [];
     representatives := ∅;
     next_representative_id := 1 |}.

Definition ivanov : CaseRecord :=
  {| applicationNumber := "152/18";
     applicationTitle := "Ivanov v. Russia";
     dateIntroduction := Some "05/03/2018";
     representant := Some "A. Petrova";
     lastMajorEvent := Some "Communicated to the Government";
     lastMajorEventDate := Some "01/02/2020";
     majorEventsList :=
       [ {| ev_description := "Application lodged"; eventDate := "05/03/2018" |};
         {| ev_description := "Communicated to the Government";
            eventDate := "01/02/2020" |} ] |}.

(** The same case, fetched again once it is closed. *)
Definition ivanovLater : CaseRecord :=
  {| applicationNumber := "152/18";
     applicationTitle := "Ivanov v. Russia";
     dateIntroduction := Some "05/03/2018";
     representant := Some "A. Petrova";
     lastMajorEvent := Some "Case finished";
     lastMajorEventDate := Some "10/11/2021";
     majorEventsList :=
       [ {| ev_description := "Application lodged"; eventDate := "05/03/2018" |};
         {| ev_description := "Communicated to the Government";
            eventDate := "01/02/2020" |};
         {| ev_description := "Case finished"; eventDate := "10/11/2021" |} ] |}.

(** A page without a row in the table of major events. *)
Definition fresh : CaseRecord :=
  {| applicationNumber := "168/18";
     applicationTitle := "Smith v. the United Kingdom";
     dateIntroduction := Some "2018-01-09";
     representant := None;
     lastMajorEvent := None;
     lastMajorEventDate := None;
     majorEventsList := [] |}.

(** The page of the first case once its table of major events is empty. *)
Definition bare : CaseRecord :=
  {| applicationNumber := "152/18";
     applicationTitle := "Ivanov v. Russia";
     dateIntroduction := Some "05/03/2018";
     representant := None;
     lastMajorEvent := None;
     lastMajorEventDate := None;
     majorEventsList := [] |}.



(** The row of a case that was not found 59 times running. *)
Definition lapsed : AppRow :=
  {| id := 7;
     application_title := VText "Ivanov v. Russia";
     country := VText "Russia";
     date_introduction := VText "2018-03-05";
     representative_id := VNull;
     representative_name := VNull;
     last_major_event := VText "Communicated to the Government";
     last_major_event_date := VText "2020-02-01";
     is_closed := VInt 0;
     last_checked_date := VText "2025-05-31";
     not_found_count := 59;
     skip_scraping := 0;
     updated_at := VText "2025-05-31 12:00:00" |}.

Definition lapsedDb : Db :=
  {| applications := {[ "152/18" := lapsed ]};
     next_application_id := 8;
     events :=
       [ {| application_id := VInt 7; event_date := VText "2018-03-05";
            description := VText "Application lodged"; is_last_event := VInt 1 |} ];
     representatives := ∅;
     next_representative_id := 1 |}.

(** An adapter on a store. *)
Definition onDb (credentials : bool) (database : Db) : D1 :=
  {| adapter := newD1Adapter credentials;
     store := {| db := database; calls := 0; journal := [];
                 stalled := false |} |}.

(** Two years, three skips, starting at 37816. *)
Definition shortConfig : Config :=
  {| cfg_startYear := Some 18;
     cfg_maxYear := Some 19;
     cfg_maxConsecutiveSkips := Some 3;
     cfg_startNumber := Some 37816 |}.

(** A site whose first request finds a page and which has none after. *)
Definition onePage : World :=
  {| remote := reliable;
     site := fun n _ _ => match n with O => Found ivanov | _ => NotFound end |}.

(** A site without any page. *)
Definition noPage : World :=
  {| remote := reliable; site := fun _ _ _ => NotFound |}.

(** A site every request to which throws. *)
Definition broken : World :=
  {| remote := reliable; site := fun _ _ _ => Failed "Timeout 15000ms exceeded" |}.

(** The requests of a site whose first finds a page, whose second throws
    and which has none after. *)
Definition flaky (n : nat) (number year : Z) : Outcome :=
  match n with
  | O => Found ivanov
  | S O => Failed "net::ERR_CONNECTION_RESET"
  | _ => NotFound
  end.

(** That site with a storage service every call to which goes through. *)
Definition stored : World := {| remote := reliable; site := flaky |}.

(** That site with a storage service that cannot be reached. *)
Definition cutOff : World := {| remote := unreachable; site := flaky |}.

(** That site with a storage service whose imports never end. *)
Definition held : World := {| remote := waiting; site := flaky |}.

End Sample.

(* ===================================================================== *)
(** * Predicates of the statements *)
(* ===================================================================== *)

(** No code unit of [f] is a slash. *)
Definition slashFree (f : string) : bool :=
  Js.all (fun c => negb (bool_decide (c = "/"%char))) f.

(** Some code unit of [title] starts [v.] followed by white space. *)
Fixpoint hasSeparator (title : string) : bool :=
  match title with
  | "" => false
  | String c rest =>
      match title with
      | String "v" (String "." (String w _)) => Js.isWhiteSpace w
      | _ => false
      end || hasSeparator rest
  end.

(** [day/month/year] followed by [more], which is empty or starts a
    further field. *)
Definition slashed (day month year more : string) : string :=
  day +:+ "/" +:+ month +:+ "/" +:+ year +:+ more.

(** The three fields are not empty and hold no slash. *)
Definition threeFields (day month year more : string) : Prop :=
  slashFree day = true /\ slashFree month = true /\ slashFree year = true
  /\ day <> "" /\ month <> "" /\ year <> ""
  /\ (more = "" \/ exists t, more = String "/" t).

(** The specification's wording of the two normalisers, to compare the
    code with. *)
Module Spec.

(** A day/month/year string: three fields of digits between slashes. *)
Definition slashDate (s : string) : bool :=
  match Js.split "/" s with
  | [day; month; year] =>
      Js.nonEmpty day && Js.all Js.isDigit day
      && Js.nonEmpty month && Js.all Js.isDigit month
      && Js.nonEmpty year && Js.all Js.isDigit year
  | _ => false
  end.

Fixpoint drop (n : nat) (s : string) : string :=
  match n, s with
  | S n', String _ s' => drop n' s'
  | _, _ => s
  end.

(** What follows the last occurrence of [sep] in [s]. *)
Fixpoint afterLast (sep s : string) : option string :=
  match s with
  | "" => None
  | String _ s' =>
      match afterLast sep s' with
      | Some t => Some t
      | None =>
          if Js.startsWith sep s then Some (drop (String.length sep) s)
          else None
      end
  end.

(** "extracts the trailing token after the last occurrence of the
    case-style separator; returns null if the pattern is absent" *)
Definition deriveJurisdiction (title : string) : option string :=
  afterLast "v. " title.

End Spec.

(* ===================================================================== *)
(** * Predicates on the database *)
(* ===================================================================== *)

(** What the column holds for a text written as [`'${escapeSQL(x)}'`]:
    the text itself, or the word null for an empty one. *)
Definition shown (x : string) : string :=
  if Js.nonEmpty x then x else "null".

(** What the column holds for [${x ? `'${escapeSQL(x)}'` : 'NULL'}]. *)
Definition stored (x : option string) : Value :=
  if Js.truthy x then VText (Js.interp x) else VNull.

(** What the column holds for [${x ? `'${x}'` : 'NULL'}], where the text
    goes unescaped between the quotes. *)
Definition storedRaw (x : option string) : option Value :=
  if Js.truthy x then VText <$> Sql.text (Js.interp x) else Some VNull.

(** The events of the application with id [i], in insertion order. *)
Definition eventsOf (i : Z) (d : Db) : list EventRow :=
  List.filter (Engine.refers (VInt i)) (events d).

(** The tables other than [representatives]. *)
Definition apart (d : Db) : gmap string AppRow * Z * list EventRow :=
  (applications d, next_application_id d, events d).


(** The rows [persisted] are the fetched sequence of [data] for the
    application with id [i]: as many, in the same order, each with its
    description and its converted date, and the last-event flag on the
    last one only. *)
Definition reflects (i : Z) (data : CaseRecord) (persisted : list EventRow)
  : Prop :=
  length persisted = length (majorEventsList data)
  /\ forall (n : nat) event,
       majorEventsList data !! n = Some event ->
       exists p,
         persisted !! n = Some p
         /\ application_id p = VInt i
         /\ description p = VText (shown (ev_description event))
         /\ Some (event_date p)
            = VText <$> Sql.text (Js.interp (convertDate (Some (eventDate event))))
         /\ is_last_event p
            = VInt (if Z.of_nat n =? Z.of_nat (length (majorEventsList data)) - 1
                    then 1 else 0).

(** The persisted events of the case [number] are the fetched sequence of
    [data]. *)
Definition mirrors (number : string) (data : CaseRecord) (d : Db) : Prop :=
  exists row,
    applications d !! number = Some row
    /\ reflects (id row) data (eventsOf (id row) d).

(** The row holds what [data] gives for every column the upsert
    overwrites from the record. *)
Definition refreshed (data : CaseRecord) (row : AppRow) : Prop :=
  application_title row = VText (shown (applicationTitle data))
  /\ country row = stored (extractCountry (applicationTitle data))
  /\ Some (date_introduction row)
     = VText <$> Sql.text (Js.interp (convertDate (dateIntroduction data)))
  /\ representative_name row = stored (representant data)
  /\ last_major_event row = stored (lastMajorEvent data)
  /\ Some (last_major_event_date row)
     = storedRaw (convertDate (lastMajorEventDate data))
  /\ is_closed row = VInt (if isCaseClosed (lastMajorEvent data) then 1 else 0)
  /\ (hasRepresentative data = false -> representative_id row = VNull).

(** While the skip flag is not set the not-found counter is below the
    threshold. *)
Definition belowThreshold (row : AppRow) : Prop :=
  skip_scraping row = 0 -> not_found_count row < 60.

(** [row'] is [row] after statements other than the not-found update: the
    id and the skip flag are the same, the not-found counter is the same
    or 0. *)
Definition kept (row row' : AppRow) : Prop :=
  id row' = id row
  /\ skip_scraping row' = skip_scraping row
  /\ (not_found_count row' = not_found_count row \/ not_found_count row' = 0).

(** The operations on a persisted case. *)
Inductive Operation :=
| Mark (applicationNumber applicationYear : string)
| Save (data : CaseRecord)
| SaveBatch (casesData : list CaseRecord).

(** The adapter and the store after an operation. *)
Definition perform (rem : Remote) (op : Operation) (s : D1) : D1 :=
  match op with
  | Mark n y => (markAsNotFound rem n y s).2
  | Save data => (saveApplication rem data s).2
  | SaveBatch casesData => (saveBatch rem casesData s).2
  end.

(** No code unit of the text is a quote. *)
Definition quoteFree (text : string) : bool :=
  Js.all (fun c => negb (bool_decide (c = "'"%char))) text.

(** The texts of the record that the statements hold between quotes as
    they are, without [escapeSQL], hold no quote: the number and the
    dates. *)
Definition sqlSafe (data : CaseRecord) : bool :=
  quoteFree (applicationNumber data)
  && from_option quoteFree true (dateIntroduction data)
  && from_option quoteFree true (lastMajorEventDate data)
  && forallb (fun event => quoteFree (eventDate event)) (majorEventsList data).

(** No text of the record holds a code unit that sh does not pass on as
    it is. *)
Definition shellSafe (data : CaseRecord) : bool :=
  Shell.plain (applicationNumber data)
  && Shell.plain (applicationTitle data)
  && from_option Shell.plain true (dateIntroduction data)
  && from_option Shell.plain true (representant data)
  && from_option Shell.plain true (lastMajorEvent data)
  && from_option Shell.plain true (lastMajorEventDate data)
  && forallb (fun event => Shell.plain (ev_description event)
                           && Shell.plain (eventDate event))
             (majorEventsList data).

(** The engine reads every command of a save of the record as it is
    written. *)
Definition safe (data : CaseRecord) : bool := sqlSafe data && shellSafe data.

(** The same of the number that a not-found mark names. *)
Definition safeNumber (fullNumber : string) : bool :=
  quoteFree fullNumber && Shell.plain fullNumber.

Definition safeOp (op : Operation) : bool :=
  match op with
  | Mark n y => safeNumber (n +:+ "/" +:+ y)
  | Save data => safe data
  | SaveBatch casesData => forallb safe casesData
  end.

(** Every command that a save of the record may send is one of [R]. *)
Definition covers (R : Command -> Prop) (data : CaseRecord) : Prop :=
  (hasRepresentative data = true ->
   R (Execute [SelectRepId (Js.doubleQuotes (Js.interp (representant data)))])
   /\ R (Execute [InsertReps [Js.doubleQuotes (Js.interp (representant data))]]))
  /\ (forall representativeId, R (Execute [appSQL data representativeId]))
  /\ R (Execute [SelectAppId (applicationNumber data)])
  /\ (forall i, R (Execute [DeleteEvents (EInt i);
                            InsertEvents (eventValues (EInt i) data)])).

(** The same of a batch: its import, and the saves of its records. *)
Definition coversBatch (R : Command -> Prop) (casesData : list CaseRecord)
  : Prop :=
  R (Import (buildBatchSQLWithReps casesData)) /\ Forall (covers R) casesData.

(** The statement has the shape the engine asks for: a VALUES list is
    not empty, and the counter of a new row is a number. *)
Definition shaped (s : Stmt) : bool :=
  match s with
  | InsertReps [] => false
  | InsertEvents [] => false
  | UpsertApp v =>
      match v_not_found_count v with
      | Some (EInt _) | None => true
      | Some _ => false
      end
  | _ => true
  end.

(** The statements of an import get to the engine at the call made from
    [st], and the engine runs every one of them. *)
Definition carriedOut (rem : Remote) (sql : list Stmt) (st : Store) : Prop :=
  delivered (wire rem (calls st)) = true
  /\ (Engine.run (schema rem) (clock (wire rem (calls st))) (db st) sql).2
     <> None.

(** The wait for an import ends within the polls the process is left
    the time for, whatever import it is. *)
Definition settles (rem : Remote) : Prop :=
  forall n bookmark sent,
    (ImportAPI.pollImport (importService rem n) (patience rem) bookmark sent).1
    <> Val false.

(** The case [number] is persisted in [after] as [data] gives it: its row
    is refreshed, its events are the fetched ones, and if the case was
    there [before], it has the same id and skip flag and its not-found
    counter is 0. *)
Definition persistedAs (number : string) (data : CaseRecord) (before after : Db)
  : Prop :=
  exists row,
    applications after !! number = Some row
    /\ refreshed data row
    /\ reflects (id row) data (eventsOf (id row) after)
    /\ forall old, applications before !! number = Some old ->
                   id row = id old
                   /\ skip_scraping row = skip_scraping old
                   /\ not_found_count row = 0.

(** The last record of the batch for the case [number]. *)
Fixpoint lastFor (number : string) (casesData : list CaseRecord)
  : option CaseRecord :=
  match casesData with
  | [] => None
  | data :: rest =>
      match lastFor number rest with
      | Some later => Some later
      | None =>
          if bool_decide (Sql.text (applicationNumber data) = Some number)
          then Some data else None
      end
  end.

(* ===================================================================== *)
(** * Predicates on computations *)
(* ===================================================================== *)

(** [m] never throws. *)
Definition returns {S A} (m : M S A) : Prop :=
  forall s, exists a s', m s = (Val a, s').

(** [m] keeps [P], whether it returns or throws. *)
Definition keeps {S A} (P : S -> Prop) (m : M S A) : Prop :=
  forall s, P s -> P (m s).2.

(** The commands that [saveApplication] and [saveBatch] send. *)
Inductive Sent : Command -> Prop :=
| sent_select_rep body : Sent (Execute [SelectRepId body])
| sent_insert_rep body : Sent (Execute [InsertReps [body]])
| sent_upsert data representativeId :
    Sent (Execute [appSQL data representativeId])
| sent_select_app body : Sent (Execute [SelectAppId body])
| sent_events i data :
    Sent (Execute [DeleteEvents (EInt i);
                   InsertEvents (eventValues (EInt i) data)])
| sent_import casesData : Sent (Import (buildBatchSQLWithReps casesData)).


Definition isMark (s : Stmt) : bool :=
  match s with MarkNotFound _ => true | _ => false end.

(** The settings of the scraper, which no method assigns. *)
Definition sameSettings (t t' : MonthlyECHRScraper) : Prop :=
  startYear t' = startYear t /\ maxYear t' = maxYear t
  /\ maxConsecutiveSkips t' = maxConsecutiveSkips t
  /\ startNumber t' = startNumber t /\ BATCH_ATTEMPTS t' = BATCH_ATTEMPTS t.

(** [r'] differs from [r] in the queue, the attempt counter and the
    adapter's side at most. *)
Definition sameFrame (r r' : Run) : Prop :=
  sameSettings (this r) (this r')
  /\ stats (this r') = stats (this r)
  /\ currentYear r' = currentYear r /\ currentNumber r' = currentNumber r
  /\ consecutiveSkips r' = consecutiveSkips r
  /\ visits r' = visits r /\ console r' = console r.

(** The course of a run: its state but for the adapter and the store. *)
Definition course (r : Run)
  : MonthlyECHRScraper * Z * Z * Z * nat * list Printed :=
  (this r, currentYear r, currentNumber r, consecutiveSkips r, visits r,
   console r).

(** From states on the same course, [m] and [m'] end alike, returning or
    throwing, with the same value, on the same course. *)
Definition alike {A} (m m' : M Run A) : Prop :=
  forall r r',
    course r = course r' ->
    (m r).1 = (m' r').1 /\ course (m r).2 = course (m' r').2.

(** The three counters of outcomes add up to the number of checks. *)
Definition balanced (s : Stats) : Prop :=
  found s + notFound s + errors s = totalChecked s.

Definition printed (p : Printed) : Stats :=
  match p with Progress s => s | Final s => s end.

(** The statistics and every summary printed so far add up. *)
Definition tallied (r : Run) : Prop :=
  balanced (stats (this r))
  /\ Forall (fun p => balanced (printed p)) (console r).

(** Rounds that suffice for the inner loop to be left, when the site is
    quiet from the [n]-th request on. *)
Definition roundsLeft (n : nat) (r : Run) : nat :=
  if (visits r <? n)%nat
  then (n - visits r + Z.to_nat (maxConsecutiveSkips (this r)))%nat
  else Z.to_nat (maxConsecutiveSkips (this r) - consecutiveSkips r).

(** Every record the site gives is one whose commands the engine reads
    as they are written. *)
Definition tame (world : World) : Prop :=
  forall n number year data,
    site world n number year = Found data -> safe data = true.

(** From the [n]-th request on the site has no further page. *)
Definition quietFrom (world : World) (n : nat) : Prop :=
  forall i number year data, (n <= i)%nat -> site world i number year <> Found data.

(** No statement of the command is the UPDATE of [markAsNotFound]. *)
Definition markFree (c : Command) : bool :=
  forallb (fun s => negb (isMark s)) (statements c).

(* ===================================================================== *)
(** * [buildBatchSQL]: the batch builder that reads the cache *)
(* ===================================================================== *)

(** [buildBatchSQL(casesData)] of [D1Adapter]: for every case the upsert
    of [saveApplication], with the id of the representative when the
    cache holds one, the delete of the events of the case and the insert
    of the fetched ones.  Nothing in the loop body throws for a record of
    the scraper, so its [catch] is never entered. *)
Definition buildBatchSQL (a : D1Adapter) (casesData : list CaseRecord)
  : list Stmt :=
  concat
    (List.map
       (fun data =>
          let representativeId :=
            if hasRepresentative data
            then repCache a !! Js.interp (representant data)
            else None in
          [appSQL data representativeId;
           DeleteEvents (EAppId (applicationNumber data));
           InsertEvents (eventValues (EAppId (applicationNumber data)) data)])
       casesData).

(* ===================================================================== *)
(** * [scrapeECHRApplication]: from the page to the record *)
(* ===================================================================== *)

(** A row of [#MajorEventsList tbody tr]: the [textContent] of its first
    and of its second cell, when it has them. *)
Record TableRow := {
  firstCell : option string;
  secondCell : option string
}.

(** The page as far as the selectors of the scraper go: whether
    [#ResultPanel] is there, the [textContent] of the first element each
    selector matches, if any, and the rows of the table of events. *)
Record Page := {
  resultPanel : bool;
  numberText : option string;        (* #ApplicationNumber p *)
  titleText : option string;         (* #ApplicationTitle p *)
  introductionText : option string;  (* #DateIntroduction p *)
  representantText : option string;  (* #Representant p *)
  eventRows : list TableRow
}.

(** [getText(selector)], and [?.textContent.trim()] on a cell. *)
Definition getText (element : option string) : option string :=
  Js.trim <$> element.

(** The body of [rows.forEach]: the event of a row, when the description
    and the date are both there and not empty. *)
Definition eventOfRow (row : TableRow) : option MajorEvent :=
  match getText (firstCell row), getText (secondCell row) with
  | Some description, Some eventDate =>
      if Js.nonEmpty description && Js.nonEmpty eventDate
      then Some {| ev_description := description; eventDate := eventDate |}
      else None
  | _, _ => None
  end.

(** The object that [page.evaluate] returns. *)
Record PageData := {
  pd_applicationNumber : option string;
  pd_applicationTitle : option string;
  pd_dateIntroduction : option string;
  pd_representant : option string;
  pd_lastMajorEvent : option string;
  pd_lastMajorEventDate : option string;
  pd_majorEventsList : list MajorEvent
}.

(** The callback of [page.evaluate]. *)
Definition evaluate (page : Page) : PageData :=
  let majorEventsList := omap eventOfRow (eventRows page) in
  let lastEvent := last majorEventsList in
  {| pd_applicationNumber := getText (numberText page);
     pd_applicationTitle := getText (titleText page);
     pd_dateIntroduction := getText (introductionText page);
     pd_representant := getText (representantText page);
     pd_lastMajorEvent := ev_description <$> lastEvent;
     pd_lastMajorEventDate := eventDate <$> lastEvent;
     pd_majorEventsList := majorEventsList |}.

(** "Validate essential data": the record, unless the number or the
    title is missing or empty. *)
Definition validated (data : PageData) : option CaseRecord :=
  match pd_applicationNumber data, pd_applicationTitle data with
  | Some number, Some title =>
      if negb (Js.nonEmpty number) || negb (Js.nonEmpty title) then None
      else Some {| applicationNumber := number;
                   applicationTitle := title;
                   dateIntroduction := pd_dateIntroduction data;
                   representant := pd_representant data;
                   lastMajorEvent := pd_lastMajorEvent data;
                   lastMajorEventDate := pd_lastMajorEventDate data;
                   majorEventsList := pd_majorEventsList data |}
  | _, _ => None
  end.

(** How a visit goes: [chromium.launch] rejects; or the browser starts,
    the steps inside the [try] give the page or reject, and
    [browser.close()] of the [finally] returns or rejects. *)
Inductive Visit :=
| NoBrowser (message : string)
| Browser (loaded : Res Page) (closeError : option string).

(** [scrapeECHRApplication(applicationNumber, applicationYear)], given how
    the visit of its URL goes. *)
Definition scrape (visit : Visit) : Outcome :=
  match visit with
  | NoBrowser message => Failed message
  | Browser loaded closeError =>
      let result :=
        match loaded with
        | Exn _ => None
        | Val page =>
            if negb (resultPanel page) then None
            else validated (evaluate page)
        end in
      match closeError with
      | Some message => Failed message
      | None =>
          match result with
          | Some data => Found data
          | None => NotFound
          end
      end
  end.

(* ===================================================================== *)
(** * [WeeklyECHRScraper] *)
(* ===================================================================== *)

Module Weekly.

(** A row of the answer to the query of [getSubscribedCases]. *)
Record CaseInfo := {
  case_id : Z;
  application_number : string;
  current_event : option string
}.

Record Stats := {
  total : Z;
  updated : Z;
  unchanged : Z;
  notFound : Z;
  errors : Z
}.

(** The scraper object with its adapter and the store, the number of
    pages asked for so far, and the summaries printed. *)
Record Scraper := {
  d1 : D1;
  stats : Stats;
  visits : nat;
  console : list Stats
}.

(** Everything outside the process.  The table [subscriptions] is
    written elsewhere: what the parsing of the output of the query of
    [getSubscribedCases] gives, the rows or the error thrown (no array
    in the output, or [JSON.parse] failing), is the world's.  [site n
    number year] is the outcome of the n-th call of
    [scrapeECHRApplication], made for [number] and [year]. *)
Record World := {
  remote : Remote;
  subscribed : Res (list CaseInfo);
  site : nat -> string -> string -> Outcome
}.

(** [new WeeklyECHRScraper(databaseName)] on a database. *)
Definition constructor (credentials : bool) (database : Db) : Scraper :=
  {| d1 := {| adapter := newD1Adapter credentials;
              store := {| db := database; calls := 0; journal := [];
                          stalled := false |} |};
     stats := {| total := 0; updated := 0; unchanged := 0; notFound := 0;
                 errors := 0 |};
     visits := 0;
     console := [] |}.

Definition set_d1 (d : D1) (w : Scraper) : Scraper :=
  {| d1 := d; stats := stats w; visits := visits w; console := console w |}.

Definition set_stats (s : Stats) (w : Scraper) : Scraper :=
  {| d1 := d1 w; stats := s; visits := visits w; console := console w |}.

Definition set_total (n : Z) (s : Stats) : Stats :=
  {| total := n; updated := updated s; unchanged := unchanged s;
     notFound := notFound s; errors := errors s |}.
Definition incr_updated (s : Stats) : Stats :=
  {| total := total s; updated := updated s + 1; unchanged := unchanged s;
     notFound := notFound s; errors := errors s |}.
Definition incr_unchanged (s : Stats) : Stats :=
  {| total := total s; updated := updated s; unchanged := unchanged s + 1;
     notFound := notFound s; errors := errors s |}.
Definition incr_notFound (s : Stats) : Stats :=
  {| total := total s; updated := updated s; unchanged := unchanged s;
     notFound := notFound s + 1; errors := errors s |}.
Definition incr_errors (s : Stats) : Stats :=
  {| total := total s; updated := updated s; unchanged := unchanged s;
     notFound := notFound s; errors := errors s + 1 |}.

(** A template literal prints [undefined] as the nine letters. *)
Definition template (o : option string) : string :=
  match o with Some s => s | None => "undefined" end.

Section Scraper.

Variable world : World.

(** A method of [this.d1] called from the scraper. *)
Definition onD1 {A} (m : M D1 A) : M Scraper A := fun w =>
  let (res, d) := m (d1 w) in (res, set_d1 d w).

Definition count (f : Stats -> Stats) : M Scraper unit :=
  modify (fun w => set_stats (f (stats w)) w).

(** [getSubscribedCases()]: the query goes through [executeSQL], and
    its output is parsed; every error is thrown again. *)
Definition getSubscribedCases : M Scraper (list CaseInfo) :=
  tryCatch
    (result ← onD1 (executeSQL (remote world) [SelectSubscribed]);
     (* result.match, JSON.parse and data[0]?.results *)
     ((fun w => (subscribed world, w)) : M Scraper (list CaseInfo)))
    (fun message => throw message).

(** [await scrapeECHRApplication(number, year)] *)
Definition scrapeECHRApplication (number year : string)
  : M Scraper (option CaseRecord) :=
  fun w =>
    let w' := {| d1 := d1 w; stats := stats w; visits := S (visits w);
                 console := console w |} in
    match site world (visits w) number year with
    | Found data => (Val (Some data), w')
    | NotFound => (Val None, w')
    | Failed message => (Exn message, w')
    end.

(** The body of the loop of [run]: one subscribed case. *)
Definition check (caseInfo : CaseInfo) : M Scraper unit :=
  tryCatch
    ((* const [number, year] = caseInfo.application_number.split('/') *)
     let pieces := Js.split "/" (application_number caseInfo) in
     let number := template (pieces !! 0%nat) in
     let year := template (pieces !! 1%nat) in
     data ← scrapeECHRApplication number year;
     match data with
     | Some data =>
         let newEvent := lastMajorEvent data in
         let hasChanged :=
           negb (bool_decide (newEvent = current_event caseInfo)) in
         (if hasChanged then count incr_updated else count incr_unchanged) ;;
         onD1 (saveApplication (remote world) data) ;;
         mret tt
     | None =>
         count incr_notFound ;;
         onD1 (markAsNotFound (remote world) number year) ;;
         mret tt
     end)
    (fun _ => count incr_errors).

(** [for (let i = 0; i < subscribedCases.length; i++) { ... }] *)
Fixpoint checkAll (subscribedCases : list CaseInfo) : M Scraper unit :=
  match subscribedCases with
  | [] => mret tt
  | caseInfo :: rest => check caseInfo ;; checkAll rest
  end.

(** [printStats()] *)
Definition printStats : M Scraper unit :=
  modify (fun w => {| d1 := d1 w; stats := stats w; visits := visits w;
                      console := console w ++ [stats w] |}).

(** [run()] *)
Definition run : M Scraper unit :=
  subscribedCases ← getSubscribedCases;
  count (set_total (Z.of_nat (length subscribedCases))) ;;
  if (length subscribedCases =? 0)%nat then mret tt
  else checkAll subscribedCases ;; printStats.

End Scraper.

End Weekly.


(* ===================================================================== *)
(** * Further predicates *)
(* ===================================================================== *)

(** Every id in the cache of the adapter is the id the table
    [representatives] has for the name. *)
Definition coherent (s : D1) : Prop :=
  forall name i,
    repCache (adapter s) !! name = Some i ->
    representatives (db (store s)) !! name = Some i.

(** Every representative of [before] is in [after], with its id. *)
Definition extends (before after : Db) : Prop :=
  forall name i,
    representatives before !! name = Some i ->
    representatives after !! name = Some i.


(** What the subquery of the batch upsert finds in [d] for the
    representative of [data]. *)
Definition linked (d : Db) (data : CaseRecord) : Value :=
  if hasRepresentative data
  then match representatives d !! Js.interp (representant data) with
       | Some i => VInt i
       | None => VNull
       end
  else VNull.

(* ===================================================================== *)
(** * Further sample data *)
(* ===================================================================== *)

Module Cases.

(** A page whose dates are not dates. *)
Definition undated : CaseRecord :=
  {| applicationNumber := "77/19";
     applicationTitle := "Doe v. Norway";
     dateIntroduction := Some "unknown";
     representant := None;
     lastMajorEvent := Some "Application lodged";
     lastMajorEventDate := Some "n.d.";
     majorEventsList :=
       [ {| ev_description := "Application lodged"; eventDate := "n.d." |} ] |}.

(** A page with white space around its texts, a representative of
    white space only, and a row of the table without a date. *)
Definition ivanovPage : Page :=
  {| resultPanel := true;
     numberText := Some " 152/18 ";
     titleText := Some "Ivanov v. Russia";
     introductionText := Some "05/03/2018";
     representantText := Some "  ";
     eventRows :=
       [ {| firstCell := Some "Application lodged";
            secondCell := Some " 05/03/2018" |};
         {| firstCell := Some "Hearing"; secondCell := None |};
         {| firstCell := Some "Communicated to the Government ";
            secondCell := Some "01/02/2020" |} ] |}.

(** The record of that page. *)
Definition ivanovScraped : CaseRecord :=
  {| applicationNumber := "152/18";
     applicationTitle := "Ivanov v. Russia";
     dateIntroduction := Some "05/03/2018";
     representant := Some "";
     lastMajorEvent := Some "Communicated to the Government";
     lastMajorEventDate := Some "01/02/2020";
     majorEventsList :=
       [ {| ev_description := "Application lodged"; eventDate := "05/03/2018" |};
         {| ev_description := "Communicated to the Government";
            eventDate := "01/02/2020" |} ] |}.

(** One subscribed case, which the site has no page for any more. *)
Definition gone : Weekly.World :=
  {| Weekly.remote := Sample.reliable;
     Weekly.subscribed :=
       Val [ {| Weekly.case_id := 7;
                Weekly.application_number := "152/18";
                Weekly.current_event := Some "Application lodged" |} ];
     Weekly.site := fun _ _ _ => NotFound |}.

(** The digest of the samples. *)
Definition digest (s : string) : string := Sample.digest s.

(** A service that accepts everything, sends the hash back between
    double quotes, and has finished the import at the third poll. *)
Definition obliging : ImportAPI.Service :=
  {| ImportAPI.onInit := fun _ _ =>
       Val {| ImportAPI.init_success := true;
              ImportAPI.upload_url := "https://upload.example/slot";
              ImportAPI.filename := "slot.sql" |};
     ImportAPI.onUpload := fun _ _ _ =>
       Val (Some (String (ascii_of_nat 34)
                    ("9e107d9d372bb6826bd81d3542a419d6"
                     +:+ String (ascii_of_nat 34) "")));
     ImportAPI.onIngest := fun _ _ _ =>
       Val {| ImportAPI.ingest_success := true;
              ImportAPI.at_bookmark := "00000001" |};
     ImportAPI.onPoll := fun n _ =>
       Val (if (n <? 5)%nat
            then {| ImportAPI.poll_success := false;
                    ImportAPI.poll_error := Some "Import in progress." |}
            else {| ImportAPI.poll_success := false;
                    ImportAPI.poll_error :=
                      Some "Not currently importing anything." |}) |}.

(** A site no page of which loads. *)
Definition flaky : World :=
  {| remote := Sample.reliable;
     site := fun _ _ _ =>
               scrape (Browser (Exn "Timeout 15000ms exceeded") None) |}.

End Cases.

(** No more records wait in the queue than attempts were counted, and
    records wait only while the counter is below the threshold. *)
Definition queued (r : Run) : Prop :=
  Z.of_nat (length (batchQueue (this r))) <= attemptCounter (this r)
  /\ (batchQueue (this r) <> [] ->
      attemptCounter (this r) < BATCH_ATTEMPTS (this r)).

(** The lines printed are progress summaries, one for every 25 checks,
    the one at index [i] printed at the check 25 * (i + 1). *)
Definition paced (lines : list Printed) (checked : Z) : Prop :=
  0 <= checked
  /\ Z.of_nat (length lines) = checked / 25
  /\ forall (i : nat) p,
       lines !! i = Some p ->
       exists s, p = Progress s /\ totalChecked s = 25 * (Z.of_nat i + 1).

(** The texts of an event are trimmed and not empty. *)
Definition wellFormed (event : MajorEvent) : Prop :=
  Js.nonEmpty (ev_description event) = true
  /\ Js.nonEmpty (eventDate event) = true
  /\ Js.trim (ev_description event) = ev_description event
  /\ Js.trim (eventDate event) = eventDate event.

(** The cases counted as updated, unchanged, not found or failed. *)
Definition settled (s : Weekly.Stats) : Z :=
  Weekly.updated s + Weekly.unchanged s + Weekly.notFound s + Weekly.errors s.

(** The counter of the cache after one more save. *)
Definition nextCounter (counter : Z) : Z :=
  if CACHE_FLUSH_INTERVAL <=? counter + 1 then 0 else counter + 1.

(* ===================================================================== *)
(** * Properties *)
(* ===================================================================== *)

(** ** Strings *)

Example convertDate_slash : convertDate (Some "05/03/2020") = Some "2020-03-05".
Proof. reflexivity. Qed.
Example convertDate_iso : convertDate (Some "2020-03-05") = Some "2020-03-05".
Proof. reflexivity. Qed.
Example convertDate_text : convertDate (Some "not-a-date") = None.
Proof. reflexivity. Qed.
Example extractCountry_ivanov : extractCountry "Ivanov v. Russia" = Some "Russia".
Proof. reflexivity. Qed.
Example extractCountry_two : extractCountry "A v. B v. C" = Some "B v. C".
Proof. reflexivity. Qed.
Example extractCountry_blank : extractCountry "A v.  " = Some "".
Proof. reflexivity. Qed.

Lemma app_cons (c : ascii) (s t : string) : String c s +:+ t = String c (s +:+ t).
Proof. reflexivity. Qed.

Lemma app_empty_l (t : string) : "" +:+ t = t.
Proof. reflexivity. Qed.

Lemma all_app p (s t : string) : Js.all p (s +:+ t) = Js.all p s && Js.all p t.
Proof.
  induction s as [|c s IH]; [reflexivity|].
  rewrite app_cons. simpl. rewrite IH. apply andb_assoc.
Qed.

Lemma nonEmpty_true (s : string) : Js.nonEmpty s = true <-> s <> "".
Proof. destruct s; simpl; split; congruence. Qed.

Lemma nonEmpty_app_l (s t : string) : Js.nonEmpty s = true -> Js.nonEmpty (s +:+ t) = true.
Proof. destruct s; [discriminate | reflexivity]. Qed.

Lemma split_field (sep : ascii) (f rest : string) :
  Js.all (fun c => negb (bool_decide (c = sep))) f = true ->
  Js.split sep (f +:+ String sep rest) = f :: Js.split sep rest.
Proof.
  induction f as [|c f IH]; intros H.
  - rewrite app_empty_l. simpl. destruct (ascii_dec sep sep); congruence.
  - simpl in H. apply andb_true_iff in H as [Hc Hf].
    rewrite app_cons. simpl.
    destruct (ascii_dec c sep) as [->|Hne].
    + rewrite bool_decide_eq_true_2 in Hc by done. discriminate.
    + rewrite (IH Hf). done.
Qed.

Lemma split_last (sep : ascii) (f : string) :
  Js.all (fun c => negb (bool_decide (c = sep))) f = true ->
  Js.split sep f = [f].
Proof.
  induction f as [|c f IH]; intros H; [reflexivity|].
  simpl in H. apply andb_true_iff in H as [Hc Hf]. simpl.
  destruct (ascii_dec c sep) as [->|Hne].
  - rewrite bool_decide_eq_true_2 in Hc by done. discriminate.
  - rewrite (IH Hf). done.
Qed.

Lemma split_pieces_free (sep : ascii) (s : string) :
  Forall (fun f => Js.all (fun c => negb (bool_decide (c = sep))) f = true)
         (Js.split sep s).
Proof.
  induction s as [|c s IH]; simpl.
  - repeat constructor.
  - destruct (ascii_dec c sep) as [->|Hne].
    + constructor; [reflexivity | exact IH].
    + destruct (Js.split sep s) as [|piece rest]; [repeat constructor|].
      * simpl. rewrite bool_decide_eq_false_2 by done. reflexivity.
      * inversion IH; subst. constructor; [|assumption].
        simpl. rewrite bool_decide_eq_false_2 by done. simpl. assumption.
Qed.

Lemma split_nonnil (sep : ascii) (s : string) : Js.split sep s <> [].
Proof.
  destruct s as [|c s]; simpl; [discriminate|].
  destruct (ascii_dec c sep); [discriminate|].
  destruct (Js.split sep s); discriminate.
Qed.

Lemma join_split (sep : ascii) (s : string) :
  Js.join (String sep "") (Js.split sep s) = s.
Proof.
  induction s as [|c s IH]; [reflexivity|].
  simpl. destruct (ascii_dec c sep) as [->|Hne].
  - pose proof (split_nonnil sep s) as Hn.
    destruct (Js.split sep s) as [|p rest] eqn:E; [done|].
    change (Js.join (String sep "") ("" :: p :: rest))
      with ("" +:+ String sep "" +:+ Js.join (String sep "") (p :: rest)).
    rewrite IH. reflexivity.
  - pose proof (split_nonnil sep s) as Hn.
    destruct (Js.split sep s) as [|p rest] eqn:E; [done|].
    destruct rest as [|q rest].
    + simpl in *. congruence.
    + change (Js.join (String sep "") (String c p :: q :: rest))
        with (String c (p +:+ String sep "" +:+ Js.join (String sep "") (q :: rest))).
      change (Js.join (String sep "") (p :: q :: rest))
        with (p +:+ String sep "" +:+ Js.join (String sep "") (q :: rest)) in IH.
      rewrite IH. reflexivity.
Qed.

Lemma isDigit_slash (c : ascii) : Js.isDigit c = true -> c <> "/"%char.
Proof. intros H ->. discriminate. Qed.

Lemma iso_slashFree (s : string) : matchesIsoDate s = true -> slashFree s = true.
Proof.
  unfold matchesIsoDate, slashFree.
  do 11 (destruct s as [|? s]; try discriminate).
  intros H.
  repeat match type of H with
         | (_ && _) = true => apply andb_prop in H; destruct H as [H ?]
         end.
  repeat match goal with
         | H : bool_decide _ = true |- _ => apply bool_decide_eq_true_1 in H; subst
         | H : Js.isDigit _ = true |- _ => apply isDigit_slash in H
         end.
  cbn [Js.all]. rewrite !bool_decide_eq_false_2 by done. reflexivity.
Qed.

Lemma slash_not_iso (a b : string) : matchesIsoDate (a +:+ String "/" b) = false.
Proof.
  destruct (matchesIsoDate _) eqn:E; [|reflexivity].
  apply iso_slashFree in E. unfold slashFree in E.
  rewrite all_app in E. apply andb_true_iff in E as [_ E]. simpl in E. discriminate.
Qed.

Lemma padStart_long (s : string) : (2 <= String.length s)%nat -> Js.padStart 2 "0" s = s.
Proof.
  intros H. unfold Js.padStart.
  replace (2 - String.length s)%nat with 0%nat by lia. reflexivity.
Qed.

Lemma padStart_one (c : ascii) : Js.padStart 2 "0" (String c "") = String "0" (String c "").
Proof. reflexivity. Qed.

Lemma slash_app (x : string) : "/" +:+ x = String "/" x.
Proof. reflexivity. Qed.

Lemma convertDate_slashed day month year more :
  threeFields day month year more ->
  convertDate (Some (slashed day month year more))
  = Some (year +:+ "-" +:+ Js.padStart 2 "0" month +:+ "-" +:+ Js.padStart 2 "0" day).
Proof.
  intros (Hd & Hm & Hy & Nd & Nm & Ny & Hmore).
  unfold convertDate, slashed.
  rewrite nonEmpty_app_l by (by apply nonEmpty_true). cbn [negb].
  rewrite !slash_app, slash_not_iso.
  rewrite (split_field "/" day) by exact Hd.
  rewrite (split_field "/" month) by exact Hm.
  assert (exists rest, Js.split "/" (year +:+ more) = year :: rest) as [rest ->].
  { destruct Hmore as [->|[t ->]].
    - exists []. replace (year +:+ "") with year.
      + by apply split_last.
      + clear. induction year; [done|]. rewrite app_cons. congruence.
    - eexists. by apply split_field. }
  apply nonEmpty_true in Nd, Nm, Ny. rewrite Nd, Nm, Ny. reflexivity.
Qed.

Lemma split_slashed (s d m y : string) rest :
  Js.split "/" s = d :: m :: y :: rest ->
  d <> "" -> m <> "" -> y <> "" ->
  exists more, s = slashed d m y more /\ threeFields d m y more.
Proof.
  intros E Nd Nm Ny.
  pose proof (split_pieces_free "/" s) as F. rewrite E in F.
  apply Forall_cons in F as [Fd F]. apply Forall_cons in F as [Fm F].
  apply Forall_cons in F as [Fy F].
  pose proof (join_split "/" s) as J. rewrite E in J.
  destruct rest as [|q rest].
  - exists "". split.
    + rewrite <- J. unfold slashed. cbn [Js.join].
      replace (y +:+ "") with y; [reflexivity|].
      clear. induction y; [done|]. rewrite app_cons. congruence.
    + repeat split; auto.
  - exists (String "/" (Js.join "/" (q :: rest))). split.
    + rewrite <- J. reflexivity.
    + repeat split; auto. right. eauto.
Qed.

(** C8. [convertDate] returns a string of the form YYYY-MM-DD unchanged;
    it turns a string whose first three fields between slashes are not
    empty into third-second-first, the second and the first padded with a
    zero to two code units, whether or not the fields are numbers and
    whatever follows them; and it gives [null] for a missing or empty
    string and for every other string. *)
Theorem convertDate_shapes :
  (forall s, matchesIsoDate s = true -> convertDate (Some s) = Some s)
  /\ (forall day month year more,
        threeFields day month year more ->
        convertDate (Some (slashed day month year more))
        = Some (year +:+ "-" +:+ Js.padStart 2 "0" month
                     +:+ "-" +:+ Js.padStart 2 "0" day))
  /\ (forall c, Js.padStart 2 "0" (String c "") = String "0" (String c ""))
  /\ (forall f, (2 <= String.length f)%nat -> Js.padStart 2 "0" f = f)
  /\ (forall x,
        convertDate x = None <->
        x = None \/
        exists s, x = Some s /\ matchesIsoDate s = false
                  /\ forall day month year more,
                       threeFields day month year more ->
                       s <> slashed day month year more).
Proof.
  split; [|split; [|split; [|split]]].
  - intros s H. unfold convertDate.
    destruct s; [discriminate|]. cbn [Js.nonEmpty negb]. by rewrite H.
  - exact convertDate_slashed.
  - exact padStart_one.
  - exact padStart_long.
  - intros [s|]; split.
    + intros H. right. exists s. split; [done|].
      assert (matchesIsoDate s = false) as Hiso.
      { destruct (matchesIsoDate s) eqn:E; [|done].
        unfold convertDate in H. destruct s; [discriminate|].
        cbn [Js.nonEmpty negb] in H. rewrite E in H. discriminate. }
      split; [done|]. intros d m y more F ->.
      rewrite (convertDate_slashed _ _ _ _ F) in H. discriminate.
    + intros [?|(s' & [= <-] & Hiso & Hno)]; [discriminate|].
      unfold convertDate. destruct (Js.nonEmpty s) eqn:Ns; [|done]. cbn [negb].
      rewrite Hiso.
      destruct (Js.split "/" s) as [|d [|m [|y rest]]] eqn:E; try done.
      destruct (Js.nonEmpty d) eqn:Nd; [|done].
      destruct (Js.nonEmpty m) eqn:Nm; [|done].
      destruct (Js.nonEmpty y) eqn:Ny; [|done].
      apply nonEmpty_true in Nd, Nm, Ny.
      destruct (split_slashed _ _ _ _ _ E Nd Nm Ny) as (more & -> & F).
      by destruct (Hno _ _ _ _ F).
    + by left.
    + done.
Qed.

Lemma convertDate_shapes_witness :
  convertDate (Some "2020-03-05") = Some "2020-03-05"
  /\ convertDate (Some "05/03/2020") = Some "2020-03-05"
  /\ convertDate (Some "5/3/2020") = Some "2020-03-05"
  /\ convertDate (Some "not-a-date") = None.
Proof.
  destruct convertDate_shapes as (Hiso & Hdmy & _ & _ & Hnone).
  split; [|split; [|split]].
  - apply Hiso. reflexivity.
  - apply (Hdmy "05" "03" "2020" ""). unfold threeFields.
    repeat split; try reflexivity; try discriminate. by left.
  - apply (Hdmy "5" "3" "2020" ""). unfold threeFields.
    repeat split; try reflexivity; try discriminate. by left.
  - apply Hnone. right. exists "not-a-date". split; [reflexivity|].
    split; [reflexivity|]. intros d m y more F E.
    assert (slashFree "not-a-date" = true) as S by reflexivity.
    rewrite E in S. unfold slashFree, slashed in S.
    rewrite all_app in S. apply andb_true_iff in S as [_ S]. discriminate.
Defined.

Lemma convertDate_keeps_other_shapes :
  matchesIsoDate "a/b/c/d" = false
  /\ Spec.slashDate "a/b/c/d" = false
  /\ convertDate (Some "a/b/c/d") = Some "c-0b-0a"
  /\ ~ (forall s, matchesIsoDate s = false -> Spec.slashDate s = false ->
                  convertDate (Some s) = None).
Proof.
  split; [reflexivity|]. split; [reflexivity|]. split; [reflexivity|].
  intros H. specialize (H "a/b/c/d" eq_refl eq_refl). discriminate.
Qed.

Lemma matchCountryHere_eq (s : string) :
  matchCountryHere s =
  match s with
  | String a (String b (String c rest)) =>
      if bool_decide (a = "v"%char) && bool_decide (b = "."%char) && Js.isWhiteSpace c
      then spacesThenGroup rest else None
  | _ => None
  end.
Proof.
  destruct s as [|a [|b [|c rest]]].
  - reflexivity.
  - destruct a as [[] [] [] [] [] [] [] []]; reflexivity.
  - destruct a as [[] [] [] [] [] [] [] []]; try reflexivity;
      destruct b as [[] [] [] [] [] [] [] []]; reflexivity.
  - destruct a as [[] [] [] [] [] [] [] []]; try reflexivity;
      destruct b as [[] [] [] [] [] [] [] []]; try reflexivity.
Qed.

Lemma trim_space (c : ascii) (s : string) :
  Js.isWhiteSpace c = true -> Js.trim (String c s) = Js.trim s.
Proof. intros H. unfold Js.trim. simpl. by rewrite H. Qed.

Lemma restOfLine_tail (c : ascii) (s : string) :
  restOfLine (String c s) = true -> s <> "" -> restOfLine s = true.
Proof.
  unfold restOfLine. simpl. intros H N.
  apply andb_true_iff in H as [_ H].
  apply nonEmpty_true in N. by rewrite N.
Qed.

Lemma spacesThenGroup_trim (rest : string) :
  restOfLine rest = true ->
  exists g, spacesThenGroup rest = Some g /\ Js.trim g = Js.trim rest.
Proof.
  induction rest as [|c s IH]; intros H; [discriminate|].
  cbn [spacesThenGroup]. rewrite H.
  destruct (Js.isWhiteSpace c) eqn:W; [|eauto].
  destruct s as [|c' s'].
  - simpl. eauto.
  - destruct IH as (g & -> & Hg).
    + by eapply restOfLine_tail.
    + exists g. split; [done|]. by rewrite trim_space.
Qed.

(** No match starts before the first [v.] that white space follows. *)
Lemma matchCountry_before (before tail : string) :
  hasSeparator before = false ->
  matchCountry (before +:+ String "v" (String "." tail))
  = matchCountry (String "v" (String "." tail)).
Proof.
  induction before as [|a before IH]; intros H; [reflexivity|].
  cbn [hasSeparator] in H. apply orb_false_iff in H as [Hh Ht].
  rewrite app_cons.
  change (matchCountry (String a ?x))
    with (match matchCountryHere (String a x) with
          | Some g => Some g
          | None => matchCountry x
          end).
  rewrite matchCountryHere_eq.
  assert (match before +:+ String "v" (String "." tail) with
          | String b (String c rest) =>
              if bool_decide (a = "v"%char) && bool_decide (b = "."%char)
                 && Js.isWhiteSpace c
              then spacesThenGroup rest else None
          | _ => None
          end = None) as ->.
  { destruct before as [|b [|c before]].
    - rewrite app_empty_l. by rewrite andb_false_r.
    - rewrite app_cons, app_empty_l. by rewrite andb_false_r.
    - rewrite !app_cons.
      destruct (bool_decide (a = "v"%char)) eqn:Ea; [|done].
      apply bool_decide_eq_true_1 in Ea as ->.
      destruct (bool_decide (b = "."%char)) eqn:Eb; [|done].
      apply bool_decide_eq_true_1 in Eb as ->.
      cbn in Hh. by rewrite Hh. }
  by apply IH.
Qed.

Lemma matchCountry_absent (title : string) :
  hasSeparator title = false -> matchCountry title = None.
Proof.
  induction title as [|a title IH]; intros H; [reflexivity|].
  cbn [hasSeparator] in H. apply orb_false_iff in H as [Hh Ht].
  change (matchCountry (String a title))
    with (match matchCountryHere (String a title) with
          | Some g => Some g
          | None => matchCountry title
          end).
  rewrite matchCountryHere_eq, (IH Ht).
  destruct title as [|b [|c rest]]; try done.
  destruct (bool_decide (a = "v"%char)) eqn:Ea; [|done].
  apply bool_decide_eq_true_1 in Ea as ->.
  destruct (bool_decide (b = "."%char)) eqn:Eb; [|done].
  apply bool_decide_eq_true_1 in Eb as ->.
  simpl in Hh. by rewrite Hh.
Qed.

(** C9. [extractCountry] returns, trimmed, what follows the first [v.]
    and white space of the title, when that runs to the end of the title
    on one line: the title may hold [v.] before, as long as no white
    space follows it there.  It returns [null] for every title without
    [v.] followed by white space. *)
Theorem extractCountry_first_separator :
  (forall before w rest,
      hasSeparator before = false ->
      Js.isWhiteSpace w = true ->
      restOfLine rest = true ->
      extractCountry (before +:+ "v." +:+ String w rest) = Some (Js.trim rest))
  /\ (forall title, hasSeparator title = false -> extractCountry title = None).
Proof.
  split.
  - intros before w rest Hb Hw Hr. unfold extractCountry.
    change ("v." +:+ String w rest) with (String "v" (String "." (String w rest))).
    rewrite matchCountry_before by done.
    change (matchCountry (String "v" ?x))
      with (match matchCountryHere (String "v" x) with
            | Some g => Some g
            | None => matchCountry x
            end).
    rewrite matchCountryHere_eq.
    rewrite !bool_decide_eq_true_2 by done. rewrite Hw. cbn [andb].
    destruct (spacesThenGroup_trim rest Hr) as (g & -> & ->). done.
  - intros title H. unfold extractCountry. by rewrite matchCountry_absent.
Qed.

Lemma extractCountry_first_separator_witness :
  extractCountry "Ivanov v. Russia" = Some "Russia"
  /\ extractCountry "A v. B v. C" = Some "B v. C"
  /\ extractCountry "Rev.Smith v. Greece" = Some "Greece"
  /\ extractCountry "No separator here" = None.
Proof.
  destruct extractCountry_first_separator as [Hfirst Habsent].
  split; [|split; [|split]].
  - apply (Hfirst "Ivanov " " "%char "Russia"); reflexivity.
  - apply (Hfirst "A " " "%char "B v. C"); reflexivity.
  - apply (Hfirst "Rev.Smith " " "%char "Greece"); reflexivity.
  - apply Habsent. reflexivity.
Defined.

Lemma extractCountry_not_last_separator :
  extractCountry "A v. B v. C" = Some "B v. C"
  /\ Spec.deriveJurisdiction "A v. B v. C" = Some "C"
  /\ ~ (forall title, extractCountry title = Spec.deriveJurisdiction title).
Proof.
  split; [reflexivity|]. split; [reflexivity|].
  intros H. specialize (H "A v. B v. C"). discriminate.
Qed.

(** ** The monad *)

Lemma bind_eq {S A B} (m : M S A) (f : A -> M S B) (s : S) :
  (m ≫= f) s = match m s with
               | (Val a, s') => f a s'
               | (Exn e, s') => (Exn e, s')
               end.
Proof. reflexivity. Qed.

Lemma returns_ret {S A} (a : A) : returns (mret a : M S A).
Proof. intros s. by exists a, s. Qed.

Lemma returns_bind {S A B} (m : M S A) (f : A -> M S B) :
  returns m -> (forall a, returns (f a)) -> returns (m ≫= f).
Proof.
  intros Hm Hf s. rewrite bind_eq.
  destruct (Hm s) as (a & s' & ->). apply Hf.
Qed.

Lemma returns_tryCatch {S A} (m : M S A) (h : string -> M S A) :
  (forall e, returns (h e)) -> returns (tryCatch m h).
Proof.
  intros Hh s. unfold tryCatch.
  destruct (m s) as [[a|e] s']; [by exists a, s' | apply Hh].
Qed.

Lemma returns_get {S} : returns (get : M S S).
Proof. intros s. by exists s, s. Qed.

Lemma returns_modify {S} (f : S -> S) : returns (modify f).
Proof. intros s. by exists tt, (f s). Qed.

Lemma keeps_ret {S A} (P : S -> Prop) (a : A) : keeps P (mret a : M S A).
Proof. intros s H. exact H. Qed.

Lemma keeps_throw {S A} (P : S -> Prop) e : keeps P (throw e : M S A).
Proof. intros s H. exact H. Qed.

Lemma keeps_get {S} (P : S -> Prop) : keeps P (get : M S S).
Proof. intros s H. exact H. Qed.

Lemma keeps_modify {S} (P : S -> Prop) (f : S -> S) :
  (forall s, P s -> P (f s)) -> keeps P (modify f).
Proof. intros Hf s H. by apply Hf. Qed.

Lemma keeps_bind {S A B} (P : S -> Prop) (m : M S A) (f : A -> M S B) :
  keeps P m -> (forall a, keeps P (f a)) -> keeps P (m ≫= f).
Proof.
  intros Hm Hf s H. rewrite bind_eq. specialize (Hm s H).
  destruct (m s) as [[a|e] s']; [by apply Hf | exact Hm].
Qed.

Lemma keeps_tryCatch {S A} (P : S -> Prop) (m : M S A) (h : string -> M S A) :
  keeps P m -> (forall e, keeps P (h e)) -> keeps P (tryCatch m h).
Proof.
  intros Hm Hh s H. unfold tryCatch. specialize (Hm s H).
  destruct (m s) as [[a|e] s']; [exact Hm | by apply Hh].
Qed.

Ltac keeps_step :=
  match goal with
  | |- keeps _ (_ ≫= _) => apply keeps_bind; [|intros ?]
  | |- keeps _ (tryCatch _ _) => apply keeps_tryCatch; [|intros ?]
  | |- keeps _ (mret _) => apply keeps_ret
  | |- keeps _ (throw _) => apply keeps_throw
  | |- keeps _ get => apply keeps_get
  | |- keeps _ (modify _) => apply keeps_modify; intros ??
  | |- keeps _ (if ?b then _ else _) => destruct b
  | |- keeps _ (match ?x with _ => _ end) => destruct x
  end.

Ltac returns_step :=
  match goal with
  | |- returns (_ ≫= _) => apply returns_bind; [|intros ?]
  | |- returns (tryCatch _ _) => apply returns_tryCatch; intros ?
  | |- returns (mret _) => apply returns_ret
  | |- returns get => apply returns_get
  | |- returns (modify _) => apply returns_modify
  | |- returns (if ?b then _ else _) => destruct b
  | |- returns (match ?x with _ => _ end) => destruct x
  end.

Lemma bind_ok {S A B} (m : M S A) (f : A -> M S B) s b s' :
  (m ≫= f) s = (Val b, s') ->
  exists a s1, m s = (Val a, s1) /\ f a s1 = (Val b, s').
Proof.
  rewrite bind_eq. destruct (m s) as [[a|e] s1]; [|done]. eauto.
Qed.

Lemma bind_exn {S A B} (m : M S A) (f : A -> M S B) s e s' :
  (m ≫= f) s = (Exn e, s') ->
  m s = (Exn e, s') \/ exists a s1, m s = (Val a, s1) /\ f a s1 = (Exn e, s').
Proof.
  rewrite bind_eq. destruct (m s) as [[a|e1] s1]; intros H.
  - right. eauto.
  - left. by injection H as -> ->.
Qed.

Lemma tryCatch_ok {S A} (m : M S A) (a b : A) s s' :
  tryCatch m (fun _ => mret b) s = (Val a, s') ->
  a <> b -> m s = (Val a, s').
Proof.
  unfold tryCatch. destruct (m s) as [[a'|e] s1]; [done|].
  intros [= <- <-]. done.
Qed.

Lemma tryCatch_rethrow {S A} (m : M S A) (s : S) :
  tryCatch m (fun message => throw message) s = m s.
Proof. unfold tryCatch, throw. by destruct (m s) as [[a|e] s']. Qed.

(** ** The import API helper *)

Lemma fetch_ok {A} request (answer : nat -> Res A) sent a sent' :
  ImportAPI.fetch request answer sent = (Val a, sent') ->
  answer (length sent) = Val a /\ sent' = sent ++ [request].
Proof. unfold ImportAPI.fetch. by intros [= -> <-]. Qed.

Lemma pollImport_ok service fuel bookmark :
  forall sent sent',
    ImportAPI.pollImport service fuel bookmark sent = (Val true, sent') ->
    exists polls last,
      sent' = sent ++ replicate (S polls) (ImportAPI.Poll bookmark)
      /\ ImportAPI.onPoll service (length sent + polls) bookmark = Val last
      /\ ImportAPI.finished last = true
      /\ (polls < fuel)%nat.
Proof.
  induction fuel as [|fuel IH]; intros sent sent' H; [done|].
  cbn [ImportAPI.pollImport] in H.
  apply bind_ok in H as (result & sent1 & Hf & H).
  apply fetch_ok in Hf as [Hf ->].
  destruct (ImportAPI.finished result) eqn:E.
  - injection H as <-. exists 0%nat, result.
    rewrite Nat.add_0_r. repeat split; [done | done | lia].
  - apply IH in H as (polls & last & -> & Hl & Hfin & Hlt).
    exists (S polls), last. rewrite length_app in Hl. cbn [length] in Hl.
    replace (length sent + S polls)%nat with (length sent + 1 + polls)%nat
      by lia.
    repeat split; [|done|done|lia].
    rewrite <- app_assoc. reflexivity.
Qed.

(** X24. When [uploadSQL] returns [true], the requests it sent are, in
    this order, the init with the MD5 of the statements, the upload of
    the statements to the URL of the answer, the ingest with the same
    hash and the file name of the answer, and one poll or more for the
    bookmark of the ingest; the init and the ingest were answered with
    success, the [ETag] of the upload without its quotes was the hash,
    and the last poll answered that the import is over. *)
Theorem uploadSQL_protocol md5 service fuel sqlStatement sent sent' :
  ImportAPI.uploadSQL md5 service fuel sqlStatement sent = (Val true, sent') ->
  exists init header ingest polls last,
    ImportAPI.onInit service (length sent) (md5 sqlStatement) = Val init
    /\ ImportAPI.init_success init = true
    /\ ImportAPI.onUpload service (length sent + 1)
         (ImportAPI.upload_url init) sqlStatement = Val (Some header)
    /\ ImportAPI.stripQuotes header = md5 sqlStatement
    /\ ImportAPI.onIngest service (length sent + 2) (md5 sqlStatement)
         (ImportAPI.filename init) = Val ingest
    /\ ImportAPI.ingest_success ingest = true
    /\ ImportAPI.onPoll service (length sent + 3 + polls)
         (ImportAPI.at_bookmark ingest) = Val last
    /\ ImportAPI.finished last = true
    /\ sent'
       = sent
         ++ [ImportAPI.Init (md5 sqlStatement);
             ImportAPI.Upload (ImportAPI.upload_url init) sqlStatement;
             ImportAPI.Ingest (md5 sqlStatement) (ImportAPI.filename init)]
         ++ replicate (S polls) (ImportAPI.Poll (ImportAPI.at_bookmark ingest)).
Proof.
  unfold ImportAPI.uploadSQL. rewrite tryCatch_rethrow. intros H.
  apply bind_ok in H as (init & sent1 & Hinit & H).
  apply fetch_ok in Hinit as [Hinit ->].
  destruct (ImportAPI.init_success init) eqn:Si; [|done]. cbn [negb] in H.
  apply bind_ok in H as (header & sent2 & Hup & H).
  apply fetch_ok in Hup as [Hup ->].
  destruct header as [header|]; [|done].
  destruct (bool_decide (ImportAPI.stripQuotes header = md5 sqlStatement))
    eqn:Etag; [|done].
  apply bool_decide_eq_true_1 in Etag. cbn [negb] in H.
  apply bind_ok in H as (ingest & sent3 & Hing & H).
  apply fetch_ok in Hing as [Hing ->].
  destruct (ImportAPI.ingest_success ingest) eqn:Sg; [|done]. cbn [negb] in H.
  apply pollImport_ok in H as (polls & last & -> & Hl & Hfin & _).
  rewrite !length_app in *. cbn [length] in *.
  exists init, header, ingest, polls, last.
  replace (length sent + 1 + 1)%nat with (length sent + 2)%nat in * by lia.
  replace (length sent + 2 + 1 + polls)%nat with (length sent + 3 + polls)%nat
    in * by lia.
  repeat split; try done.
  by rewrite <- !app_assoc.
Qed.

Lemma uploadSQL_protocol_witness :
  let sent' :=
    (ImportAPI.uploadSQL Cases.digest Cases.obliging 5 "DELETE FROM events;"
                         []).2 in
  exists init header ingest polls last,
    ImportAPI.onInit Cases.obliging (length (@nil ImportAPI.Request))
                     (Cases.digest "DELETE FROM events;") = Val init
    /\ ImportAPI.init_success init = true
    /\ ImportAPI.onUpload Cases.obliging (length (@nil ImportAPI.Request) + 1)
         (ImportAPI.upload_url init) "DELETE FROM events;" = Val (Some header)
    /\ ImportAPI.stripQuotes header = Cases.digest "DELETE FROM events;"
    /\ ImportAPI.onIngest Cases.obliging (length (@nil ImportAPI.Request) + 2)
         (Cases.digest "DELETE FROM events;") (ImportAPI.filename init)
       = Val ingest
    /\ ImportAPI.ingest_success ingest = true
    /\ ImportAPI.onPoll Cases.obliging
         (length (@nil ImportAPI.Request) + 3 + polls)
         (ImportAPI.at_bookmark ingest) = Val last
    /\ ImportAPI.finished last = true
    /\ sent'
       = []
         ++ [ImportAPI.Init (Cases.digest "DELETE FROM events;");
             ImportAPI.Upload (ImportAPI.upload_url init) "DELETE FROM events;";
             ImportAPI.Ingest (Cases.digest "DELETE FROM events;")
                              (ImportAPI.filename init)]
         ++ replicate (S polls) (ImportAPI.Poll (ImportAPI.at_bookmark ingest)).
Proof.
  intros sent'.
  apply (uploadSQL_protocol Cases.digest Cases.obliging 5 "DELETE FROM events;"
           [] sent').
  vm_compute. reflexivity.
Defined.

(** X25. [pollImport] asks until an answer says that the import is over,
    by its success or by the error "Not currently importing anything.":
    when the answers before the one numbered [polls] do not say so and
    that one does, it returns [true] after [polls] + 1 polls for the
    bookmark, given as many rounds. *)
Theorem pollImport_waits service bookmark polls :
  forall sent fuel last,
    (forall i, (i < polls)%nat ->
       exists answer,
         ImportAPI.onPoll service (length sent + i) bookmark = Val answer
         /\ ImportAPI.finished answer = false) ->
    ImportAPI.onPoll service (length sent + polls) bookmark = Val last ->
    ImportAPI.finished last = true ->
    (polls < fuel)%nat ->
    ImportAPI.pollImport service fuel bookmark sent
    = (Val true, sent ++ replicate (S polls) (ImportAPI.Poll bookmark)).
Proof.
  induction polls as [|polls IH]; intros sent fuel last Hbusy Hlast Hfin Hfuel;
    (destruct fuel as [|fuel]; [lia|]);
    cbn [ImportAPI.pollImport]; rewrite bind_eq; unfold ImportAPI.fetch at 1.
  - rewrite Nat.add_0_r in Hlast. by rewrite Hlast, Hfin.
  - destruct (Hbusy 0%nat ltac:(lia)) as (answer & Ha & Hnot).
    rewrite Nat.add_0_r in Ha. rewrite Ha, Hnot.
    rewrite (IH (sent ++ [ImportAPI.Poll bookmark]) fuel last).
    + by rewrite <- app_assoc.
    + intros i Hi. destruct (Hbusy (S i) ltac:(lia)) as (a & Hb & Hn).
      exists a. rewrite length_app. cbn [length].
      replace (length sent + 1 + i)%nat with (length sent + S i)%nat by lia.
      done.
    + rewrite length_app. cbn [length].
      by replace (length sent + 1 + polls)%nat
        with (length sent + S polls)%nat by lia.
    + done.
    + lia.
Qed.

Lemma pollImport_waits_witness :
  ImportAPI.pollImport Cases.obliging 7 "00000001" []
  = (Val true, [] ++ replicate (S 5) (ImportAPI.Poll "00000001")).
Proof.
  apply (pollImport_waits Cases.obliging "00000001" 5 [] 7
           {| ImportAPI.poll_success := false;
              ImportAPI.poll_error := Some "Not currently importing anything." |}).
  - intros i Hi. cbn [Cases.obliging ImportAPI.onPoll length Nat.add].
    destruct (Nat.ltb_spec i 5); [|lia]. eauto.
  - reflexivity.
  - reflexivity.
  - lia.
Defined.

Lemma pollImport_sent service fuel bookmark :
  forall sent, exists polls,
    (ImportAPI.pollImport service fuel bookmark sent).2
    = sent ++ replicate polls (ImportAPI.Poll bookmark).
Proof.
  induction fuel as [|fuel IH]; intros sent.
  - exists 0%nat. cbn. by rewrite app_nil_r.
  - cbn [ImportAPI.pollImport]. rewrite bind_eq. unfold ImportAPI.fetch at 1.
    destruct (ImportAPI.onPoll service (length sent) bookmark) as [result|e].
    + destruct (ImportAPI.finished result).
      * by exists 1%nat.
      * destruct (IH (sent ++ [ImportAPI.Poll bookmark])) as (polls & ->).
        exists (S polls). by rewrite <- app_assoc.
    + by exists 1%nat.
Qed.

(** X26. [uploadSQL] never starts the ingestion of an upload it has not
    verified: whatever the service answers, an ingest request it sends
    carries the MD5 of the statements and the file name of an init
    answered with success, and follows an upload whose [ETag], without
    its quotes, was that hash. *)
Theorem uploadSQL_verifies md5 service fuel sqlStatement sent etag name :
  ImportAPI.Ingest etag name
  ∈ (ImportAPI.uploadSQL md5 service fuel sqlStatement sent).2 ->
  ImportAPI.Ingest etag name ∈ sent
  \/ exists init header,
       ImportAPI.onInit service (length sent) (md5 sqlStatement) = Val init
       /\ ImportAPI.init_success init = true
       /\ ImportAPI.onUpload service (length sent + 1)
            (ImportAPI.upload_url init) sqlStatement = Val (Some header)
       /\ ImportAPI.stripQuotes header = md5 sqlStatement
       /\ etag = md5 sqlStatement
       /\ name = ImportAPI.filename init.
Proof.
  unfold ImportAPI.uploadSQL. rewrite tryCatch_rethrow.
  rewrite bind_eq. unfold ImportAPI.fetch at 1.
  assert (forall (l : list ImportAPI.Request) x,
             ImportAPI.Ingest etag name ∈ l ++ [x] ->
             (forall e f, x <> ImportAPI.Ingest e f) ->
             ImportAPI.Ingest etag name ∈ l) as Hlast.
  { intros l x Hin Hx. apply elem_of_app in Hin as [Hin|Hin]; [done|].
    apply list_elem_of_singleton in Hin. by destruct (Hx etag name). }
  destruct (ImportAPI.onInit service (length sent) (md5 sqlStatement))
    as [init|e] eqn:Hinit.
  2: { intros H. left. by apply Hlast in H. }
  destruct (ImportAPI.init_success init) eqn:Si; cbn [negb].
  2: { intros H. left. by apply Hlast in H. }
  rewrite bind_eq. unfold ImportAPI.fetch at 1.
  rewrite length_app. cbn [length].
  destruct (ImportAPI.onUpload service (length sent + 1)
              (ImportAPI.upload_url init) sqlStatement)
    as [[header|]|e] eqn:Hup; cbn [snd throw].
  2,3: intros H; left; apply Hlast in H; [|done]; by apply Hlast in H.
  destruct (bool_decide (ImportAPI.stripQuotes header = md5 sqlStatement))
    eqn:Etag; cbn [negb snd throw].
  2: { intros H. left. apply Hlast in H; [|done]. by apply Hlast in H. }
  apply bool_decide_eq_true_1 in Etag.
  set (sent2 := (sent ++ [ImportAPI.Init (md5 sqlStatement)])
                ++ [ImportAPI.Upload (ImportAPI.upload_url init) sqlStatement]).
  set (request := ImportAPI.Ingest (md5 sqlStatement) (ImportAPI.filename init)).
  match goal with
  | |- _ ∈ (?m sent2).2 -> _ =>
      assert (exists polls bookmark,
                 (m sent2).2
                 = sent2 ++ request :: replicate polls (ImportAPI.Poll bookmark))
        as (polls & bookmark & ->)
  end.
  { rewrite bind_eq. unfold ImportAPI.fetch at 1.
    destruct (ImportAPI.onIngest service _ _ _) as [ingest|e].
    - destruct (ImportAPI.ingest_success ingest); cbn [negb].
      + destruct (pollImport_sent service fuel (ImportAPI.at_bookmark ingest)
                    (sent2 ++ [request])) as (polls & ->).
        exists polls, (ImportAPI.at_bookmark ingest). by rewrite <- app_assoc.
      + by exists 0%nat, "".
    - by exists 0%nat, "". }
  intros H. apply elem_of_app in H as [H|H].
  - left. subst sent2. apply Hlast in H; [|done]. by apply Hlast in H.
  - apply elem_of_cons in H as [H|H].
    + right. injection H as -> ->. exists init, header. by repeat split.
    + by apply elem_of_replicate in H as [H _].
Qed.

Lemma uploadSQL_verifies_witness :
  ImportAPI.Ingest (Cases.digest "DELETE FROM events;") "slot.sql" ∈ []
  \/ exists init header,
       ImportAPI.onInit Cases.obliging (length (@nil ImportAPI.Request))
                        (Cases.digest "DELETE FROM events;") = Val init
       /\ ImportAPI.init_success init = true
       /\ ImportAPI.onUpload Cases.obliging
            (length (@nil ImportAPI.Request) + 1)
            (ImportAPI.upload_url init) "DELETE FROM events;"
          = Val (Some header)
       /\ ImportAPI.stripQuotes header = Cases.digest "DELETE FROM events;"
       /\ Cases.digest "DELETE FROM events;"
          = Cases.digest "DELETE FROM events;"
       /\ "slot.sql" = ImportAPI.filename init.
Proof.
  apply (uploadSQL_verifies Cases.digest Cases.obliging 5
           "DELETE FROM events;" []).
  apply list_elem_of_In. vm_compute. right. right. left. reflexivity.
Defined.

(** When the helper does not throw, it has made the ingest request, its
    third; and it goes on waiting only when the polls do. *)
Lemma uploadSQL_made md5 service fuel text sent b sent' :
  ImportAPI.uploadSQL md5 service fuel text sent = (Val b, sent') ->
  (length sent + 3 <= length sent')%nat.
Proof.
  unfold ImportAPI.uploadSQL. rewrite tryCatch_rethrow. intros H.
  apply bind_ok in H as (init & sent1 & Hinit & H).
  apply fetch_ok in Hinit as [_ ->].
  destruct (ImportAPI.init_success init); [|done]. cbn [negb] in H.
  apply bind_ok in H as (header & sent2 & Hup & H).
  apply fetch_ok in Hup as [_ ->].
  destruct header as [header|]; [|done].
  destruct (bool_decide _); [|done]. cbn [negb] in H.
  apply bind_ok in H as (ingest & sent3 & Hing & H).
  apply fetch_ok in Hing as [_ ->].
  destruct (ImportAPI.ingest_success ingest); [|done]. cbn [negb] in H.
  destruct (pollImport_sent service fuel (ImportAPI.at_bookmark ingest)
              (((sent ++ [ImportAPI.Init (md5 text)])
                ++ [ImportAPI.Upload (ImportAPI.upload_url init) text])
               ++ [ImportAPI.Ingest (md5 text) (ImportAPI.filename init)]))
    as (polls & E).
  rewrite H in E. cbn [snd] in E. subst sent'.
  rewrite !length_app. cbn [length]. lia.
Qed.

Lemma uploadSQL_waits md5 service fuel text sent :
  (forall bookmark sent',
      (ImportAPI.pollImport service fuel bookmark sent').1 <> Val false) ->
  (ImportAPI.uploadSQL md5 service fuel text sent).1 <> Val false.
Proof.
  intros Hpoll. unfold ImportAPI.uploadSQL. rewrite tryCatch_rethrow.
  rewrite bind_eq. unfold ImportAPI.fetch at 1.
  destruct (ImportAPI.onInit _ _ _) as [init|]; [|done].
  destruct (ImportAPI.init_success init); [|done]. cbn [negb].
  rewrite bind_eq. unfold ImportAPI.fetch at 1.
  destruct (ImportAPI.onUpload _ _ _ _) as [[header|]|]; [|done|done].
  destruct (bool_decide _); [|done]. cbn [negb].
  rewrite bind_eq. unfold ImportAPI.fetch at 1.
  destruct (ImportAPI.onIngest _ _ _ _) as [ingest|]; [|done].
  destruct (ImportAPI.ingest_success ingest); [|done]. cbn [negb].
  apply Hpoll.
Qed.

(** ** The adapter never lets an exception out of a save *)

Lemma saveApplication_returns rem data : returns (saveApplication rem data).
Proof. unfold saveApplication. repeat returns_step. Qed.

Lemma saveEach_returns rem casesData acc : returns (saveEach rem casesData acc).
Proof.
  revert acc. induction casesData as [|data rest IH]; intros acc; simpl.
  - apply returns_ret.
  - apply returns_bind; [apply saveApplication_returns | intros ?; apply IH].
Qed.

Lemma saveBatch_returns rem casesData : returns (saveBatch rem casesData).
Proof.
  unfold saveBatch. destruct (length casesData =? 0)%nat; [apply returns_ret|].
  apply returns_bind; [apply returns_get | intros s].
  apply returns_bind.
  - destruct (importAPI (adapter s)); [|apply returns_ret].
    apply returns_tryCatch. intros ?. apply returns_ret.
  - intros [result|]; [apply returns_ret | apply saveEach_returns].
Qed.

Lemma markAsNotFound_returns rem n y : returns (markAsNotFound rem n y).
Proof. unfold markAsNotFound. repeat returns_step. Qed.

(** ** What the sent commands keep, the saves keep *)

(** The store after an import: the one after the command, handed to the
    engine or not, and the process waiting or not. *)
Lemma uploadSQL_cases rem sql s :
  adapter (uploadSQL rem sql s).2 = adapter s
  /\ exists st',
       (st' = (submit rem (Import sql) (store s)).2
        \/ st' = asked (Import sql) (store s))
       /\ (store (uploadSQL rem sql s).2 = st'
           \/ (store (uploadSQL rem sql s).2 = stall st'
               /\ (exchange rem sql (store s)).1 = Val false)).
Proof.
  unfold uploadSQL.
  destruct (exchange rem sql (store s)) as [[[]|message] sent]; cbn [fst snd];
    (split; [reflexivity|]);
    destruct (3 <=? length sent)%nat; eauto 6.
Qed.

(** When every wait for an import ends, no exchange is left waiting. *)
Lemma exchange_settles rem sql st :
  settles rem -> (exchange rem sql st).1 <> Val false.
Proof. intros H. apply uploadSQL_waits. intros bookmark sent. apply H. Qed.

Section Kept.

Variable rem : Remote.
Variable Q : Store -> Prop.
Variable R : Command -> Prop.
Hypothesis submit_keeps :
  forall c st, Sent c -> R c -> Q st -> Q (submit rem c st).2.
Hypothesis asked_keeps :
  forall c st, Sent c -> Q st -> Q (asked c st).
Hypothesis stall_keeps :
  forall sql st st',
    (exchange rem sql st).1 = Val false -> Q st' -> Q (stall st').

Let P (s : D1) : Prop := Q (store s).

Lemma executeSQL_keeps sql :
  Sent (Execute sql) -> R (Execute sql) -> keeps P (executeSQL rem sql).
Proof.
  intros Hc Hr s H. unfold executeSQL.
  pose proof (submit_keeps _ _ Hc Hr H) as K.
  destruct (submit rem (Execute sql) (store s)) as [[ids|] st]; exact K.
Qed.

Lemma uploadSQL_keeps sql :
  Sent (Import sql) -> R (Import sql) -> keeps P (uploadSQL rem sql).
Proof.
  intros Hc Hr s H. unfold P.
  destruct (uploadSQL_cases rem sql s) as (_ & st' & Hst & [->|[-> Hx]]);
    [|apply (stall_keeps _ _ _ Hx)];
    destruct Hst as [->| ->]; first [by apply submit_keeps | by apply asked_keeps].
Qed.

Lemma cacheSet_keeps name i : keeps P (cacheSet name i).
Proof. apply keeps_modify. intros s H. exact H. Qed.

Lemma flushCacheIfNeeded_keeps : keeps P flushCacheIfNeeded.
Proof. apply keeps_modify. intros s H. exact H. Qed.

Lemma findOrCreateRepresentative_keeps name :
  R (Execute [SelectRepId (Js.doubleQuotes (Js.interp name))]) ->
  R (Execute [InsertReps [Js.doubleQuotes (Js.interp name)]]) ->
  keeps P (findOrCreateRepresentative rem name).
Proof.
  intros Hsel Hins. unfold findOrCreateRepresentative.
  repeat first
    [ apply executeSQL_keeps; [constructor | assumption]
    | apply cacheSet_keeps
    | keeps_step ].
Qed.

Lemma saveApplication_keeps data :
  covers R data -> keeps P (saveApplication rem data).
Proof.
  intros (Hrep & Hup & Hsel & Hev). unfold saveApplication.
  apply keeps_tryCatch; [|intros ?; apply keeps_ret].
  apply keeps_bind.
  - destruct (hasRepresentative data); [|apply keeps_ret].
    destruct Hrep as [? ?]; [done|].
    apply keeps_bind; [by apply findOrCreateRepresentative_keeps|].
    intros ?. apply keeps_ret.
  - intros representativeId.
    repeat first
      [ apply executeSQL_keeps; [constructor | done]
      | apply flushCacheIfNeeded_keeps
      | keeps_step ].
Qed.

Lemma saveEach_keeps casesData acc :
  Forall (covers R) casesData -> keeps P (saveEach rem casesData acc).
Proof.
  intros H. revert acc.
  induction H as [|data rest Hd _ IH]; intros acc; simpl.
  - apply keeps_ret.
  - apply keeps_bind; [by apply saveApplication_keeps | intros ?; apply IH].
Qed.

Lemma saveBatch_keeps casesData :
  coversBatch R casesData -> keeps P (saveBatch rem casesData).
Proof.
  intros [Himp Hall]. unfold saveBatch.
  repeat first
    [ apply uploadSQL_keeps; [constructor | done]
    | by apply saveEach_keeps
    | keeps_step ].
Qed.

End Kept.

(** Every command is one of the commands. *)
Lemma covers_all data : covers (fun _ => True) data.
Proof. by repeat split. Qed.

Lemma coversBatch_all casesData : coversBatch (fun _ => True) casesData.
Proof.
  split; [done|]. apply Forall_forall. intros ? _. apply covers_all.
Qed.

(** ** The crawl loop *)

Lemma sameSettings_refl t : sameSettings t t.
Proof. by repeat split. Qed.

Lemma sameFrame_refl r : sameFrame r r.
Proof. by repeat split. Qed.

Lemma flushBatch_spec world r :
  exists r', flushBatch world r = (Val tt, r')
    /\ sameFrame r r'
    /\ batchQueue (this r') = []
    /\ (batchQueue (this r) = [] -> r' = r)
    /\ (batchQueue (this r) <> [] ->
        attemptCounter (this r') = 0
        /\ d1 r' = (saveBatch (remote world) (batchQueue (this r)) (d1 r)).2).
Proof.
  unfold flushBatch. rewrite bind_eq. cbn [get].
  destruct (batchQueue (this r)) as [|data queue] eqn:E.
  - exists r. cbn. rewrite E. repeat split; done.
  - cbn [length Nat.eqb]. rewrite !bind_eq. unfold onD1.
    destruct (saveBatch_returns (remote world) (data :: queue) (d1 r))
      as (res & d & Hd).
    rewrite Hd. cbn.
    eexists. split; [reflexivity|]. cbn. repeat split; try done.
Qed.

Lemma flushIfDue_spec world r :
  exists r', flushIfDue world r = (Val tt, r')
    /\ sameFrame r r'
    /\ (attemptCounter (this r) < BATCH_ATTEMPTS (this r) -> r' = r)
    /\ (batchQueue (this r) = [] -> r' = r)
    /\ (BATCH_ATTEMPTS (this r) <= attemptCounter (this r) ->
        batchQueue (this r') = []).
Proof.
  unfold flushIfDue. rewrite bind_eq. cbn [get].
  destruct (Z.leb_spec (BATCH_ATTEMPTS (this r)) (attemptCounter (this r))).
  - destruct (flushBatch_spec world r) as (r' & -> & F & Q & Hnil & _).
    exists r'. repeat split; try done; try apply F. lia.
  - exists r. repeat split; try done; lia.
Qed.


Ltac run_attempt :=
  unfold attempt, update, tryCatch, scrapeECHRApplication, printProgress;
  cbv beta iota zeta delta [mbind M_bind mret M_ret modify get];
  cbn [this set_this visits currentNumber currentYear d1 console
       consecutiveSkips set_consecutiveSkips set_currentNumber].

Ltac after_flush world :=
  match goal with
  | |- context [flushIfDue world ?x] =>
      let r1 := fresh "r1" in
      let F := fresh "F" in
      let Hlt := fresh "Hlt" in
      destruct (flushIfDue_spec world x) as (r1 & -> & F & Hlt & _ & _);
      destruct F as ((? & ? & ? & ? & ?) & ? & ? & ? & ? & ? & ?);
      cbn in *
  end.

(** One check: it returns, and what it leaves depends on the outcome of
    the page request only. *)
Lemma attempt_spec world r :
  let outcome := site world (visits r) (currentNumber r) (currentYear r) in
  let weight := match outcome with Failed _ => 2 | _ => 1 end in
  exists r', attempt world r = (Val tt, r')
    /\ visits r' = S (visits r)
    /\ currentYear r' = currentYear r
    /\ currentNumber r' = currentNumber r + 1
    /\ sameSettings (this r) (this r')
    /\ stats (this r') =
       match outcome with
       | Found _ => incr_found (incr_totalChecked (stats (this r)))
       | NotFound => incr_notFound (incr_totalChecked (stats (this r)))
       | Failed _ => incr_errors (incr_totalChecked (stats (this r)))
       end
    /\ consecutiveSkips r' =
       match outcome with
       | Found _ => 0
       | _ => consecutiveSkips r + 1
       end
    /\ console r' =
       (if Z.rem (totalChecked (stats (this r)) + 1) 25 =? 0
        then console r ++ [Progress (stats (this r'))] else console r)
    /\ (attemptCounter (this r) + weight < BATCH_ATTEMPTS (this r) ->
        attemptCounter (this r') = attemptCounter (this r) + weight
        /\ batchQueue (this r') =
           match outcome with
           | Found data => batchQueue (this r) ++ [data]
           | _ => batchQueue (this r)
           end
        /\ d1 r' = d1 r).
Proof.
  intros outcome weight. subst weight outcome.
  run_attempt.
  destruct (site world (visits r) (currentNumber r) (currentYear r))
    as [data| |message];
    after_flush world;
    match goal with
    | H : stats (this _) = _ |- _ => rewrite H; cbn
    end;
    destruct (Z.rem (totalChecked (stats (this r)) + 1) 25 =? 0);
    (eexists; split; [reflexivity|]); cbn;
    repeat split; try done; try lia; try congruence;
    rewrite Hlt by lia; cbn; first [done | lia].
Qed.

Lemma attempt_returns world : returns (attempt world).
Proof.
  intros r. destruct (attempt_spec world r) as (r' & E & _). by exists tt, r'.
Qed.

Lemma flushBatch_returns world : returns (flushBatch world).
Proof.
  intros r. destruct (flushBatch_spec world r) as (r' & E & _). by exists tt, r'.
Qed.

Lemma whileSkips_returns world fuel : returns (whileSkips world fuel).
Proof.
  induction fuel as [|fuel IH]; cbn [whileSkips].
  - repeat returns_step.
  - apply returns_bind; [apply returns_get | intros r].
    destruct (_ <? _); [|apply returns_ret].
    apply returns_bind; [apply attempt_returns | intros _; apply IH].
Qed.

Lemma whileYears_returns world years fuel : returns (whileYears world years fuel).
Proof.
  induction years as [|years IH]; cbn [whileYears].
  - repeat returns_step.
  - repeat first
      [ apply whileSkips_returns | apply flushBatch_returns | apply IH
      | returns_step ].
Qed.

Lemma run_returns world years fuel : returns (run world years fuel).
Proof.
  unfold run, printFinalStats.
  repeat first
    [ apply whileYears_returns | apply flushBatch_returns | returns_step ].
Qed.

(** *** Invariants of a run *)

Section RunKeeps.

Variable world : World.
Variable P : Run -> Prop.
Hypothesis attempt_keeps : keeps P (attempt world).
Hypothesis flushBatch_keeps : keeps P (flushBatch world).
Hypothesis skips_keeps : forall k r, P r -> P (set_consecutiveSkips k r).
Hypothesis year_keeps : forall y r, P r -> P (set_currentYear y r).
Hypothesis number_keeps : forall n r, P r -> P (set_currentNumber n r).
Hypothesis final_keeps : forall r, P r -> P (print (Final (stats (this r))) r).

Lemma whileSkips_keeps fuel : keeps P (whileSkips world fuel).
Proof.
  induction fuel as [|fuel IH]; cbn [whileSkips]; repeat keeps_step; auto.
Qed.

Lemma whileYears_keeps years fuel : keeps P (whileYears world years fuel).
Proof.
  induction years as [|years IH]; cbn [whileYears].
  - repeat keeps_step.
  - repeat first
      [ apply whileSkips_keeps | apply flushBatch_keeps | apply IH
      | keeps_step ]; auto.
Qed.

Lemma run_keeps years fuel : keeps P (run world years fuel).
Proof.
  unfold run, printFinalStats.
  repeat first
    [ apply whileYears_keeps | apply flushBatch_keeps
    | keeps_step ]; auto.
Qed.

End RunKeeps.

(** *** The statistics *)

Lemma attempt_tallied world : keeps tallied (attempt world).
Proof.
  intros r [B C]. destruct (attempt_spec world r)
    as (r' & -> & _ & _ & _ & _ & Hs & _ & Hc & _).
  cbn [snd].
  assert (balanced (stats (this r'))) as B'.
  { rewrite Hs. unfold balanced in *.
    destruct (site world _ _ _); cbn; lia. }
  split; [exact B'|]. rewrite Hc.
  destruct (_ =? 0); [|done]. apply Forall_app. split; [done|].
  by repeat constructor.
Qed.

Lemma flushBatch_tallied world : keeps tallied (flushBatch world).
Proof.
  intros r [B C]. destruct (flushBatch_spec world r) as (r' & -> & F & _).
  destruct F as (_ & Hs & _ & _ & _ & _ & Hc). cbn [snd].
  split; [by rewrite Hs | by rewrite Hc].
Qed.

(** C10. At the end of every check of the crawl loop the statistics add
    up, found + notFound + errors = totalChecked, because a check adds one
    to totalChecked and one to exactly one of the three counters; the sums
    hold in every state a run from the constructor's state stops in, and
    in every summary it has printed. *)
Theorem stats_add_up world :
  (forall r,
      let s := stats (this r) in
      let s' := stats (this (attempt world r).2) in
      totalChecked s' = totalChecked s + 1
      /\ ((found s' = found s + 1 /\ notFound s' = notFound s
           /\ errors s' = errors s)
          \/ (found s' = found s /\ notFound s' = notFound s + 1
              /\ errors s' = errors s)
          \/ (found s' = found s /\ notFound s' = notFound s
              /\ errors s' = errors s + 1)))
  /\ (forall config credentials database years fuel,
        let r := (run world years fuel
                      (initial config credentials database)).2 in
        balanced (stats (this r))
        /\ Forall (fun p => balanced (printed p)) (console r)).
Proof.
  split.
  - intros r. destruct (attempt_spec world r)
      as (r' & -> & _ & _ & _ & _ & Hs & _). cbn [snd]. cbv zeta.
    rewrite Hs. destruct (site world _ _ _); cbn; lia.
  - intros config credentials database years fuel.
    apply (run_keeps world tallied).
    + apply attempt_tallied.
    + apply flushBatch_tallied.
    + intros k r H. exact H.
    + intros y r H. exact H.
    + intros n r H. exact H.
    + intros r [B C]. split; [exact B|]. cbn.
      apply Forall_app. split; [exact C|]. by repeat constructor.
    + split; [reflexivity | constructor].
Qed.

(** C6. A check whose page request throws adds two to the attempt
    counter, one in the try block and one more in the catch block; a
    check that gets a page or [null] adds one. *)
Theorem attempt_counts world r :
  let outcome := site world (visits r) (currentNumber r) (currentYear r) in
  let weight := match outcome with Failed _ => 2 | _ => 1 end in
  attemptCounter (this r) + weight < BATCH_ATTEMPTS (this r) ->
  attemptCounter (this (attempt world r).2) = attemptCounter (this r) + weight.
Proof.
  intros outcome weight H.
  destruct (attempt_spec world r)
    as (r' & -> & _ & _ & _ & _ & _ & _ & _ & Hw).
  cbn [snd]. by apply Hw.
Qed.

(** *** Completion *)

Lemma whileSkips_eq world fuel r :
  whileSkips world fuel r =
  if consecutiveSkips r <? maxConsecutiveSkips (this r) then
    match fuel with
    | O => (Val false, r)
    | S fuel' => (attempt world ≫= fun _ => whileSkips world fuel') r
    end
  else (Val true, r).
Proof. destruct fuel; cbn [whileSkips]; rewrite bind_eq; cbn [get]; by destruct (_ <? _). Qed.

Lemma whileSkips_completes world n :
  quietFrom world n ->
  forall fuel r,
    0 <= consecutiveSkips r ->
    (roundsLeft n r <= fuel)%nat ->
    exists r', whileSkips world fuel r = (Val true, r')
      /\ currentYear r' = currentYear r
      /\ sameSettings (this r) (this r').
Proof.
  intros Hq fuel. induction fuel as [|fuel IH]; intros r Hk Hfuel;
    rewrite whileSkips_eq;
    destruct (Z.ltb_spec (consecutiveSkips r) (maxConsecutiveSkips (this r)))
      as [Hlt|Hge];
    try (exists r; repeat split; done).
  - exfalso. unfold roundsLeft in Hfuel.
    destruct (Nat.ltb_spec (visits r) n); lia.
  - rewrite bind_eq.
    destruct (attempt_spec world r)
      as (r1 & -> & Hv & Hy & _ & Hs & _ & Hk1 & _).
    destruct (IH r1) as (r' & -> & Hy' & Hs').
    + rewrite Hk1. destruct (site world _ _ _); lia.
    + destruct Hs as (_ & _ & Hm & _).
      unfold roundsLeft in *. rewrite Hv, Hm.
      destruct (Nat.ltb_spec (visits r) n) as [Hvn|Hvn].
      * destruct (Nat.ltb_spec (S (visits r)) n); [lia|].
        assert (0 <= consecutiveSkips r1).
        { rewrite Hk1. destruct (site world _ _ _); lia. }
        lia.
      * destruct (Nat.ltb_spec (S (visits r)) n); [lia|].
        rewrite Hk1.
        destruct (site world (visits r) (currentNumber r) (currentYear r))
          as [data| |message] eqn:E; [|lia..].
        by destruct (Hq _ _ _ data Hvn E).
    + exists r'. split; [done|]. split; [congruence|].
      destruct Hs as (? & ? & ? & ? & ?), Hs' as (? & ? & ? & ? & ?).
      repeat split; congruence.
Qed.

Lemma whileYears_eq world years fuel r :
  whileYears world years fuel r =
  if currentYear r <=? maxYear (this r) then
    match years with
    | O => (Val false, r)
    | S years' =>
        (whileSkips world fuel ≫= fun left : bool =>
           if left then
             flushBatch world ;;
             modify (fun r => set_currentYear (currentYear r + 1) r) ;;
             modify (set_currentNumber 1) ;;
             whileYears world years' fuel
           else mret false) (set_consecutiveSkips 0 r)
    end
  else (Val true, r).
Proof.
  destruct years; cbn [whileYears]; rewrite bind_eq; cbn [get];
    by destruct (_ <=? _).
Qed.

Lemma whileYears_completes world n :
  quietFrom world n ->
  forall years fuel r,
    (Z.to_nat (maxYear (this r) - currentYear r + 1) <= years)%nat ->
    (n + Z.to_nat (maxConsecutiveSkips (this r)) <= fuel)%nat ->
    exists r', whileYears world years fuel r = (Val true, r').
Proof.
  intros Hq years. induction years as [|years IH]; intros fuel r Hy Hfuel;
    rewrite whileYears_eq;
    destruct (Z.leb_spec (currentYear r) (maxYear (this r))) as [Hle|Hgt];
    try (by exists r).
  - lia.
  - rewrite bind_eq.
    destruct (whileSkips_completes world n Hq fuel (set_consecutiveSkips 0 r))
      as (r1 & -> & Hy1 & Hs1).
    + cbn. lia.
    + unfold roundsLeft.
      cbn [visits set_consecutiveSkips this consecutiveSkips].
      destruct (Nat.ltb_spec (visits r) n); lia.
    + rewrite bind_eq.
      destruct (flushBatch_spec world r1) as (r2 & -> & F & _).
      destruct F as (Hs2 & _ & Hy2 & _).
      rewrite !bind_eq. cbn [modify].
      cbn in Hy1, Hs1.
      destruct Hs1 as (_ & Hm1 & Hk1 & _), Hs2 as (_ & Hm2 & Hk2 & _).
      apply IH; cbn; lia.
Qed.

Lemma run_eq world years fuel r :
  run world years fuel r =
  (whileYears world years fuel ≫= fun left : bool =>
     if left then flushBatch world ;; printFinalStats ;; mret true
     else mret false)
    (set_currentNumber (startNumber (this r))
       (set_currentYear (startYear (this r)) r)).
Proof. reflexivity. Qed.

Lemma run_completes world n r :
  quietFrom world n ->
  exists years fuel r', run world years fuel r = (Val true, r').
Proof.
  intros Hq.
  exists (Z.to_nat (maxYear (this r) - startYear (this r) + 1)).
  exists (n + Z.to_nat (maxConsecutiveSkips (this r)))%nat.
  rewrite run_eq, bind_eq.
  edestruct (whileYears_completes world n Hq) as (r1 & ->).
  - cbn. reflexivity.
  - cbn. reflexivity.
  - rewrite bind_eq.
    destruct (flushBatch_spec world r1) as (r2 & -> & _).
    rewrite bind_eq. cbn. eauto.
Qed.

(** *** The course of a run and the storage *)

Lemma course_eq r r' :
  course r = course r' ->
  this r = this r' /\ currentYear r = currentYear r'
  /\ currentNumber r = currentNumber r'
  /\ consecutiveSkips r = consecutiveSkips r'
  /\ visits r = visits r' /\ console r = console r'.
Proof. intros [= ? ? ? ? ? ?]. by repeat split. Qed.

Lemma alike_ret {A} (a : A) : alike (mret a) (mret a).
Proof. intros r r' E. by split. Qed.

Lemma alike_bind {A B} (m m' : M Run A) (f f' : A -> M Run B) :
  alike m m' -> (forall a, alike (f a) (f' a)) -> alike (m ≫= f) (m' ≫= f').
Proof.
  intros Hm Hf r r' E. rewrite !bind_eq. destruct (Hm r r' E) as [Hres Hc].
  destruct (m r) as [[a|e] r1], (m' r') as [[a'|e'] r1']; cbn in Hres, Hc;
    try discriminate.
  - injection Hres as <-. by apply Hf.
  - injection Hres as <-. by split.
Qed.

Lemma alike_get {B} (f f' : Run -> M Run B) :
  (forall r r', course r = course r' -> alike (f r) (f' r')) ->
  alike (get ≫= f) (get ≫= f').
Proof. intros Hf r r' E. rewrite !bind_eq. cbn [get]. by apply Hf. Qed.

Lemma alike_modify (g g' : Run -> Run) :
  (forall r r', course r = course r' -> course (g r) = course (g' r')) ->
  alike (modify g) (modify g').
Proof. intros Hg r r' E. split; [done | by apply Hg]. Qed.

Lemma alike_tryCatch {A} (m m' : M Run A) (h h' : string -> M Run A) :
  alike m m' -> (forall e, alike (h e) (h' e)) ->
  alike (tryCatch m h) (tryCatch m' h').
Proof.
  intros Hm Hh r r' E. unfold tryCatch. destruct (Hm r r' E) as [Hres Hc].
  destruct (m r) as [[a|e] r1], (m' r') as [[a'|e'] r1']; cbn in Hres, Hc;
    try discriminate.
  - by split.
  - injection Hres as <-. by apply Hh.
Qed.

(** What a method of the adapter returns and leaves is lost on the
    course, as long as it returns. *)
Lemma alike_onD1 {A A' B} (m : M D1 A) (m' : M D1 A') (k k' : M Run B) :
  returns m -> returns m' -> alike k k' ->
  alike (onD1 m ≫= fun _ => k) (onD1 m' ≫= fun _ => k').
Proof.
  intros Hm Hm' Hk r r' E. rewrite !bind_eq. unfold onD1.
  destruct (Hm (d1 r)) as (a & d & ->), (Hm' (d1 r')) as (a' & d' & ->).
  apply Hk. apply course_eq in E as (? & ? & ? & ? & ? & ?).
  unfold course. cbn. congruence.
Qed.

Ltac on_course :=
  let r := fresh "r" in
  let r' := fresh "r" in
  let E := fresh "E" in
  intros r r' E;
  apply course_eq in E as (? & ? & ? & ? & ? & ?);
  unfold course; cbn; congruence.

Section Alike.

Variables world world' : World.
Hypothesis same_site :
  forall n number year, site world' n number year = site world n number year.

Lemma scrape_alike number year :
  alike (scrapeECHRApplication world number year)
        (scrapeECHRApplication world' number year).
Proof.
  intros r r' E. apply course_eq in E as (? & ? & ? & ? & Hv & ?).
  unfold scrapeECHRApplication. rewrite same_site, <- Hv.
  destruct (site world (visits r) number year); cbn;
    (split; [done | unfold course; cbn; congruence]).
Qed.

Lemma update_alike f : alike (update f) (update f).
Proof. apply alike_modify. on_course. Qed.

Lemma flushBatch_alike : alike (flushBatch world) (flushBatch world').
Proof.
  unfold flushBatch. apply alike_get. intros r r' E.
  apply course_eq in E as (<- & _).
  destruct (length (batchQueue (this r)) =? 0)%nat; [apply alike_ret|].
  apply alike_onD1; try apply saveBatch_returns.
  apply alike_bind; [apply update_alike | intros _; apply update_alike].
Qed.

Lemma flushIfDue_alike : alike (flushIfDue world) (flushIfDue world').
Proof.
  unfold flushIfDue. apply alike_get. intros r r' E.
  apply course_eq in E as (<- & _).
  destruct (_ <=? _); [apply flushBatch_alike | apply alike_ret].
Qed.

Lemma attempt_alike : alike (attempt world) (attempt world').
Proof.
  unfold attempt.
  apply alike_bind; [apply update_alike | intros _].
  apply alike_bind.
  { apply alike_tryCatch.
    - apply alike_bind; [apply update_alike | intros _].
      apply alike_get. intros r r' E.
      apply course_eq in E as (_ & <- & <- & _).
      apply alike_bind; [apply scrape_alike | intros data].
      apply alike_bind; [|intros _; apply flushIfDue_alike].
      destruct data as [data|].
      + apply alike_bind; [apply update_alike | intros _].
        apply alike_bind; [apply update_alike | intros _].
        apply alike_modify. on_course.
      + apply alike_bind; [apply alike_modify; on_course | intros _].
        apply update_alike.
    - intros _.
      apply alike_bind; [apply update_alike | intros _].
      apply alike_bind; [apply alike_modify; on_course | intros _].
      apply alike_bind; [apply update_alike | intros _].
      apply flushIfDue_alike. }
  intros _. apply alike_bind; [apply alike_modify; on_course | intros _].
  apply alike_get. intros r r' E. apply course_eq in E as (<- & _).
  destruct (_ =? 0); [|apply alike_ret].
  unfold printProgress. apply alike_modify. on_course.
Qed.

Lemma whileSkips_alike fuel :
  alike (whileSkips world fuel) (whileSkips world' fuel).
Proof.
  induction fuel as [|fuel IH]; cbn [whileSkips]; apply alike_get;
    intros r r' E; apply course_eq in E as (<- & _ & _ & <- & _);
    destruct (_ <? _); try apply alike_ret.
  apply alike_bind; [apply attempt_alike | intros _; apply IH].
Qed.

Lemma whileYears_alike years fuel :
  alike (whileYears world years fuel) (whileYears world' years fuel).
Proof.
  induction years as [|years IH]; cbn [whileYears]; apply alike_get;
    intros r r' E; apply course_eq in E as (<- & <- & _);
    destruct (_ <=? _); try apply alike_ret.
  apply alike_bind; [apply alike_modify; on_course | intros _].
  apply alike_bind; [apply whileSkips_alike | intros left].
  destruct left; [|apply alike_ret].
  apply alike_bind; [apply flushBatch_alike | intros _].
  apply alike_bind; [apply alike_modify; on_course | intros _].
  apply alike_bind; [apply alike_modify; on_course | intros _].
  apply IH.
Qed.

Lemma run_alike years fuel :
  alike (run world years fuel) (run world' years fuel).
Proof.
  unfold run. apply alike_get. intros r r' E.
  apply course_eq in E as (<- & _).
  apply alike_bind; [apply alike_modify; on_course | intros _].
  apply alike_bind; [apply alike_modify; on_course | intros _].
  apply alike_bind; [apply whileYears_alike | intros left].
  destruct left; [|apply alike_ret].
  apply alike_bind; [apply flushBatch_alike | intros _].
  apply alike_bind; [|intros _; apply alike_ret].
  unfold printFinalStats. apply alike_modify. on_course.
Qed.

End Alike.

(** *** What the store keeps through a run *)

Section CrawlKeeps.

Variable world : World.
Variable Q : Store -> Prop.
Hypothesis submit_keeps :
  forall c st, Sent c -> Q st -> Q (submit (remote world) c st).2.
Hypothesis asked_keeps :
  forall c st, Sent c -> Q st -> Q (asked c st).
Hypothesis stall_keeps :
  forall sql st st',
    (exchange (remote world) sql st).1 = Val false -> Q st' -> Q (stall st').

Let P (r : Run) : Prop := Q (store (d1 r)).

Lemma onD1_keeps {A} (m : M D1 A) :
  keeps (fun s => Q (store s)) m -> keeps P (onD1 m).
Proof.
  intros Hm r H. unfold onD1. specialize (Hm (d1 r) H).
  by destruct (m (d1 r)).
Qed.

Lemma scrape_keeps number year : keeps P (scrapeECHRApplication world number year).
Proof.
  intros r H. unfold scrapeECHRApplication. by destruct (site world _ _ _).
Qed.

Lemma flushBatch_keeps_store : keeps P (flushBatch world).
Proof.
  unfold flushBatch, update.
  repeat first
    [ apply onD1_keeps,
        (saveBatch_keeps (remote world) Q (fun _ => True)
           (fun c st Hc _ => submit_keeps c st Hc) asked_keeps stall_keeps),
        coversBatch_all
    | keeps_step ]; done.
Qed.

Lemma attempt_keeps_store : keeps P (attempt world).
Proof.
  unfold attempt, flushIfDue, update, printProgress.
  repeat first
    [ apply flushBatch_keeps_store | apply scrape_keeps | keeps_step ];
    done.
Qed.

Lemma run_keeps_store years fuel : keeps P (run world years fuel).
Proof.
  apply run_keeps; try done.
  - apply attempt_keeps_store.
  - apply flushBatch_keeps_store.
Qed.

End CrawlKeeps.

(** *** No wait is cut short *)

Lemma submit_stalled rem c st : stalled (submit rem c st).2 = stalled st.
Proof. unfold submit. by destruct (outcome _ _ _ _). Qed.

Lemma run_settles world years fuel r :
  settles (remote world) ->
  stalled (store (d1 r)) = false ->
  stalled (store (d1 (run world years fuel r).2)) = false.
Proof.
  intros Hs Hr.
  apply (run_keeps_store world (fun st => stalled st = false)); [..|done].
  - intros c st _ H. by rewrite submit_stalled.
  - intros c st _ H. exact H.
  - intros sql st st' Hx _. by destruct (exchange_settles _ sql st Hs).
Qed.

(** C7. The run never throws, whatever the pages requested give (a
    record, [null] or an exception) and however the calls of the saves
    go.  A check asks for one page and adds one to the statistic of its
    outcome, [errors] for a page request that throws.  What the saves
    return and leave is not in the statistics, nor anywhere else in the
    course of the run: with the same site, the run takes the same course
    on any storage service, from any store.  Once the site stops giving
    pages the run reaches the final summary, without a wait cut short if
    every wait for an import ends. *)
Theorem run_survives_failures world r :
  (forall years fuel, exists finished r',
      run world years fuel r = (Val finished, r'))
  /\ (exists r',
        attempt world r = (Val tt, r')
        /\ visits r' = S (visits r)
        /\ stats (this r')
           = match site world (visits r) (currentNumber r) (currentYear r) with
             | Found _ => incr_found (incr_totalChecked (stats (this r)))
             | NotFound => incr_notFound (incr_totalChecked (stats (this r)))
             | Failed _ => incr_errors (incr_totalChecked (stats (this r)))
             end)
  /\ (forall world' r' years fuel,
        (forall n number year,
            site world' n number year = site world n number year) ->
        course r' = course r ->
        (run world' years fuel r').1 = (run world years fuel r).1
        /\ course (run world' years fuel r').2
           = course (run world years fuel r).2)
  /\ (forall n,
        quietFrom world n ->
        settles (remote world) ->
        stalled (store (d1 r)) = false ->
        exists years fuel r',
          run world years fuel r = (Val true, r')
          /\ stalled (store (d1 r')) = false).
Proof.
  split; [|split; [|split]].
  - intros years fuel. apply run_returns.
  - destruct (attempt_spec world r) as (r' & E & Hv & _ & _ & _ & Hs & _).
    by exists r'.
  - intros world' r' years fuel Hsite Hc.
    destruct (run_alike world world' Hsite years fuel r r') as [Hres Hcourse];
      [done|]. by split.
  - intros n Hq Hs Hr.
    destruct (run_completes world n r Hq) as (years & fuel & r' & E).
    exists years, fuel, r'. split; [done|].
    pose proof (run_settles world years fuel r Hs Hr) as K.
    by rewrite E in K.
Qed.

(** *** The end of a year *)

Lemma flushIfDue_cases world r :
  exists r', flushIfDue world r = (Val tt, r')
    /\ sameFrame r r'
    /\ (r' = r
        \/ (batchQueue (this r) <> [] /\ batchQueue (this r') = []
            /\ d1 r' = (saveBatch (remote world) (batchQueue (this r)) (d1 r)).2)).
Proof.
  unfold flushIfDue. rewrite bind_eq. cbn [get].
  destruct (BATCH_ATTEMPTS (this r) <=? attemptCounter (this r)).
  - destruct (flushBatch_spec world r) as (r' & -> & F & Q & Hnil & Hne).
    exists r'. split; [done|]. split; [done|].
    destruct (batchQueue (this r)) as [|data queue] eqn:E.
    + left. by apply Hnil.
    + right. destruct Hne as (_ & D); [done|]. by repeat split.
  - exists r. split; [done|]. split; [apply sameFrame_refl | by left].
Qed.

(** A check either leaves the queue, with the record found if any, and
    the adapter as they are, or, a flush being due, hands the queue to
    [saveBatch] and empties it. *)
Lemma attempt_pending world r :
  let outcome := site world (visits r) (currentNumber r) (currentYear r) in
  let queue := match outcome with
               | Found data => batchQueue (this r) ++ [data]
               | _ => batchQueue (this r)
               end in
  let r' := (attempt world r).2 in
  (batchQueue (this r') = queue /\ d1 r' = d1 r)
  \/ (queue <> [] /\ batchQueue (this r') = []
      /\ d1 r' = (saveBatch (remote world) queue (d1 r)).2).
Proof.
  intros outcome queue r'. subst r' queue outcome.
  run_attempt.
  destruct (site world (visits r) (currentNumber r) (currentYear r))
    as [data| |message];
    match goal with
    | |- context [flushIfDue world ?x] =>
        destruct (flushIfDue_cases world x) as (r1 & -> & _ & [->|Hflush])
    end;
    cbn;
    try (left; by destruct (_ =? 0));
    destruct Hflush as (Hne & Q & D); cbn in Hne, Q, D;
    right; by destruct (_ =? 0).
Qed.

(** C5. With [maxConsecutiveSkips] 3 and the outcomes found, not found,
    not found, not found, the inner loop is still running after the third
    check and is left after the fourth; the queue, which holds the record
    found, has been handed to [saveBatch] and is empty, the year has
    advanced by one and the number is 1. *)
Theorem year_ends_after_three_skips world r data :
  maxConsecutiveSkips (this r) = 3 ->
  currentYear r <= maxYear (this r) ->
  site world (visits r) (currentNumber r) (currentYear r) = Found data ->
  site world (S (visits r)) (currentNumber r + 1) (currentYear r) = NotFound ->
  site world (S (S (visits r))) (currentNumber r + 1 + 1) (currentYear r)
  = NotFound ->
  site world (S (S (S (visits r)))) (currentNumber r + 1 + 1 + 1) (currentYear r)
  = NotFound ->
  (whileSkips world 3 (set_consecutiveSkips 0 r)).1 = Val false
  /\ forall fuel, (4 <= fuel)%nat ->
       let r' := (whileYears world 1 fuel r).2 in
       visits r' = S (S (S (S (visits r))))
       /\ currentYear r' = currentYear r + 1
       /\ currentNumber r' = 1
       /\ batchQueue (this r') = []
       /\ d1 r' = (saveBatch (remote world) (batchQueue (this r) ++ [data])
                             (d1 r)).2.
Proof.
  intros Hmax Hyear O1 O2 O3 O4.
  pose (r0 := set_consecutiveSkips 0 r).
  pose (queue := batchQueue (this r) ++ [data]).
  pose (saved := (saveBatch (remote world) queue (d1 r)).2).
  pose (held := fun x : Run =>
                  (batchQueue (this x) = queue /\ d1 x = d1 r)
                  \/ (batchQueue (this x) = [] /\ d1 x = saved)).
  assert (queue <> []) as Hqueue by (subst queue; by destruct (batchQueue (this r))).
  assert (forall x,
             site world (visits x) (currentNumber x) (currentYear x) = NotFound ->
             held x -> held (attempt world x).2) as Hstep.
  { intros x Hx Hheld. pose proof (attempt_pending world x) as Hp.
    rewrite Hx in Hp. cbv zeta in Hp.
    destruct Hheld as [[Hq Hd]|[Hq Hd]];
      destruct Hp as [[Hq' Hd']|(Hne & Hq' & Hd')].
    - left. split; congruence.
    - right. split; [done|]. rewrite Hd', Hq, Hd. done.
    - right. split; congruence.
    - by rewrite Hq in Hne. }
  destruct (attempt_spec world r0)
    as (r1 & E1 & V1 & Y1 & N1 & S1 & _ & K1 & _).
  pose proof (attempt_pending world r0) as P1. rewrite E1 in P1.
  cbn [r0 visits currentNumber currentYear set_consecutiveSkips snd] in *.
  rewrite O1 in *. cbv zeta in P1.
  change (this r0) with (this r) in *. change (d1 r0) with (d1 r) in *.
  assert (held r1) as H1.
  { destruct P1 as [[? ?]|(_ & ? & ?)]; [by left | by right]. }
  destruct (attempt_spec world r1)
    as (r2 & E2 & V2 & Y2 & N2 & S2 & _ & K2 & _).
  rewrite V1, Y1, N1, O2 in *.
  destruct S1 as (_ & _ & M1 & _).
  assert (held r2) as H2.
  { replace r2 with (attempt world r1).2 by (by rewrite E2).
    apply Hstep; [by rewrite V1, Y1, N1 | done]. }
  destruct (attempt_spec world r2)
    as (r3 & E3 & V3 & Y3 & N3 & S3 & _ & K3 & _).
  rewrite V2, Y2, N2, O3 in *.
  destruct S2 as (_ & _ & M2 & _).
  assert (held r3) as H3.
  { replace r3 with (attempt world r2).2 by (by rewrite E3).
    apply Hstep; [by rewrite V2, Y2, N2 | done]. }
  destruct (attempt_spec world r3)
    as (r4 & E4 & V4 & Y4 & N4 & S4 & _ & K4 & _).
  rewrite V3, Y3, N3, O4 in *.
  destruct S3 as (_ & _ & M3 & _).
  assert (held r4) as H4.
  { replace r4 with (attempt world r3).2 by (by rewrite E4).
    apply Hstep; [by rewrite V3, Y3, N3 | done]. }
  destruct S4 as (_ & HY4 & M4 & _).
  assert (whileSkips world 3 r0 = (Val false, r3)) as L3.
  { rewrite whileSkips_eq. cbn [r0 this consecutiveSkips set_consecutiveSkips].
    destruct (Z.ltb_spec 0 (maxConsecutiveSkips (this r))); [|lia].
    rewrite bind_eq. fold r0. rewrite E1.
    rewrite whileSkips_eq.
    destruct (Z.ltb_spec (consecutiveSkips r1) (maxConsecutiveSkips (this r1)));
      [|lia].
    rewrite bind_eq, E2.
    rewrite whileSkips_eq.
    destruct (Z.ltb_spec (consecutiveSkips r2) (maxConsecutiveSkips (this r2)));
      [|lia].
    rewrite bind_eq, E3.
    rewrite whileSkips_eq.
    destruct (Z.ltb_spec (consecutiveSkips r3) (maxConsecutiveSkips (this r3)));
      [|lia].
    reflexivity. }
  split; [fold r0; by rewrite L3|].
  intros fuel Hfuel.
  do 4 (destruct fuel as [|fuel]; [lia|]).
  assert (whileSkips world (S (S (S (S fuel)))) r0 = (Val true, r4)) as L4.
  { rewrite whileSkips_eq. cbn [r0 this consecutiveSkips set_consecutiveSkips].
    destruct (Z.ltb_spec 0 (maxConsecutiveSkips (this r))); [|lia].
    rewrite bind_eq. fold r0. rewrite E1.
    rewrite whileSkips_eq.
    destruct (Z.ltb_spec (consecutiveSkips r1) (maxConsecutiveSkips (this r1)));
      [|lia].
    rewrite bind_eq, E2.
    rewrite whileSkips_eq.
    destruct (Z.ltb_spec (consecutiveSkips r2) (maxConsecutiveSkips (this r2)));
      [|lia].
    rewrite bind_eq, E3.
    rewrite whileSkips_eq.
    destruct (Z.ltb_spec (consecutiveSkips r3) (maxConsecutiveSkips (this r3)));
      [|lia].
    rewrite bind_eq, E4.
    rewrite whileSkips_eq.
    destruct (Z.ltb_spec (consecutiveSkips r4) (maxConsecutiveSkips (this r4)));
      [lia|].
    reflexivity. }
  rewrite whileYears_eq.
  destruct (Z.leb_spec (currentYear r) (maxYear (this r))); [|lia].
  rewrite bind_eq. fold r0. rewrite L4.
  rewrite bind_eq.
  destruct (flushBatch_spec world r4) as (r5 & -> & F & Q5 & Hnil & Hne).
  assert (d1 r5 = saved) as D5.
  { destruct H4 as [[Hq Hd]|[Hq Hd]].
    - destruct Hne as (_ & ->); [by rewrite Hq|]. by rewrite Hq, Hd.
    - by rewrite (Hnil Hq). }
  destruct F as (_ & _ & Y5 & _ & _ & V5 & _).
  repeat (rewrite bind_eq; cbn [modify]).
  rewrite whileYears_eq.
  set (r6 := set_currentNumber 1 _).
  assert (visits r6 = visits r5 /\ currentYear r6 = currentYear r5 + 1
          /\ currentNumber r6 = 1 /\ this r6 = this r5 /\ d1 r6 = d1 r5)
    as (V6 & Y6 & N6 & T6 & D6) by done.
  assert ((if currentYear r6 <=? maxYear (this r6)
           then (Val false, r6) else (Val true, r6)).2 = r6) as ->
    by (by destruct (_ <=? _)).
  rewrite V6, Y6, N6, T6, D6, V5, Y5, Q5, D5, V4, Y4.
  done.
Qed.

Lemma year_ends_after_three_skips_witness :
  let r := set_currentNumber 37816
             (set_currentYear 18
                (initial Sample.shortConfig false Sample.emptyDb)) in
  (whileSkips Sample.onePage 3 (set_consecutiveSkips 0 r)).1 = Val false
  /\ forall fuel, (4 <= fuel)%nat ->
       let r' := (whileYears Sample.onePage 1 fuel r).2 in
       visits r' = 4%nat
       /\ currentYear r' = 19
       /\ currentNumber r' = 1
       /\ batchQueue (this r') = []
       /\ d1 r' = (saveBatch Sample.reliable [Sample.ivanov] (d1 r)).2.
Proof.
  intros r.
  apply (year_ends_after_three_skips Sample.onePage r Sample.ivanov);
    first [reflexivity | (cbn; lia)].
Defined.

(** With a start number other than 1 the number a new year starts from is
    not the start number. *)
Lemma new_year_starts_at_one :
  let r := set_currentNumber 37816
             (set_currentYear 18
                (initial Sample.shortConfig false Sample.emptyDb)) in
  let r' := (whileYears Sample.onePage 1 4 r).2 in
  startNumber (this r') = 37816
  /\ currentYear r' = 19
  /\ currentNumber r' = 1
  /\ currentNumber r' <> startNumber (this r').
Proof. vm_compute. repeat split; discriminate. Qed.

Lemma attempt_counts_witness :
  attemptCounter
    (this (attempt Sample.broken
             (initial Sample.shortConfig false Sample.emptyDb)).2) = 2.
Proof.
  apply (attempt_counts Sample.broken
           (initial Sample.shortConfig false Sample.emptyDb)).
  reflexivity.
Defined.

Lemma settles_unreachable : settles Sample.unreachable.
Proof. intros n bookmark sent. discriminate. Qed.

Lemma quiet_flaky world :
  site world = Sample.flaky -> quietFrom world 1.
Proof.
  intros E i number year data Hi. rewrite E.
  destruct i as [|[|i]]; [lia | discriminate | discriminate].
Qed.

Lemma run_survives_failures_witness :
  (exists r',
      attempt Sample.cutOff (initial Sample.shortConfig true Sample.emptyDb)
      = (Val tt, r')
      /\ visits r' = 1%nat
      /\ stats (this r')
         = {| found := 1; notFound := 0; errors := 0; totalChecked := 1 |})
  /\ course (run Sample.stored 2 5
               (initial Sample.shortConfig false Sample.lapsedDb)).2
     = course (run Sample.cutOff 2 5
                 (initial Sample.shortConfig true Sample.emptyDb)).2
  /\ exists years fuel r',
       run Sample.cutOff years fuel
           (initial Sample.shortConfig true Sample.emptyDb) = (Val true, r')
       /\ stalled (store (d1 r')) = false.
Proof.
  destruct (run_survives_failures Sample.cutOff
              (initial Sample.shortConfig true Sample.emptyDb))
    as (_ & Hcheck & Hcourse & Hend).
  split; [exact Hcheck|]. split.
  - apply (Hcourse Sample.stored
             (initial Sample.shortConfig false Sample.lapsedDb) 2%nat 5%nat);
      reflexivity.
  - apply (Hend 1%nat);
      [by apply quiet_flaky | apply settles_unreachable | reflexivity].
Defined.

(** With an import whose polls never say that it is over, the process is
    still waiting where the model has the run return. *)
Lemma endless_import_holds_run :
  ~ settles Sample.waiting
  /\ stalled
       (store (d1 (run Sample.held 2 5
                     (initial Sample.shortConfig true Sample.emptyDb)).2))
     = true.
Proof.
  split; [|vm_compute; reflexivity].
  intros H. by apply (H 0%nat "00000001" []).
Qed.

(** A run whose only batch is lost, with its one record, ends with the
    statistics of the run on a storage service that saves the batch: the
    failure of the batch is in none of them. *)
Lemma lost_batch_not_counted :
  let start := initial Sample.shortConfig true Sample.emptyDb in
  (saveBatch Sample.unreachable [Sample.ivanov] (d1 start)).1
  = Val {| success := 0; failed := 1 |}
  /\ (saveBatch Sample.reliable [Sample.ivanov] (d1 start)).1
     = Val {| success := 1; failed := 0 |}
  /\ db (store (d1 (run Sample.cutOff 2 5 start).2)) = Sample.emptyDb
  /\ stats (this (run Sample.cutOff 2 5 start).2)
     = {| found := 1; notFound := 5; errors := 1; totalChecked := 7 |}
  /\ stats (this (run Sample.stored 2 5 start).2)
     = {| found := 1; notFound := 5; errors := 1; totalChecked := 7 |}
  /\ console (run Sample.cutOff 2 5 start).2
     = console (run Sample.stored 2 5 start).2.
Proof. vm_compute. repeat split; reflexivity. Qed.

(** *** What the crawl sends *)

Lemma sent_markFree c : Sent c -> markFree c = true.
Proof.
  intros [body|body|data rid|body|i data|casesData]; try reflexivity.
  unfold markFree, statements, buildBatchSQLWithReps.
  rewrite !forallb_app. repeat (apply andb_true_iff; split).
  - by destruct (0 <? _).
  - induction casesData as [|d l IH]; [done|]. simpl. exact IH.
  - induction casesData as [|d l IH]; [done|].
    cbn [List.map concat]. rewrite forallb_app, IH, andb_true_r.
    unfold batchEventSQL. by destruct (0 <? _).
Qed.


Lemma submit_journal rem c st :
  journal (submit rem c st).2 = journal st ++ [c].
Proof. unfold submit. by destruct (outcome _ _ _ _). Qed.

(** C2. The crawl loop never sends the statement that adds one to the
    not-found counter.  A check adds to the journal of commands sent only
    commands of a flush of the queue, none of which holds that statement;
    a check that finds no page or fails, with no flush due, leaves the
    adapter and the store as they were; and the journal of a whole run
    holds no such statement. *)
Theorem crawl_never_marks world :
  (forall r, exists sent,
      journal (store (d1 (attempt world r).2)) = journal (store (d1 r)) ++ sent
      /\ Forall (fun c => markFree c = true) sent)
  /\ (forall r,
        let outcome := site world (visits r) (currentNumber r) (currentYear r) in
        let weight := match outcome with Failed _ => 2 | _ => 1 end in
        attemptCounter (this r) + weight < BATCH_ATTEMPTS (this r) ->
        d1 (attempt world r).2 = d1 r)
  /\ (forall config credentials database years fuel,
        Forall (fun c => markFree c = true)
               (journal (store (d1 (run world years fuel
                                        (initial config credentials database)).2)))).
Proof.
  split; [|split].
  - intros r.
    apply (attempt_keeps_store world
             (fun st => exists sent,
                  journal st = journal (store (d1 r)) ++ sent
                  /\ Forall (fun c => markFree c = true) sent)).
    + intros c st Hc (sent & E & F). exists (sent ++ [c]).
      rewrite submit_journal, E, app_assoc. split; [done|].
      apply Forall_app. split; [done|]. constructor; [|done].
      by apply sent_markFree.
    + intros c st Hc (sent & E & F). exists (sent ++ [c]).
      cbn [asked journal]. rewrite E, app_assoc. split; [done|].
      apply Forall_app. split; [done|]. constructor; [|done].
      by apply sent_markFree.
    + intros _ _ st _ H. exact H.
    + exists []. by rewrite app_nil_r.
  - intros r outcome weight H.
    destruct (attempt_spec world r)
      as (r' & -> & _ & _ & _ & _ & _ & _ & _ & Hw).
    cbn [snd]. by apply Hw.
  - intros config credentials database years fuel.
    apply (run_keeps_store world
             (fun st => Forall (fun c => markFree c = true) (journal st))).
    + intros c st Hc F. rewrite submit_journal.
      apply Forall_app. split; [done|]. constructor; [|done].
      by apply sent_markFree.
    + intros c st Hc F. cbn [asked journal].
      apply Forall_app. split; [done|]. constructor; [|done].
      by apply sent_markFree.
    + intros _ _ st _ H. exact H.
    + constructor.
Qed.

Lemma crawl_never_marks_witness :
  d1 (attempt Sample.noPage
        (initial Sample.shortConfig false Sample.emptyDb)).2
  = d1 (initial Sample.shortConfig false Sample.emptyDb).
Proof.
  destruct (crawl_never_marks Sample.noPage) as (_ & H & _).
  apply (H (initial Sample.shortConfig false Sample.emptyDb)).
  reflexivity.
Defined.

(** A check that finds no page, and one that fails, send nothing. *)
Lemma not_found_sends_nothing :
  let r := initial Sample.shortConfig false Sample.emptyDb in
  site Sample.noPage (visits r) (currentNumber r) (currentYear r) = NotFound
  /\ journal (store (d1 (attempt Sample.noPage r).2)) = []
  /\ site Sample.broken (visits r) (currentNumber r) (currentYear r)
     = Failed "Timeout 15000ms exceeded"
  /\ journal (store (d1 (attempt Sample.broken r).2)) = []
  /\ ~ (forall world r,
          site world (visits r) (currentNumber r) (currentYear r) = NotFound ->
          exists c, c ∈ journal (store (d1 (attempt world r).2))
                    /\ markFree c = false).
Proof.
  repeat split; try reflexivity.
  intros H.
  destruct (H Sample.noPage (initial Sample.shortConfig false Sample.emptyDb)
              eq_refl) as (c & Hc & _).
  vm_compute in Hc. by apply elem_of_nil in Hc.
Qed.

(** ** The texts of a record in its statements *)

Lemma all_doubleQuotes p (s : string) :
  p "'"%char = true -> Js.all p s = true -> Js.all p (Js.doubleQuotes s) = true.
Proof.
  intros Hq. induction s as [|c s IH]; [done|]. cbn [Js.all Js.doubleQuotes].
  intros H. apply andb_true_iff in H as [Hc Hs].
  destruct (ascii_dec c "'"); cbn [Js.all]; rewrite ?Hq, ?Hc, IH; done.
Qed.

Lemma all_trimStart p (s : string) :
  Js.all p s = true -> Js.all p (Js.trimStart s) = true.
Proof.
  induction s as [|c s IH]; [done|]. cbn [Js.trimStart].
  destruct (Js.isWhiteSpace c); [|done].
  cbn [Js.all]. intros H. apply andb_true_iff in H as [_ H]. by apply IH.
Qed.

Lemma all_trimEnd p (s : string) :
  Js.all p s = true -> Js.all p (Js.trimEnd s) = true.
Proof.
  induction s as [|c s IH]; [done|]. cbn [Js.all Js.trimEnd].
  intros H. apply andb_true_iff in H as [Hc Hs]. specialize (IH Hs).
  destruct (Js.trimEnd s).
  - destruct (Js.isWhiteSpace c); [done|]. cbn. by rewrite Hc.
  - change (p c && Js.all p (String a s0) = true). by rewrite Hc, IH.
Qed.

Lemma all_spacesThenGroup p (s g : string) :
  spacesThenGroup s = Some g -> Js.all p s = true -> Js.all p g = true.
Proof.
  revert g. induction s as [|c s IH]; intros g; [done|].
  cbn [spacesThenGroup]. intros H Hall.
  pose proof Hall as Hcs. cbn [Js.all] in Hcs.
  apply andb_true_iff in Hcs as [_ Hs].
  destruct (Js.isWhiteSpace c).
  - destruct (spacesThenGroup s) as [g'|].
    + injection H as <-. by apply IH.
    + destruct (restOfLine (String c s)); [|done]. by injection H as <-.
  - destruct (restOfLine (String c s)); [|done]. by injection H as <-.
Qed.

Lemma all_matchCountry p (s g : string) :
  matchCountry s = Some g -> Js.all p s = true -> Js.all p g = true.
Proof.
  revert g. induction s as [|c s IH]; intros g.
  - cbn. done.
  - change (matchCountry (String c s))
      with (match matchCountryHere (String c s) with
            | Some g => Some g
            | None => matchCountry s
            end).
    rewrite matchCountryHere_eq. intros H Hall.
    pose proof Hall as Hcs. cbn [Js.all] in Hcs.
    apply andb_true_iff in Hcs as [_ Hs].
    destruct s as [|b [|w rest]]; [done | by apply IH |].
    destruct (bool_decide (c = "v"%char) && bool_decide (b = "."%char)
              && Js.isWhiteSpace w); [|by apply IH].
    destruct (spacesThenGroup rest) as [g'|] eqn:E; [|by apply IH].
    injection H as <-. apply (all_spacesThenGroup p rest); [done|].
    cbn [Js.all] in Hs. apply andb_true_iff in Hs as [_ Hs].
    by apply andb_true_iff in Hs as [_ Hs].
Qed.

Lemma all_extractCountry p (title country : string) :
  extractCountry title = Some country ->
  Js.all p title = true -> Js.all p country = true.
Proof.
  unfold extractCountry. destruct (matchCountry title) as [g|] eqn:E; [|done].
  intros [= <-] H. unfold Js.trim.
  apply all_trimEnd, all_trimStart. by eapply all_matchCountry.
Qed.

Lemma all_repeat p c n : p c = true -> Js.all p (Js.repeat c n) = true.
Proof. intros H. induction n as [|n IH]; [done|]. cbn. by rewrite H. Qed.

Lemma all_padStart p n c (s : string) :
  p c = true -> Js.all p s = true -> Js.all p (Js.padStart n c s) = true.
Proof.
  intros Hc Hs. unfold Js.padStart. by rewrite all_app, all_repeat, Hs.
Qed.

Lemma all_split p sep (s : string) :
  Js.all p s = true ->
  Forall (fun piece => Js.all p piece = true) (Js.split sep s).
Proof.
  induction s as [|c s IH]; cbn [Js.split Js.all]; intros H.
  - by repeat constructor.
  - apply andb_true_iff in H as [Hc Hs]. specialize (IH Hs).
    destruct (ascii_dec c sep); [by constructor|].
    destruct (Js.split sep s) as [|piece rest].
    + repeat constructor. cbn. by rewrite Hc.
    + inversion IH; subst. constructor; [|done]. cbn. by rewrite Hc.
Qed.

(** What [convertDate] writes holds code units of the date, zeros and
    dashes only; for a date it gives [null] for, the template writes the
    word null. *)
Lemma all_convertDate p (x : option string) :
  Js.all p "null-0" = true ->
  from_option (Js.all p) true x = true ->
  Js.all p (Js.interp (convertDate x)) = true.
Proof.
  intros Hp Hx. cbn in Hp.
  repeat (let E := fresh "E" in
          apply andb_true_iff in Hp as [E Hp]).
  assert (Js.all p "null" = true) as Hnull by (cbn; by rewrite E, E0, E1).
  destruct x as [s|]; [|done]. cbn [from_option] in Hx. unfold convertDate.
  destruct (negb (Js.nonEmpty s)); [done|].
  destruct (matchesIsoDate s); [done|].
  pose proof (all_split p "/" s Hx) as Hpieces.
  destruct (Js.split "/" s) as [|day [|month [|year rest]]]; try done.
  destruct (_ || _); [done|]. cbn [Js.interp].
  inversion Hpieces as [|? ? Hday H1]; subst.
  inversion H1 as [|? ? Hmonth H2]; subst.
  inversion H2 as [|? ? Hyear H3]; subst.
  rewrite !all_app, Hyear, !all_padStart by done. cbn. by rewrite E3.
Qed.

Lemma quoteFree_text (s : string) : quoteFree s = true -> Sql.text s = Some s.
Proof.
  induction s as [|c s IH]; [done|]. unfold quoteFree. cbn [Js.all Sql.text].
  intros H. apply andb_true_iff in H as [Hc Hs].
  destruct (ascii_dec c "'") as [->|_]; [done|]. by rewrite (IH Hs).
Qed.

Lemma text_literal (body : string) :
  literal body = true <-> exists s, Sql.text body = Some s.
Proof.
  unfold literal. destruct (Sql.text body) as [s|]; split; try done; eauto.
  by intros [s ?].
Qed.

Lemma quoteFree_literal (s : string) : quoteFree s = true -> literal s = true.
Proof. intros H. apply text_literal. exists s. by apply quoteFree_text. Qed.

(** ** The storage engine *)

Lemma text_doubleQuotes (s : string) : Sql.text (Js.doubleQuotes s) = Some s.
Proof.
  induction s as [|c s IH]; [reflexivity|].
  cbn [Js.doubleQuotes]. destruct (ascii_dec c "'") as [->|Hc].
  - cbn. by rewrite IH.
  - cbn [Sql.text]. destruct (ascii_dec c "'"); [done|]. by rewrite IH.
Qed.

Lemma text_escaped (x : string) :
  Sql.text (Js.interp (escapeSQL (Some x))) = Some (shown x).
Proof.
  unfold escapeSQL, shown. destruct (Js.nonEmpty x); [|reflexivity].
  apply text_doubleQuotes.
Qed.

Lemma eval_quotedOrNull clk d (x : option string) :
  Sql.eval clk d (quotedOrNull x) = Some (stored x).
Proof.
  unfold quotedOrNull, stored. destruct x as [s|]; [|reflexivity].
  cbn [Js.truthy]. destruct (Js.nonEmpty s) eqn:E; [|reflexivity].
  cbn [Sql.eval]. unfold escapeSQL. rewrite E. cbn [Js.interp].
  by rewrite text_doubleQuotes.
Qed.

Lemma eval_rawOrNull clk d (x : option string) :
  Sql.eval clk d (rawOrNull x) = storedRaw x.
Proof. unfold rawOrNull, storedRaw. by destruct (Js.truthy x). Qed.

(** ** The commands the engine reads as they are written *)

Lemma fits_raw shell (x : string) :
  quoteFree x = true -> (shell = true -> Shell.plain x = true) ->
  fits shell x = true.
Proof.
  intros Hq Hs. unfold fits. rewrite quoteFree_literal by done.
  destruct shell; [by apply Hs | done].
Qed.

Lemma fits_doubleQuotes shell (x : string) :
  (shell = true -> Shell.plain x = true) ->
  fits shell (Js.doubleQuotes x) = true.
Proof.
  intros Hs. unfold fits, literal. rewrite text_doubleQuotes.
  destruct shell; [|done]. by apply all_doubleQuotes; [|apply Hs].
Qed.

Lemma fits_escaped shell (x : string) :
  (shell = true -> Shell.plain x = true) ->
  fits shell (Js.interp (escapeSQL (Some x))) = true.
Proof.
  intros Hs. unfold escapeSQL. destruct (Js.nonEmpty x); cbn [Js.interp].
  - by apply fits_doubleQuotes.
  - by destruct shell.
Qed.

Lemma fits_date shell (x : option string) :
  from_option quoteFree true x = true ->
  (shell = true -> from_option Shell.plain true x = true) ->
  fits shell (Js.interp (convertDate x)) = true.
Proof.
  intros Hq Hs. apply fits_raw.
  - apply all_convertDate; [done|]. by destruct x.
  - intros ->. apply all_convertDate; [done|]. specialize (Hs eq_refl).
    by destruct x.
Qed.

Lemma fits_quotedOrNull shell (x : option string) :
  (shell = true -> from_option Shell.plain true x = true) ->
  forallb (fits shell) (exprTexts (quotedOrNull x)) = true.
Proof.
  intros Hs. unfold quotedOrNull. destruct x as [s|]; [|done].
  cbn [Js.truthy]. destruct (Js.nonEmpty s); [|done].
  cbn [exprTexts forallb]. by rewrite fits_escaped.
Qed.

Lemma fits_rawDate shell (x : option string) :
  from_option quoteFree true x = true ->
  (shell = true -> from_option Shell.plain true x = true) ->
  forallb (fits shell) (exprTexts (rawOrNull (convertDate x))) = true.
Proof.
  intros Hq Hs. unfold rawOrNull. destruct (Js.truthy (convertDate x)); [|done].
  cbn [exprTexts forallb]. by rewrite fits_date.
Qed.

Lemma sqlSafe_parts data :
  sqlSafe data = true ->
  quoteFree (applicationNumber data) = true
  /\ from_option quoteFree true (dateIntroduction data) = true
  /\ from_option quoteFree true (lastMajorEventDate data) = true
  /\ forall event, event ∈ majorEventsList data ->
                   quoteFree (eventDate event) = true.
Proof.
  unfold sqlSafe. intros H.
  repeat (let E := fresh "E" in apply andb_true_iff in H as [H E]).
  repeat split; try done.
  intros event Hin. rewrite forallb_forall in E.
  by apply E, list_elem_of_In.
Qed.

Lemma shellSafe_parts data :
  shellSafe data = true ->
  Shell.plain (applicationNumber data) = true
  /\ Shell.plain (applicationTitle data) = true
  /\ from_option Shell.plain true (dateIntroduction data) = true
  /\ from_option Shell.plain true (representant data) = true
  /\ from_option Shell.plain true (lastMajorEvent data) = true
  /\ from_option Shell.plain true (lastMajorEventDate data) = true
  /\ forall event, event ∈ majorEventsList data ->
                   Shell.plain (ev_description event) = true
                   /\ Shell.plain (eventDate event) = true.
Proof.
  unfold shellSafe. intros H.
  repeat (let E := fresh "E" in apply andb_true_iff in H as [H E]).
  repeat split; try done;
    intros; rewrite forallb_forall in E;
    match goal with
    | Hin : _ ∈ _ |- _ =>
        apply list_elem_of_In, E, andb_true_iff in Hin as [? ?]
    end; done.
Qed.

(** The texts of the two upserts. *)
Lemma fits_upsert shell data v :
  sqlSafe data = true ->
  (shell = true -> shellSafe data = true) ->
  v_application_number v = applicationNumber data ->
  v_application_title v = Js.interp (escapeSQL (Some (applicationTitle data))) ->
  v_country v = quotedOrNull (extractCountry (applicationTitle data)) ->
  v_date_introduction v = Js.interp (convertDate (dateIntroduction data)) ->
  (v_representative_id v = ENull \/ (exists i, v_representative_id v = EInt i)
   \/ v_representative_id v = ERepId (Js.interp (escapeSQL (representant data)))
      /\ hasRepresentative data = true) ->
  v_representative_name v = quotedOrNull (representant data) ->
  v_last_major_event v = quotedOrNull (lastMajorEvent data) ->
  v_last_major_event_date v = rawOrNull (convertDate (lastMajorEventDate data)) ->
  exprTexts (v_is_closed v) = [] ->
  exprTexts (v_last_checked_date v) = [] ->
  from_option exprTexts [] (v_not_found_count v) = [] ->
  from_option exprTexts [] (v_updated_at v) = [] ->
  forallb (fits shell) (texts (UpsertApp v)) = true.
Proof.
  intros Hsql Hshell En Et Ec Ei Eri Ern Ele Eld Ecl Ech Enf Eup.
  destruct (sqlSafe_parts _ Hsql) as (Qn & Qi & Ql & _).
  assert (shell = true ->
          Shell.plain (applicationNumber data) = true
          /\ Shell.plain (applicationTitle data) = true
          /\ from_option Shell.plain true (dateIntroduction data) = true
          /\ from_option Shell.plain true (representant data) = true
          /\ from_option Shell.plain true (lastMajorEvent data) = true
          /\ from_option Shell.plain true (lastMajorEventDate data) = true)
    as Hs.
  { intros E. destruct (shellSafe_parts _ (Hshell E)) as (?&?&?&?&?&?&_). done. }
  cbn [texts]. rewrite En, Et, Ec, Ei, Ern, Ele, Eld, Ecl, Ech, Enf, Eup.
  rewrite !forallb_app. cbn [forallb].
  rewrite fits_raw, fits_escaped, fits_date; try done;
    try (intros E; by destruct (Hs E) as (?&?&?&?&?&?)).
  rewrite !fits_quotedOrNull, fits_rawDate; try done;
    try (intros E; by destruct (Hs E) as (?&?&?&?&?&?)).
  - cbn [andb]. rewrite !andb_true_r.
    destruct Eri as [->|[[i ->]|[-> Hrep]]]; [done | done |].
    cbn [exprTexts forallb]. rewrite andb_true_r.
    unfold hasRepresentative in Hrep. apply andb_true_iff in Hrep as [Ht _].
    destruct (representant data) as [name|]; [|done].
    unfold escapeSQL. cbn [Js.truthy] in Ht. rewrite Ht. cbn [Js.interp].
    apply fits_doubleQuotes. intros E. by destruct (Hs E) as (?&?&?&?&?&?).
  - intros E. destruct (Hs E) as (_ & Hti & _).
    destruct (extractCountry (applicationTitle data)) as [country|] eqn:Eco;
      [|done].
    cbn [from_option]. by eapply all_extractCountry.
Qed.

Lemma fits_appSQL shell data representativeId :
  sqlSafe data = true -> (shell = true -> shellSafe data = true) ->
  forallb (fits shell) (texts (appSQL data representativeId)) = true.
Proof.
  intros Hsql Hshell. unfold appSQL.
  apply (fits_upsert shell data); try done. cbn.
  destruct representativeId as [i|]; [|by left].
  destruct (i =? 0); [by left | right; left; eauto].
Qed.

Lemma fits_batchAppSQL shell data :
  sqlSafe data = true -> (shell = true -> shellSafe data = true) ->
  forallb (fits shell) (texts (batchAppSQL data)) = true.
Proof.
  intros Hsql Hshell. unfold batchAppSQL.
  apply (fits_upsert shell data); try done. cbn.
  destruct (hasRepresentative data) eqn:E; [|by left].
  right. right. done.
Qed.

(** The texts of the rows of the events. *)
Lemma fits_eventValues shell app data :
  sqlSafe data = true -> (shell = true -> shellSafe data = true) ->
  forallb (fits shell) (exprTexts app) = true ->
  forallb (fits shell) (texts (InsertEvents (eventValues app data))) = true.
Proof.
  intros Hsql Hshell Happ.
  destruct (sqlSafe_parts _ Hsql) as (_ & _ & _ & Qe).
  cbn [texts]. apply forallb_forall. intros body Hin.
  apply in_concat in Hin as (l & Hl & Hin).
  apply in_map_iff in Hl as (v & <- & Hv).
  unfold eventValues in Hv. apply list_elem_of_In in Hv.
  apply list_elem_of_lookup in Hv as (n & Hv).
  rewrite list_lookup_imap in Hv.
  destruct (majorEventsList data !! n) as [event|] eqn:En; [|done].
  injection Hv as <-.
  cbn [v_application_id v_event_date v_description v_is_last_event
       exprTexts] in Hin.
  assert (event ∈ majorEventsList data) as Hev
    by (by eapply list_elem_of_lookup_2).
  rewrite app_nil_r in Hin. apply in_app_or in Hin as [Hin|[<-|[<-|[]]]].
  - rewrite forallb_forall in Happ. by apply Happ.
  - apply (fits_date shell (Some (eventDate event))); cbn [from_option].
    + by apply Qe.
    + intros E. destruct (shellSafe_parts _ (Hshell E)) as (_&_&_&_&_&_&He).
      by destruct (He event Hev).
  - apply fits_escaped. intros E.
    destruct (shellSafe_parts _ (Hshell E)) as (_&_&_&_&_&_&He).
    by destruct (He event Hev).
Qed.

Lemma reads_execute sql :
  reads (Execute sql)
  = forallb (fun s => forallb (fits true) (texts s)) sql.
Proof.
  unfold reads. cbn [statements isExecute].
  induction sql as [|s sql IH]; [done|].
  cbn [List.map concat forallb]. by rewrite forallb_app, IH.
Qed.

Lemma reads_import sql :
  reads (Import sql)
  = forallb (fun s => forallb (fits false) (texts s)) sql.
Proof.
  unfold reads. cbn [statements isExecute].
  induction sql as [|s sql IH]; [done|].
  cbn [List.map concat forallb]. by rewrite forallb_app, IH.
Qed.


Lemma run_cons sch clk d s rest :
  Engine.run sch clk d (s :: rest) =
  match Engine.exec sch clk d s with
  | None => (d, None)
  | Some (d', ids) =>
      let (d'', r) := Engine.run sch clk d' rest in
      (d'', (fun more => ids ++ more) <$> r)
  end.
Proof. reflexivity. Qed.

Lemma run_app sch clk d a b :
  Engine.run sch clk d (a ++ b) =
  match Engine.run sch clk d a with
  | (d', Some ids) =>
      let (d'', r) := Engine.run sch clk d' b in
      (d'', (fun more => ids ++ more) <$> r)
  | (d', None) => (d', None)
  end.
Proof.
  revert d. induction a as [|s a IH]; intros d.
  - cbn. destruct (Engine.run sch clk d b) as [d' [ids|]]; reflexivity.
  - cbn [app]. rewrite !run_cons.
    destruct (Engine.exec sch clk d s) as [[d1 ids1]|]; [|reflexivity].
    rewrite IH. destruct (Engine.run sch clk d1 a) as [d2 [ids2|]]; [|reflexivity].
    destruct (Engine.run sch clk d2 b) as [d3 [ids3|]]; cbn; [|reflexivity].
    by rewrite app_assoc.
Qed.

(** A script that ends well: its parts end well, one after the other. *)
Lemma run_app_ok sch clk d a b d' ids :
  Engine.run sch clk d (a ++ b) = (d', Some ids) ->
  exists d1 ids1 ids2,
    Engine.run sch clk d a = (d1, Some ids1)
    /\ Engine.run sch clk d1 b = (d', Some ids2).
Proof.
  rewrite run_app. destruct (Engine.run sch clk d a) as [d1 [ids1|]]; [|done].
  destruct (Engine.run sch clk d1 b) as [d2 [ids2|]] eqn:E2; [|done].
  intros [= <- <-]. by exists d1, ids1, ids2.
Qed.

Lemma run_cons_ok sch clk d s rest d' ids :
  Engine.run sch clk d (s :: rest) = (d', Some ids) ->
  exists d1 ids1 ids2,
    Engine.exec sch clk d s = Some (d1, ids1)
    /\ Engine.run sch clk d1 rest = (d', Some ids2)
    /\ ids = ids1 ++ ids2.
Proof.
  rewrite run_cons. destruct (Engine.exec sch clk d s) as [[d1 ids1]|]; [|done].
  destruct (Engine.run sch clk d1 rest) as [d2 [ids2|]] eqn:E2; [|done].
  intros [= <- <-]. by exists d1, ids1, ids2.
Qed.

Lemma run_nil_ok sch clk d d' ids :
  Engine.run sch clk d [] = (d', Some ids) -> d' = d /\ ids = [].
Proof. by intros [= <- <-]. Qed.

(** A call that returns: the command went through, and the store holds
    what the engine made of it. *)
Lemma outcome_reads rem n c d :
  reads c = true ->
  outcome rem n c d
  = let (reached, r) :=
      Engine.run (schema rem) (clock (wire rem n)) d (statements c) in
    (match r with
     | Some _ => reached
     | None => if atomic rem then d else reached
     end, r).
Proof. unfold outcome. by intros ->. Qed.

Lemma submit_ok rem c st ids st' :
  reads c = true ->
  submit rem c st = (Some ids, st') ->
  Engine.run (schema rem) (clock (wire rem (calls st))) (db st) (statements c)
  = (db st', Some ids).
Proof.
  intros Hr. unfold submit. rewrite outcome_reads by done.
  destruct (Engine.run _ _ _ _) as [reached r].
  destruct (delivered _), (answered _); cbn; try done.
  destruct r; [|done]. by intros [= <- <-].
Qed.

Lemma executeSQL_ok rem sql s ids s' :
  reads (Execute sql) = true ->
  executeSQL rem sql s = (Val ids, s') ->
  Engine.run (schema rem) (clock (wire rem (calls (store s))))
             (db (store s)) sql
  = (db (store s'), Some ids)
  /\ adapter s' = adapter s.
Proof.
  intros Hr. unfold executeSQL.
  destruct (submit rem (Execute sql) (store s)) as [[ids'|] st] eqn:E; [|done].
  intros [= <- <-]. split; [|done]. by apply submit_ok in E.
Qed.

(** An import that does not throw, of statements the engine reads as
    they are written, when it is carried out: the store holds what the
    engine made of them. *)
Lemma uploadSQL_ok rem sql s b s' :
  uploadSQL rem sql s = (Val b, s') ->
  reads (Import sql) = true ->
  carriedOut rem sql (store s) ->
  exists ids,
    Engine.run (schema rem) (clock (wire rem (calls (store s))))
               (db (store s)) sql
    = (db (store s'), Some ids)
    /\ adapter s' = adapter s.
Proof.
  intros H Hr [Hd Hrun]. unfold uploadSQL in H.
  destruct (exchange rem sql (store s)) as [result sent] eqn:Ex.
  cbn [fst snd] in H.
  assert ((3 <=? length sent)%nat = true) as Hmade.
  { destruct result as [b'|]; [|by destruct (3 <=? _)%nat].
    unfold exchange in Ex. apply uploadSQL_made in Ex. cbn [length] in Ex.
    by apply Nat.leb_le. }
  rewrite Hmade in H.
  assert (exists ids,
             Engine.run (schema rem) (clock (wire rem (calls (store s))))
                        (db (store s)) sql
             = (db (submit rem (Import sql) (store s)).2, Some ids)) as [ids K].
  { unfold submit. rewrite outcome_reads by done. cbn [statements].
    destruct (Engine.run _ _ _ _) as [reached [ids|]]; [|done].
    rewrite Hd. cbn. by exists ids. }
  exists ids. rewrite K.
  destruct result as [[]|]; [| |done]; by injection H as _ <-.
Qed.

(** The upsert, when the engine accepts it. *)
Lemma upsert_ok sch clk d v d' :
  Sql.upsert sch clk d v = Some d' ->
  exists number row,
    Sql.text (v_application_number v) = Some number
    /\ applications d' = <[number := row]> (applications d)
    /\ events d' = events d
    /\ representatives d' = representatives d
    /\ next_representative_id d' = next_representative_id d
    /\ Some (application_title row) = VText <$> Sql.text (v_application_title v)
    /\ Some (country row) = Sql.eval clk d (v_country v)
    /\ Some (date_introduction row) = VText <$> Sql.text (v_date_introduction v)
    /\ Some (representative_id row) = Sql.eval clk d (v_representative_id v)
    /\ Some (representative_name row) = Sql.eval clk d (v_representative_name v)
    /\ Some (last_major_event row) = Sql.eval clk d (v_last_major_event v)
    /\ Some (last_major_event_date row)
       = Sql.eval clk d (v_last_major_event_date v)
    /\ Some (is_closed row) = Sql.eval clk d (v_is_closed v)
    /\ match applications d !! number with
       | Some old =>
           id row = id old /\ skip_scraping row = skip_scraping old
           /\ not_found_count row = 0
           /\ next_application_id d' = next_application_id d
       | None =>
           id row = next_application_id d
           /\ skip_scraping row = default_skip_scraping sch
           /\ next_application_id d' = next_application_id d + 1
           /\ (v_not_found_count v = Some (EInt 0) -> not_found_count row = 0)
       end.
Proof.
  unfold Sql.upsert. intros H.
  destruct (Sql.text (v_application_number v)) as [number|]; [|done].
  destruct (Sql.text (v_application_title v)) as [title|]; [|done].
  destruct (Sql.eval clk d (v_country v)) as [ctry|]; [|done].
  destruct (Sql.text (v_date_introduction v)) as [intro|]; [|done].
  destruct (Sql.eval clk d (v_representative_id v)) as [repid|]; [|done].
  destruct (Sql.eval clk d (v_representative_name v)) as [repname|]; [|done].
  destruct (Sql.eval clk d (v_last_major_event v)) as [lastev|]; [|done].
  destruct (Sql.eval clk d (v_last_major_event_date v)) as [lastdate|]; [|done].
  destruct (Sql.eval clk d (v_is_closed v)) as [closed|]; [|done].
  destruct (Sql.eval clk d (v_last_checked_date v)) as [checked|]; [|done].
  cbn in H.
  destruct (match v_not_found_count v with
            | Some e => Some <$> Sql.eval clk d e
            | None => Some None
            end) as [nfc|] eqn:Enfc; [|done].
  cbn in H.
  destruct (match v_updated_at v with
            | Some e => Some <$> Sql.eval clk d e
            | None => Some None
            end) as [upd|]; [|done].
  cbn in H. exists number.
  destruct (applications d !! number) as [old|] eqn:Eold.
  - injection H as <-. eexists. cbn. repeat split; reflexivity.
  - destruct (match nfc with
              | Some (VInt n) => Some n
              | Some _ => None
              | None => Some (default_not_found_count sch)
              end) as [count|] eqn:Ecount; [|done].
    cbn in H. injection H as <-. eexists. cbn.
    repeat split; try reflexivity.
    intros E0. rewrite E0 in Enfc. cbn in Enfc. injection Enfc as <-.
    cbn in Ecount. cbn. congruence.
Qed.

(** ** One save, when it succeeds *)


Lemma submit_db rem c st :
  reads c = true ->
  db (submit rem c st).2 = db st
  \/ db (submit rem c st).2
     = (Engine.run (schema rem) (clock (wire rem (calls st))) (db st)
                   (statements c)).1.
Proof.
  intros Hr. unfold submit. rewrite outcome_reads by done.
  destruct (Engine.run _ _ _ _) as [reached r].
  destruct (delivered _); cbn; [|by left].
  destruct r; [by right|]. destruct (atomic rem); [by left | by right].
Qed.

Lemma insert_reps_apart d names : apart (Engine.insert_reps d names) = apart d.
Proof.
  revert d. induction names as [|name names IH]; intros d; [done|].
  cbn. unfold Engine.insert_reps in IH. rewrite IH.
  unfold Sql.insert_rep. by destruct (representatives d !! name).
Qed.

Lemma executeSQL_reps_apart rem sql :
  reads (Execute sql) = true ->
  (forall sch clk d, apart (Engine.run sch clk d sql).1 = apart d) ->
  forall a, keeps (fun s => apart (db (store s)) = a) (executeSQL rem sql).
Proof.
  intros Hr Hsql a s H. unfold executeSQL.
  pose proof (submit_db rem (Execute sql) (store s) Hr) as D.
  destruct (submit rem (Execute sql) (store s)) as [[ids|] st]; cbn in *;
    (destruct D as [-> | ->]; [done | by rewrite Hsql]).
Qed.

Lemma select_rep_apart body sch clk d :
  apart (Engine.run sch clk d [SelectRepId body]).1 = apart d.
Proof. cbn. by destruct (Sql.text body). Qed.

Lemma insert_rep_apart body sch clk d :
  apart (Engine.run sch clk d [InsertReps [body]]).1 = apart d.
Proof.
  cbn. destruct (Sql.text body) as [name|]; cbn; [|done].
  unfold Sql.insert_rep. by destruct (representatives d !! name).
Qed.

Lemma reads_select_rep (name : string) :
  Shell.plain name = true ->
  reads (Execute [SelectRepId (Js.doubleQuotes name)]) = true.
Proof.
  intros H. rewrite reads_execute. cbn. by rewrite fits_doubleQuotes.
Qed.

Lemma reads_insert_rep (name : string) :
  Shell.plain name = true ->
  reads (Execute [InsertReps [Js.doubleQuotes name]]) = true.
Proof.
  intros H. rewrite reads_execute. cbn. by rewrite fits_doubleQuotes.
Qed.

Lemma findOrCreateRepresentative_apart rem name a :
  from_option Shell.plain true name = true ->
  keeps (fun s => apart (db (store s)) = a) (findOrCreateRepresentative rem name).
Proof.
  intros Hp. unfold findOrCreateRepresentative, cacheSet.
  destruct name as [name|]; [|apply keeps_throw]. cbn [from_option] in Hp.
  cbn [Js.interp].
  repeat first
    [ apply executeSQL_reps_apart;
      [ first [by apply reads_select_rep | by apply reads_insert_rep]
      | first [apply select_rep_apart | apply insert_rep_apart] ]
    | keeps_step ]; done.
Qed.

Lemma event_row_ok clk d app date desc last i p :
  Sql.eval clk d app = Some (VInt i) ->
  Sql.event_row clk d {| v_application_id := app; v_event_date := date;
                         v_description := desc; v_is_last_event := EInt last |}
  = Some p ->
  exists date' desc',
    Sql.text date = Some date' /\ Sql.text desc = Some desc'
    /\ p = {| application_id := VInt i; event_date := VText date';
              description := VText desc'; is_last_event := VInt last |}.
Proof.
  intros Happ. unfold Sql.event_row. cbn. rewrite Happ. cbn.
  destruct (Sql.text date) as [date'|]; [|done]. cbn.
  destruct (Sql.text desc) as [desc'|]; [|done]. cbn.
  intros [= <-]. eauto.
Qed.

(** The rows that the insert into [events] makes of the fetched sequence. *)
Lemma event_rows clk d app data rows i :
  Sql.eval clk d app = Some (VInt i) ->
  mapM (Sql.event_row clk d) (eventValues app data) = Some rows ->
  length rows = length (majorEventsList data)
  /\ Forall (fun p => Engine.refers (VInt i) p = true) rows
  /\ forall (n : nat) event,
       majorEventsList data !! n = Some event ->
       exists p,
         rows !! n = Some p
         /\ application_id p = VInt i
         /\ description p = VText (shown (ev_description event))
         /\ Some (event_date p)
            = VText <$> Sql.text (Js.interp (convertDate (Some (eventDate event))))
         /\ is_last_event p
            = VInt (if Z.of_nat n =? Z.of_nat (length (majorEventsList data)) - 1
                    then 1 else 0).
Proof.
  intros Happ Hrows. apply mapM_Some in Hrows.
  pose proof (Forall2_length _ _ _ Hrows) as Hlen.
  unfold eventValues in Hlen. rewrite length_imap in Hlen.
  split; [done|]. split.
  - apply Forall_forall. intros p Hp.
    apply list_elem_of_lookup in Hp as [n Hn].
    destruct (Forall2_lookup_r _ _ _ _ _ Hrows Hn) as (v & Hv & Hrow).
    unfold eventValues in Hv. rewrite list_lookup_imap in Hv.
    destruct (majorEventsList data !! n) as [event|]; [|done].
    injection Hv as <-.
    destruct (event_row_ok _ _ _ _ _ _ _ _ Happ Hrow) as (? & ? & _ & _ & ->).
    cbn. by rewrite bool_decide_eq_true_2.
  - intros n event Hn.
    assert (eventValues app data !! n = Some
              {| v_application_id := app;
                 v_event_date := Js.interp (convertDate (Some (eventDate event)));
                 v_description := Js.interp (escapeSQL (Some (ev_description event)));
                 v_is_last_event :=
                   EInt (if Z.of_nat n =? Z.of_nat (length (majorEventsList data)) - 1
                         then 1 else 0) |}) as Hv.
    { unfold eventValues. rewrite list_lookup_imap, Hn. reflexivity. }
    destruct (Forall2_lookup_l _ _ _ _ _ Hrows Hv) as (p & Hp & Hrow).
    exists p. split; [done|].
    destruct (event_row_ok _ _ _ _ _ _ _ _ Happ Hrow)
      as (date' & desc' & Edate & Edesc & ->).
    rewrite text_escaped in Edesc. injection Edesc as <-.
    cbn [application_id description event_date is_last_event].
    rewrite Edate. done.
Qed.

Lemma filter_refers_app i (old rows : list EventRow) :
  Forall (fun p => Engine.refers (VInt i) p = true) rows ->
  List.filter (Engine.refers (VInt i))
    (List.filter (fun r => negb (Engine.refers (VInt i) r)) old ++ rows)
  = rows.
Proof.
  intros H. rewrite List.filter_app.
  assert (List.filter (Engine.refers (VInt i))
            (List.filter (fun r => negb (Engine.refers (VInt i) r)) old) = [])
    as ->.
  { induction old as [|r old IH]; [done|]. cbn [List.filter].
    destruct (Engine.refers (VInt i) r) eqn:E; cbn [negb]; [exact IH|].
    cbn [List.filter]. by rewrite E. }
  cbn [app]. induction H as [|p rows Hp _ IH]; [done|].
  cbn [List.filter]. by rewrite Hp, IH.
Qed.


(** The row of a record after its upsert, be it the statement of
    [saveApplication] or that of the batch. *)
Lemma upsert_refreshed sch clk d d' data v :
  Sql.upsert sch clk d v = Some d' ->
  v_application_number v = applicationNumber data ->
  v_application_title v = Js.interp (escapeSQL (Some (applicationTitle data))) ->
  v_country v = quotedOrNull (extractCountry (applicationTitle data)) ->
  v_date_introduction v = Js.interp (convertDate (dateIntroduction data)) ->
  v_representative_name v = quotedOrNull (representant data) ->
  v_last_major_event v = quotedOrNull (lastMajorEvent data) ->
  v_last_major_event_date v = rawOrNull (convertDate (lastMajorEventDate data)) ->
  v_is_closed v = EInt (if isCaseClosed (lastMajorEvent data) then 1 else 0) ->
  (hasRepresentative data = false -> v_representative_id v = ENull) ->
  exists number row,
    Sql.text (applicationNumber data) = Some number
    /\ applications d' = <[number := row]> (applications d)
    /\ events d' = events d
    /\ representatives d' = representatives d
    /\ refreshed data row
    /\ Some (representative_id row) = Sql.eval clk d (v_representative_id v)
    /\ match applications d !! number with
       | Some old =>
           id row = id old /\ skip_scraping row = skip_scraping old
           /\ not_found_count row = 0
           /\ next_application_id d' = next_application_id d
       | None =>
           id row = next_application_id d
           /\ skip_scraping row = default_skip_scraping sch
           /\ next_application_id d' = next_application_id d + 1
           /\ (v_not_found_count v = Some (EInt 0) -> not_found_count row = 0)
       end.
Proof.
  intros H En Et Ec Ei Ern Ele Eld Ecl Eri.
  destruct (upsert_ok _ _ _ _ _ H)
    as (number & row & Hn & Ha & He & Hr & _ & Ht & Hc & Hi & Hri & Hrn
        & Hle & Hld & Hcl & Hold).
  rewrite En in Hn. rewrite Et, text_escaped in Ht.
  rewrite Ec, eval_quotedOrNull in Hc. rewrite Ei in Hi.
  rewrite Ern, eval_quotedOrNull in Hrn. rewrite Ele, eval_quotedOrNull in Hle.
  rewrite Eld, eval_rawOrNull in Hld. rewrite Ecl in Hcl.
  cbn [fmap option_fmap option_map Sql.eval] in Ht, Hcl.
  exists number, row. repeat split; try done; try congruence.
  intros Hno. rewrite (Eri Hno) in Hri. cbn in Hri. congruence.
Qed.

(** [saveApplication] returned [true]: the row of the case is the one the
    upsert made, and the events of the case were deleted and the fetched
    ones inserted. *)
Lemma idMatch_one i a : idMatch [i] = Some a -> a = i /\ 0 <= a.
Proof.
  unfold idMatch. cbn. destruct (Z.leb_spec 0 i); [|done].
  intros [= <-]. done.
Qed.

Lemma idMatch_none : idMatch [] = None.
Proof. reflexivity. Qed.

Lemma safe_parts data :
  safe data = true -> sqlSafe data = true /\ shellSafe data = true.
Proof. unfold safe. by intros H%andb_true_iff. Qed.

Lemma reads_appSQL data representativeId :
  safe data = true -> reads (Execute [appSQL data representativeId]) = true.
Proof.
  intros [Hq Hs]%safe_parts. rewrite reads_execute. cbn [forallb].
  by rewrite fits_appSQL.
Qed.

Lemma reads_select_app data :
  safe data = true ->
  reads (Execute [SelectAppId (applicationNumber data)]) = true.
Proof.
  intros [Hq Hs]%safe_parts. rewrite reads_execute. cbn.
  destruct (sqlSafe_parts _ Hq) as (Qn & _).
  destruct (shellSafe_parts _ Hs) as (Sn & _).
  by rewrite fits_raw.
Qed.

Lemma reads_events data i :
  safe data = true ->
  reads (Execute [DeleteEvents (EInt i);
                  InsertEvents (eventValues (EInt i) data)]) = true.
Proof.
  intros [Hq Hs]%safe_parts. rewrite reads_execute. cbn [forallb].
  by rewrite fits_eventValues.
Qed.

Lemma saveApplication_ok rem data s s' :
  safe data = true ->
  saveApplication rem data s = (Val true, s') ->
  exists number row rows clk d3,
    Sql.text (applicationNumber data) = Some number
    /\ applications (db (store s'))
       = <[number := row]> (applications (db (store s)))
    /\ events (db (store s'))
       = List.filter (fun r => negb (Engine.refers (VInt (id row)) r))
                     (events (db (store s))) ++ rows
    /\ mapM (Sql.event_row clk d3) (eventValues (EInt (id row)) data) = Some rows
    /\ refreshed data row
    /\ match applications (db (store s)) !! number with
       | Some old =>
           id row = id old /\ skip_scraping row = skip_scraping old
           /\ not_found_count row = 0
           /\ next_application_id (db (store s'))
              = next_application_id (db (store s))
       | None =>
           id row = next_application_id (db (store s))
           /\ next_application_id (db (store s'))
              = next_application_id (db (store s)) + 1
       end.
Proof.
  intros Hsafe. pose proof (safe_parts _ Hsafe) as [Hq Hs].
  unfold saveApplication. intros H. apply tryCatch_ok in H; [|done].
  apply bind_ok in H as (representativeId & s1 & Hrep & H).
  assert (apart (db (store s1)) = apart (db (store s))
          /\ (hasRepresentative data = false -> representativeId = None))
    as [Hfr Hnone].
  { destruct (hasRepresentative data).
    - apply bind_ok in Hrep as (i & s1' & Hfind & Hret).
      injection Hret as <- <-. split; [|done].
      assert (from_option Shell.plain true (representant data) = true) as Hp
        by (by destruct (shellSafe_parts _ Hs) as (_&_&_&?&_)).
      pose proof (findOrCreateRepresentative_apart rem (representant data)
                    (apart (db (store s))) Hp s eq_refl) as K.
      by rewrite Hfind in K.
    - by injection Hrep as <- <-. }
  injection Hfr as Hfa Hfn Hfe.
  apply bind_ok in H as (ids2 & s2 & Hup & H).
  apply executeSQL_ok in Hup as [Hup _]; [|by apply reads_appSQL].
  apply run_cons_ok in Hup as (d2 & ? & ? & Hexec & Hnil & _).
  apply run_nil_ok in Hnil as [<- _].
  cbn [Engine.exec appSQL] in Hexec.
  destruct (Sql.upsert _ _ _ _) as [d2'|] eqn:Hupsert; [|done].
  cbn in Hexec. injection Hexec as -> _.
  eapply (upsert_refreshed _ _ _ _ data) in Hupsert; try reflexivity;
    [|by intros Hno; rewrite (Hnone Hno)].
  destruct Hupsert as (number & row & Hn & Ha & He & _ & Href & _ & Hold).
  apply bind_ok in H as (appIdResult & s3 & Hsel & H).
  apply executeSQL_ok in Hsel as [Hsel _]; [|by apply reads_select_app].
  apply run_cons_ok in Hsel as (d3 & ids3 & ? & Hexec & Hnil & ->).
  apply run_nil_ok in Hnil as [Hd3 ->].
  cbn [Engine.exec] in Hexec. rewrite Hn in Hexec. cbn in Hexec.
  rewrite Ha, lookup_insert_eq in Hexec. injection Hexec as <- <-.
  cbn [app] in H.
  destruct (idMatch [id row]) as [applicationId|] eqn:Eid; [|done].
  apply idMatch_one in Eid as [-> _].
  apply bind_ok in H as (ids4 & s4 & Hev & H).
  apply executeSQL_ok in Hev as [Hev _]; [|by apply reads_events].
  apply run_cons_ok in Hev as (d4 & ? & ? & Hdel & Hev & _).
  cbn [Engine.exec Sql.eval] in Hdel. cbn in Hdel. injection Hdel as <- _.
  apply run_cons_ok in Hev as (d5 & ? & ? & Hins & Hnil & _).
  apply run_nil_ok in Hnil as [Hd5 _].
  cbn [Engine.exec] in Hins.
  destruct (eventValues _ data) as [|v vs] eqn:Evals; [done|].
  destruct (mapM _ (v :: vs)) as [rows|] eqn:Hrows; [|done].
  cbn in Hins. injection Hins as <-.
  apply bind_ok in H as ([] & s5 & Hflush & H).
  injection Hflush as <-. injection H as <-.
  cbn [store set_adapter].
  exists number, row, rows. eexists _, _.
  split; [done|]. rewrite Hd5. cbn [applications events Sql.set_events].
  rewrite Hd3, Ha, He, Hfa, Hfe. split; [done|]. split; [done|].
  split; [rewrite Evals; exact Hrows|]. split; [done|].
  cbn [next_application_id Sql.set_events].
  rewrite Hfa, Hfn in Hold.
  destruct (applications (db (store s)) !! number);
    destruct Hold as (? & ? & ? & ?); repeat split; congruence.
Qed.

(** ** What a statement does to the row of a case *)

Lemma kept_refl row : kept row row.
Proof. repeat split. by left. Qed.

Lemma kept_trans r1 r2 r3 : kept r1 r2 -> kept r2 r3 -> kept r1 r3.
Proof.
  intros (I1 & S1 & N1) (I2 & S2 & N2). repeat split; try congruence.
  destruct N2 as [N2|N2]; [|by right].
  destruct N1 as [N1|N1]; [left | right]; congruence.
Qed.

Lemma exec_apart sch clk d s d' ids :
  Engine.exec sch clk d s = Some (d', ids) ->
  match s with
  | UpsertApp _ | MarkNotFound _ => True
  | _ => applications d' = applications d
         /\ next_application_id d' = next_application_id d
  end.
Proof.
  destruct s as [body|bodies|v|body|app|rows|body|]; cbn [Engine.exec];
    intros H; try done.
  - destruct (Sql.text body); [|done]. by injection H as <- _.
  - destruct bodies as [|b bs]; [done|].
    destruct (mapM Sql.text (b :: bs)) as [names|]; [|done].
    cbn in H. injection H as <- _.
    pose proof (insert_reps_apart d names) as E. by injection E.
  - destruct (Sql.text body); [|done]. by injection H as <- _.
  - destruct (Sql.eval clk d app); [|done]. by injection H as <- _.
  - destruct rows as [|r rs]; [done|].
    destruct (mapM _ (r :: rs)); [|done]. by injection H as <- _.
  - by injection H as <- _.
Qed.

(** A statement other than the not-found update keeps the case, its id
    and its skip flag, and leaves its not-found counter or sets it to 0. *)
Lemma exec_kept sch clk d s d' ids number row :
  isMark s = false ->
  Engine.exec sch clk d s = Some (d', ids) ->
  applications d !! number = Some row ->
  exists row', applications d' !! number = Some row' /\ kept row row'.
Proof.
  intros Hs H Hrow.
  destruct s as [body|bodies|v|body|app|rows|body|]; try done;
    try (apply exec_apart in H as [-> _]; exists row; split;
         [done | apply kept_refl]).
  cbn [Engine.exec] in H.
  destruct (Sql.upsert sch clk d v) as [d1|] eqn:U; [|done].
  cbn in H. injection H as <- _.
  destruct (upsert_ok _ _ _ _ _ U)
    as (target & new & _ & -> & _ & _ & _ & _ & _ & _ & _ & _ & _ & _ & _ & Hold).
  destruct (decide (target = number)) as [->|Hne].
  - rewrite Hrow in Hold. destruct Hold as (I & S & N & _).
    exists new. rewrite lookup_insert_eq. split; [done|].
    repeat split; try done. by right.
  - exists row. rewrite lookup_insert_ne by done. split; [done|].
    apply kept_refl.
Qed.

(** The not-found update, on the case it names and on the others. *)
Lemma exec_mark sch clk d body d' ids number row :
  Engine.exec sch clk d (MarkNotFound body) = Some (d', ids) ->
  applications d !! number = Some row ->
  applications d' !! number
  = Some (if bool_decide (Sql.text body = Some number)
          then Engine.mark clk row else row).
Proof.
  cbn [Engine.exec]. intros H Hrow.
  destruct (Sql.text body) as [target|]; [|done].
  cbn in H. injection H as <- _. cbn.
  destruct (decide (target = number)) as [->|Hne].
  - rewrite bool_decide_eq_true_2 by done.
    by rewrite lookup_alter_eq, Hrow.
  - rewrite bool_decide_eq_false_2 by congruence.
    by rewrite lookup_alter_ne.
Qed.

(** No statement takes the case away or clears its skip flag. *)
Lemma exec_flag sch clk d s d' ids number row :
  Engine.exec sch clk d s = Some (d', ids) ->
  applications d !! number = Some row ->
  skip_scraping row <> 0 ->
  exists row', applications d' !! number = Some row'
               /\ skip_scraping row' <> 0.
Proof.
  intros H Hrow Hflag. destruct (isMark s) eqn:Hs.
  - destruct s; try done.
    rewrite (exec_mark _ _ _ _ _ _ _ _ H Hrow).
    destruct (bool_decide _); eexists; (split; [reflexivity|]); [|done].
    cbn. by destruct (60 <=? _).
  - destruct (exec_kept _ _ _ _ _ _ _ _ Hs H Hrow) as (row' & ? & _ & S & _).
    exists row'. split; [done | congruence].
Qed.

Lemma run_keeps_db sch clk (Q : Db -> Prop) sql d :
  (forall s d d' ids, In s sql -> Q d ->
                      Engine.exec sch clk d s = Some (d', ids) -> Q d') ->
  Q d -> Q (Engine.run sch clk d sql).1.
Proof.
  revert d. induction sql as [|s rest IH]; intros d Hs Hd; [done|].
  rewrite run_cons.
  destruct (Engine.exec sch clk d s) as [[d1 ids]|] eqn:E; [|done].
  specialize (IH d1).
  destruct (Engine.run sch clk d1 rest) as [d2 r]. cbn in *.
  apply IH.
  - intros s' ? ? ? Hin. apply Hs. by right.
  - eapply Hs; [by left | exact Hd | exact E].
Qed.

Lemma submit_keeps_db rem (Q : Db -> Prop) c st :
  reads c = true ->
  (forall sch clk s d d' ids, In s (statements c) -> Q d ->
                      Engine.exec sch clk d s = Some (d', ids) -> Q d') ->
  Q (db st) -> Q (db (submit rem c st).2).
Proof.
  intros Hr Hs Hd. destruct (submit_db rem c st Hr) as [-> | ->]; [done|].
  apply run_keeps_db; [|done]. intros ????. apply Hs.
Qed.

(** The commands of a record, or of a batch, that the engine reads as
    they are written. *)
Lemma safe_covers data :
  safe data = true -> covers (fun c => reads c = true) data.
Proof.
  intros Hsafe. pose proof (safe_parts _ Hsafe) as [Hq Hs].
  split; [|split; [|split]].
  - intros Hrep.
    assert (Shell.plain (Js.interp (representant data)) = true) as Hp.
    { destruct (shellSafe_parts _ Hs) as (_ & _ & _ & Hr & _).
      unfold hasRepresentative in Hrep. by destruct (representant data). }
    split; [by apply reads_select_rep | by apply reads_insert_rep].
  - intros rid. by apply reads_appSQL.
  - by apply reads_select_app.
  - intros i. by apply reads_events.
Qed.

Lemma reads_batch casesData :
  forallb sqlSafe casesData = true ->
  reads (Import (buildBatchSQLWithReps casesData)) = true.
Proof.
  intros Hall. rewrite forallb_forall in Hall.
  rewrite reads_import. unfold buildBatchSQLWithReps.
  rewrite !forallb_app. repeat (apply andb_true_iff; split).
  - destruct (0 <? _); [|done]. cbn [forallb texts]. rewrite andb_true_r.
    apply forallb_forall. intros body Hin.
    apply in_map_iff in Hin as (name & <- & _). by apply fits_escaped.
  - apply forallb_forall. intros x Hin.
    apply in_map_iff in Hin as (data & <- & Hd).
    by apply fits_batchAppSQL; [apply Hall|].
  - apply forallb_forall. intros x Hin.
    apply in_concat in Hin as (l & Hl & Hin).
    apply in_map_iff in Hl as (data & <- & Hd).
    specialize (Hall _ Hd). destruct (sqlSafe_parts _ Hall) as (Qn & _).
    assert (forallb (fits false) [applicationNumber data] = true) as Hn
      by (cbn; by rewrite fits_raw).
    unfold batchEventSQL in Hin. destruct Hin as [<-|Hin]; [exact Hn|].
    destruct (0 <? _); [|done]. destruct Hin as [<-|[]].
    by apply fits_eventValues.
Qed.

Lemma safe_forall casesData :
  forallb safe casesData = true ->
  forallb sqlSafe casesData = true /\ Forall (fun d => safe d = true) casesData.
Proof.
  intros H. rewrite forallb_forall in H. split.
  - apply forallb_forall. intros d Hd. by destruct (safe_parts _ (H d Hd)).
  - apply Forall_forall. intros d Hd. by apply H, list_elem_of_In.
Qed.

Lemma safe_coversBatch casesData :
  forallb safe casesData = true ->
  coversBatch (fun c => reads c = true) casesData.
Proof.
  intros [Hq Hall]%safe_forall. split; [by apply reads_batch|].
  eapply Forall_impl; [exact Hall|]. intros d. apply safe_covers.
Qed.

Lemma markFree_In c s : markFree c = true -> In s (statements c) -> isMark s = false.
Proof.
  unfold markFree. rewrite forallb_forall. intros H Hin.
  specialize (H s Hin). by destruct (isMark s).
Qed.

(** *** The operations *)

Section Operations.

Variable rem : Remote.
Variable number : string.

(** A save, alone or in a batch, keeps the case in the sense of [kept]. *)
Lemma save_kept row op s :
(forall n y, op <> Mark n y) ->
safeOp op = true ->
applications (db (store s)) !! number = Some row ->
exists row', applications (db (store (perform rem op s))) !! number = Some row'
             /\ kept row row'.
Proof.
intros Hop Hsafe Hrow.
set (Q := fun st : Store =>
            exists row', applications (db st) !! number = Some row'
                         /\ kept row row').
assert (forall c st, Sent c -> reads c = true -> Q st -> Q (submit rem c st).2)
  as Hsub.
{ intros c st Hc Hr Hq.
  apply (submit_keeps_db rem
           (fun d => exists row', applications d !! number = Some row'
                                  /\ kept row row')); [done| |done].
  intros sch clk x d d' ids Hin (r1 & Hr1 & K1) Hexec.
  pose proof (markFree_In c x (sent_markFree c Hc) Hin) as Hx.
  destruct (exec_kept _ _ _ _ _ _ _ _ Hx Hexec Hr1) as (r2 & Hr2 & K2).
  exists r2. split; [done|]. by eapply kept_trans. }
assert (Q (store s)) as Hq by (exists row; split; [done | apply kept_refl]).
destruct op as [n y|data|casesData]; cbn [perform safeOp] in *.
- by destruct (Hop n y).
- apply (saveApplication_keeps rem Q (fun c => reads c = true) Hsub data);
    [by apply safe_covers | exact Hq].
- apply (saveBatch_keeps rem Q (fun c => reads c = true) Hsub); try done.
  by apply safe_coversBatch.
Qed.

(** A not-found mark adds one to the counter of the case it names, when
  the update reaches the engine, and touches no other case. *)
Lemma reads_mark fullNumber :
safeNumber fullNumber = true ->
reads (Execute [MarkNotFound fullNumber]) = true.
Proof.
intros [Hq Hs]%andb_true_iff. rewrite reads_execute. cbn.
by rewrite fits_raw.
Qed.

Lemma mark_row row n y s :
safeNumber (n +:+ "/" +:+ y) = true ->
applications (db (store s)) !! number = Some row ->
exists row',
  applications (db (store (perform rem (Mark n y) s))) !! number = Some row'
  /\ (row' = row \/ exists clk, row' = Engine.mark clk row)
  /\ ((markAsNotFound rem n y s).1 = Val true ->
      Sql.text (n +:+ "/" +:+ y) = Some number ->
      row' = Engine.mark (clock (wire rem (calls (store s)))) row).
Proof.
intros Hsafe Hrow. pose proof (reads_mark _ Hsafe) as Hreads.
cbn [perform]. unfold markAsNotFound, tryCatch.
rewrite bind_eq. unfold executeSQL.
pose proof (submit_db rem (Execute [MarkNotFound (n +:+ "/" +:+ y)]) (store s)
              Hreads)
  as Hdb.
destruct (submit rem _ (store s)) as [[ids|] st] eqn:Hsub;
  cbv [mret M_ret]; cbn [snd fst store].
- apply submit_ok in Hsub; [|done]. cbn [statements] in Hsub.
  apply run_cons_ok in Hsub as (d1 & ? & ? & Hexec & Hnil & _).
  apply run_nil_ok in Hnil as [<- _].
  rewrite (exec_mark _ _ _ _ _ _ _ _ Hexec Hrow).
  eexists. split; [reflexivity|]. split.
  + destruct (bool_decide _); [right; eauto | by left].
  + intros _ Ht. by rewrite bool_decide_eq_true_2.
- cbn [snd statements] in Hdb. destruct Hdb as [-> | ->].
  + exists row. split; [done|]. split; [by left | done].
  + rewrite run_cons.
    destruct (Engine.exec _ _ _ _) as [[d1 ids]|] eqn:Hexec; cbn.
    * rewrite (exec_mark _ _ _ _ _ _ _ _ Hexec Hrow).
      eexists. split; [reflexivity|]. split; [|done].
      destruct (bool_decide _); [right; eauto | by left].
    * exists row. split; [done|]. split; [by left | done].
Qed.

End Operations.

(** ** A batch, when the import succeeds *)

Lemma uniqueIds_apart d d' : apart d' = apart d -> uniqueIds d -> uniqueIds d'.
Proof. intros [= Ha Hn _] [U B]. split; rewrite ?Ha, ?Hn; done. Qed.

Lemma upsert_uniqueIds sch clk d v d' :
  Sql.upsert sch clk d v = Some d' -> uniqueIds d -> uniqueIds d'.
Proof.
  intros H [U B].
  destruct (upsert_ok _ _ _ _ _ H)
    as (number & row & _ & Ha & _ & _ & _ & _ & _ & _ & _ & _ & _ & _ & _ & Hold).
  assert (forall k r, applications d !! k = Some r -> k <> number ->
                      id r <> id row) as Hother.
  { intros k r Hk Hne E.
    destruct (applications d !! number) as [old|] eqn:Eold.
    - destruct Hold as (I & _). apply Hne. eapply U; [exact Hk | exact Eold |].
      congruence.
    - destruct Hold as (I & _). specialize (B _ _ Hk). lia. }
  split.
  - intros k1 k2 r1 r2. rewrite Ha.
    destruct (decide (k1 = number)) as [->|N1];
      destruct (decide (k2 = number)) as [->|N2]; try done.
    + rewrite lookup_insert_eq, lookup_insert_ne by done.
      intros [= <-] H2 E. by destruct (Hother _ _ H2 N2).
    + rewrite lookup_insert_eq, lookup_insert_ne by done.
      intros H1 [= <-] E. by destruct (Hother _ _ H1 N1).
    + rewrite !lookup_insert_ne by done. apply U.
  - intros k r. rewrite Ha.
    destruct (decide (k = number)) as [->|N].
    + rewrite lookup_insert_eq. intros [= <-].
      destruct (applications d !! number) as [old|] eqn:Eold.
      * destruct Hold as (-> & _ & _ & ->). by eapply B.
      * destruct Hold as (-> & _ & -> & _). lia.
    + rewrite lookup_insert_ne by done. intros Hk. specialize (B _ _ Hk).
      destruct (applications d !! number); [destruct Hold as (_ & _ & _ & ->)
                                           |destruct Hold as (_ & _ & -> & _)]; lia.
Qed.

Lemma lastFor_In number data casesData :
  data ∈ casesData ->
  Sql.text (applicationNumber data) = Some number ->
  exists later, lastFor number casesData = Some later.
Proof.
  induction casesData as [|d l IH]; intros Hin Ht; [by apply elem_of_nil in Hin|].
  cbn [lastFor]. apply elem_of_cons in Hin as [<-|Hin].
  - destruct (lastFor number l); [eauto|].
    rewrite bool_decide_eq_true_2 by done. eauto.
  - destruct (IH Hin Ht) as [later ->]. eauto.
Qed.

Lemma lastFor_text number data casesData :
  lastFor number casesData = Some data ->
  data ∈ casesData /\ Sql.text (applicationNumber data) = Some number.
Proof.
  induction casesData as [|d l IH]; [done|]. cbn [lastFor].
  destruct (lastFor number l) as [later|].
  - intros [= <-]. destruct (IH eq_refl). split; [by right | done].
  - destruct (bool_decide _) eqn:E; [|done]. intros [= <-].
    apply bool_decide_eq_true_1 in E. split; [by left | done].
Qed.

(** The upserts of a batch. *)
Lemma batch_apps sch clk casesData :
  forall d d' ids,
    Engine.run sch clk d (List.map batchAppSQL casesData) = (d', Some ids) ->
    events d' = events d
    /\ (uniqueIds d -> uniqueIds d')
    /\ (forall data, data ∈ casesData ->
          exists number, Sql.text (applicationNumber data) = Some number)
    /\ forall number,
         match lastFor number casesData with
         | Some data =>
             exists row,
               applications d' !! number = Some row
               /\ refreshed data row
               /\ not_found_count row = 0
               /\ forall old, applications d !! number = Some old ->
                              id row = id old
                              /\ skip_scraping row = skip_scraping old
         | None => applications d' !! number = applications d !! number
         end.
Proof.
  induction casesData as [|data rest IH]; intros d d' ids H.
  - apply run_nil_ok in H as [-> _]. split; [done|]. split; [done|].
    split; [|done]. intros ? Hin. by apply elem_of_nil in Hin.
  - cbn [List.map] in H.
    apply run_cons_ok in H as (d1 & ? & ? & Hexec & Hrest & _).
    cbn [Engine.exec batchAppSQL] in Hexec.
    destruct (Sql.upsert _ _ _ _) as [d1'|] eqn:U; [|done].
    cbn in Hexec. injection Hexec as -> _.
    pose proof (upsert_uniqueIds _ _ _ _ _ U) as Hu.
    eapply (upsert_refreshed _ _ _ _ data) in U; try reflexivity;
      [|by cbn; intros ->].
    destruct U as (n0 & row0 & Hn0 & Ha & He & _ & Href & _ & Hold).
    destruct (IH _ _ _ Hrest) as (He' & Hu' & Htext & Hrows).
    split; [congruence|]. split; [by auto|]. split.
    { intros c Hin. apply elem_of_cons in Hin as [->|Hin]; [eauto | by apply Htext]. }
    intros number. specialize (Hrows number). cbn [lastFor].
    destruct (lastFor number rest) as [later|].
    + destruct Hrows as (row & Hrow & Hr & Hz & Hkeep).
      exists row. split; [done|]. split; [done|]. split; [done|].
      intros old Hold0. destruct (decide (n0 = number)) as [->|Hne].
      * rewrite Hold0 in Hold. destruct Hold as (I & S & _).
        destruct (Hkeep row0) as [-> ->]; [by rewrite Ha, lookup_insert_eq|].
        done.
      * apply Hkeep. by rewrite Ha, lookup_insert_ne.
    + rewrite Hrows, Ha. destruct (bool_decide _) eqn:E.
      * apply bool_decide_eq_true_1 in E. rewrite Hn0 in E. injection E as ->.
        exists row0. rewrite lookup_insert_eq.
        split; [done|]. split; [done|]. split.
        -- destruct (applications d !! number);
             [by destruct Hold as (_ & _ & ? & _)|].
           destruct Hold as (_ & _ & _ & Hz). by apply Hz.
        -- intros old Hold0. rewrite Hold0 in Hold.
           by destruct Hold as (? & ? & _).
      * apply bool_decide_eq_false_1 in E.
        rewrite lookup_insert_ne; [done|]. congruence.
Qed.

Lemma filter_refers_other i j (old rows : list EventRow) :
  i <> j ->
  Forall (fun p => Engine.refers (VInt j) p = true) rows ->
  List.filter (Engine.refers (VInt i))
    (List.filter (fun r => negb (Engine.refers (VInt j) r)) old ++ rows)
  = List.filter (Engine.refers (VInt i)) old.
Proof.
  intros Hne H. rewrite List.filter_app.
  assert (List.filter (Engine.refers (VInt i)) rows = []) as ->.
  { induction H as [|p rows Hp _ IH]; [done|]. cbn [List.filter].
    rewrite IH. cbn in Hp |- *. apply bool_decide_eq_true_1 in Hp.
    rewrite bool_decide_eq_false_2; [done|]. rewrite Hp. congruence. }
  rewrite app_nil_r.
  induction old as [|r old IH]; [done|]. cbn [List.filter].
  destruct (Engine.refers (VInt j) r) eqn:E; cbn [negb].
  - rewrite IH. cbn in E |- *. apply bool_decide_eq_true_1 in E.
    rewrite bool_decide_eq_false_2; [done|]. rewrite E. congruence.
  - cbn [List.filter]. by rewrite IH.
Qed.

(** The statements on [events] that the batch writes for one case. *)
Lemma batchEvent_ok sch clk data d d' ids number row :
  Engine.run sch clk d (batchEventSQL data) = (d', Some ids) ->
  Sql.text (applicationNumber data) = Some number ->
  applications d !! number = Some row ->
  apart d' = (applications d, next_application_id d, events d')
  /\ reflects (id row) data (eventsOf (id row) d')
  /\ forall i, i <> id row -> eventsOf i d' = eventsOf i d.
Proof.
  intros H Hn Hrow. unfold batchEventSQL in H.
  apply run_cons_ok in H as (d1 & ? & ? & Hdel & H & _).
  cbn [Engine.exec Sql.eval] in Hdel. rewrite Hn in Hdel.
  cbn [mbind option_bind] in Hdel.
  rewrite Hrow in Hdel. injection Hdel as <- _.
  destruct (0 <? Z.of_nat (length (majorEventsList data))) eqn:Hlen.
  - apply run_cons_ok in H as (d2 & ? & ? & Hins & Hnil & _).
    apply run_nil_ok in Hnil as [-> _].
    cbn [Engine.exec] in Hins.
    destruct (eventValues _ data) as [|v vs] eqn:Evals; [done|].
    destruct (mapM _ (v :: vs)) as [rows|] eqn:Hrows; [|done].
    cbn in Hins. injection Hins as <-. rewrite <- Evals in Hrows.
    eapply (event_rows _ _ _ _ _ (id row)) in Hrows as (Hl & Hall & Hpt);
      [|by cbn; rewrite Hn; cbn; rewrite Hrow].
    split; [done|]. unfold eventsOf. cbn [events Sql.set_events].
    change (fun r : EventRow => negb (bool_decide (application_id r = VInt (id row))))
      with (fun r => negb (Engine.refers (VInt (id row)) r)).
    split.
    + rewrite filter_refers_app by done. by split.
    + intros i Hi. by apply filter_refers_other.
  - apply run_nil_ok in H as [-> _].
    split; [done|]. unfold eventsOf. cbn [events Sql.set_events].
    change (fun r : EventRow => negb (bool_decide (application_id r = VInt (id row))))
      with (fun r => negb (Engine.refers (VInt (id row)) r)).
    pose proof (filter_refers_app (id row) (events d) [] ltac:(constructor)) as E0.
    rewrite app_nil_r in E0. split.
    + rewrite E0. apply Z.ltb_ge in Hlen. unfold reflects.
      destruct (majorEventsList data) as [|e l]; [|cbn in Hlen; lia].
      split; [done|]. intros n event Hne. by rewrite lookup_nil in Hne.
    + intros i Hi.
      pose proof (filter_refers_other i (id row) (events d) [] Hi ltac:(constructor))
        as E1. by rewrite app_nil_r in E1.
Qed.

(** The statements on [events] of a whole batch. *)
Lemma batch_events sch clk casesData :
  forall d d' ids,
    Engine.run sch clk d (concat (List.map batchEventSQL casesData))
    = (d', Some ids) ->
    uniqueIds d ->
    (forall data, data ∈ casesData ->
       exists number row, Sql.text (applicationNumber data) = Some number
                          /\ applications d !! number = Some row) ->
    applications d' = applications d
    /\ forall number row,
         applications d !! number = Some row ->
         match lastFor number casesData with
         | Some data => reflects (id row) data (eventsOf (id row) d')
         | None => eventsOf (id row) d' = eventsOf (id row) d
         end.
Proof.
  induction casesData as [|data rest IH]; intros d d' ids H Hu Hall.
  - apply run_nil_ok in H as [-> _]. by split.
  - cbn [List.map concat] in H.
    apply run_app_ok in H as (d2 & ? & ? & Hone & Hrest).
    destruct (Hall data) as (n0 & row0 & Hn0 & Hrow0); [by left|].
    destruct (batchEvent_ok _ _ _ _ _ _ _ _ Hone Hn0 Hrow0)
      as (Hap & Hrefl & Hothers).
    injection Hap as Ha Hnx.
    destruct (IH _ _ _ Hrest) as (Ha' & Hrows).
    { destruct Hu as [U B]. split; rewrite ?Ha, ?Hnx; done. }
    { intros c Hin. rewrite Ha. apply Hall. by right. }
    split; [congruence|].
    intros number row Hrow. cbn [lastFor].
    specialize (Hrows number row). rewrite Ha in Hrows. specialize (Hrows Hrow).
    destruct (lastFor number rest) as [later|]; [done|].
    rewrite Hrows. destruct (bool_decide _) eqn:E.
    + apply bool_decide_eq_true_1 in E. rewrite Hn0 in E. injection E as ->.
      rewrite Hrow in Hrow0. by injection Hrow0 as <-.
    + apply bool_decide_eq_false_1 in E. apply Hothers.
      intros Hid. apply E. rewrite Hn0. f_equal.
      destruct Hu as [U _]. by eapply U.
Qed.

(** ** The persistence path, when it reports success *)

(** What a successful [saveApplication] leaves: the case is persisted as
    fetched, and the other cases and their events are as before. *)
Lemma save_persisted rem data s s' :
  safe data = true ->
  saveApplication rem data s = (Val true, s') ->
  exists number,
    Sql.text (applicationNumber data) = Some number
    /\ persistedAs number data (db (store s)) (db (store s'))
    /\ (uniqueIds (db (store s)) -> uniqueIds (db (store s')))
    /\ (forall other, other <> number ->
          applications (db (store s')) !! other
          = applications (db (store s)) !! other)
    /\ (uniqueIds (db (store s)) ->
        forall other row, other <> number ->
          applications (db (store s)) !! other = Some row ->
          eventsOf (id row) (db (store s')) = eventsOf (id row) (db (store s))).
Proof.
  intros Hsafe H.
  destruct (saveApplication_ok _ _ _ _ Hsafe H)
    as (number & row & rows & clk & d3 & Hn & Ha & He & Hrows & Href & Hold).
  destruct (event_rows clk d3 (EInt (id row)) data rows (id row) eq_refl Hrows)
    as (Hlen & Hall & Hpt).
  assert (forall k r, applications (db (store s)) !! k = Some r ->
                      uniqueIds (db (store s)) -> k <> number ->
                      id r <> id row) as Hother.
  { intros k r Hk [U B] Hne E.
    destruct (applications (db (store s)) !! number) as [old|] eqn:Eold.
    - destruct Hold as (I & _). apply Hne. eapply U; [exact Hk | exact Eold |].
      congruence.
    - destruct Hold as (I & _). specialize (B _ _ Hk). lia. }
  exists number. split; [done|]. split; [|split; [|split]].
  - exists row. rewrite Ha, lookup_insert_eq. split; [done|]. split; [done|].
    unfold eventsOf. rewrite He, filter_refers_app by done.
    split; [by split|]. intros old Eold. rewrite Eold in Hold.
    by destruct Hold as (? & ? & ? & _).
  - intros [U B]. split.
    + intros k1 k2 r1 r2. rewrite Ha.
      destruct (decide (k1 = number)) as [->|N1];
        destruct (decide (k2 = number)) as [->|N2]; try done.
      * rewrite lookup_insert_eq, lookup_insert_ne by done.
        intros [= <-] H2 E. by destruct (Hother _ _ H2 (conj U B) N2).
      * rewrite lookup_insert_eq, lookup_insert_ne by done.
        intros H1 [= <-] E. by destruct (Hother _ _ H1 (conj U B) N1).
      * rewrite !lookup_insert_ne by done. apply U.
    + intros k r. rewrite Ha.
      destruct (decide (k = number)) as [->|N].
      * rewrite lookup_insert_eq. intros [= <-].
        destruct (applications (db (store s)) !! number) as [old|] eqn:Eold.
        -- destruct Hold as (-> & _ & _ & ->). by eapply B.
        -- destruct Hold as (-> & ->). lia.
      * rewrite lookup_insert_ne by done. intros Hk. specialize (B _ _ Hk).
        destruct (applications (db (store s)) !! number);
          [destruct Hold as (_ & _ & _ & ->) | destruct Hold as (_ & ->)]; lia.
  - intros other Hne. by rewrite Ha, lookup_insert_ne.
  - intros Hu other r Hne Hr. unfold eventsOf. rewrite He.
    apply filter_refers_other; [|done]. by eapply Hother.
Qed.

Lemma saveEach_failed rem casesData :
  forall acc s result s',
    saveEach rem casesData acc s = (Val result, s') ->
    failed acc <= failed result.
Proof.
  induction casesData as [|data rest IH]; intros acc s result s' H.
  - injection H as <- _. lia.
  - cbn [saveEach] in H. apply bind_ok in H as (saved & s1 & _ & H).
    apply IH in H. destruct saved; cbn in H; lia.
Qed.

(** Every save of the loop of individual saves succeeded. *)
Lemma saveEach_persisted rem casesData :
  Forall (fun data => safe data = true) casesData ->
  forall acc s result s',
    saveEach rem casesData acc s = (Val result, s') ->
    0 <= failed acc -> failed result = 0 ->
    uniqueIds (db (store s)) ->
    uniqueIds (db (store s'))
    /\ forall number,
         match lastFor number casesData with
         | Some data => persistedAs number data (db (store s)) (db (store s'))
         | None =>
             applications (db (store s')) !! number
             = applications (db (store s)) !! number
             /\ forall row, applications (db (store s)) !! number = Some row ->
                  eventsOf (id row) (db (store s'))
                  = eventsOf (id row) (db (store s))
         end.
Proof.
  induction 1 as [|data rest Hsafe _ IH]; intros acc s result s' H Hacc Hres Hu.
  - injection H as _ <-. by split.
  - cbn [saveEach] in H. apply bind_ok in H as (saved & s1 & Hsave & H).
    pose proof (saveEach_failed _ _ _ _ _ _ H) as Hmono.
    destruct saved; [|cbn in Hmono; lia].
    destruct (save_persisted _ _ _ _ Hsafe Hsave)
      as (n0 & Hn0 & Hp & Hu1 & Hkeys & Hevs).
    destruct (IH _ _ _ _ H) as (Hu' & Hrest); [done | done | by auto |].
    split; [done|]. intros number. specialize (Hrest number). cbn [lastFor].
    destruct (lastFor number rest) as [later|].
    + destruct Hrest as (row & Hrow & Href & Hrefl & Hold).
      exists row. split; [done|]. split; [done|]. split; [done|].
      intros old Eold. destruct (decide (n0 = number)) as [->|Hne].
      * destruct Hp as (row0 & Hrow0 & _ & _ & Hold0).
        destruct (Hold0 old Eold) as (I0 & S0 & _).
        destruct (Hold row0 Hrow0) as (I & S & Z0). repeat split; congruence.
      * apply Hold. by rewrite Hkeys.
    + destruct Hrest as (Hkeep & Hevkeep).
      destruct (bool_decide _) eqn:E.
      * apply bool_decide_eq_true_1 in E. rewrite Hn0 in E. injection E as ->.
        destruct Hp as (row0 & Hrow0 & Href0 & Hrefl0 & Hold0).
        exists row0. rewrite Hkeep. split; [done|]. split; [done|].
        rewrite (Hevkeep _ Hrow0). by split.
      * apply bool_decide_eq_false_1 in E.
        assert (number <> n0) as Hne by congruence.
        rewrite Hkeep, (Hkeys _ Hne). split; [done|].
        intros row Hrow. rewrite <- (Hevs Hu _ _ Hne Hrow).
        apply Hevkeep. by rewrite Hkeys.
Qed.

Lemma lookup_mark clk target (m : gmap string AppRow) k r :
  alter (Engine.mark clk) target m !! k = Some r ->
  exists o, m !! k = Some o /\ id r = id o.
Proof.
  rewrite lookup_alter_Some. intros [(-> & o & Ho & ->)|(_ & Hr)]; eauto.
Qed.

Lemma exec_uniqueIds sch clk d s d' ids :
  Engine.exec sch clk d s = Some (d', ids) -> uniqueIds d -> uniqueIds d'.
Proof.
  intros H Hu. pose proof (exec_apart _ _ _ _ _ _ H) as Hap.
  destruct s as [body|bodies|v|body|app|rows|body|].
  1, 2, 4, 5, 6, 8: destruct Hap as [Ha Hn]; destruct Hu as [U B];
    split; rewrite ?Ha, ?Hn; done.
  - cbn [Engine.exec] in H.
    destruct (Sql.upsert sch clk d v) as [d1|] eqn:E; [|done].
    cbn in H. injection H as <- _. by eapply upsert_uniqueIds.
  - cbn [Engine.exec] in H. destruct (Sql.text body) as [target|]; [|done].
    cbn in H. injection H as <- _. destruct Hu as [U B]. split; cbn.
    + intros k1 k2 r1 r2 H1 H2 E.
      apply lookup_mark in H1 as (o1 & H1 & I1).
      apply lookup_mark in H2 as (o2 & H2 & I2).
      eapply U; [exact H1 | exact H2 | congruence].
    + intros k r Hr. apply lookup_mark in Hr as (o & Ho & ->). by eapply B.
Qed.

(** Whatever the command, and whether the engine reads it as written or
    not, the ids of [applications] stay a key. *)
Lemma submit_uniqueIds rem c st :
  uniqueIds (db st) -> uniqueIds (db (submit rem c st).2).
Proof.
  intros Hu. destruct (reads c) eqn:Hr.
  - apply (submit_keeps_db rem uniqueIds); [done| |done].
    intros sch clk s d d' ids _ Hu' H. by eapply exec_uniqueIds.
  - unfold submit, outcome. rewrite Hr.
    pose proof (keyed rem (calls st) c (db st) Hu) as K.
    destruct (beyond rem (calls st) c (db st)) as [after r]. cbn [snd db].
    by destruct (delivered _).
Qed.

Lemma uploadSQL_uniqueIds rem sql s :
  uniqueIds (db (store s)) -> uniqueIds (db (store (uploadSQL rem sql s).2)).
Proof.
  intros Hu.
  destruct (uploadSQL_cases rem sql s) as (_ & st' & Hst & [->|[-> _]]);
    destruct Hst as [->| ->]; cbn [stall asked db];
    first [by apply submit_uniqueIds | done].
Qed.

Lemma submit_sent_kept rem c st number row :
  Sent c ->
  reads c = true ->
  applications (db st) !! number = Some row ->
  exists row', applications (db (submit rem c st).2) !! number = Some row'
               /\ kept row row'.
Proof.
  intros Hc Hr Hrow.
  apply (submit_keeps_db rem
           (fun d => exists row', applications d !! number = Some row'
                                  /\ kept row row')); [done|..].
  - intros sch clk x d d' ids Hin (r1 & Hr1 & K1) Hexec.
    pose proof (markFree_In c x (sent_markFree c Hc) Hin) as Hx.
    destruct (exec_kept _ _ _ _ _ _ _ _ Hx Hexec Hr1) as (r2 & Hr2 & K2).
    exists r2. split; [done|]. by eapply kept_trans.
  - exists row. split; [done | apply kept_refl].
Qed.

(** *** What the engine accepts *)

Lemma eval_accepts clk d e :
  forallb literal (exprTexts e) = true -> is_Some (Sql.eval clk d e).
Proof.
  destruct e as [|n|body| | |body|body]; cbn; try (by eauto);
    rewrite andb_true_r; intros [x ->]%text_literal; cbn; eauto.
Qed.

Lemma upsert_accepts sch clk d v :
  forallb literal (texts (UpsertApp v)) = true ->
  shaped (UpsertApp v) = true ->
  is_Some (Sql.upsert sch clk d v).
Proof.
  cbn [texts shaped]. rewrite !forallb_app. cbn [forallb].
  intros H Hshape. repeat (apply andb_true_iff in H as [? H]).
  repeat match goal with
         | K : _ && _ = true |- _ => apply andb_true_iff in K as [? ?]
         end.
  unfold Sql.upsert.
  repeat match goal with
         | K : literal ?b = true |- context [Sql.text ?b] =>
             let x := fresh "x" in
             apply text_literal in K as [x ->]; cbn [mbind option_bind]
         | K : forallb literal (exprTexts ?e) = true
           |- context [Sql.eval clk d ?e] =>
             let x := fresh "x" in
             destruct (eval_accepts clk d e K) as [x ->];
             cbn [mbind option_bind]
         end.
  assert (is_Some (match v_updated_at v with
                   | Some e => Some <$> Sql.eval clk d e
                   | None => Some None
                   end)) as [upd ->].
  { destruct (v_updated_at v) as [e|]; [|by eexists].
    cbn [from_option] in *.
    match goal with
    | K : forallb literal (exprTexts e) = true |- _ =>
        destruct (eval_accepts clk d e K) as [u ->]
    end.
    by eexists. }
  destruct (v_not_found_count v) as [[ | n | | | | | ]|]; try done;
    cbn [Sql.eval fmap option_fmap option_map mbind option_bind];
    destruct (applications d !! _); cbn; eauto.
Qed.

Lemma exec_accepts sch clk d s :
  forallb literal (texts s) = true -> shaped s = true ->
  is_Some (Engine.exec sch clk d s).
Proof.
  intros Hl Hs.
  destruct s as [body|bodies|v|body|app|rows|body|]; cbn [Engine.exec].
  - cbn in Hl. rewrite andb_true_r in Hl.
    apply text_literal in Hl as [x ->]. cbn. eauto.
  - destruct bodies as [|b bodies]; [done|]. cbn [texts] in Hl.
    assert (is_Some (mapM Sql.text (b :: bodies))) as [names ->]; [|cbn; eauto].
    clear Hs. induction (b :: bodies) as [|x l IH]; [by eexists|].
    cbn [forallb] in Hl. apply andb_true_iff in Hl as [Hx Hl].
    apply text_literal in Hx as [y Hy]. destruct (IH Hl) as [ys Hys].
    cbn [mapM]. rewrite Hy, Hys. cbn. eauto.
  - destruct (upsert_accepts sch clk d v Hl Hs) as [d' ->]. cbn. eauto.
  - cbn in Hl. rewrite andb_true_r in Hl.
    apply text_literal in Hl as [x ->]. cbn. eauto.
  - destruct (eval_accepts clk d app Hl) as [a ->]. cbn. eauto.
  - destruct rows as [|r rows]; [done|]. cbn [texts] in Hl.
    assert (is_Some (mapM (Sql.event_row clk d) (r :: rows))) as [rs ->];
      [|cbn; eauto].
    clear Hs. induction (r :: rows) as [|x l IH]; [by eexists|].
    cbn [List.map concat] in Hl. rewrite !forallb_app in Hl.
    apply andb_true_iff in Hl as [Hx Hl].
    apply andb_true_iff in Hx as [Ha Hx].
    apply andb_true_iff in Hx as [Hx Hi]. cbn [forallb] in Hx.
    apply andb_true_iff in Hx as [Hdate Hx].
    apply andb_true_iff in Hx as [Hdesc _].
    destruct (IH Hl) as [ys Hys]. cbn [mapM].
    assert (is_Some (Sql.event_row clk d x)) as [y ->].
    { unfold Sql.event_row.
      destruct (eval_accepts clk d _ Ha) as [a ->].
      apply text_literal in Hdate as [date ->].
      apply text_literal in Hdesc as [desc ->].
      destruct (eval_accepts clk d _ Hi) as [i ->].
      cbn. eauto. }
    cbn. rewrite Hys. cbn. eauto.
  - cbn in Hl. rewrite andb_true_r in Hl.
    apply text_literal in Hl as [x ->]. cbn. eauto.
  - eauto.
Qed.

Lemma run_accepts sch clk sql :
  forallb (fun s => forallb literal (texts s)) sql = true ->
  forallb shaped sql = true ->
  forall d, (Engine.run sch clk d sql).2 <> None.
Proof.
  induction sql as [|s rest IH]; intros Hl Hs d; [done|].
  cbn [forallb] in Hl, Hs.
  apply andb_true_iff in Hl as [Hl Hrest]. apply andb_true_iff in Hs as [Hs Hshape].
  rewrite run_cons. destruct (exec_accepts sch clk d s Hl Hs) as [[d' ids] ->].
  specialize (IH Hrest Hshape d').
  destruct (Engine.run sch clk d' rest) as [d'' [more|]]; [done|]. by cbn in *.
Qed.

Lemma shaped_batch casesData :
  forallb shaped (buildBatchSQLWithReps casesData) = true.
Proof.
  unfold buildBatchSQLWithReps. rewrite !forallb_app.
  repeat (apply andb_true_iff; split).
  - destruct (unique [] _) as [|name names]; [done|].
    by destruct (0 <? _).
  - induction casesData as [|data rest IH]; [done|]. cbn. exact IH.
  - induction casesData as [|data rest IH]; [done|].
    cbn [List.map concat]. rewrite forallb_app, IH, andb_true_r.
    unfold batchEventSQL, eventValues.
    destruct (majorEventsList data) as [|event events]; [done|].
    by destruct (0 <? _).
Qed.

Lemma literal_reads sql :
  reads (Import sql) = true ->
  forallb (fun s => forallb literal (texts s)) sql = true.
Proof.
  rewrite reads_import. intros H. apply forallb_forall. intros s Hs.
  rewrite forallb_forall in H. specialize (H s Hs).
  apply forallb_forall. intros body Hb.
  rewrite forallb_forall in H. specialize (H body Hb).
  unfold fits in H. by apply andb_true_iff in H as [? _].
Qed.

(** An import of records whose numbers and dates hold no quote is
    carried out as soon as it is delivered. *)
Lemma carriedOut_safe rem casesData st :
  forallb sqlSafe casesData = true ->
  delivered (wire rem (calls st)) = true ->
  carriedOut rem (buildBatchSQLWithReps casesData) st.
Proof.
  intros Hq Hd. split; [done|].
  apply run_accepts; [|apply shaped_batch].
  by apply literal_reads, reads_batch.
Qed.

(** The import of a batch was carried out. *)
Lemma import_persisted rem casesData s b s' :
  uploadSQL rem (buildBatchSQLWithReps casesData) s = (Val b, s') ->
  forallb sqlSafe casesData = true ->
  carriedOut rem (buildBatchSQLWithReps casesData) (store s) ->
  uniqueIds (db (store s)) ->
  forall number data,
    lastFor number casesData = Some data ->
    persistedAs number data (db (store s)) (db (store s')).
Proof.
  intros H Hq Hcarried Hu number data Hlast.
  apply uploadSQL_ok in H as (ids & H & _); [|by apply reads_batch|done].
  unfold buildBatchSQLWithReps in H.
  apply run_app_ok in H as (d1 & ? & ? & Hreps & H).
  apply run_app_ok in H as (d2 & ? & ? & Happs & Hevs).
  assert (apart d1 = apart (db (store s))) as Hap.
  { destruct (0 <? _).
    - apply run_cons_ok in Hreps as (d1' & ? & ? & Hexec & Hnil & _).
      apply run_nil_ok in Hnil as [-> _]. cbn [Engine.exec] in Hexec.
      destruct (List.map _ _) as [|b0 bs]; [done|].
      destruct (mapM Sql.text (b0 :: bs)) as [names|]; [|done].
      cbn in Hexec. injection Hexec as <- _. apply insert_reps_apart.
    - by apply run_nil_ok in Hreps as [-> _]. }
  pose proof (uniqueIds_apart _ _ Hap Hu) as Hu1.
  injection Hap as Ha1 _ _.
  destruct (batch_apps _ _ _ _ _ _ Happs) as (_ & Hu2 & Htext & Hrows).
  specialize (Hu2 Hu1).
  destruct (batch_events _ _ _ _ _ _ Hevs Hu2) as (Ha3 & Hev).
  { intros c Hin. destruct (Htext c Hin) as (n & Hn).
    destruct (lastFor_In _ _ _ Hin Hn) as (later & Hl).
    pose proof (Hrows n) as Hr. rewrite Hl in Hr.
    destruct Hr as (row & Hrow & _). eauto. }
  pose proof (Hrows number) as Hr. rewrite Hlast in Hr.
  destruct Hr as (row & Hrow & Href & Hz & Hold).
  specialize (Hev number row Hrow). rewrite Hlast in Hev.
  exists row. rewrite Ha3. split; [done|]. split; [done|]. split; [done|].
  intros old Eold. rewrite <- Ha1 in Eold.
  destruct (Hold old Eold). by repeat split.
Qed.

(** [saveBatch] reported no failure: every case of the batch is persisted
    as its last record in the batch gives it. *)
Lemma saveBatch_persisted rem casesData s result s' :
  saveBatch rem casesData s = (Val result, s') ->
  failed result = 0 ->
  forallb safe casesData = true ->
  (importAPI (adapter s) = true ->
   carriedOut rem (buildBatchSQLWithReps casesData) (store s)) ->
  uniqueIds (db (store s)) ->
  forall number data,
    lastFor number casesData = Some data ->
    persistedAs number data (db (store s)) (db (store s')).
Proof.
  unfold saveBatch. intros H Hres Hsafe Hcarried Hu number data Hlast.
  destruct (safe_forall _ Hsafe) as [Hq Hall].
  destruct (length casesData =? 0)%nat eqn:Hlen.
  { apply Nat.eqb_eq in Hlen. destruct casesData; [done | discriminate]. }
  apply bind_ok in H as (s0 & ? & [= <- <-] & H).
  apply bind_ok in H as (imported & s1 & Himp & H).
  destruct (importAPI (adapter s)).
  - unfold tryCatch in Himp.
    destruct ((uploadSQL rem (buildBatchSQLWithReps casesData)
               ≫= (fun _ => mret (Some {| success := Z.of_nat (length casesData);
                                           failed := 0 |}))) s)
      as [[r|e] s2] eqn:Hup.
    + injection Himp as <- <-.
      apply bind_ok in Hup as (b & s3 & Hup & [= <- <-]).
      injection H as _ <-.
      eapply import_persisted; eauto.
    + injection Himp as <- <-.
      rewrite bind_eq in Hup.
      destruct (uploadSQL rem _ s) as [[b|e'] s3] eqn:Hup'; [done|].
      injection Hup as _ <-.
      pose proof (uploadSQL_uniqueIds rem (buildBatchSQLWithReps casesData)
                    s Hu) as Hu3.
      rewrite Hup' in Hu3. cbn [snd] in Hu3.
      destruct (saveEach_persisted _ _ Hall _ _ _ _ H) as (_ & Hrows);
        [done | done | done |].
      specialize (Hrows number). rewrite Hlast in Hrows.
      destruct Hrows as (row & Hrow & Href & Hrefl & Hold).
      exists row. split; [done|]. split; [done|]. split; [done|].
      intros old Eold.
      assert (exists old3, applications (db (store s3)) !! number = Some old3
                           /\ kept old old3) as (old3 & Hold3 & I3 & S3 & _).
      { destruct (uploadSQL_cases rem (buildBatchSQLWithReps casesData) s)
          as (_ & st' & Hst & Hs3).
        rewrite Hup' in Hs3. cbn [snd] in Hs3.
        assert (db (store s3) = db st') as ->
            by (by destruct Hs3 as [->|[-> _]]).
        destruct Hst as [->| ->].
        - apply submit_sent_kept; [constructor | by apply reads_batch | done].
        - exists old. split; [done | apply kept_refl]. }
      destruct (Hold old3 Hold3) as (I & S & Z0). repeat split; congruence.
  - injection Himp as <- <-.
    destruct (saveEach_persisted _ _ Hall _ _ _ _ H) as (_ & Hrows);
      [done | done | done |].
    specialize (Hrows number). by rewrite Hlast in Hrows.
Qed.

Lemma persistedAs_mirrors number data before after :
  persistedAs number data before after -> mirrors number data after.
Proof. intros (row & Hrow & _ & Hrefl & _). by exists row. Qed.

Lemma uniqueIds_empty : uniqueIds Sample.emptyDb.
Proof. split; intros *; cbn; by rewrite lookup_empty. Qed.

(** A record without events is never saved by [saveApplication]: the
    insert into [events] it sends has an empty VALUES list, the engine
    rejects it, and the method answers [false].  The batch builder leaves
    the insert out for such a record. *)
Lemma saveApplication_without_events rem data s :
  majorEventsList data = [] ->
  (saveApplication rem data s).1 = Val false.
Proof.
  intros Hnil.
  destruct (saveApplication rem data s) as [[[|]|e] s'] eqn:E; cbn.
  - exfalso. unfold saveApplication in E. apply tryCatch_ok in E; [|done].
    apply bind_ok in E as (rid & s1 & _ & E).
    apply bind_ok in E as (ids2 & s2 & _ & E).
    apply bind_ok in E as (ids3 & s3 & _ & E).
    destruct (idMatch ids3) as [applicationId|]; [|done].
    apply bind_ok in E as (ids4 & s4 & Hev & _).
    unfold eventValues in Hev. rewrite Hnil in Hev. cbn [imap] in Hev.
    apply executeSQL_ok in Hev as [Hev _]; [|reflexivity].
    apply run_cons_ok in Hev as (d & ? & ? & _ & Hev & _).
    apply run_cons_ok in Hev as (d' & ? & ? & Hex & _).
    done.
  - done.
  - exfalso. unfold saveApplication, tryCatch in E.
    match type of E with
    | match ?m s with _ => _ end = _ => destruct (m s) as [[?|?] ?]
    end; done.
Qed.

(** C1. A case fetched again with an empty table of events and saved by
    [saveApplication] keeps the events it had.  The insert into [events]
    is written with an empty VALUES list, the engine rejects the command
    with the delete before it, and the save answers [false]: the case has
    its old event, where the fetched sequence has none.  The batch
    builder leaves the insert out for such a record, and the import of
    the same record leaves the case without events. *)
Theorem empty_refetch_keeps_events :
  (saveApplication Sample.reliable Sample.bare
     (Sample.onDb false Sample.lapsedDb)).1 = Val false
  /\ eventsOf 7 (db (store (saveApplication Sample.reliable Sample.bare
                              (Sample.onDb false Sample.lapsedDb)).2))
     = events Sample.lapsedDb
  /\ ~ mirrors "152/18" Sample.bare
         (db (store (saveApplication Sample.reliable Sample.bare
                       (Sample.onDb false Sample.lapsedDb)).2))
  /\ mirrors "152/18" Sample.bare
       (db (store (saveBatch Sample.reliable [Sample.bare]
                     (Sample.onDb true Sample.lapsedDb)).2)).
Proof.
  split; [vm_compute; reflexivity|]. split; [vm_compute; reflexivity|]. split.
  - intros (row & Hrow & Hlen & _).
    vm_compute in Hrow. injection Hrow as <-. vm_compute in Hlen. discriminate.
  - eexists. split; [vm_compute; reflexivity|]. split; [vm_compute; reflexivity|].
    intros n event H. destruct n; discriminate.
Qed.

(** X31. After a persistence path that reports success, for records
    whose texts the engine reads as they are written, the persisted
    events of the case are the fetched sequence: as many rows, in the
    fetched order, each with the fetched description and the converted
    date, the last-event flag on the last row only, and no row at all for
    an empty sequence.  This holds for [saveApplication] returning [true]
    and for [saveBatch] reporting no failure, be it by an import that
    was delivered or by the individual saves, for every case of the batch
    and its last record there. *)
Theorem events_mirror_fetch rem :
  (forall data s s' number,
      safe data = true ->
      saveApplication rem data s = (Val true, s') ->
      Sql.text (applicationNumber data) = Some number ->
      mirrors number data (db (store s')))
  /\ (forall casesData s s' result number data,
        forallb safe casesData = true ->
        (importAPI (adapter s) = true ->
         delivered (wire rem (calls (store s))) = true) ->
        saveBatch rem casesData s = (Val result, s') ->
        failed result = 0 ->
        uniqueIds (db (store s)) ->
        lastFor number casesData = Some data ->
        mirrors number data (db (store s'))).
Proof.
  split.
  - intros data s s' number Hsafe H Hn.
    destruct (save_persisted _ _ _ _ Hsafe H) as (n & Hn' & Hp & _).
    rewrite Hn in Hn'. injection Hn' as <-.
    by eapply persistedAs_mirrors.
  - intros casesData s s' result number data Hsafe Hd H Hres Hu Hlast.
    eapply persistedAs_mirrors.
    eapply saveBatch_persisted; try done.
    intros Hi. apply carriedOut_safe; [|by apply Hd].
    by destruct (safe_forall _ Hsafe).
Qed.

Lemma events_mirror_fetch_witness :
  mirrors "152/18" Sample.ivanov
    (db (store (saveApplication Sample.reliable Sample.ivanov
                  (Sample.onDb false Sample.lapsedDb)).2))
  /\ mirrors "168/18" Sample.fresh
       (db (store (saveBatch Sample.reliable
                     [Sample.ivanov; Sample.fresh; Sample.ivanovLater]
                     (Sample.onDb true Sample.emptyDb)).2))
  /\ mirrors "152/18" Sample.ivanovLater
       (db (store (saveBatch Sample.reliable
                     [Sample.ivanov; Sample.fresh; Sample.ivanovLater]
                     (Sample.onDb true Sample.emptyDb)).2)).
Proof.
  destruct (events_mirror_fetch Sample.reliable) as [Hone Hbatch].
  split; [|split].
  - apply (Hone Sample.ivanov (Sample.onDb false Sample.lapsedDb));
      vm_compute; reflexivity.
  - apply (Hbatch [Sample.ivanov; Sample.fresh; Sample.ivanovLater]
             (Sample.onDb true Sample.emptyDb) _
             {| success := 3; failed := 0 |});
      [reflexivity | reflexivity
      | vm_compute; reflexivity | reflexivity | apply uniqueIds_empty
      | vm_compute; reflexivity].
  - apply (Hbatch [Sample.ivanov; Sample.fresh; Sample.ivanovLater]
             (Sample.onDb true Sample.emptyDb) _
             {| success := 3; failed := 0 |});
      [reflexivity | reflexivity
      | vm_compute; reflexivity | reflexivity | apply uniqueIds_empty
      | vm_compute; reflexivity].
Defined.



(** X33. A not-found mark that is applied, for a number the engine reads
    as it is written, adds one to the counter and sets the skip flag when
    that brings the counter to 60 or more, and leaves the flag as it was
    otherwise.  For a persisted case whose skip flag is unset below the
    threshold, an operation on texts the engine reads as they are written
    (a not-found mark, a save, a batch of saves; whether it succeeds or
    fails) sets the flag exactly when it brings the not-found counter to
    60, and no sequence of such operations unsets a flag that is set. *)
Theorem skip_flag_threshold rem number :
  (forall n y s row,
      number = n +:+ "/" +:+ y ->
      safeNumber number = true ->
      applications (db (store s)) !! number = Some row ->
      (markAsNotFound rem n y s).1 = Val true ->
      exists row',
        applications (db (store (markAsNotFound rem n y s).2)) !! number
        = Some row'
        /\ not_found_count row' = not_found_count row + 1
        /\ skip_scraping row'
           = (if 60 <=? not_found_count row + 1 then 1 else skip_scraping row))
  /\ (forall op s row,
        safeOp op = true ->
        applications (db (store s)) !! number = Some row ->
        belowThreshold row ->
        exists row',
          applications (db (store (perform rem op s))) !! number = Some row'
          /\ belowThreshold row'
          /\ (skip_scraping row <> 0 -> skip_scraping row' <> 0)
          /\ (skip_scraping row = 0 ->
              (skip_scraping row' <> 0 <-> not_found_count row' = 60)))
  /\ (forall ops s row,
        forallb safeOp ops = true ->
        applications (db (store s)) !! number = Some row ->
        skip_scraping row <> 0 ->
        exists row',
          applications
            (db (store (foldl (fun s op => perform rem op s) s ops))) !! number
          = Some row'
          /\ skip_scraping row' <> 0).
Proof.
  assert (forall op s row,
             safeOp op = true ->
             applications (db (store s)) !! number = Some row ->
             exists row',
               applications (db (store (perform rem op s))) !! number = Some row'
               /\ (kept row row' \/ exists clk, row' = Engine.mark clk row))
    as Hstep.
  { intros op s row Hsafe Hrow. destruct op as [n y|data|casesData].
    - destruct (mark_row rem number row n y s Hsafe Hrow)
        as (row' & Hrow' & [->|Hm] & _).
      + exists row. split; [done|]. left. apply kept_refl.
      + exists row'. split; [done|]. by right.
    - destruct (save_kept rem number row (Save data) s) as (row' & ? & ?);
        [done | done | done |]. exists row'. split; [done | by left].
    - destruct (save_kept rem number row (SaveBatch casesData) s)
        as (row' & ? & ?); [done | done | done |].
      exists row'. split; [done | by left]. }
  split; [|split].
  - intros n y s row -> Hsafe Hrow Hok.
    destruct (mark_row rem _ row n y s Hsafe Hrow) as (row' & Hrow' & _ & Hmark).
    exists row'. split; [exact Hrow'|].
    rewrite Hmark; [by split | done |].
    apply quoteFree_text. unfold safeNumber in Hsafe.
    by apply andb_true_iff in Hsafe as [? _].
  - intros op s row Hsafe Hrow Hbelow.
    destruct (Hstep op s row Hsafe Hrow) as (row' & Hrow' & Hcase).
    exists row'. split; [done|]. unfold belowThreshold in *.
    destruct Hcase as [(I & S & N)|(clk & ->)].
    + rewrite S. repeat split; try done; try lia.
    + cbn. destruct (Z.leb_spec 60 (not_found_count row + 1));
        repeat split; try done; try lia.
  - intros ops. induction ops as [|op ops IH]; intros s row Hsafe Hrow Hflag.
    + by exists row.
    + cbn [foldl]. cbn [forallb] in Hsafe.
      apply andb_true_iff in Hsafe as [Hop Hops].
      destruct (Hstep op s row Hop Hrow) as (row' & Hrow' & Hcase).
      apply (IH _ row' Hops Hrow').
      destruct Hcase as [(_ & S & _)|(clk & ->)]; [congruence|].
      cbn. by destruct (60 <=? _).
Qed.

Lemma skip_flag_threshold_witness :
  (exists row',
      applications
        (db (store (markAsNotFound Sample.reliable "152" "18"
                      (Sample.onDb false Sample.lapsedDb)).2)) !! "152/18"
      = Some row'
      /\ not_found_count row' = 59 + 1
      /\ skip_scraping row' = 1)
  /\ (exists row',
        applications
          (db (store (perform Sample.reliable (Save Sample.ivanovLater)
                        (perform Sample.reliable (Mark "152" "18")
                           (Sample.onDb false Sample.lapsedDb))))) !! "152/18"
        = Some row'
        /\ skip_scraping row' <> 0).
Proof.
  destruct (skip_flag_threshold Sample.reliable "152/18") as (Hmark & _ & Hops).
  split.
  - apply (Hmark "152" "18" (Sample.onDb false Sample.lapsedDb) Sample.lapsed);
      vm_compute; reflexivity.
  - destruct (Hmark "152" "18" (Sample.onDb false Sample.lapsedDb)
                Sample.lapsed) as (marked & Hrow & _ & Hflag);
      [vm_compute; reflexivity.. |].
    apply (Hops [Save Sample.ivanovLater]
             (perform Sample.reliable (Mark "152" "18")
                (Sample.onDb false Sample.lapsedDb)) marked);
      [vm_compute; reflexivity | exact Hrow |].
    rewrite Hflag. discriminate.
Defined.

Lemma uniqueIds_lapsed : uniqueIds Sample.lapsedDb.
Proof.
  split; cbn.
  - intros k1 k2 r1 r2 H1 H2 _.
    apply lookup_singleton_Some in H1 as [<- _].
    by apply lookup_singleton_Some in H2 as [<- _].
  - intros k r H. apply lookup_singleton_Some in H as [_ <-]. reflexivity.
Qed.

(* ===================================================================== *)
(** * Further properties of the code *)
(* ===================================================================== *)

(** ** Texts *)

Lemma append_nil_r (s : string) : s +:+ "" = s.
Proof. induction s as [|c s IH]; [done|]. by rewrite app_cons, IH. Qed.

Lemma append_assoc (a b c : string) : (a +:+ b) +:+ c = a +:+ b +:+ c.
Proof. induction a as [|x a IH]; [done|]. by rewrite !app_cons, IH. Qed.

Lemma startsWith_app (p s : string) :
  Js.startsWith p s = true <-> exists after, s = p +:+ after.
Proof.
  revert s. induction p as [|a p IH]; intros s.
  - split; [eauto|done].
  - destruct s as [|b s]; simpl.
    + split; [done|]. by intros [? ?].
    + destruct (ascii_dec a b) as [->|N].
      * rewrite IH. split; intros [after H]; exists after.
        -- by rewrite H.
        -- rewrite app_cons in H. congruence.
      * split; [done|]. intros [after H]. rewrite app_cons in H. congruence.
Qed.

Lemma includes_app (p s : string) :
  Js.includes p s = true <-> exists before after, s = before +:+ p +:+ after.
Proof.
  induction s as [|c s IH].
  - cbn [Js.includes]. rewrite orb_false_r, startsWith_app. split.
    + intros [after H]. by exists "", after.
    + intros (before & after & H). destruct before; [by exists after|done].
  - cbn [Js.includes]. rewrite orb_true_iff, startsWith_app, IH. split.
    + intros [[after H]|(before & after & H)].
      * by exists "", after.
      * exists (String c before), after. by rewrite H.
    + intros (before & after & H). destruct before as [|x before].
      * left. by exists after.
      * right. exists before, after. rewrite app_cons in H. congruence.
Qed.

Lemma toLowerCase_app (a b : string) :
  Js.toLowerCase (a +:+ b) = Js.toLowerCase a +:+ Js.toLowerCase b.
Proof. induction a as [|c a IH]; [done|]. rewrite !app_cons. simpl. by rewrite IH. Qed.

Lemma lowerChar_idem (c : ascii) : Js.lowerChar (Js.lowerChar c) = Js.lowerChar c.
Proof. destruct c as [[] [] [] [] [] [] [] []]; reflexivity. Qed.

Lemma toLowerCase_idem (s : string) :
  Js.toLowerCase (Js.toLowerCase s) = Js.toLowerCase s.
Proof. induction s as [|c s IH]; [done|]. simpl. by rewrite lowerChar_idem, IH. Qed.

Lemma toLowerCase_nonEmpty (s : string) :
  Js.nonEmpty (Js.toLowerCase s) = Js.nonEmpty s.
Proof. by destruct s. Qed.

(** X1. A case counts as closed exactly when its last event, put in
    lower case, holds "finished" or "inadmissible" somewhere; so the
    letter case of the event does not matter, a word around the mark does
    not either, and a missing or empty event is not closed. *)
Theorem isCaseClosed_substring :
  (forall lastMajorEvent,
      isCaseClosed lastMajorEvent = true <->
      exists s before after,
        lastMajorEvent = Some s
        /\ (Js.toLowerCase s = before +:+ "finished" +:+ after
            \/ Js.toLowerCase s = before +:+ "inadmissible" +:+ after))
  /\ (forall s, isCaseClosed (Some (Js.toLowerCase s)) = isCaseClosed (Some s))
  /\ (forall before mark after,
        Js.toLowerCase mark = "finished" \/ Js.toLowerCase mark = "inadmissible" ->
        isCaseClosed (Some (before +:+ mark +:+ after)) = true)
  /\ isCaseClosed None = false
  /\ isCaseClosed (Some "") = false.
Proof.
  assert (forall lastMajorEvent,
             isCaseClosed lastMajorEvent = true <->
             exists s before after,
               lastMajorEvent = Some s
               /\ (Js.toLowerCase s = before +:+ "finished" +:+ after
                   \/ Js.toLowerCase s = before +:+ "inadmissible" +:+ after))
    as Hchar.
  { intros [s|]; unfold isCaseClosed; cbn [Js.truthy Js.interp].
    - destruct (Js.nonEmpty s) eqn:N; cbn [negb].
      + rewrite orb_true_iff, !includes_app. split.
        * intros [(b & a & H)|(b & a & H)]; exists s, b, a; auto.
        * intros (s' & b & a & [= <-] & [H|H]); [left|right]; eauto.
      + destruct s; [|done]. split; [done|].
        intros (s' & b & a & [= <-] & [H|H]); by destruct b.
    - split; [done|]. by intros (? & ? & ? & ? & _). }
  split; [exact Hchar|]. split; [|split; [|done]].
  - intros s. unfold isCaseClosed. cbn [Js.truthy Js.interp].
    by rewrite toLowerCase_nonEmpty, toLowerCase_idem.
  - intros before mark after H. apply Hchar.
    exists (before +:+ mark +:+ after), (Js.toLowerCase before), (Js.toLowerCase after).
    split; [done|]. rewrite !toLowerCase_app. destruct H as [-> | ->]; auto.
Qed.

Lemma isCaseClosed_substring_witness :
  isCaseClosed (Some ("Application " +:+ "FINISHED" +:+ " in 2021")) = true.
Proof.
  destruct isCaseClosed_substring as (_ & _ & H & _).
  apply (H "Application " "FINISHED" " in 2021"). left. reflexivity.
Defined.

Lemma doubleQuotes_inj (s t : string) :
  Js.doubleQuotes s = Js.doubleQuotes t -> s = t.
Proof.
  intros H. apply (f_equal Sql.text) in H.
  rewrite !text_doubleQuotes in H. congruence.
Qed.

(** X2. Escaping is undone by the engine: the text written as
    ['${escapeSQL(x)}'] is read back as [x], whatever quotes [x] holds;
    two texts are escaped alike only when they are the same; and the
    column written as [${x ? `'${escapeSQL(x)}'` : 'NULL'}] holds [x], or
    NULL for a missing or empty [x]. *)
Theorem escapeSQL_round_trip :
  (forall s, Sql.text (Js.doubleQuotes s) = Some s)
  /\ (forall s t, Js.doubleQuotes s = Js.doubleQuotes t -> s = t)
  /\ (forall x s, escapeSQL x = Some s -> Sql.text s = x)
  /\ (forall clk d x,
        Sql.eval clk d (quotedOrNull x)
        = Some (if Js.truthy x then VText (Js.interp x) else VNull)).
Proof.
  split; [apply text_doubleQuotes|]. split; [apply doubleQuotes_inj|].
  split.
  - intros [x|] s; cbn [escapeSQL]; [|done].
    destruct (Js.nonEmpty x); [|done]. intros [= <-]. apply text_doubleQuotes.
  - intros clk d x. apply eval_quotedOrNull.
Qed.

Lemma escapeSQL_round_trip_witness :
  Sql.text "O''Brien" = Some "O'Brien".
Proof.
  destruct escapeSQL_round_trip as (_ & _ & H & _).
  apply (H (Some "O'Brien") "O''Brien"). reflexivity.
Defined.

Lemma slashFree_app (a b : string) :
  slashFree (a +:+ b) = slashFree a && slashFree b.
Proof. apply all_app. Qed.

Lemma slashFree_padStart (s : string) :
  slashFree s = true -> slashFree (Js.padStart 2 "0" s) = true.
Proof.
  intros H. unfold Js.padStart. rewrite slashFree_app, H, andb_true_r.
  induction (2 - String.length s)%nat as [|n IH]; [done|exact IH].
Qed.

Lemma convertDate_slashFree x y : convertDate x = Some y -> slashFree y = true.
Proof.
  destruct x as [s|]; [|done]. unfold convertDate.
  destruct (Js.nonEmpty s); [|done]. cbn [negb].
  destruct (matchesIsoDate s) eqn:I.
  { intros [= <-]. by apply iso_slashFree. }
  pose proof (split_pieces_free "/" s) as F.
  destruct (Js.split "/" s) as [|day [|month [|year rest]]]; try done.
  apply Forall_cons in F as [Fd F]. apply Forall_cons in F as [Fm F].
  apply Forall_cons in F as [Fy _].
  destruct (_ || _); [done|]. intros [= <-].
  fold (slashFree day) in Fd. fold (slashFree month) in Fm.
  fold (slashFree year) in Fy.
  rewrite !slashFree_app, Fy, !slashFree_padStart by done. done.
Qed.

Lemma convertDate_nonEmpty x y : convertDate x = Some y -> Js.nonEmpty y = true.
Proof.
  destruct x as [s|]; [|done]. unfold convertDate.
  destruct (Js.nonEmpty s) eqn:N; [|done]. cbn [negb].
  destruct (matchesIsoDate s); [by intros [= <-]|].
  destruct (Js.split "/" s) as [|day [|month [|year rest]]]; try done.
  destruct (Js.nonEmpty year) eqn:Ny.
  - destruct (_ || _); [done|]. intros [= <-]. by apply nonEmpty_app_l.
  - by rewrite !orb_true_r.
Qed.

Lemma all_length2 (p : ascii -> bool) (s : string) :
  Js.all p s = true -> (1 <= String.length s <= 2)%nat ->
  exists a b, Js.padStart 2 "0" s = String a (String b "")
              /\ (a = "0"%char \/ p a = true) /\ p b = true.
Proof.
  destruct s as [|a [|b [|c s]]]; simpl; intros H L; try lia.
  - exists "0"%char, a. rewrite andb_true_r in H. auto.
  - exists a, b. apply andb_true_iff in H as [Ha H].
    rewrite andb_true_r in H. auto.
Qed.

(** X3. What [convertDate] returns holds no slash; given back to
    [convertDate] it is returned as it is when it has the form YYYY-MM-DD
    and gives [null] otherwise.  For a day and a month of one or two
    digits and a year of four digits the result has that form, so that
    converting is idempotent there. *)
Theorem convertDate_twice :
  (forall x y,
      convertDate x = Some y ->
      slashFree y = true
      /\ convertDate (Some y) = if matchesIsoDate y then Some y else None)
  /\ (forall day month year,
        Js.all Js.isDigit day = true -> (1 <= String.length day <= 2)%nat ->
        Js.all Js.isDigit month = true -> (1 <= String.length month <= 2)%nat ->
        Js.all Js.isDigit year = true -> String.length year = 4%nat ->
        exists iso,
          convertDate (Some (day +:+ "/" +:+ month +:+ "/" +:+ year)) = Some iso
          /\ matchesIsoDate iso = true
          /\ convertDate (Some iso) = Some iso).
Proof.
  assert (forall x y,
             convertDate x = Some y ->
             slashFree y = true
             /\ convertDate (Some y) = if matchesIsoDate y then Some y else None)
    as Hagain.
  { intros x y H. pose proof (convertDate_slashFree _ _ H) as F.
    pose proof (convertDate_nonEmpty _ _ H) as N. split; [done|].
    unfold convertDate. rewrite N. cbn [negb].
    destruct (matchesIsoDate y); [done|].
    by rewrite (split_last "/" y F). }
  split; [exact Hagain|].
  intros day month year Dd Ld Dm Lm Dy Ly.
  assert (forall f, Js.all Js.isDigit f = true -> slashFree f = true) as Hfree.
  { clear. unfold slashFree. induction f as [|c f IH]; [done|].
    cbn [Js.all]. intros [Hc Hf]%andb_true_iff. rewrite (IH Hf), andb_true_r.
    apply isDigit_slash in Hc. by rewrite bool_decide_eq_false_2. }
  assert (threeFields day month year "") as T.
  { repeat split; auto.
    - by destruct day; simpl in Ld; [lia|].
    - by destruct month; simpl in Lm; [lia|].
    - by destruct year. }
  pose proof (convertDate_slashed _ _ _ _ T) as E.
  unfold slashed in E. rewrite append_nil_r in E.
  destruct (all_length2 _ _ Dd Ld) as (d1 & d2 & Ed & Hd1 & Hd2).
  destruct (all_length2 _ _ Dm Lm) as (m1 & m2 & Em & Hm1 & Hm2).
  rewrite Ed, Em in E.
  destruct year as [|y1 [|y2 [|y3 [|y4 [|y5 year]]]]]; try done.
  simpl in Dy.
  repeat match type of Dy with
         | (_ && _) = true => apply andb_prop in Dy; destruct Dy as [? Dy]
         end.
  assert (matchesIsoDate
            (String y1 (String y2 (String y3 (String y4 ""))) +:+ "-"
             +:+ String m1 (String m2 "") +:+ "-" +:+ String d1 (String d2 ""))
          = true) as I.
  { assert (Js.isDigit d1 = true) by (by destruct Hd1 as [->|]).
    assert (Js.isDigit m1 = true) by (by destruct Hm1 as [->|]).
    repeat first [rewrite app_cons | rewrite app_empty_l].
    unfold matchesIsoDate.
    repeat match goal with
           | H : Js.isDigit _ = true |- _ => rewrite H; clear H
           end.
    reflexivity. }
  eexists. split; [exact E|]. split; [exact I|].
  destruct (Hagain _ _ E) as [_ ->]. by rewrite I.
Qed.

Lemma convertDate_twice_witness :
  exists iso,
    convertDate (Some ("5" +:+ "/" +:+ "3" +:+ "/" +:+ "2020")) = Some iso
    /\ matchesIsoDate iso = true
    /\ convertDate (Some iso) = Some iso.
Proof.
  destruct convertDate_twice as [_ H].
  apply (H "5" "3" "2020"); first [reflexivity | (simpl; lia)].
Defined.

Lemma trimStart_split (s : string) :
  exists gap, s = gap +:+ Js.trimStart s /\ Js.all Js.isWhiteSpace gap = true.
Proof.
  induction s as [|c s (gap & IH & W)]; [by exists ""|].
  cbn [Js.trimStart]. destruct (Js.isWhiteSpace c) eqn:E.
  - exists (String c gap). rewrite app_cons, <- IH. split; [done|].
    cbn [Js.all]. by rewrite E, W.
  - by exists "".
Qed.

Lemma trimStart_head (s : string) :
  match Js.trimStart s with
  | "" => True
  | String c _ => Js.isWhiteSpace c = false
  end.
Proof.
  induction s as [|c s IH]; [done|].
  cbn [Js.trimStart]. by destruct (Js.isWhiteSpace c) eqn:E.
Qed.

Lemma trimEnd_split (s : string) :
  exists after, s = Js.trimEnd s +:+ after /\ Js.all Js.isWhiteSpace after = true.
Proof.
  induction s as [|c s (after & IH & W)]; [by exists ""|].
  cbn [Js.trimEnd]. destruct (Js.trimEnd s) as [|d t].
  - rewrite app_empty_l in IH. subst after.
    destruct (Js.isWhiteSpace c) eqn:E.
    + exists (String c s). split; [done|]. cbn [Js.all]. by rewrite E, W.
    + by exists s.
  - exists after. by rewrite app_cons, <- IH.
Qed.

Lemma trimEnd_idem (s : string) : Js.trimEnd (Js.trimEnd s) = Js.trimEnd s.
Proof.
  induction s as [|c s IH]; [done|].
  cbn [Js.trimEnd]. destruct (Js.trimEnd s) as [|d t] eqn:E.
  - destruct (Js.isWhiteSpace c) eqn:W; [done|]. cbn. by rewrite W.
  - cbn [Js.trimEnd] in *. by rewrite IH.
Qed.

Lemma trimEnd_cons (c : ascii) (s : string) :
  Js.isWhiteSpace c = false -> Js.trimEnd (String c s) = String c (Js.trimEnd s).
Proof. intros W. cbn [Js.trimEnd]. destruct (Js.trimEnd s); by rewrite ?W. Qed.

Lemma trim_idem (s : string) : Js.trim (Js.trim s) = Js.trim s.
Proof.
  unfold Js.trim. pose proof (trimStart_head s) as H.
  destruct (Js.trimStart s) as [|c t]; [done|].
  rewrite (trimEnd_cons c t H). cbn [Js.trimStart]. rewrite H.
  rewrite (trimEnd_cons c _ H). by rewrite trimEnd_idem.
Qed.

Lemma all_weaken (p q : ascii -> bool) (s : string) :
  (forall c, p c = true -> q c = true) -> Js.all p s = true -> Js.all q s = true.
Proof.
  intros H. induction s as [|c s IH]; [done|]. cbn [Js.all].
  intros [Hc Hs]%andb_true_iff. by rewrite (H c Hc), IH.
Qed.

Lemma spacesThenGroup_split (rest g : string) :
  spacesThenGroup rest = Some g ->
  exists gap, rest = gap +:+ g /\ Js.all Js.isWhiteSpace gap = true
              /\ restOfLine g = true.
Proof.
  revert g. induction rest as [|c s IH]; intros g; [done|].
  cbn [spacesThenGroup]. destruct (Js.isWhiteSpace c) eqn:W.
  - destruct (spacesThenGroup s) as [g'|].
    + intros [= <-]. destruct (IH g' eq_refl) as (gap & -> & Hw & Hr).
      exists (String c gap). split; [done|]. cbn [Js.all]. by rewrite W, Hw.
    + destruct (restOfLine (String c s)) eqn:R; [|done].
      intros [= <-]. by exists "".
  - destruct (restOfLine (String c s)) eqn:R; [|done].
    intros [= <-]. by exists "".
Qed.

Lemma matchCountry_split (s g : string) :
  matchCountry s = Some g ->
  exists before gap,
    s = before +:+ "v." +:+ gap +:+ g
    /\ gap <> "" /\ Js.all Js.isWhiteSpace gap = true /\ restOfLine g = true.
Proof.
  induction s as [|a s IH].
  - done.
  - change (matchCountry (String a s))
      with (match matchCountryHere (String a s) with
            | Some g => Some g
            | None => matchCountry s
            end).
    rewrite matchCountryHere_eq.
    assert (matchCountry s = Some g ->
            exists before gap,
              String a s = before +:+ "v." +:+ gap +:+ g
              /\ gap <> "" /\ Js.all Js.isWhiteSpace gap = true
              /\ restOfLine g = true) as Hlater.
    { intros H. destruct (IH H) as (before & gap & -> & ?).
      by exists (String a before), gap. }
    destruct s as [|b [|c rest]]; try exact Hlater.
    destruct (bool_decide (a = "v"%char)) eqn:Ea; [|exact Hlater].
    destruct (bool_decide (b = "."%char)) eqn:Eb; [|exact Hlater].
    destruct (Js.isWhiteSpace c) eqn:W; [|exact Hlater].
    cbn [andb].
    destruct (spacesThenGroup rest) as [g'|] eqn:E; [|exact Hlater].
    intros [= <-].
    apply bool_decide_eq_true_1 in Ea as ->.
    apply bool_decide_eq_true_1 in Eb as ->.
    destruct (spacesThenGroup_split _ _ E) as (gap & -> & Hw & Hr).
    exists "", (String c gap). split; [done|]. split; [done|].
    cbn [Js.all]. by rewrite W, Hw.
Qed.

(** X4. The country that [extractCountry] returns is a piece of the
    title: it follows a [v.] and white space, only white space follows it
    up to the end of the title, it holds no line terminator, and it is
    trimmed. *)
Theorem extractCountry_part_of_title title country :
  extractCountry title = Some country ->
  Js.trim country = country
  /\ Js.all (fun c => negb (Js.isLineTerminator c)) country = true
  /\ exists before gap after,
       title = before +:+ "v." +:+ gap +:+ country +:+ after
       /\ gap <> ""
       /\ Js.all Js.isWhiteSpace gap = true
       /\ Js.all Js.isWhiteSpace after = true.
Proof.
  unfold extractCountry.
  destruct (matchCountry title) as [g|] eqn:E; [|done].
  intros [= <-]. split; [apply trim_idem|].
  destruct (matchCountry_split _ _ E) as (before & gap & -> & Hne & Hw & Hr).
  destruct (trimStart_split g) as (gap' & Hg & Hw').
  destruct (trimEnd_split (Js.trimStart g)) as (after & Ht & Ha).
  fold (Js.trim g) in Ht.
  apply andb_true_iff in Hr as [_ Hr].
  split.
  - rewrite Hg, Ht, !all_app in Hr.
    by apply andb_true_iff in Hr as [_ [Hr _]%andb_true_iff].
  - exists before, (gap +:+ gap'), after.
    split; [|split; [|split]].
    + rewrite append_assoc, <- Ht, <- Hg. done.
    + by destruct gap.
    + by rewrite all_app, Hw, Hw'.
    + done.
Qed.

Lemma extractCountry_part_of_title_witness :
  Js.trim "Russia" = "Russia"
  /\ Js.all (fun c => negb (Js.isLineTerminator c)) "Russia" = true
  /\ exists before gap after,
       "Ivanov v.  Russia " = before +:+ "v." +:+ gap +:+ "Russia" +:+ after
       /\ gap <> ""
       /\ Js.all Js.isWhiteSpace gap = true
       /\ Js.all Js.isWhiteSpace after = true.
Proof.
  apply (extractCountry_part_of_title "Ivanov v.  Russia " "Russia").
  reflexivity.
Defined.

(** ** The adapter *)

Lemma saveEach_counts rem casesData :
  forall acc s, exists result s',
    saveEach rem casesData acc s = (Val result, s')
    /\ success result + failed result
       = success acc + failed acc + Z.of_nat (length casesData)
    /\ success acc <= success result
    /\ failed acc <= failed result.
Proof.
  induction casesData as [|data rest IH]; intros acc s.
  - exists acc, s. cbn. split; [done|]. lia.
  - cbn [saveEach]. rewrite bind_eq.
    destruct (saveApplication_returns rem data s) as (saved & s1 & ->).
    destruct (IH (if saved
                  then {| success := success acc + 1; failed := failed acc |}
                  else {| success := success acc; failed := failed acc + 1 |})
                 s1) as (result & s' & -> & Hsum & Hs & Hf).
    exists result, s'. split; [done|].
    destruct saved; cbn [success failed length] in *; lia.
Qed.

(** X5. [saveBatch] always returns, and its answer counts every record of
    the batch once, as saved or as failed; for an empty batch it is 0 and
    0 and nothing is sent. *)
Theorem saveBatch_counts rem casesData s :
  exists result s',
    saveBatch rem casesData s = (Val result, s')
    /\ success result + failed result = Z.of_nat (length casesData)
    /\ 0 <= success result
    /\ 0 <= failed result
    /\ (casesData = [] -> s' = s).
Proof.
  unfold saveBatch. destruct casesData as [|data rest].
  { exists {| success := 0; failed := 0 |}, s. by cbn. }
  cbn [length Nat.eqb]. set (casesData := data :: rest).
  replace (S (length rest)) with (length casesData) by done.
  rewrite bind_eq. cbn [get].
  rewrite bind_eq.
  assert (forall s1, exists result s',
             saveEach rem casesData {| success := 0; failed := 0 |} s1
             = (Val result, s')
             /\ success result + failed result = Z.of_nat (length casesData)
             /\ 0 <= success result /\ 0 <= failed result
             /\ (casesData = [] -> s' = s)) as Heach.
  { intros s1.
    destruct (saveEach_counts rem casesData {| success := 0; failed := 0 |} s1)
      as (result & s' & -> & Hsum & Hs & Hf).
    exists result, s'. cbn [success failed] in *.
    repeat split; [lia | lia | lia | done]. }
  destruct (importAPI (adapter s)).
  - unfold tryCatch. rewrite bind_eq.
    destruct (uploadSQL rem _ s) as [[b|e] s1].
    + cbv [mret M_ret]. eexists _, s1. split; [reflexivity|].
      cbn [success failed]. repeat split; [lia | lia | done].
    + cbv [mret M_ret]. apply Heach.
  - cbv [mret M_ret]. apply Heach.
Qed.

Lemma markAsNotFound_eq rem n y s :
  markAsNotFound rem n y s =
  match submit rem (Execute [MarkNotFound (n +:+ "/" +:+ y)]) (store s) with
  | (Some _, st) => (Val true, {| adapter := adapter s; store := st |})
  | (None, st) => (Val false, {| adapter := adapter s; store := st |})
  end.
Proof.
  unfold markAsNotFound, tryCatch. rewrite bind_eq. unfold executeSQL.
  by destruct (submit rem _ (store s)) as [[ids|] st].
Qed.

Lemma run_mark sch clk d body :
  Engine.run sch clk d [MarkNotFound body] =
  match Sql.text body with
  | Some number =>
      (Sql.set_applications
         (alter (Engine.mark clk) number (applications d)) d, Some [])
  | None => (d, None)
  end.
Proof. cbn. by destruct (Sql.text body). Qed.

Lemma set_applications_same d : Sql.set_applications (applications d) d = d.
Proof. by destruct d. Qed.

Lemma alter_missing {A} (f : A -> A) (k : string) (m : gmap string A) :
  m !! k = None -> alter f k m = m.
Proof.
  intros H. apply map_eq. intros j. rewrite lookup_alter.
  case_decide as E; [|done]. subst j. by rewrite H.
Qed.

Lemma safeNumber_text fullNumber :
  safeNumber fullNumber = true -> Sql.text fullNumber = Some fullNumber.
Proof.
  unfold safeNumber. intros [H _]%andb_true_iff. by apply quoteFree_text.
Qed.

(** X6. [markAsNotFound] never throws and leaves the adapter as it was.
    For a number the engine reads as it is written, what it answers is
    whether the update went through, [true] exactly when the call was
    delivered and answered, and not whether a row was there: a mark for
    a case that is not in the database changes nothing.  Whatever it
    answers, it leaves the tables [events] and [representatives], the
    next id and every row but the one it names as they were, and it adds
    no row. *)
Theorem markAsNotFound_frame rem n y s :
  let reply := wire rem (calls (store s)) in
  let s' := (markAsNotFound rem n y s).2 in
  (exists answer, (markAsNotFound rem n y s).1 = Val answer)
  /\ adapter s' = adapter s
  /\ (safeNumber (n +:+ "/" +:+ y) = true ->
      (markAsNotFound rem n y s).1 = Val (delivered reply && answered reply)
      /\ events (db (store s')) = events (db (store s))
      /\ representatives (db (store s')) = representatives (db (store s))
      /\ next_application_id (db (store s'))
         = next_application_id (db (store s))
      /\ (forall number,
            number <> n +:+ "/" +:+ y ->
            applications (db (store s')) !! number
            = applications (db (store s)) !! number)
      /\ (forall number,
            applications (db (store s)) !! number = None ->
            applications (db (store s')) !! number = None)
      /\ (applications (db (store s)) !! (n +:+ "/" +:+ y) = None ->
          db (store s') = db (store s))).
Proof.
  intros reply s'. subst s'. rewrite markAsNotFound_eq.
  split; [|split].
  - destruct (submit rem _ (store s)) as [[ids|] st]; eauto.
  - by destruct (submit rem _ (store s)) as [[ids|] st].
  - intros Hsafe. unfold submit.
    rewrite outcome_reads by (by apply reads_mark).
    fold reply. cbn [statements]. rewrite run_mark, (safeNumber_text _ Hsafe).
    assert (forall k, k <> n +:+ "/" +:+ y ->
               alter (Engine.mark (clock reply)) (n +:+ "/" +:+ y)
                     (applications (db (store s))) !! k
               = applications (db (store s)) !! k) as Hother.
    { intros k Hk. apply lookup_alter_ne. congruence. }
    assert (forall k, applications (db (store s)) !! k = None ->
               alter (Engine.mark (clock reply)) (n +:+ "/" +:+ y)
                     (applications (db (store s))) !! k = None) as Hnone.
    { intros k Hk. rewrite lookup_alter. case_decide; [subst|done].
      by rewrite Hk. }
    assert (applications (db (store s)) !! (n +:+ "/" +:+ y) = None ->
            Sql.set_applications
              (alter (Engine.mark (clock reply)) (n +:+ "/" +:+ y)
                     (applications (db (store s)))) (db (store s))
            = db (store s)) as Hmissing.
    { intros Hk. by rewrite (alter_missing _ _ _ Hk), set_applications_same. }
    destruct (delivered reply), (answered reply); cbn; auto 10.
Qed.

Lemma markAsNotFound_frame_witness :
  (markAsNotFound Sample.reliable "152" "18"
     (Sample.onDb false Sample.lapsedDb)).1 = Val true
  /\ events (db (store (markAsNotFound Sample.reliable "152" "18"
                          (Sample.onDb false Sample.lapsedDb)).2))
     = events Sample.lapsedDb
  /\ (markAsNotFound Sample.reliable "152" "18"
        (Sample.onDb false Sample.emptyDb)).1 = Val true
  /\ db (store (markAsNotFound Sample.reliable "152" "18"
                  (Sample.onDb false Sample.emptyDb)).2) = Sample.emptyDb.
Proof.
  destruct (markAsNotFound_frame Sample.reliable "152" "18"
              (Sample.onDb false Sample.lapsedDb)) as (_ & _ & H).
  destruct H as (Hanswer & Hevents & _); [reflexivity|].
  destruct (markAsNotFound_frame Sample.reliable "152" "18"
              (Sample.onDb false Sample.emptyDb)) as (_ & _ & H').
  destruct H' as (Hanswer' & _ & _ & _ & _ & _ & Hmissing); [reflexivity|].
  split; [exact Hanswer|]. split; [exact Hevents|].
  split; [exact Hanswer' | by apply Hmissing].
Defined.

Lemma run_select_rep sch clk d key :
  Engine.run sch clk d [SelectRepId (Js.doubleQuotes key)] =
  (d, Some (match representatives d !! key with
            | Some i => [i]
            | None => []
            end)).
Proof.
  cbn. rewrite text_doubleQuotes. cbn. by rewrite app_nil_r.
Qed.

Lemma run_insert_rep sch clk d key :
  Engine.run sch clk d [InsertReps [Js.doubleQuotes key]] =
  (Sql.insert_rep d key, Some []).
Proof. cbn. rewrite text_doubleQuotes. by cbn. Qed.

Lemma executeSQL_select rem key s result s' :
  Shell.plain key = true ->
  executeSQL rem [SelectRepId (Js.doubleQuotes key)] s = (Val result, s') ->
  db (store s') = db (store s)
  /\ result = match representatives (db (store s)) !! key with
              | Some i => [i]
              | None => []
              end.
Proof.
  intros Hp H. apply executeSQL_ok in H as [H _]; [|by apply reads_select_rep].
  rewrite run_select_rep in H. by injection H as <- <-.
Qed.

Lemma executeSQL_adapter rem sql s :
  adapter (executeSQL rem sql s).2 = adapter s.
Proof.
  unfold executeSQL.
  by destruct (submit rem (Execute sql) (store s)) as [[ids|] st].
Qed.

Lemma insert_rep_lookup d key :
  exists i, representatives (Sql.insert_rep d key) !! key = Some i.
Proof.
  unfold Sql.insert_rep.
  destruct (representatives d !! key) as [i|] eqn:E; [eauto|].
  eexists. cbn. apply lookup_insert_eq.
Qed.

(** A call that returns without finding the name in the cache has put
    there the id it read in the answer to its last select. *)
Lemma findOrCreateRepresentative_miss rem key s i s' :
  repCache (adapter s) !! key = None ->
  findOrCreateRepresentative rem (Some key) s = (Val i, s') ->
  exists t0 t result,
    executeSQL rem [SelectRepId (Js.doubleQuotes key)] t0 = (Val result, t)
    /\ idMatch result = Some i
    /\ s' = set_adapter (set_repCache (<[key := i]> (repCache (adapter t)))
                                      (adapter t)) t.
Proof.
  intros Hc H. unfold findOrCreateRepresentative in H.
  destruct (Js.truthy (Some key)) eqn:Hn; [|done]. cbn [negb Js.interp] in H.
  rewrite bind_eq in H. cbn [get] in H. rewrite Hc in H.
  rewrite bind_eq in H.
  match type of H with
  | match ?m s with _ => _ end = _ => destruct (m s) as [[[j|]|e] s1] eqn:Htry
  end; [| |done].
  - injection H as <- <-. unfold tryCatch in Htry. rewrite bind_eq in Htry.
    destruct (executeSQL rem _ s) as [[result|e] t] eqn:Hsel; [|done].
    destruct (idMatch result) as [j'|] eqn:Hid; [|done].
    injection Htry as <- <-. by exists s, t, result.
  - apply bind_ok in H as (ids & t1 & _ & H).
    apply bind_ok in H as (idResult & t & Hsel & H).
    destruct (idMatch idResult) as [newId|] eqn:Hid; [|done].
    injection H as <- <-. by exists t1, t, idResult.
Qed.

(** What a call that returns has done. *)
Lemma findOrCreateRepresentative_found rem name s i s' :
  findOrCreateRepresentative rem name s = (Val i, s') ->
  exists key,
    name = Some key
    /\ repCache (adapter s') !! key = Some i
    /\ findOrCreateRepresentative rem name s' = (Val i, s')
    /\ ((repCache (adapter s) !! key = Some i /\ s' = s)
        \/ (Shell.plain key = true ->
            representatives (db (store s')) !! key = Some i)).
Proof.
  intros H.
  assert (forall t, repCache (adapter t) !! Js.interp name = Some i ->
                    Js.truthy name = true ->
                    findOrCreateRepresentative rem name t = (Val i, t)) as Hhit.
  { intros t Ht Hn. unfold findOrCreateRepresentative. rewrite Hn. cbn [negb].
    rewrite bind_eq. cbn [get]. by rewrite Ht. }
  destruct name as [key|]; [|by unfold findOrCreateRepresentative in H].
  assert (Js.truthy (Some key) = true) as Hn.
  { unfold findOrCreateRepresentative in H.
    by destruct (Js.truthy (Some key)). }
  exists key. split; [done|].
  destruct (repCache (adapter s) !! key) as [cachedId|] eqn:Hc.
  { unfold findOrCreateRepresentative in H. rewrite Hn in H.
    cbn [negb Js.interp] in H. rewrite bind_eq in H. cbn [get] in H.
    rewrite Hc in H. injection H as <- <-. auto. }
  destruct (findOrCreateRepresentative_miss _ _ _ _ _ Hc H)
    as (t0 & t & result & Hsel & Hid & ->).
  assert (repCache (adapter (set_adapter
                      (set_repCache (<[key:=i]> (repCache (adapter t)))
                                    (adapter t)) t)) !! key = Some i) as Hk.
  { cbn. apply lookup_insert_eq. }
  split; [exact Hk|]. split; [by apply Hhit|].
  right. intros Hp.
  destruct (executeSQL_select _ _ _ _ _ Hp Hsel) as [Hdb ->].
  cbn. rewrite Hdb.
  destruct (representatives (db (store t0)) !! key) as [j|]; [|done].
  by apply idMatch_one in Hid as [-> _].
Qed.

(** X8. [findOrCreateRepresentative] throws for a missing or empty name
    without any call.  When it returns an id, the cache holds that id for
    the name and a second call returns it again without any call; and for
    a name that sh passes on as it is, the id is the one the table
    [representatives] has for the name, unless it came from the cache. *)
Theorem findOrCreateRepresentative_memo rem :
  (forall name s,
      Js.truthy name = false ->
      findOrCreateRepresentative rem name s
      = (Exn "Representative name is required", s))
  /\ (forall name s i s',
        findOrCreateRepresentative rem name s = (Val i, s') ->
        exists key,
          name = Some key
          /\ repCache (adapter s') !! key = Some i
          /\ findOrCreateRepresentative rem name s' = (Val i, s')
          /\ ((repCache (adapter s) !! key = Some i /\ s' = s)
              \/ (Shell.plain key = true ->
                  representatives (db (store s')) !! key = Some i))).
Proof.
  split.
  - intros name s H. unfold findOrCreateRepresentative. by rewrite H.
  - apply findOrCreateRepresentative_found.
Qed.

Lemma findOrCreateRepresentative_memo_witness :
  exists key,
    Some "Ivan Petrov" = Some key
    /\ repCache (adapter (findOrCreateRepresentative Sample.reliable
                            (Some "Ivan Petrov")
                            (Sample.onDb false Sample.emptyDb)).2) !! key
       = Some 1
    /\ findOrCreateRepresentative Sample.reliable (Some "Ivan Petrov")
         (findOrCreateRepresentative Sample.reliable (Some "Ivan Petrov")
            (Sample.onDb false Sample.emptyDb)).2
       = (Val 1,
          (findOrCreateRepresentative Sample.reliable (Some "Ivan Petrov")
             (Sample.onDb false Sample.emptyDb)).2)
    /\ ((repCache (adapter (Sample.onDb false Sample.emptyDb)) !! key = Some 1
         /\ (findOrCreateRepresentative Sample.reliable (Some "Ivan Petrov")
               (Sample.onDb false Sample.emptyDb)).2
            = Sample.onDb false Sample.emptyDb)
        \/ (Shell.plain key = true ->
            representatives
              (db (store (findOrCreateRepresentative Sample.reliable
                            (Some "Ivan Petrov")
                            (Sample.onDb false Sample.emptyDb)).2)) !! key
            = Some 1)).
Proof.
  destruct (findOrCreateRepresentative_memo Sample.reliable) as [_ H].
  apply (H (Some "Ivan Petrov") (Sample.onDb false Sample.emptyDb) 1).
  vm_compute. reflexivity.
Defined.

(** *** The table of representatives and the cache *)

Lemma extends_refl d : extends d d.
Proof. by intros name i. Qed.

Lemma extends_trans d1 d2 d3 : extends d1 d2 -> extends d2 d3 -> extends d1 d3.
Proof. intros H1 H2 name i H. by apply H2, H1. Qed.

Lemma insert_rep_extends d name : extends d (Sql.insert_rep d name).
Proof.
  intros k i H. unfold Sql.insert_rep.
  destruct (representatives d !! name) eqn:E; [done|]. cbn.
  rewrite lookup_insert_ne; [done|]. congruence.
Qed.

Lemma insert_reps_extends names : forall d, extends d (Engine.insert_reps d names).
Proof.
  unfold Engine.insert_reps.
  induction names as [|name names IH]; intros d; [apply extends_refl|].
  cbn [foldl]. eapply extends_trans; [apply insert_rep_extends | apply IH].
Qed.

Lemma exec_extends sch clk d s d' ids :
  Engine.exec sch clk d s = Some (d', ids) -> extends d d'.
Proof.
  destruct s as [body|bodies|v|body|app|rows|body|]; cbn [Engine.exec].
  - destruct (Sql.text body); [|done]. intros [= <- _]. apply extends_refl.
  - destruct bodies as [|b bodies]; [done|].
    destruct (mapM Sql.text (b :: bodies)) as [names|]; [|done].
    intros [= <- _]. apply insert_reps_extends.
  - destruct (Sql.upsert sch clk d v) as [d1|] eqn:E; [|done].
    intros [= <- _]. apply upsert_ok in E as (? & ? & _ & _ & _ & Hr & _).
    intros name i H. by rewrite Hr.
  - destruct (Sql.text body); [|done]. intros [= <- _]. apply extends_refl.
  - destruct (Sql.eval clk d app); [|done]. intros [= <- _]. by intros name i.
  - destruct rows as [|r rows]; [done|].
    destruct (mapM _ _); [|done]. intros [= <- _]. by intros name i.
  - destruct (Sql.text body); [|done]. intros [= <- _]. by intros name i.
  - intros [= <- _]. apply extends_refl.
Qed.

Lemma submit_extends rem c st :
  reads c = true -> extends (db st) (db (submit rem c st).2).
Proof.
  intros Hr.
  apply (submit_keeps_db rem (extends (db st))); [done| |apply extends_refl].
  intros sch clk s d d' ids _ H E.
  eapply extends_trans; [exact H|]. by eapply exec_extends.
Qed.

Lemma executeSQL_extends rem sql s :
  reads (Execute sql) = true ->
  extends (db (store s)) (db (store (executeSQL rem sql s).2)).
Proof.
  intros Hr. unfold executeSQL.
  pose proof (submit_extends rem (Execute sql) (store s) Hr) as H.
  by destruct (submit rem (Execute sql) (store s)) as [[ids|] st].
Qed.

Lemma uploadSQL_extends rem sql s :
  reads (Import sql) = true ->
  extends (db (store s)) (db (store (uploadSQL rem sql s).2)).
Proof.
  intros Hr.
  destruct (uploadSQL_cases rem sql s) as (_ & st' & Hst & [->|[-> _]]);
    destruct Hst as [->| ->]; cbn [stall asked db];
    first [by apply submit_extends | apply extends_refl].
Qed.

Lemma uploadSQL_adapter rem sql s :
  adapter (uploadSQL rem sql s).2 = adapter s.
Proof. by destruct (uploadSQL_cases rem sql s) as [H _]. Qed.

Lemma coherent_extends s s' :
  adapter s' = adapter s ->
  extends (db (store s)) (db (store s')) ->
  coherent s -> coherent s'.
Proof. intros Ha He H name i Hc. rewrite Ha in Hc. by apply He, H. Qed.

Lemma executeSQL_coherent rem sql :
  reads (Execute sql) = true -> keeps coherent (executeSQL rem sql).
Proof.
  intros Hr s H. eapply coherent_extends; [| |exact H].
  - apply executeSQL_adapter.
  - by apply executeSQL_extends.
Qed.

Lemma uploadSQL_coherent rem sql :
  reads (Import sql) = true -> keeps coherent (uploadSQL rem sql).
Proof.
  intros Hr s H. eapply coherent_extends; [| |exact H].
  - apply uploadSQL_adapter.
  - by apply uploadSQL_extends.
Qed.

Lemma flushCacheIfNeeded_coherent : keeps coherent flushCacheIfNeeded.
Proof.
  apply keeps_modify. intros s H name i. cbn.
  destruct (CACHE_FLUSH_INTERVAL <=? cacheCounter (adapter s) + 1); cbn.
  - by rewrite lookup_empty.
  - apply H.
Qed.

(** A select of the id of a representative followed by [repCache.set]
    with the id found. *)
Lemma select_cache_coherent {A} rem key (k : Z -> M D1 A) (z : M D1 A) :
  Shell.plain key = true ->
  (forall j, keeps coherent (k j)) ->
  keeps coherent z ->
  keeps coherent
    (executeSQL rem [SelectRepId (Js.doubleQuotes key)] ≫= fun result =>
       match idMatch result with
       | Some j => cacheSet key j ≫= fun _ => k j
       | None => z
       end).
Proof.
  intros Hp Hk Hz s H. rewrite bind_eq.
  pose proof (executeSQL_coherent rem _ (reads_select_rep key Hp) s H) as H1.
  destruct (executeSQL rem _ s) as [[result|e] s1] eqn:E; [|exact H1].
  cbn [snd] in H1.
  destruct (executeSQL_select _ _ _ _ _ Hp E) as [Hdb ->].
  destruct (idMatch _) as [j|] eqn:Hid; [|by apply Hz].
  rewrite bind_eq. cbn [cacheSet modify]. apply Hk.
  intros name i. cbn.
  destruct (decide (key = name)) as [<-|N].
  - rewrite lookup_insert_eq. intros [= <-]. rewrite Hdb.
    destruct (representatives (db (store s)) !! key) as [j0|]; [|done].
    by apply idMatch_one in Hid as [-> _].
  - rewrite lookup_insert_ne by done. apply H1.
Qed.

Lemma findOrCreateRepresentative_coherent rem name :
  from_option Shell.plain true name = true ->
  keeps coherent (findOrCreateRepresentative rem name).
Proof.
  intros Hp. unfold findOrCreateRepresentative.
  destruct name as [name|]; [|apply keeps_throw].
  cbn [from_option] in Hp. cbn [Js.interp].
  destruct (negb _); [apply keeps_throw|].
  apply keeps_bind; [apply keeps_get | intros s0].
  destruct (repCache (adapter s0) !! name); [apply keeps_ret|].
  apply keeps_bind.
  - apply keeps_tryCatch; [|intros ?; apply keeps_ret].
    apply (select_cache_coherent rem name
             (fun j => mret (Some j)) (mret None)); [done| |].
    + intros j. apply keeps_ret.
    + apply keeps_ret.
  - intros [i|]; [apply keeps_ret|].
    apply keeps_bind;
      [apply executeSQL_coherent; by apply reads_insert_rep | intros _].
    apply (select_cache_coherent rem name
             (fun j => mret j) (throw "Failed to get representative ID"));
      [done| |].
    + intros j. apply keeps_ret.
    + apply keeps_throw.
Qed.

Lemma saveApplication_coherent rem data :
  safe data = true -> keeps coherent (saveApplication rem data).
Proof.
  intros Hsafe. destruct (safe_covers _ Hsafe) as (Hrep & Hup & Hsel & Hev).
  destruct (safe_parts _ Hsafe) as [_ Hs].
  destruct (shellSafe_parts _ Hs) as (_ & _ & _ & Hname & _).
  unfold saveApplication.
  apply keeps_tryCatch; [|intros ?; apply keeps_ret].
  apply keeps_bind.
  - destruct (hasRepresentative data); [|apply keeps_ret].
    apply keeps_bind; [by apply findOrCreateRepresentative_coherent|].
    intros ?. apply keeps_ret.
  - intros representativeId.
    repeat first
      [ apply executeSQL_coherent; done
      | apply flushCacheIfNeeded_coherent
      | keeps_step ].
Qed.

Lemma saveEach_coherent rem casesData acc :
  Forall (fun data => safe data = true) casesData ->
  keeps coherent (saveEach rem casesData acc).
Proof.
  intros H. revert acc.
  induction H as [|data rest Hd _ IH]; intros acc; simpl.
  - apply keeps_ret.
  - apply keeps_bind;
      [by apply saveApplication_coherent | intros ?; apply IH].
Qed.

Lemma saveBatch_coherent rem casesData :
  forallb safe casesData = true ->
  keeps coherent (saveBatch rem casesData).
Proof.
  intros [Hq Hall]%safe_forall. unfold saveBatch.
  repeat first
    [ apply uploadSQL_coherent; by apply reads_batch
    | by apply saveEach_coherent
    | keeps_step ].
Qed.

Lemma markAsNotFound_coherent rem n y :
  safeNumber (n +:+ "/" +:+ y) = true ->
  keeps coherent (markAsNotFound rem n y).
Proof.
  intros Hsafe. unfold markAsNotFound.
  repeat first
    [ apply executeSQL_coherent; by apply reads_mark | keeps_step ].
Qed.

Lemma perform_coherent rem op s :
  safeOp op = true -> coherent s -> coherent (perform rem op s).
Proof.
  destruct op as [n y|data|casesData]; cbn [perform safeOp]; intros Hsafe.
  - by apply markAsNotFound_coherent.
  - by apply saveApplication_coherent.
  - by apply saveBatch_coherent.
Qed.

(** X9. The cache of representatives never disagrees with the table:
    a new adapter's cache is empty, and when every cached id is the id
    the table has for the name, this is still so after any mark, save or
    batch on texts the engine reads as they are written, however the
    calls go, and after any sequence of them. *)
Theorem cache_stays_coherent rem :
  (forall credentials st,
      coherent {| adapter := newD1Adapter credentials; store := st |})
  /\ (forall op s,
        safeOp op = true -> coherent s -> coherent (perform rem op s))
  /\ (forall ops s,
        forallb safeOp ops = true ->
        coherent s ->
        coherent (foldl (fun s op => perform rem op s) s ops)).
Proof.
  split; [|split].
  - intros credentials st name i. cbn. by rewrite lookup_empty.
  - apply perform_coherent.
  - induction ops as [|op ops IH]; intros s Hsafe H; [exact H|].
    cbn [foldl]. cbn [forallb] in Hsafe.
    apply andb_true_iff in Hsafe as [Hop Hops].
    by apply IH, perform_coherent.
Qed.

Lemma cache_stays_coherent_witness :
  coherent (perform Sample.reliable (Save Sample.ivanov)
              (Sample.onDb false Sample.emptyDb)).
Proof.
  destruct (cache_stays_coherent Sample.reliable) as (H0 & H & _).
  apply H; [reflexivity | apply (H0 false)].
Defined.

(** An operation keeps what every command of it keeps. *)
Lemma perform_keeps rem (Q : Store -> Prop) (R : Command -> Prop) :
  (forall c st, R c -> Q st -> Q (submit rem c st).2) ->
  (forall c st, Q st -> Q (asked c st)) ->
  (forall st, Q st -> Q (stall st)) ->
  forall op s,
    match op with
    | Mark n y => R (Execute [MarkNotFound (n +:+ "/" +:+ y)])
    | Save data => covers R data
    | SaveBatch casesData => coversBatch R casesData
    end ->
    Q (store s) -> Q (store (perform rem op s)).
Proof.
  intros Hsub Hasked Hstall op s Hop H.
  destruct op as [n y|data|casesData]; cbn [perform].
  - rewrite markAsNotFound_eq.
    pose proof (Hsub (Execute [MarkNotFound (n +:+ "/" +:+ y)]) _ Hop H) as K.
    by destruct (submit rem _ (store s)) as [[ids|] st].
  - exact (saveApplication_keeps rem Q R (fun c st _ => Hsub c st) data Hop s H).
  - exact (saveBatch_keeps rem Q R (fun c st _ => Hsub c st)
             (fun c st _ => Hasked c st) (fun _ _ st _ => Hstall st)
             casesData Hop s H).
Qed.

Lemma safeOp_reads op :
  safeOp op = true ->
  match op with
  | Mark n y => reads (Execute [MarkNotFound (n +:+ "/" +:+ y)]) = true
  | Save data => covers (fun c => reads c = true) data
  | SaveBatch casesData => coversBatch (fun c => reads c = true) casesData
  end.
Proof.
  destruct op as [n y|data|casesData]; cbn [safeOp]; intros H.
  - by apply reads_mark.
  - by apply safe_covers.
  - by apply safe_coversBatch.
Qed.


(** *** A run on records the engine reads as they are written *)

Section CrawlReads.

Variable world : World.
Variable Q : Store -> Prop.
Hypothesis tame_site : tame world.
Hypothesis submit_keeps :
  forall c st, reads c = true -> Q st -> Q (submit (remote world) c st).2.
Hypothesis asked_keeps : forall c st, Q st -> Q (asked c st).
Hypothesis stall_keeps : forall st, Q st -> Q (stall st).

Let P (r : Run) : Prop :=
  Q (store (d1 r)) /\ forallb safe (batchQueue (this r)) = true.

Lemma saveBatch_keeps_reads casesData s :
  forallb safe casesData = true ->
  Q (store s) -> Q (store (saveBatch (remote world) casesData s).2).
Proof.
  intros Hsafe H.
  exact (saveBatch_keeps (remote world) Q (fun c => reads c = true)
           (fun c st _ => submit_keeps c st)
           (fun c st _ => asked_keeps c st) (fun _ _ st _ => stall_keeps st)
           casesData (safe_coversBatch _ Hsafe) s H).
Qed.

Lemma flushBatch_keeps_reads : keeps P (flushBatch world).
Proof.
  intros r [Hq Hs].
  destruct (flushBatch_spec world r) as (r' & -> & F & Hnil & Hsame & Hne).
  cbn [snd]. split; [|by rewrite Hnil].
  destruct (batchQueue (this r)) as [|data queue] eqn:E.
  - by rewrite (Hsame eq_refl).
  - destruct Hne as [_ ->]; [done|]. by apply saveBatch_keeps_reads.
Qed.

Lemma attempt_keeps_reads : keeps P (attempt world).
Proof.
  intros r [Hq Hs]. pose proof (attempt_pending world r) as H. cbv zeta in H.
  assert (forallb safe
            match site world (visits r) (currentNumber r) (currentYear r) with
            | Found data => batchQueue (this r) ++ [data]
            | _ => batchQueue (this r)
            end = true) as Hqueue.
  { destruct (site world _ _ _) as [data| |message] eqn:E; [|done..].
    rewrite forallb_app, Hs. cbn. by rewrite (tame_site _ _ _ _ E). }
  destruct H as [[Hsame Hd]|(_ & Hnil & Hd)]; split.
  - by rewrite Hd.
  - by rewrite Hsame.
  - rewrite Hd. by apply saveBatch_keeps_reads.
  - by rewrite Hnil.
Qed.

Lemma run_keeps_reads years fuel : keeps P (run world years fuel).
Proof.
  apply run_keeps; try done.
  - apply attempt_keeps_reads.
  - apply flushBatch_keeps_reads.
Qed.

End CrawlReads.

(** X10. No operation of the adapter on texts the engine reads as they
    are written deletes a representative or gives it another id: a name
    that has an id in [representatives] has the same id after any such
    mark, save or batch, and at the end of any run of the monthly scraper
    on a site all of whose records are such. *)
Theorem representatives_stable :
  (forall rem op s,
      safeOp op = true ->
      extends (db (store s)) (db (store (perform rem op s))))
  /\ (forall world config credentials database years fuel,
        tame world ->
        extends database
          (db (store (d1 (run world years fuel
                              (initial config credentials database)).2)))).
Proof.
  split.
  - intros rem op s Hsafe.
    apply (perform_keeps rem (fun st => extends (db (store s)) (db st))
             (fun c => reads c = true));
      [| | |by apply safeOp_reads | apply extends_refl].
    + intros c st Hr H. eapply extends_trans; [exact H | by apply submit_extends].
    + intros c st H. exact H.
    + intros st H. exact H.
  - intros world config credentials database years fuel Htame.
    apply (run_keeps_reads world (fun st => extends database (db st)) Htame).
    + intros c st Hr H. eapply extends_trans; [exact H | by apply submit_extends].
    + intros c st H. exact H.
    + intros st H. exact H.
    + split; [apply extends_refl | reflexivity].
Qed.

Lemma tame_onePage : tame Sample.onePage.
Proof.
  intros n number year data H. destruct n; [|discriminate].
  by injection H as <-.
Qed.

Lemma representatives_stable_witness :
  extends Sample.lapsedDb
    (db (store (perform Sample.reliable (Save Sample.ivanov)
                  (Sample.onDb false Sample.lapsedDb))))
  /\ extends Sample.lapsedDb
       (db (store (d1 (run Sample.onePage 2 5
                         (initial Sample.shortConfig true Sample.lapsedDb)).2))).
Proof.
  destruct representatives_stable as [Hop Hrun].
  split.
  - apply (Hop Sample.reliable (Save Sample.ivanov)
             (Sample.onDb false Sample.lapsedDb)). reflexivity.
  - apply (Hrun Sample.onePage Sample.shortConfig true Sample.lapsedDb
             2%nat 5%nat). apply tame_onePage.
Defined.



(** *** The representative of a case *)

Lemma unique_elem (l : list string) :
  forall seen x, x ∈ l -> x ∈ seen \/ x ∈ unique seen l.
Proof.
  induction l as [|y l IH]; intros seen x Hin; [by apply elem_of_nil in Hin|].
  cbn [unique]. apply elem_of_cons in Hin as [->|Hin].
  - destruct (bool_decide (y ∈ seen)) eqn:E.
    + left. by apply bool_decide_eq_true_1 in E.
    + right. apply elem_of_cons. by left.
  - destruct (bool_decide (y ∈ seen)) eqn:E.
    + by apply IH.
    + destruct (IH (y :: seen) x Hin) as [H|H].
      * apply elem_of_cons in H as [->|H]; [|by left].
        right. apply elem_of_cons. by left.
      * right. apply elem_of_cons. by right.
Qed.

Lemma insert_reps_lookup names :
  forall d name, name ∈ names ->
    is_Some (representatives (Engine.insert_reps d names) !! name).
Proof.
  unfold Engine.insert_reps.
  induction names as [|n names IH]; intros d name Hin;
    [by apply elem_of_nil in Hin|].
  cbn [foldl]. apply elem_of_cons in Hin as [->|Hin]; [|by apply IH].
  destruct (insert_rep_lookup d n) as [i Hi].
  exists i. by apply (insert_reps_extends names).
Qed.

Lemma mapM_text_escaped (names : list string) :
  Forall (fun name => Js.nonEmpty name = true) names ->
  mapM Sql.text (List.map (fun name => Js.interp (escapeSQL (Some name))) names)
  = Some names.
Proof.
  induction 1 as [|name names Hn _ IH]; [done|].
  cbn [List.map mapM]. rewrite IH. unfold escapeSQL at 1. rewrite Hn.
  cbn [Js.interp]. by rewrite text_doubleQuotes.
Qed.

Lemma hasRepresentative_name data :
  hasRepresentative data = true ->
  exists name, representant data = Some name /\ Js.nonEmpty name = true.
Proof.
  unfold hasRepresentative. intros [H _]%andb_true_iff.
  destruct (representant data) as [name|]; [|done]. by exists name.
Qed.

Lemma batch_apps_linked sch clk casesData :
  forall d d' ids,
    Engine.run sch clk d (List.map batchAppSQL casesData) = (d', Some ids) ->
    representatives d' = representatives d
    /\ forall number data,
         lastFor number casesData = Some data ->
         exists row,
           applications d' !! number = Some row
           /\ representative_id row = linked d data.
Proof.
  induction casesData as [|data rest IH]; intros d d' ids H.
  - apply run_nil_ok in H as [-> _]. split; [done|]. by intros.
  - cbn [List.map] in H.
    apply run_cons_ok in H as (d1 & ? & ? & Hexec & Hrest & _).
    cbn [Engine.exec batchAppSQL] in Hexec.
    destruct (Sql.upsert _ _ _ _) as [d1'|] eqn:U; [|done].
    cbn in Hexec. injection Hexec as -> _.
    eapply (upsert_refreshed _ _ _ _ data) in U; try reflexivity;
      [|by cbn; intros ->].
    destruct U as (n0 & row0 & Hn0 & Ha & _ & Hreps & _ & Hrid & _).
    destruct (IH _ _ _ Hrest) as (Hreps' & Hrows).
    destruct (batch_apps _ _ _ _ _ _ Hrest) as (_ & _ & _ & Hsame).
    split; [congruence|].
    intros number data0 Hlast. cbn [lastFor] in Hlast.
    specialize (Hsame number).
    destruct (lastFor number rest) as [later|] eqn:Hl.
    + injection Hlast as ->.
      destruct (Hrows number data0 Hl) as (row & Hrow & Hr).
      exists row. split; [done|]. rewrite Hr. unfold linked. by rewrite Hreps.
    + destruct (bool_decide _) eqn:E; [|done]. injection Hlast as <-.
      apply bool_decide_eq_true_1 in E. rewrite Hn0 in E. injection E as ->.
      exists row0. rewrite Hsame, Ha, lookup_insert_eq. split; [done|].
      cbn [v_representative_id] in Hrid. unfold linked.
      destruct (hasRepresentative data) eqn:Hh.
      * destruct (hasRepresentative_name _ Hh) as (name & Hname & Hne).
        rewrite Hname in *. cbn [escapeSQL Js.interp Sql.eval] in Hrid.
        rewrite Hne in Hrid. cbn [Js.interp] in Hrid.
        rewrite text_doubleQuotes in Hrid. cbn in Hrid. cbn [Js.interp].
        congruence.
      * cbn in Hrid. congruence.
Qed.

Lemma batchEvent_apart sch clk data d d' ids :
  Engine.run sch clk d (batchEventSQL data) = (d', Some ids) ->
  applications d' = applications d /\ representatives d' = representatives d.
Proof.
  unfold batchEventSQL. intros H.
  apply run_cons_ok in H as (d1 & ? & ? & Hdel & H & _).
  cbn [Engine.exec] in Hdel.
  destruct (Sql.eval clk d _) as [a|]; [|done]. cbn in Hdel.
  injection Hdel as <- _.
  destruct (0 <? _).
  - apply run_cons_ok in H as (d2 & ? & ? & Hins & H & _).
    apply run_nil_ok in H as [-> _]. cbn [Engine.exec] in Hins.
    destruct (eventValues _ data) as [|v vs]; [done|].
    destruct (mapM _ _) as [rows|]; [|done]. cbn in Hins.
    by injection Hins as <- _.
  - by apply run_nil_ok in H as [-> _].
Qed.

Lemma batch_events_apart sch clk casesData :
  forall d d' ids,
    Engine.run sch clk d (concat (List.map batchEventSQL casesData))
    = (d', Some ids) ->
    applications d' = applications d /\ representatives d' = representatives d.
Proof.
  induction casesData as [|data rest IH]; intros d d' ids H.
  - by apply run_nil_ok in H as [-> _].
  - cbn [List.map concat] in H.
    apply run_app_ok in H as (d1 & ? & ? & H1 & H2).
    apply batchEvent_apart in H1 as [Ha Hr].
    apply IH in H2 as [Ha' Hr']. split; congruence.
Qed.

(** After an import of a batch that was carried out, the row of every
    case of the batch is linked to its representative: for a record that
    names one, the table [representatives] has a row for the name and
    [representative_id] is its id; for a record without, it is NULL. *)
Lemma import_linked rem casesData s b s' number data :
  uploadSQL rem (buildBatchSQLWithReps casesData) s = (Val b, s') ->
  forallb sqlSafe casesData = true ->
  carriedOut rem (buildBatchSQLWithReps casesData) (store s) ->
  lastFor number casesData = Some data ->
  exists row,
    applications (db (store s')) !! number = Some row
    /\ representative_id row = linked (db (store s')) data
    /\ (hasRepresentative data = true ->
        exists i,
          representatives (db (store s')) !! Js.interp (representant data)
          = Some i
          /\ representative_id row = VInt i)
    /\ (hasRepresentative data = false -> representative_id row = VNull).
Proof.
  intros H Hq Hcarried Hlast.
  apply uploadSQL_ok in H as (ids & H & _); [|by apply reads_batch|done].
  unfold buildBatchSQLWithReps in H.
  apply run_app_ok in H as (d1 & ? & ? & Hreps & H).
  apply run_app_ok in H as (d2 & ? & ? & Happs & Hevs).
  destruct (batch_apps_linked _ _ _ _ _ _ Happs) as (Hr2 & Hrows).
  destruct (batch_events_apart _ _ _ _ _ _ Hevs) as (Ha3 & Hr3).
  destruct (Hrows number data Hlast) as (row & Hrow & Hrid).
  assert (linked (db (store s')) data = linked d1 data) as Hl.
  { unfold linked. by rewrite Hr3, Hr2. }
  exists row. rewrite Ha3, Hl. split; [done|]. split; [done|].
  split; [|by unfold linked in Hrid; intros E; rewrite E in Hrid].
  intros Hh.
  assert (is_Some (representatives d1 !! Js.interp (representant data)))
    as [i Hi].
  { apply lastFor_text in Hlast as [Hin _].
    set (reps := List.map (fun d => Js.interp (representant d))
                          (List.filter hasRepresentative casesData)) in *.
    assert (Js.interp (representant data) ∈ reps) as Hname.
    { apply list_elem_of_In, in_map_iff. exists data. split; [done|].
      apply filter_In. split; [by apply list_elem_of_In | done]. }
    assert (Forall (fun name => Js.nonEmpty name = true) (unique [] reps))
      as Hne.
    { assert (Forall (fun name => Js.nonEmpty name = true) reps) as Hall.
      { apply Forall_forall. intros name Hn.
        apply list_elem_of_In, in_map_iff in Hn as (c & <- & Hc).
        apply filter_In in Hc as [_ Hc].
        by destruct (hasRepresentative_name _ Hc) as (r & -> & ?). }
      clear -Hall. generalize (@nil string).
      induction Hall as [|x l Hx _ IH]; intros seen; [constructor|].
      cbn [unique]. destruct (bool_decide _); [apply IH|].
      constructor; [done | apply IH]. }
    destruct (unique_elem reps [] _ Hname) as [Hx|Hx];
      [by apply elem_of_nil in Hx|].
    destruct (unique [] reps) as [|r0 rs] eqn:Eu; [by apply elem_of_nil in Hx|].
    cbn [length] in Hreps.
    replace (0 <? Z.of_nat (S (length rs))) with true in Hreps
      by (symmetry; apply Z.ltb_lt; lia).
    apply run_cons_ok in Hreps as (d1' & ? & ? & Hexec & Hnil & _).
    apply run_nil_ok in Hnil as [-> _]. cbn [Engine.exec] in Hexec.
    rewrite (mapM_text_escaped _ Hne) in Hexec.
    cbn [List.map mbind option_bind] in Hexec. injection Hexec as <- _.
    exact (insert_reps_lookup (r0 :: rs) _ _ Hx). }
  exists i. rewrite Hr3, Hr2. split; [done|].
  rewrite Hrid. unfold linked. by rewrite Hh, Hi.
Qed.

Lemma executeSQL_step rem sql s ids s' :
  reads (Execute sql) = true ->
  executeSQL rem sql s = (Val ids, s') ->
  extends (db (store s)) (db (store s')).
Proof.
  intros Hr H. pose proof (executeSQL_extends rem sql s Hr) as K.
  by rewrite H in K.
Qed.

(** After a save that returned [true], the row of the case is linked to
    its representative: when every cached id is the table's, the table
    [representatives] has a row for the name of the record and
    [representative_id] is its id (NULL for the id 0, which
    [representativeId || 'NULL'] takes for none); for a record without a
    representative it is NULL. *)
Lemma save_linked rem data s s' number :
  safe data = true ->
  saveApplication rem data s = (Val true, s') ->
  Sql.text (applicationNumber data) = Some number ->
  coherent s ->
  exists row,
    applications (db (store s')) !! number = Some row
    /\ (hasRepresentative data = true ->
        exists i,
          representatives (db (store s')) !! Js.interp (representant data)
          = Some i
          /\ representative_id row = if i =? 0 then VNull else VInt i)
    /\ (hasRepresentative data = false -> representative_id row = VNull).
Proof.
  intros Hsafe.
  destruct (safe_covers _ Hsafe) as (_ & Hrup & Hrsel & Hrev).
  destruct (safe_parts _ Hsafe) as [_ Hshell].
  destruct (shellSafe_parts _ Hshell) as (_ & _ & _ & Hname & _).
  unfold saveApplication. intros H Hnum Hco. apply tryCatch_ok in H; [|done].
  apply bind_ok in H as (representativeId & s1 & Hrep & H).
  assert (match representativeId with
          | Some i => hasRepresentative data = true
                      /\ representatives (db (store s1))
                         !! Js.interp (representant data) = Some i
          | None => hasRepresentative data = false
          end) as Hid.
  { destruct (hasRepresentative data).
    - apply bind_ok in Hrep as (i & s1' & Hfind & Hret).
      injection Hret as <- <-. split; [done|].
      apply findOrCreateRepresentative_found in Hfind
        as (key & Hkey & _ & _ & [[Hc ->]|Hr]); rewrite Hkey in *;
        cbn [Js.interp from_option] in *.
      + by apply Hco.
      + by apply Hr.
    - by injection Hrep as <- <-. }
  apply bind_ok in H as (ids2 & s2 & Hup & H).
  pose proof (executeSQL_step _ _ _ _ _ (Hrup _) Hup) as E12.
  apply executeSQL_ok in Hup as [Hup _]; [|done].
  apply run_cons_ok in Hup as (d2 & ? & ? & Hexec & Hnil & _).
  apply run_nil_ok in Hnil as [<- _].
  cbn [Engine.exec appSQL] in Hexec.
  destruct (Sql.upsert _ _ _ _) as [d2'|] eqn:Hupsert; [|done].
  cbn in Hexec. injection Hexec as -> _.
  apply upsert_ok in Hupsert
    as (n0 & row & Hn0 & Ha & _ & _ & _ & _ & _ & _ & Hrid & _).
  cbn [v_application_number v_representative_id] in Hn0, Hrid.
  rewrite Hnum in Hn0. injection Hn0 as <-.
  apply bind_ok in H as (appIdResult & s3 & Hsel & H).
  pose proof (executeSQL_step _ _ _ _ _ Hrsel Hsel) as E23.
  apply executeSQL_ok in Hsel as [Hsel _]; [|done].
  apply run_cons_ok in Hsel as (d3 & ids3 & ? & Hexec & Hnil & ->).
  apply run_nil_ok in Hnil as [Hd3 ->].
  cbn [Engine.exec] in Hexec. rewrite Hnum in Hexec. cbn in Hexec.
  rewrite Ha, lookup_insert_eq in Hexec. injection Hexec as <- <-.
  cbn [app] in H.
  destruct (idMatch [id row]) as [applicationId|] eqn:Hmatch; [|done].
  apply idMatch_one in Hmatch as [-> _].
  apply bind_ok in H as (ids4 & s4 & Hev & H).
  pose proof (executeSQL_step _ _ _ _ _ (Hrev _) Hev) as E34.
  apply executeSQL_ok in Hev as [Hev _]; [|done].
  apply run_cons_ok in Hev as (d4 & ? & ? & Hdel & Hev & _).
  cbn [Engine.exec Sql.eval] in Hdel. cbn in Hdel. injection Hdel as <- _.
  apply run_cons_ok in Hev as (d5 & ? & ? & Hins & Hnil & _).
  apply run_nil_ok in Hnil as [Hd5 _].
  cbn [Engine.exec] in Hins.
  destruct (eventValues _ data) as [|v vs] eqn:Evals; [done|].
  destruct (mapM _ (v :: vs)) as [rows|] eqn:Hrows; [|done].
  cbn in Hins. injection Hins as <-.
  apply bind_ok in H as ([] & s5 & Hflush & H).
  injection Hflush as <-. injection H as <-.
  cbn [store set_adapter] in *.
  assert (applications (db (store s4)) !! number = Some row) as Hrow.
  { rewrite Hd5. cbn [applications Sql.set_events].
    by rewrite Hd3, Ha, lookup_insert_eq. }
  exists row. split; [done|].
  destruct representativeId as [i|].
  - destruct Hid as [Hh Hi]. split; [|congruence].
    intros _. exists i. split.
    + by apply E34, E23, E12.
    + destruct (i =? 0); cbn in Hrid; congruence.
  - split; [congruence|]. intros _. cbn in Hrid. congruence.
Qed.

(** X32. A not-found mark that is applied, for a number the engine reads
    as it is written, adds exactly one to the not-found counter of the
    persisted case.  A later successful refetch of the case, on texts the
    engine reads as they are written, by [saveApplication] or by an
    import of a batch that was delivered, sets the counter to 0 and
    overwrites every column the record determines with what the fresh
    record gives, the link to the representative among them, keeping only
    the id and the skip flag of the row. *)
Theorem counter_counts_and_resets rem :
  (forall n y s old,
      safeNumber (n +:+ "/" +:+ y) = true ->
      applications (db (store s)) !! (n +:+ "/" +:+ y) = Some old ->
      (markAsNotFound rem n y s).1 = Val true ->
      exists row,
        applications (db (store (markAsNotFound rem n y s).2))
          !! (n +:+ "/" +:+ y) = Some row
        /\ not_found_count row = not_found_count old + 1)
  /\ (forall data s s' old,
        safe data = true ->
        coherent s ->
        saveApplication rem data s = (Val true, s') ->
        applications (db (store s)) !! applicationNumber data = Some old ->
        exists row,
          applications (db (store s')) !! applicationNumber data = Some row
          /\ not_found_count row = 0
          /\ refreshed data row
          /\ (hasRepresentative data = true ->
              exists i,
                representatives (db (store s')) !! Js.interp (representant data)
                = Some i
                /\ representative_id row = if i =? 0 then VNull else VInt i)
          /\ id row = id old /\ skip_scraping row = skip_scraping old)
  /\ (forall casesData s s' b number data old,
        forallb sqlSafe casesData = true ->
        delivered (wire rem (calls (store s))) = true ->
        uploadSQL rem (buildBatchSQLWithReps casesData) s = (Val b, s') ->
        uniqueIds (db (store s)) ->
        lastFor number casesData = Some data ->
        applications (db (store s)) !! number = Some old ->
        exists row,
          applications (db (store s')) !! number = Some row
          /\ not_found_count row = 0
          /\ refreshed data row
          /\ (hasRepresentative data = true ->
              exists i,
                representatives (db (store s')) !! Js.interp (representant data)
                = Some i
                /\ representative_id row = VInt i)
          /\ id row = id old /\ skip_scraping row = skip_scraping old).
Proof.
  split; [|split].
  - intros n y s old Hsafe Hold Hok.
    destruct (mark_row rem _ old n y s Hsafe Hold) as (row & Hrow & _ & Hmark).
    exists row. split; [exact Hrow|].
    rewrite Hmark; [done | done | by apply safeNumber_text].
  - intros data s s' old Hsafe Hco H Hold.
    assert (Sql.text (applicationNumber data) = Some (applicationNumber data))
      as Hn.
    { apply quoteFree_text. destruct (safe_parts _ Hsafe) as [Hq _].
      by destruct (sqlSafe_parts _ Hq) as [? _]. }
    destruct (save_persisted _ _ _ _ Hsafe H) as (n & Hn' & Hp & _).
    rewrite Hn in Hn'. injection Hn' as <-.
    destruct Hp as (row & Hrow & Href & _ & Hkeep).
    destruct (Hkeep old Hold) as (I & S & Z0).
    destruct (save_linked _ _ _ _ _ Hsafe H Hn Hco) as (row' & Hrow' & Hlink & _).
    rewrite Hrow in Hrow'. injection Hrow' as <-.
    exists row. do 4 (split; [done|]). by split.
  - intros casesData s s' b number data old Hq Hd H Hu Hlast Hold.
    pose proof (carriedOut_safe rem casesData (store s) Hq Hd) as Hcarried.
    destruct (import_persisted _ _ _ _ _ H Hq Hcarried Hu _ _ Hlast)
      as (row & Hrow & Href & _ & Hkeep).
    destruct (Hkeep old Hold) as (I & S & Z0).
    destruct (import_linked _ _ _ _ _ _ _ H Hq Hcarried Hlast)
      as (row' & Hrow' & _ & Hlink & _).
    rewrite Hrow in Hrow'. injection Hrow' as <-.
    exists row. do 4 (split; [done|]). by split.
Qed.

Lemma counter_counts_and_resets_witness :
  (exists row,
      applications
        (db (store (markAsNotFound Sample.reliable "152" "18"
                      (Sample.onDb false Sample.lapsedDb)).2)) !! "152/18"
      = Some row
      /\ not_found_count row = 59 + 1)
  /\ (exists row,
        applications
          (db (store (saveApplication Sample.reliable Sample.ivanovLater
                        (Sample.onDb false Sample.lapsedDb)).2)) !! "152/18"
        = Some row
        /\ not_found_count row = 0
        /\ refreshed Sample.ivanovLater row
        /\ (hasRepresentative Sample.ivanovLater = true ->
            exists i,
              representatives
                (db (store (saveApplication Sample.reliable Sample.ivanovLater
                              (Sample.onDb false Sample.lapsedDb)).2))
                !! "A. Petrova" = Some i
              /\ representative_id row = if i =? 0 then VNull else VInt i)
        /\ id row = 7 /\ skip_scraping row = 0)
  /\ (exists row,
        applications
          (db (store (uploadSQL Sample.reliable
                        (buildBatchSQLWithReps
                           [Sample.ivanov; Sample.ivanovLater])
                        (Sample.onDb true Sample.lapsedDb)).2)) !! "152/18"
        = Some row
        /\ not_found_count row = 0
        /\ refreshed Sample.ivanovLater row
        /\ (hasRepresentative Sample.ivanovLater = true ->
            exists i,
              representatives
                (db (store (uploadSQL Sample.reliable
                              (buildBatchSQLWithReps
                                 [Sample.ivanov; Sample.ivanovLater])
                              (Sample.onDb true Sample.lapsedDb)).2))
                !! "A. Petrova" = Some i
              /\ representative_id row = VInt i)
        /\ id row = 7 /\ skip_scraping row = 0).
Proof.
  destruct (counter_counts_and_resets Sample.reliable) as (Hmark & Hone & Hbatch).
  split; [|split].
  - apply (Hmark "152" "18" (Sample.onDb false Sample.lapsedDb)
             Sample.lapsed); vm_compute; reflexivity.
  - apply (Hone Sample.ivanovLater (Sample.onDb false Sample.lapsedDb) _
             Sample.lapsed);
      [reflexivity | intros name i; cbn; by rewrite lookup_empty
      | vm_compute; reflexivity | vm_compute; reflexivity].
  - apply (Hbatch [Sample.ivanov; Sample.ivanovLater]
             (Sample.onDb true Sample.lapsedDb) _ true "152/18"
             Sample.ivanovLater Sample.lapsed);
      [ reflexivity | reflexivity
      | vm_compute; reflexivity | apply uniqueIds_lapsed
      | vm_compute; reflexivity | vm_compute; reflexivity ].
Defined.

(** *** Dates that cannot be converted *)

Lemma persisted_dates number data before after :
  persistedAs number data before after ->
  exists row,
    applications after !! number = Some row
    /\ (convertDate (dateIntroduction data) = None ->
        date_introduction row = VText "null")
    /\ (convertDate (lastMajorEventDate data) = None ->
        last_major_event_date row = VNull)
    /\ forall (n : nat) event,
         majorEventsList data !! n = Some event ->
         convertDate (Some (eventDate event)) = None ->
         exists p, eventsOf (id row) after !! n = Some p
                   /\ event_date p = VText "null".
Proof.
  intros (row & Hrow & Href & Hrefl & _). exists row. split; [done|].
  destruct Href as (_ & _ & Hintro & _ & _ & Hlast & _).
  split; [|split].
  - intros E. rewrite E in Hintro. cbn in Hintro. congruence.
  - intros E. rewrite E in Hlast. cbn in Hlast. congruence.
  - intros n event Hn E. destruct Hrefl as [_ Hrefl].
    destruct (Hrefl n event Hn) as (p & Hp & _ & _ & Hdate & _).
    exists p. split; [done|]. rewrite E in Hdate. cbn in Hdate. congruence.
Qed.

(** X14. A date that [convertDate] gives [null] for is stored as the
    four letters "null" in [date_introduction] and in [event_date], where
    it is written between quotes, and as NULL in [last_major_event_date]:
    so, for records whose texts the engine reads as they are written,
    after a save that returned [true], and after a batch without a
    failure whose import, if it went by one, was delivered. *)
Theorem unconverted_dates rem :
  (forall data s s' number,
      safe data = true ->
      saveApplication rem data s = (Val true, s') ->
      Sql.text (applicationNumber data) = Some number ->
      exists row,
        applications (db (store s')) !! number = Some row
        /\ (convertDate (dateIntroduction data) = None ->
            date_introduction row = VText "null")
        /\ (convertDate (lastMajorEventDate data) = None ->
            last_major_event_date row = VNull)
        /\ forall (n : nat) event,
             majorEventsList data !! n = Some event ->
             convertDate (Some (eventDate event)) = None ->
             exists p, eventsOf (id row) (db (store s')) !! n = Some p
                       /\ event_date p = VText "null")
  /\ (forall casesData s s' result number data,
        forallb safe casesData = true ->
        (importAPI (adapter s) = true ->
         delivered (wire rem (calls (store s))) = true) ->
        saveBatch rem casesData s = (Val result, s') ->
        failed result = 0 ->
        uniqueIds (db (store s)) ->
        lastFor number casesData = Some data ->
        exists row,
          applications (db (store s')) !! number = Some row
          /\ (convertDate (dateIntroduction data) = None ->
              date_introduction row = VText "null")
          /\ (convertDate (lastMajorEventDate data) = None ->
              last_major_event_date row = VNull)
          /\ forall (n : nat) event,
               majorEventsList data !! n = Some event ->
               convertDate (Some (eventDate event)) = None ->
               exists p, eventsOf (id row) (db (store s')) !! n = Some p
                         /\ event_date p = VText "null").
Proof.
  split.
  - intros data s s' number Hsafe H Hn.
    destruct (save_persisted _ _ _ _ Hsafe H) as (n & Hn' & Hp & _).
    rewrite Hn in Hn'. injection Hn' as <-.
    by eapply persisted_dates.
  - intros casesData s s' result number data Hsafe Hd H Hres Hu Hlast.
    eapply persisted_dates. eapply saveBatch_persisted; try done.
    intros Hi. apply carriedOut_safe; [|by apply Hd].
    by destruct (safe_forall _ Hsafe).
Qed.

Lemma unconverted_dates_witness :
  exists row,
    applications
      (db (store (saveApplication Sample.reliable Cases.undated
                    (Sample.onDb false Sample.emptyDb)).2)) !! "77/19"
    = Some row
    /\ (convertDate (dateIntroduction Cases.undated) = None ->
        date_introduction row = VText "null")
    /\ (convertDate (lastMajorEventDate Cases.undated) = None ->
        last_major_event_date row = VNull)
    /\ forall (n : nat) event,
         majorEventsList Cases.undated !! n = Some event ->
         convertDate (Some (eventDate event)) = None ->
         exists p,
           eventsOf (id row)
             (db (store (saveApplication Sample.reliable Cases.undated
                           (Sample.onDb false Sample.emptyDb)).2)) !! n
           = Some p
           /\ event_date p = VText "null".
Proof.
  destruct (unconverted_dates Sample.reliable) as [H _].
  apply (H Cases.undated (Sample.onDb false Sample.emptyDb)).
  - reflexivity.
  - vm_compute. reflexivity.
  - reflexivity.
Defined.

(** *** One case at a time *)

(** X15. A save that returned [true], of a record whose texts the engine
    reads as they are written, touches the case it names only: the row
    of every other case is as it was and, the ids being a key, so are the
    events of every other case. *)
Theorem saveApplication_frame rem data s s' number :
  safe data = true ->
  saveApplication rem data s = (Val true, s') ->
  Sql.text (applicationNumber data) = Some number ->
  (forall other,
      other <> number ->
      applications (db (store s')) !! other
      = applications (db (store s)) !! other)
  /\ (uniqueIds (db (store s)) ->
      forall other row,
        other <> number ->
        applications (db (store s)) !! other = Some row ->
        eventsOf (id row) (db (store s')) = eventsOf (id row) (db (store s))).
Proof.
  intros Hsafe H Hn.
  destruct (save_persisted _ _ _ _ Hsafe H)
    as (n & Hn' & _ & _ & Hrows & Hevents).
  rewrite Hn in Hn'. injection Hn' as <-. by split.
Qed.

Lemma saveApplication_frame_witness :
  (forall other,
      other <> "77/19" ->
      applications
        (db (store (saveApplication Sample.reliable Cases.undated
                      (Sample.onDb false Sample.lapsedDb)).2)) !! other
      = applications (db (store (Sample.onDb false Sample.lapsedDb))) !! other)
  /\ (uniqueIds (db (store (Sample.onDb false Sample.lapsedDb))) ->
      forall other row,
        other <> "77/19" ->
        applications (db (store (Sample.onDb false Sample.lapsedDb))) !! other
        = Some row ->
        eventsOf (id row)
          (db (store (saveApplication Sample.reliable Cases.undated
                        (Sample.onDb false Sample.lapsedDb)).2))
        = eventsOf (id row) (db (store (Sample.onDb false Sample.lapsedDb)))).
Proof.
  apply (saveApplication_frame Sample.reliable Cases.undated
           (Sample.onDb false Sample.lapsedDb)).
  - reflexivity.
  - vm_compute. reflexivity.
  - reflexivity.
Defined.

(** *** The batch builder that reads the cache *)

Lemma run_rejected sch clk s sql :
  In s sql ->
  (forall d, Engine.exec sch clk d s = None) ->
  forall d, (Engine.run sch clk d sql).2 = None.
Proof.
  intros Hin Hs. induction sql as [|x rest IH]; intros d; [done|].
  rewrite run_cons. destruct (Engine.exec sch clk d x) as [[d' ids]|] eqn:E;
    [|done].
  destruct Hin as [->|Hin]; [by rewrite Hs in E|].
  specialize (IH Hin d'). destruct (Engine.run sch clk d' rest) as [d'' r].
  cbn in *. by rewrite IH.
Qed.

Lemma buildBatchSQL_statements a casesData s :
  In s (buildBatchSQL a casesData) ->
  match s with
  | UpsertApp _ | DeleteEvents _ | InsertEvents _ => True
  | _ => False
  end.
Proof.
  unfold buildBatchSQL. intros H. apply in_concat in H as (l & Hl & Hs).
  apply in_map_iff in Hl as (data & <- & _).
  destruct Hs as [<-|[<-|[<-|[]]]]; done.
Qed.

Lemma reads_buildBatchSQL a casesData :
  forallb sqlSafe casesData = true ->
  reads (Import (buildBatchSQL a casesData)) = true.
Proof.
  intros Hq. rewrite reads_import. unfold buildBatchSQL.
  induction casesData as [|data rest IH]; [done|].
  cbn [forallb] in Hq. apply andb_true_iff in Hq as [Hd Hrest].
  cbn [List.map concat app forallb]. rewrite (IH Hrest), andb_true_r.
  destruct (sqlSafe_parts _ Hd) as (Hn & _ & _ & Hev).
  assert (fits false (applicationNumber data) = true) as Hfits
      by (by apply fits_raw).
  rewrite (fits_appSQL false data _ Hd) by done.
  rewrite (fits_eventValues false (EAppId (applicationNumber data)) data Hd)
    by (first [done | cbn; by rewrite Hfits]).
  cbn. by rewrite Hfits.
Qed.

(** X16. [buildBatchSQL] writes three statements for every record.  For
    records whose numbers and dates hold no quote the engine reads them
    as they are written; none of them is on [representatives], which
    running them leaves as it is; and the insert for a record without
    events is not left out, so a batch that holds such a record is
    rejected by the engine. *)
Theorem buildBatchSQL_unguarded a casesData :
  length (buildBatchSQL a casesData) = (3 * length casesData)%nat
  /\ (forallb sqlSafe casesData = true ->
      reads (Import (buildBatchSQL a casesData)) = true
      /\ (forall sch clk d,
            representatives
              (Engine.run sch clk d (buildBatchSQL a casesData)).1
            = representatives d)
      /\ (forall data,
            data ∈ casesData ->
            majorEventsList data = [] ->
            forall sch clk d,
              (Engine.run sch clk d (buildBatchSQL a casesData)).2 = None)).
Proof.
  split; [|intros Hq; split; [|split]].
  - unfold buildBatchSQL. induction casesData as [|data rest IH]; [done|].
    cbn [List.map concat length app]. rewrite IH. lia.
  - by apply reads_buildBatchSQL.
  - intros sch clk d.
    apply (run_keeps_db sch clk (fun d' => representatives d' = representatives d));
      [|done].
    intros s d1 d2 ids Hin H E. rewrite <- H.
    apply buildBatchSQL_statements in Hin.
    destruct s as [body|bodies|v|body|app|rows|body|]; try done;
      cbn [Engine.exec] in E.
    + destruct (Sql.upsert sch clk d1 v) as [d3|] eqn:U; [|done].
      injection E as <- _.
      by apply upsert_ok in U as (? & ? & _ & _ & _ & Hr & _).
    + destruct (Sql.eval clk d1 app); [|done]. by injection E as <- _.
    + destruct rows; [done|]. destruct (mapM _ _); [|done].
      by injection E as <- _.
  - intros data Hin Hnil sch clk d.
    apply (run_rejected sch clk
             (InsertEvents (eventValues (EAppId (applicationNumber data)) data))).
    + unfold buildBatchSQL. apply in_concat. eexists. split.
      * apply in_map_iff. exists data. split; [reflexivity|].
        by apply list_elem_of_In.
      * right. right. by left.
    + intros d0. unfold eventValues. by rewrite Hnil.
Qed.

Lemma buildBatchSQL_unguarded_witness :
  (Engine.run Sample.plainSchema Sample.noon Sample.emptyDb
     (buildBatchSQL (newD1Adapter false) [Sample.ivanov; Sample.fresh])).2
  = None.
Proof.
  destruct (buildBatchSQL_unguarded (newD1Adapter false)
              [Sample.ivanov; Sample.fresh]) as (_ & H).
  destruct H as (_ & _ & H); [reflexivity|].
  apply (H Sample.fresh).
  - apply elem_of_cons. right. apply elem_of_cons. by left.
  - reflexivity.
Defined.

(** ** The monthly scraper *)

Lemma flushIfDue_counts world r :
  exists r', flushIfDue world r = (Val tt, r')
    /\ ((r' = r
         /\ (attemptCounter (this r) < BATCH_ATTEMPTS (this r)
             \/ batchQueue (this r) = []))
        \/ (batchQueue (this r') = [] /\ attemptCounter (this r') = 0
            /\ sameFrame r r')).
Proof.
  unfold flushIfDue. rewrite bind_eq. cbn [get].
  destruct (Z.leb_spec (BATCH_ATTEMPTS (this r)) (attemptCounter (this r))).
  - destruct (flushBatch_spec world r) as (r' & -> & F & Q & Hnil & Hne).
    exists r'. split; [done|].
    destruct (batchQueue (this r)) as [|data queue] eqn:E.
    + left. split; [by apply Hnil | by right].
    + right. destruct Hne as (C & _); [done|]. by split; [|split].
  - exists r. split; [done|]. left. split; [done | by left].
Qed.

Lemma attempt_queued world : keeps queued (attempt world).
Proof.
  intros r [Hlen Hlt]. unfold queued.
  run_attempt.
  destruct (site world (visits r) (currentNumber r) (currentYear r))
    as [data| |message];
    match goal with
    | |- context [flushIfDue world ?x] =>
        destruct (flushIfDue_counts world x)
          as (r1 & -> & [[-> Hc]|(Q & C & F)])
    end;
    cbn in *;
    destruct (_ =? 0); cbn;
    rewrite ?Q, ?C, ?length_app; cbn [length];
    try (split; [lia | done]);
    (split; [lia|]);
    destruct Hc as [Hc| ->]; done.
Qed.

Lemma flushBatch_queued world : keeps queued (flushBatch world).
Proof.
  intros r [Hlen Hlt]. unfold queued.
  destruct (flushBatch_spec world r) as (r' & -> & _ & Q & Hnil & Hne).
  cbn [snd]. rewrite Q. split; [|done]. cbn [length].
  destruct (batchQueue (this r)) as [|data queue] eqn:E.
  - rewrite Hnil by done. exact Hlen.
  - destruct Hne as [-> _]; done.
Qed.

Lemma attempt_threshold world r :
  BATCH_ATTEMPTS (this (attempt world r).2) = BATCH_ATTEMPTS (this r).
Proof.
  destruct (attempt_spec world r) as (r' & -> & _ & _ & _ & S & _).
  by destruct S as (_ & _ & _ & _ & ?).
Qed.

Lemma flushBatch_threshold world r :
  BATCH_ATTEMPTS (this (flushBatch world r).2) = BATCH_ATTEMPTS (this r).
Proof.
  destruct (flushBatch_spec world r) as (r' & -> & F & _).
  by destruct F as ((_ & _ & _ & _ & ?) & _).
Qed.

(** X17. Between two checks of a run the queue holds no more records
    than attempts were counted since the last flush, and fewer than the
    250 of [BATCH_ATTEMPTS]; when [run] returns, the queue is empty.  No
    record leaves the queue but to [saveBatch]: a check leaves the queue
    as it was, with the record found at its end, or, a flush being due,
    calls [saveBatch] on just that list and empties the queue; and
    [flushBatch] calls [saveBatch] on the whole queue and empties it. *)
Theorem queue_stays_short world :
  (forall config credentials database years fuel,
      let result := run world years fuel (initial config credentials database) in
      let r := result.2 in
      Z.of_nat (length (batchQueue (this r))) <= attemptCounter (this r)
      /\ Z.of_nat (length (batchQueue (this r))) < 250
      /\ (result.1 = Val true -> batchQueue (this r) = []))
  /\ (forall r,
        let queue :=
          match site world (visits r) (currentNumber r) (currentYear r) with
          | Found data => batchQueue (this r) ++ [data]
          | _ => batchQueue (this r)
          end in
        let r' := (attempt world r).2 in
        (batchQueue (this r') = queue /\ d1 r' = d1 r)
        \/ (queue <> [] /\ batchQueue (this r') = []
            /\ d1 r' = (saveBatch (remote world) queue (d1 r)).2))
  /\ (forall r,
        let r' := (flushBatch world r).2 in
        batchQueue (this r') = []
        /\ (batchQueue (this r) = [] -> r' = r)
        /\ (batchQueue (this r) <> [] ->
            d1 r' = (saveBatch (remote world) (batchQueue (this r)) (d1 r)).2)).
Proof.
  split; [|split].
  - intros config credentials database years fuel result r.
    set (P := fun x : Run => queued x /\ BATCH_ATTEMPTS (this x) = 250).
    assert (P r) as [[Hlen Hlt] Hb].
    { apply (run_keeps world P); try (by intros ? ? [? ?]).
      - intros x [Hq Hx]. split; [by apply attempt_queued|].
        by rewrite attempt_threshold.
      - intros x [Hq Hx]. split; [by apply flushBatch_queued|].
        by rewrite flushBatch_threshold.
      - by intros ? [? ?].
      - split; [|done]. split; [done|]. by cbn. }
    split; [done|]. split.
    + destruct (batchQueue (this r)) as [|data queue] eqn:E; [done|].
      specialize (Hlt ltac:(done)). lia.
    + subst r result. rewrite run_eq, bind_eq.
      destruct (whileYears world years fuel _) as [[[|]|e] r1]; [|done|done].
      rewrite bind_eq.
      destruct (flushBatch_spec world r1) as (r2 & -> & _ & Q & _).
      rewrite bind_eq. cbn. by intros _.
  - intros r. apply attempt_pending.
  - intros r r'. subst r'.
    destruct (flushBatch_spec world r) as (r' & -> & _ & Hnil & Hsame & Hne).
    cbn [snd]. split; [done|]. split; [done|].
    intros H. by destruct (Hne H).
Qed.

Lemma queue_stays_short_witness :
  batchQueue
    (this (flushBatch Sample.onePage
             (attempt Sample.onePage
                (initial Sample.shortConfig true Sample.emptyDb)).2).2) = []
  /\ d1 (flushBatch Sample.onePage
           (attempt Sample.onePage
              (initial Sample.shortConfig true Sample.emptyDb)).2).2
     = (saveBatch Sample.reliable [Sample.ivanov]
          (d1 (initial Sample.shortConfig true Sample.emptyDb))).2.
Proof.
  destruct (queue_stays_short Sample.onePage) as (_ & _ & H).
  destruct (H (attempt Sample.onePage
                 (initial Sample.shortConfig true Sample.emptyDb)).2)
    as (Hnil & _ & Hne).
  split; [exact Hnil|]. by apply Hne.
Defined.

(** *** The summaries *)

Lemma attempt_paced world :
  keeps (fun r => paced (console r) (totalChecked (stats (this r))))
        (attempt world).
Proof.
  intros r (H0 & Hlen & Hlines).
  destruct (attempt_spec world r) as (r' & -> & _ & _ & _ & _ & Hs & _ & Hc & _).
  cbn [snd].
  assert (totalChecked (stats (this r')) = totalChecked (stats (this r)) + 1)
    as Ht by (rewrite Hs; by destruct (site world _ _ _)).
  rewrite Hc, Ht. set (t := totalChecked (stats (this r))) in *.
  destruct (Z.eqb_spec (Z.rem (t + 1) 25) 0) as [E|E];
    rewrite Z.rem_mod_nonneg in E by lia.
  - assert ((t + 1) / 25 = t / 25 + 1 /\ t + 1 = 25 * (t / 25 + 1)) as [Hd Hm].
    { clear -E H0. Z.div_mod_to_equations. lia. }
    split; [lia|]. split.
    + rewrite length_app. cbn [length]. lia.
    + intros i p Hi. apply lookup_app_Some in Hi as [Hi|[Hge Hi]].
      * by apply Hlines.
      * destruct (i - length (console r))%nat as [|k] eqn:Ek; [|done].
        injection Hi as <-. eexists. split; [reflexivity|].
        rewrite Ht. fold t. rewrite Hm. lia.
  - assert ((t + 1) / 25 = t / 25) as Hd.
    { clear -E H0. Z.div_mod_to_equations. lia. }
    split; [lia|]. split; [lia | exact Hlines].
Qed.

Lemma flushBatch_paced world :
  keeps (fun r => paced (console r) (totalChecked (stats (this r))))
        (flushBatch world).
Proof.
  intros r H. destruct (flushBatch_spec world r) as (r' & -> & F & _).
  destruct F as (_ & Hs & _ & _ & _ & _ & Hc). cbn [snd].
  by rewrite Hs, Hc.
Qed.

(** X18. The console of a run holds one progress summary for every 25
    checks and nothing else until the end: the summary at index [i] was
    printed at the check 25 * (i + 1); and when [run] returns, the one
    final summary, with the statistics of the end, is the last line. *)
Theorem progress_every_25 world config credentials database years fuel :
  let result := run world years fuel (initial config credentials database) in
  let r := result.2 in
  exists lines,
    paced lines (totalChecked (stats (this r)))
    /\ console r = match result.1 with
                   | Val true => lines ++ [Final (stats (this r))]
                   | _ => lines
                   end.
Proof.
  intros result r. subst r result. rewrite run_eq, bind_eq.
  set (P := fun r => paced (console r) (totalChecked (stats (this r)))).
  set (r0 := set_currentNumber _ _).
  pose proof (attempt_paced world : keeps P (attempt world)) as attempt_paced_at.
  pose proof (flushBatch_paced world : keeps P (flushBatch world))
    as flushBatch_paced_at.
  assert (P (whileYears world years fuel r0).2) as H1.
  { apply (whileYears_keeps world P attempt_paced_at flushBatch_paced_at);
      try (by intros ? ? ?).
    split; [done|]. split; [done|]. by intros i p Hi. }
  destruct (whileYears_returns world years fuel r0) as (left & r1 & E).
  rewrite E in *. cbn [snd] in H1. destruct left.
  - rewrite bind_eq.
    pose proof (flushBatch_paced world r1 H1) as H2.
    destruct (flushBatch_spec world r1) as (r2 & E2 & _). rewrite E2 in *.
    cbn [snd] in H2. rewrite bind_eq. cbn.
    exists (console r2). split; [exact H2 | reflexivity].
  - cbn. exists (console r1). split; [exact H1 | reflexivity].
Qed.

(** *** The pages asked for *)

Lemma whileSkips_visits world fuel :
  forall r r',
    whileSkips world fuel r = (Val true, r') ->
    0 <= consecutiveSkips r ->
    sameSettings (this r) (this r')
    /\ currentYear r' = currentYear r
    /\ Z.of_nat (visits r)
       + (maxConsecutiveSkips (this r) - consecutiveSkips r)
       <= Z.of_nat (visits r')
    /\ Z.of_nat (visits r) <= Z.of_nat (visits r').
Proof.
  induction fuel as [|fuel IH]; intros r r' H H0; rewrite whileSkips_eq in H;
    destruct (Z.ltb_spec (consecutiveSkips r) (maxConsecutiveSkips (this r)));
    try done;
    try (injection H as <-;
         split; [apply sameSettings_refl|]; split; [done|]; lia).
  rewrite bind_eq in H.
  destruct (attempt_spec world r)
    as (r1 & E & V1 & Y1 & _ & S1 & _ & K1 & _).
  rewrite E in H.
  destruct (IH r1 r' H) as (S & Y & V & V').
  { rewrite K1. destruct (site world _ _ _); lia. }
  destruct S1 as (A1 & A2 & A3 & A4 & A5).
  destruct S as (B1 & B2 & B3 & B4 & B5).
  split; [repeat split; congruence|]. split; [congruence|].
  rewrite A3, V1 in V. rewrite V1 in V'.
  assert (consecutiveSkips r1 <= consecutiveSkips r + 1)
    by (rewrite K1; destruct (site world _ _ _); lia).
  lia.
Qed.

Lemma whileYears_visits world years :
  forall fuel r r',
    whileYears world years fuel r = (Val true, r') ->
    0 <= maxConsecutiveSkips (this r) ->
    Z.of_nat (visits r)
    + maxConsecutiveSkips (this r)
      * Z.max 0 (maxYear (this r) - currentYear r + 1)
    <= Z.of_nat (visits r').
Proof.
  induction years as [|years IH]; intros fuel r r' H H0;
    rewrite whileYears_eq in H;
    destruct (Z.leb_spec (currentYear r) (maxYear (this r))); try done;
    try (injection H as <-; rewrite Z.max_l by lia; lia).
  rewrite bind_eq in H.
  destruct (whileSkips world fuel (set_consecutiveSkips 0 r))
    as [[[|]|e] r1] eqn:E1; try done.
  apply whileSkips_visits in E1 as (S1 & Y1 & V1 & _); [|done].
  cbn [this set_consecutiveSkips visits currentYear consecutiveSkips] in *.
  rewrite bind_eq in H.
  destruct (flushBatch_spec world r1) as (r2 & E2 & F & _). rewrite E2 in H.
  destruct F as (S2 & _ & Y2 & _ & _ & V2 & _).
  repeat (rewrite bind_eq in H; cbn [modify] in H).
  apply IH in H.
  - cbn [this set_currentNumber set_currentYear visits currentYear] in H.
    destruct S1 as (A1 & A2 & A3 & A4 & A5).
    destruct S2 as (B1 & B2 & B3 & B4 & B5).
    rewrite B3, A3, B2, A2, Y2, Y1, V2 in H.
    rewrite Z.max_r by lia.
    destruct (Z.le_gt_cases (currentYear r + 1) (maxYear (this r))).
    + rewrite Z.max_r in H by lia. lia.
    + rewrite Z.max_l in H by lia. nia.
  - cbn [this set_currentNumber set_currentYear].
    destruct S1 as (A1 & A2 & A3 & A4 & A5).
    destruct S2 as (B1 & B2 & B3 & B4 & B5). congruence.
Qed.

(** X19. A run that returns has asked for at least
    [maxConsecutiveSkips] pages in every year from [startYear] to
    [maxYear]; when [startYear] is after [maxYear] it asks for none, and
    only prints the final summary. *)
Theorem run_visits world r years fuel r' :
  run world years fuel r = (Val true, r') ->
  0 <= maxConsecutiveSkips (this r) ->
  Z.of_nat (visits r)
  + maxConsecutiveSkips (this r)
    * Z.max 0 (maxYear (this r) - startYear (this r) + 1)
  <= Z.of_nat (visits r')
  /\ (maxYear (this r) < startYear (this r) ->
      visits r' = visits r
      /\ console r' = console r ++ [Final (stats (this r))]
      /\ (batchQueue (this r) = [] -> d1 r' = d1 r)).
Proof.
  intros H H0. rewrite run_eq, bind_eq in H.
  set (r0 := set_currentNumber _ _) in H.
  split.
  - destruct (whileYears world years fuel r0) as [[[|]|e] r1] eqn:E1; try done.
    apply whileYears_visits in E1; [|done].
    rewrite bind_eq in H.
    destruct (flushBatch_spec world r1) as (r2 & E2 & F & _). rewrite E2 in H.
    destruct F as (_ & _ & _ & _ & _ & V2 & _).
    rewrite bind_eq in H. cbn in H. injection H as <-.
    cbn [visits print] in *. rewrite V2. exact E1.
  - intros Hempty. rewrite whileYears_eq in H.
    destruct (Z.leb_spec (currentYear r0) (maxYear (this r0))) as [Hle|_];
      [cbn in Hle; lia|].
    rewrite bind_eq in H.
    destruct (flushBatch_spec world r0) as (r2 & E2 & F & _ & Hnil & _).
    rewrite E2 in H.
    destruct F as (_ & Hs & _ & _ & _ & V2 & C2).
    rewrite bind_eq in H. cbn in H. injection H as <-.
    cbn [visits print console d1]. rewrite V2, C2, Hs.
    split; [done|]. split; [done|].
    intros Hq. by rewrite (Hnil Hq).
Qed.

Lemma run_visits_witness :
  let r := initial Sample.shortConfig false Sample.emptyDb in
  let r' := (run Sample.noPage 2 3 r).2 in
  Z.of_nat (visits r)
  + maxConsecutiveSkips (this r)
    * Z.max 0 (maxYear (this r) - startYear (this r) + 1)
  <= Z.of_nat (visits r')
  /\ (maxYear (this r) < startYear (this r) ->
      visits r' = visits r
      /\ console r' = console r ++ [Final (stats (this r))]
      /\ (batchQueue (this r) = [] -> d1 r' = d1 r)).
Proof.
  intros r r'.
  apply (run_visits Sample.noPage r 2 3 r').
  - vm_compute. reflexivity.
  - vm_compute. discriminate.
Defined.

(** ** The page scraper *)

Lemma getText_trimmed element x : getText element = Some x -> Js.trim x = x.
Proof.
  destruct element as [t|]; [|done]. intros [= <-]. apply trim_idem.
Qed.

Lemma eventOfRow_wellFormed row event :
  eventOfRow row = Some event -> wellFormed event.
Proof.
  unfold eventOfRow.
  destruct (getText (firstCell row)) as [description|] eqn:E1; [|done].
  destruct (getText (secondCell row)) as [date|] eqn:E2; [|done].
  destruct (Js.nonEmpty description) eqn:N1; [|done].
  destruct (Js.nonEmpty date) eqn:N2; [|done].
  intros [= <-]. repeat split; cbn; try done.
  - by eapply getText_trimmed.
  - by eapply getText_trimmed.
Qed.

Lemma omap_wellFormed rows : Forall wellFormed (omap eventOfRow rows).
Proof.
  induction rows as [|row rows IH]; [constructor|]. cbn [omap list_omap].
  destruct (eventOfRow row) as [event|] eqn:E; [|done].
  constructor; [by eapply eventOfRow_wellFormed | done].
Qed.

Lemma scrape_found visit data :
  scrape visit = Found data ->
  exists page, validated (evaluate page) = Some data.
Proof.
  destruct visit as [message|[page|e] [message|]]; try done; cbn.
  - destruct (resultPanel page); cbn; [|done].
    destruct (validated (evaluate page)) as [d|] eqn:E; cbn; [|done].
    intros [= <-]. by exists page.
Qed.

(** What the validation and the callback of [page.evaluate] give. *)
Lemma scrape_record visit data :
  scrape visit = Found data ->
  Js.nonEmpty (applicationNumber data) = true
  /\ Js.nonEmpty (applicationTitle data) = true
  /\ Js.trim (applicationNumber data) = applicationNumber data
  /\ Js.trim (applicationTitle data) = applicationTitle data
  /\ (forall x, dateIntroduction data = Some x -> Js.trim x = x)
  /\ (forall x, representant data = Some x -> Js.trim x = x)
  /\ Forall wellFormed (majorEventsList data)
  /\ lastMajorEvent data = ev_description <$> last (majorEventsList data)
  /\ lastMajorEventDate data = eventDate <$> last (majorEventsList data)
  /\ hasRepresentative data = Js.truthy (representant data).
Proof.
  intros H. apply scrape_found in H as (page & H).
  unfold validated in H. cbn [evaluate pd_applicationNumber pd_applicationTitle] in H.
  destruct (getText (numberText page)) as [number|] eqn:En; [|done].
  destruct (getText (titleText page)) as [title|] eqn:Et; [|done].
  destruct (Js.nonEmpty number) eqn:Nn; [|done].
  destruct (Js.nonEmpty title) eqn:Nt; [|done].
  cbn [negb orb] in H. injection H as <-.
  cbn [applicationNumber applicationTitle dateIntroduction representant
       lastMajorEvent lastMajorEventDate majorEventsList evaluate
       pd_dateIntroduction pd_representant pd_lastMajorEvent
       pd_lastMajorEventDate pd_majorEventsList hasRepresentative].
  split; [done|]. split; [done|].
  split; [by eapply getText_trimmed|]. split; [by eapply getText_trimmed|].
  split; [intros x; apply getText_trimmed|].
  split; [intros x; apply getText_trimmed|].
  split; [apply omap_wellFormed|]. split; [done|]. split; [done|].
  destruct (getText (representantText page)) as [x|] eqn:Er; [|done].
  unfold hasRepresentative. cbn [representant Js.truthy Js.interp].
  rewrite (getText_trimmed _ _ Er). by destruct (Js.nonEmpty x).
Qed.

(** X20. A record that [scrapeECHRApplication] returns has a number and a
    title that are not empty; its texts are trimmed; every event of its
    list has a description and a date that are not empty; its last event
    and the date of it are those of the last element of the list, and
    [null] when the list is empty; and it names a representative, in the
    sense of the adapter, exactly when the text of the representative is
    not empty. *)
Theorem scrape_shape visit data :
  scrape visit = Found data ->
  Js.nonEmpty (applicationNumber data) = true
  /\ Js.nonEmpty (applicationTitle data) = true
  /\ Js.trim (applicationNumber data) = applicationNumber data
  /\ Js.trim (applicationTitle data) = applicationTitle data
  /\ (forall x, dateIntroduction data = Some x -> Js.trim x = x)
  /\ (forall x, representant data = Some x -> Js.trim x = x)
  /\ Forall wellFormed (majorEventsList data)
  /\ lastMajorEvent data = ev_description <$> last (majorEventsList data)
  /\ lastMajorEventDate data = eventDate <$> last (majorEventsList data)
  /\ hasRepresentative data = Js.truthy (representant data).
Proof. apply scrape_record. Qed.

Lemma scrape_shape_witness :
  let data := Cases.ivanovScraped in
  Js.nonEmpty (applicationNumber data) = true
  /\ Js.nonEmpty (applicationTitle data) = true
  /\ Js.trim (applicationNumber data) = applicationNumber data
  /\ Js.trim (applicationTitle data) = applicationTitle data
  /\ (forall x, dateIntroduction data = Some x -> Js.trim x = x)
  /\ (forall x, representant data = Some x -> Js.trim x = x)
  /\ Forall wellFormed (majorEventsList data)
  /\ lastMajorEvent data = ev_description <$> last (majorEventsList data)
  /\ lastMajorEventDate data = eventDate <$> last (majorEventsList data)
  /\ hasRepresentative data = Js.truthy (representant data).
Proof.
  intros data.
  apply (scrape_shape (Browser (Val Cases.ivanovPage) None) data).
  reflexivity.
Defined.

(** *** From the page to the tables *)

Lemma wellFormed_shown event :
  wellFormed event -> shown (ev_description event) = ev_description event.
Proof. intros (N & _). unfold shown. by rewrite N. Qed.

(** X21. For a record of the scraper whose texts the engine reads as
    they are written and that a save returned [true] for, the two tables
    agree on the last event: the title is stored as it is, the case has
    events, the last of them is the one flagged [is_last_event], no other
    is, and its description is the [last_major_event] of the row. *)
Theorem scraped_last_event rem visit data s s' number :
  scrape visit = Found data ->
  safe data = true ->
  saveApplication rem data s = (Val true, s') ->
  Sql.text (applicationNumber data) = Some number ->
  exists row p,
    applications (db (store s')) !! number = Some row
    /\ application_title row = VText (applicationTitle data)
    /\ last (eventsOf (id row) (db (store s'))) = Some p
    /\ is_last_event p = VInt 1
    /\ description p = last_major_event row
    /\ forall (n : nat) q,
         eventsOf (id row) (db (store s')) !! n = Some q ->
         is_last_event q = VInt 1 ->
         S n = length (eventsOf (id row) (db (store s'))).
Proof.
  intros Hscrape Hsafe Hsave Hn.
  destruct (scrape_record _ _ Hscrape)
    as (_ & Nt & _ & _ & _ & _ & Hwf & Hlast & _).
  destruct (save_persisted _ _ _ _ Hsafe Hsave) as (n' & Hn' & Hp & _).
  rewrite Hn in Hn'. injection Hn' as <-.
  destruct Hp as (row & Hrow & Href & (Hlen & Hrefl) & _).
  destruct Href as (Htitle & _ & _ & _ & Hev & _).
  destruct (majorEventsList data) as [|e0 es] eqn:Elist.
  { pose proof (saveApplication_without_events rem data s Elist) as K.
    by rewrite Hsave in K. }
  rewrite <- Elist in *.
  assert (exists event, last (majorEventsList data) = Some event) as [event He].
  { rewrite Elist. destruct (last (e0 :: es)) eqn:El; [eauto|].
    by apply last_None in El. }
  pose proof He as Hi. rewrite last_lookup in Hi.
  destruct (Hrefl _ _ Hi) as (p & Hp & _ & Hd & _ & Hflag).
  exists row, p. split; [done|]. split.
  { rewrite Htitle. unfold shown. by rewrite Nt. }
  split; [by rewrite last_lookup, Hlen|].
  assert (0 < length (majorEventsList data))%nat as Hpos
    by (rewrite Elist; cbn; lia).
  split.
  { rewrite Hflag. destruct (Z.eqb_spec
      (Z.of_nat (Init.Nat.pred (length (majorEventsList data))))
      (Z.of_nat (length (majorEventsList data)) - 1)); [done|lia]. }
  split.
  { rewrite Hev, Hlast, He, Hd. cbn.
    assert (wellFormed event) as Hw.
    { rewrite Forall_forall in Hwf. apply Hwf.
      apply list_elem_of_lookup. eauto. }
    rewrite (wellFormed_shown _ Hw). unfold stored. cbn.
    by destruct Hw as (-> & _). }
  intros n q Hq Hone.
  assert (is_Some (majorEventsList data !! n)) as [ev Hev'].
  { apply lookup_lt_is_Some. rewrite <- Hlen. by eapply lookup_lt_Some. }
  destruct (Hrefl _ _ Hev') as (q' & Hq' & _ & _ & _ & Hflag').
  rewrite Hq in Hq'. injection Hq' as <-. rewrite Hflag' in Hone.
  destruct (Z.eqb_spec (Z.of_nat n)
              (Z.of_nat (length (majorEventsList data)) - 1)); [|done].
  rewrite Hlen. lia.
Qed.

Lemma scraped_last_event_witness :
  exists row p,
    applications
      (db (store (saveApplication Sample.reliable Cases.ivanovScraped
                    (Sample.onDb false Sample.emptyDb)).2)) !! "152/18"
    = Some row
    /\ application_title row = VText (applicationTitle Cases.ivanovScraped)
    /\ last (eventsOf (id row)
               (db (store (saveApplication Sample.reliable Cases.ivanovScraped
                             (Sample.onDb false Sample.emptyDb)).2)))
       = Some p
    /\ is_last_event p = VInt 1
    /\ description p = last_major_event row
    /\ forall (n : nat) q,
         eventsOf (id row)
           (db (store (saveApplication Sample.reliable Cases.ivanovScraped
                         (Sample.onDb false Sample.emptyDb)).2)) !! n
         = Some q ->
         is_last_event q = VInt 1 ->
         S n = length
                 (eventsOf (id row)
                    (db (store (saveApplication Sample.reliable
                                  Cases.ivanovScraped
                                  (Sample.onDb false Sample.emptyDb)).2))).
Proof.
  apply (scraped_last_event Sample.reliable
           (Browser (Val Cases.ivanovPage) None) Cases.ivanovScraped
           (Sample.onDb false Sample.emptyDb)).
  - reflexivity.
  - reflexivity.
  - vm_compute. reflexivity.
  - reflexivity.
Defined.

(** ** The weekly scraper *)

Section ExecuteOnly.

Variable rem : Remote.
Variable Q : Store -> Prop.
Hypothesis execute_keeps :
  forall sql st, Q st -> Q (submit rem (Execute sql) st).2.

Let P (s : D1) : Prop := Q (store s).

Lemma executeSQL_keeps_all sql : keeps P (executeSQL rem sql).
Proof.
  intros s H. unfold executeSQL.
  pose proof (execute_keeps sql _ H) as K.
  destruct (submit rem (Execute sql) (store s)) as [[ids|] st]; exact K.
Qed.

Lemma findOrCreateRepresentative_keeps_all name :
  keeps P (findOrCreateRepresentative rem name).
Proof.
  unfold findOrCreateRepresentative, cacheSet.
  repeat first [ apply executeSQL_keeps_all | keeps_step ]; done.
Qed.

Lemma saveApplication_keeps_all data : keeps P (saveApplication rem data).
Proof.
  unfold saveApplication, flushCacheIfNeeded.
  repeat first
    [ apply executeSQL_keeps_all
    | apply findOrCreateRepresentative_keeps_all
    | keeps_step ]; done.
Qed.

Lemma markAsNotFound_keeps_all n y : keeps P (markAsNotFound rem n y).
Proof.
  unfold markAsNotFound.
  repeat first [ apply executeSQL_keeps_all | keeps_step ].
Qed.

End ExecuteOnly.

Lemma weekly_onD1_keeps {A} (Q : Store -> Prop) (m : M D1 A) :
  keeps (fun s => Q (store s)) m ->
  keeps (fun w => Q (store (Weekly.d1 w))) (Weekly.onD1 m).
Proof.
  intros H w Hw. unfold Weekly.onD1. specialize (H (Weekly.d1 w) Hw).
  by destruct (m (Weekly.d1 w)) as [res d].
Qed.

Lemma weekly_check_keeps world (Q : Store -> Prop) caseInfo :
  (forall sql st, Q st -> Q (submit (Weekly.remote world) (Execute sql) st).2) ->
  keeps (fun w => Q (store (Weekly.d1 w))) (Weekly.check world caseInfo).
Proof.
  intros Hsub. unfold Weekly.check, Weekly.count.
  repeat first
    [ apply weekly_onD1_keeps;
      first [ by apply saveApplication_keeps_all
            | by apply markAsNotFound_keeps_all ]
    | keeps_step ]; try done.
  intros w Hw. unfold Weekly.scrapeECHRApplication.
  by destruct (Weekly.site world _ _ _).
Qed.

Lemma weekly_checkAll_keeps world (Q : Store -> Prop) subscribedCases :
  (forall sql st, Q st -> Q (submit (Weekly.remote world) (Execute sql) st).2) ->
  keeps (fun w => Q (store (Weekly.d1 w)))
        (Weekly.checkAll world subscribedCases).
Proof.
  intros Hsub.
  induction subscribedCases as [|caseInfo rest IH]; cbn [Weekly.checkAll].
  - apply keeps_ret.
  - apply keeps_bind; [by apply weekly_check_keeps | intros _; exact IH].
Qed.

Lemma weekly_getSubscribedCases_keeps world (Q : Store -> Prop) :
  (forall sql st, Q st -> Q (submit (Weekly.remote world) (Execute sql) st).2) ->
  keeps (fun w => Q (store (Weekly.d1 w))) (Weekly.getSubscribedCases world).
Proof.
  intros Hsub. unfold Weekly.getSubscribedCases.
  apply keeps_tryCatch; [|intros ?; apply keeps_throw].
  apply keeps_bind.
  - apply weekly_onD1_keeps. by apply executeSQL_keeps_all.
  - intros _ w Hw. exact Hw.
Qed.

Lemma weekly_run_keeps world (Q : Store -> Prop) :
  (forall sql st, Q st -> Q (submit (Weekly.remote world) (Execute sql) st).2) ->
  keeps (fun w => Q (store (Weekly.d1 w))) (Weekly.run world).
Proof.
  intros Hsub. unfold Weekly.run.
  apply keeps_bind; [by apply weekly_getSubscribedCases_keeps|].
  intros subscribedCases. apply keeps_bind.
  { unfold Weekly.count. by apply keeps_modify. }
  intros _. destruct (_ =? _)%nat; [apply keeps_ret|].
  apply keeps_bind; [|intros _; unfold Weekly.printStats; by apply keeps_modify].
  by apply weekly_checkAll_keeps.
Qed.


Lemma weekly_onD1 {A} (m : M D1 A) w :
  returns m ->
  exists a d, m (Weekly.d1 w) = (Val a, d)
              /\ Weekly.onD1 m w = (Val a, Weekly.set_d1 d w).
Proof.
  intros H. destruct (H (Weekly.d1 w)) as (a & d & E).
  exists a, d. split; [done|]. unfold Weekly.onD1. by rewrite E.
Qed.

(** One subscribed case: the check returns, asks for one page, prints
    nothing and counts the case once. *)
Lemma weekly_check_counts world caseInfo w :
  exists w',
    Weekly.check world caseInfo w = (Val tt, w')
    /\ Weekly.visits w' = S (Weekly.visits w)
    /\ Weekly.console w' = Weekly.console w
    /\ Weekly.total (Weekly.stats w') = Weekly.total (Weekly.stats w)
    /\ settled (Weekly.stats w') = settled (Weekly.stats w) + 1.
Proof.
  unfold Weekly.check, tryCatch, Weekly.scrapeECHRApplication.
  cbv beta iota zeta delta [mbind M_bind mret M_ret modify Weekly.count].
  destruct (Weekly.site world _ _ _) as [data| |message].
  - destruct (bool_decide (lastMajorEvent data = Weekly.current_event caseInfo));
      cbn [negb];
      match goal with
      | |- context [Weekly.onD1 ?m ?x] =>
          destruct (weekly_onD1 m x (saveApplication_returns _ _))
            as (a & d & _ & ->)
      end;
      (eexists; split; [reflexivity|]); cbn; unfold settled; cbn;
      repeat split; lia.
  - match goal with
    | |- context [Weekly.onD1 ?m ?x] =>
        destruct (weekly_onD1 m x (markAsNotFound_returns _ _ _))
          as (a & d & _ & ->)
    end.
    eexists. split; [reflexivity|]. cbn. unfold settled. cbn.
    repeat split; lia.
  - eexists. split; [reflexivity|]. cbn. unfold settled. cbn.
    repeat split; lia.
Qed.

Lemma weekly_checkAll_counts world subscribedCases :
  forall w, exists w',
    Weekly.checkAll world subscribedCases w = (Val tt, w')
    /\ Weekly.visits w' = (Weekly.visits w + length subscribedCases)%nat
    /\ Weekly.console w' = Weekly.console w
    /\ Weekly.total (Weekly.stats w') = Weekly.total (Weekly.stats w)
    /\ settled (Weekly.stats w')
       = settled (Weekly.stats w) + Z.of_nat (length subscribedCases).
Proof.
  induction subscribedCases as [|caseInfo rest IH]; intros w.
  - exists w. cbn. repeat split; lia.
  - cbn [Weekly.checkAll]. rewrite bind_eq.
    destruct (weekly_check_counts world caseInfo w)
      as (w1 & -> & V1 & C1 & T1 & S1).
    destruct (IH w1) as (w' & -> & V & C & T & S).
    exists w'. split; [done|]. cbn [length]. repeat split; lia || congruence.
Qed.

(** The query of the subscribed cases changes nothing in the database. *)
Lemma submit_select rem st :
  submit rem (Execute [SelectSubscribed]) st
  = (if delivered (wire rem (calls st)) && answered (wire rem (calls st))
     then Some [] else None,
     asked (Execute [SelectSubscribed]) st).
Proof.
  unfold submit. rewrite outcome_reads by reflexivity. cbn. unfold asked.
  by destruct (delivered _).
Qed.

Lemma weekly_getSubscribedCases_eq world w :
  let reply := wire (Weekly.remote world) (calls (store (Weekly.d1 w))) in
  Weekly.getSubscribedCases world w
  = (if delivered reply && answered reply
     then Weekly.subscribed world else Exn "SQL Error",
     Weekly.set_d1
       {| adapter := adapter (Weekly.d1 w);
          store := asked (Execute [SelectSubscribed]) (store (Weekly.d1 w)) |}
       w).
Proof.
  intros reply. unfold Weekly.getSubscribedCases, tryCatch.
  rewrite bind_eq. unfold Weekly.onD1, executeSQL. rewrite submit_select.
  fold reply. destruct (delivered reply && answered reply); [|reflexivity].
  by destruct (Weekly.subscribed world).
Qed.

(** X22. The weekly run starts with the query of the subscribed cases,
    sent through [executeSQL].  It throws exactly when the list cannot be
    had, the call failing or its output not being the list, and has then
    asked for no page, sent nothing else and counted nothing.  Otherwise
    it returns, having asked for one page for every subscribed case;
    [total] is their number and is the sum of the cases updated,
    unchanged, not found and failed; and the summary is printed once,
    unless there is no subscribed case, when nothing is printed. *)
Theorem weekly_run_counts world credentials database :
  let start := Weekly.constructor credentials database in
  let reply := wire (Weekly.remote world) 0 in
  let result := Weekly.run world start in
  let stats := Weekly.stats result.2 in
  match (if delivered reply && answered reply
         then Weekly.subscribed world else Exn "SQL Error") with
  | Exn message =>
      result.1 = Exn message
      /\ Weekly.visits result.2 = 0%nat
      /\ journal (store (Weekly.d1 result.2)) = [Execute [SelectSubscribed]]
      /\ db (store (Weekly.d1 result.2)) = database
      /\ stats = Weekly.stats start
      /\ Weekly.console result.2 = []
  | Val subscribedCases =>
      result.1 = Val tt
      /\ Weekly.visits result.2 = length subscribedCases
      /\ (exists sent, journal (store (Weekly.d1 result.2))
                       = Execute [SelectSubscribed] :: sent)
      /\ Weekly.total stats = Z.of_nat (length subscribedCases)
      /\ settled stats = Weekly.total stats
      /\ Weekly.console result.2
         = match subscribedCases with [] => [] | _ => [stats] end
  end.
Proof.
  intros start reply result stats. subst stats result.
  unfold Weekly.run. rewrite bind_eq, weekly_getSubscribedCases_eq.
  change (wire (Weekly.remote world) (calls (store (Weekly.d1 start))))
    with reply.
  destruct (if delivered reply && answered reply
            then Weekly.subscribed world else Exn "SQL Error")
    as [subscribedCases|message]; [|by cbn].
  rewrite bind_eq. cbn [Weekly.count modify].
  destruct subscribedCases as [|caseInfo rest].
  { cbn. repeat split; try done. by exists []. }
  cbn [length Nat.eqb]. rewrite bind_eq.
  match goal with
  | |- context [Weekly.checkAll world ?l ?x] =>
      pose proof (weekly_checkAll_keeps world
                    (fun st => exists sent,
                         journal st = Execute [SelectSubscribed] :: sent)
                    l) as K;
      specialize (K ltac:(intros sql st [sent E]; rewrite submit_journal, E;
                          by eexists) x ltac:(by exists []));
      destruct (weekly_checkAll_counts world l x) as (w' & E & V & C & T & S)
  end.
  rewrite E in K |- *. cbn in *. unfold settled in *. cbn in *.
  repeat split; try done; try lia.
  by rewrite C.
Qed.

Lemma weekly_run_counts_witness :
  (Weekly.run Cases.gone (Weekly.constructor false Sample.lapsedDb)).1 = Val tt
  /\ Weekly.visits
       (Weekly.run Cases.gone (Weekly.constructor false Sample.lapsedDb)).2
     = 1%nat
  /\ Weekly.notFound
       (Weekly.stats
          (Weekly.run Cases.gone (Weekly.constructor false Sample.lapsedDb)).2)
     = 1.
Proof.
  pose proof (weekly_run_counts Cases.gone false Sample.lapsedDb) as H.
  cbv zeta in H. change (wire (Weekly.remote Cases.gone) 0)
    with {| delivered := true; answered := true; clock := Sample.noon |} in H.
  cbn [delivered answered andb Cases.gone Weekly.subscribed] in H.
  destruct H as (Hres & Hvisits & _). split; [exact Hres|].
  split; [exact Hvisits | vm_compute; reflexivity].
Defined.

Lemma split_two (number year : string) :
  slashFree number = true -> slashFree year = true ->
  Js.split "/" (number +:+ "/" +:+ year) = [number; year].
Proof.
  intros Hn Hy. rewrite slash_app, (split_field "/" number) by exact Hn.
  by rewrite (split_last "/" year) by exact Hy.
Qed.

Lemma weekly_check_notFound world caseInfo w :
  let pieces := Js.split "/" (Weekly.application_number caseInfo) in
  let number := Weekly.template (pieces !! 0%nat) in
  let year := Weekly.template (pieces !! 1%nat) in
  Weekly.site world (Weekly.visits w) number year = NotFound ->
  let w' := (Weekly.check world caseInfo w).2 in
  Weekly.d1 w'
  = (markAsNotFound (Weekly.remote world) number year (Weekly.d1 w)).2
  /\ Weekly.stats w' = Weekly.incr_notFound (Weekly.stats w).
Proof.
  intros pieces number year Hsite w'. subst w'.
  unfold Weekly.check, tryCatch, Weekly.scrapeECHRApplication.
  cbv beta iota zeta delta [mbind M_bind mret M_ret modify Weekly.count].
  fold pieces. fold number. fold year. rewrite Hsite.
  unfold Weekly.onD1. cbn [Weekly.d1 Weekly.set_stats].
  destruct (markAsNotFound_returns (Weekly.remote world) number year
              (Weekly.d1 w)) as (b & d & ->).
  by cbn.
Qed.

Lemma markAsNotFound_sent rem n y s :
  let reply := wire rem (calls (store s)) in
  let s' := (markAsNotFound rem n y s).2 in
  journal (store s') = journal (store s) ++ [Execute [MarkNotFound (n +:+ "/" +:+ y)]]
  /\ (safeNumber (n +:+ "/" +:+ y) = true ->
      forall row,
        applications (db (store s)) !! (n +:+ "/" +:+ y) = Some row ->
        delivered reply = true ->
        applications (db (store s')) !! (n +:+ "/" +:+ y)
        = Some (Engine.mark (clock reply) row)).
Proof.
  intros reply s'. subst s'. rewrite markAsNotFound_eq.
  pose proof (submit_journal rem (Execute [MarkNotFound (n +:+ "/" +:+ y)])
                (store s)) as J.
  split.
  - by destruct (submit rem _ (store s)) as [[ids|] st].
  - intros Hsafe row Hrow Hd. clear J. unfold submit.
    rewrite outcome_reads by (by apply reads_mark). fold reply.
    cbn [statements]. rewrite run_mark, (safeNumber_text _ Hsafe), Hd.
    assert (alter (Engine.mark (clock reply)) (n +:+ "/" +:+ y)
                  (applications (db (store s))) !! (n +:+ "/" +:+ y)
            = Some (Engine.mark (clock reply) row)) as K.
    { rewrite lookup_alter. case_decide; [|done]. by rewrite Hrow. }
    by destruct (answered reply).
Qed.

(** X23. The weekly loop does mark a case the site has no page for: the
    check sends the update of [markAsNotFound], and nothing else, for the
    number rebuilt from the two pieces of the subscribed number, which is
    that number when it holds one slash; the case counts as not found,
    and, for a number the engine reads as it is written, its row, when
    the call is delivered, is the row after the update.  For a subscribed
    number without a slash the year is [undefined], and the mark names
    number/undefined. *)
Theorem weekly_marks_not_found world :
  (forall caseInfo w number year,
      Weekly.application_number caseInfo = number +:+ "/" +:+ year ->
      slashFree number = true ->
      slashFree year = true ->
      Weekly.site world (Weekly.visits w) number year = NotFound ->
      let w' := (Weekly.check world caseInfo w).2 in
      let reply :=
        wire (Weekly.remote world) (calls (store (Weekly.d1 w))) in
      journal (store (Weekly.d1 w'))
      = journal (store (Weekly.d1 w))
        ++ [Execute [MarkNotFound (Weekly.application_number caseInfo)]]
      /\ Weekly.stats w' = Weekly.incr_notFound (Weekly.stats w)
      /\ (safeNumber (Weekly.application_number caseInfo) = true ->
          forall row,
            applications (db (store (Weekly.d1 w)))
              !! Weekly.application_number caseInfo = Some row ->
            delivered reply = true ->
            applications (db (store (Weekly.d1 w')))
              !! Weekly.application_number caseInfo
            = Some (Engine.mark (clock reply) row)))
  /\ (forall caseInfo w,
        slashFree (Weekly.application_number caseInfo) = true ->
        Weekly.site world (Weekly.visits w)
                    (Weekly.application_number caseInfo) "undefined"
        = NotFound ->
        journal (store (Weekly.d1 (Weekly.check world caseInfo w).2))
        = journal (store (Weekly.d1 w))
          ++ [Execute [MarkNotFound
                         (Weekly.application_number caseInfo
                          +:+ "/" +:+ "undefined")]]).
Proof.
  split.
  - intros caseInfo w number year Hnum Hn Hy Hsite w' reply. subst w'.
    pose proof (weekly_check_notFound world caseInfo w) as H.
    cbv zeta in H. rewrite Hnum, split_two in H by done.
    cbn [lookup list_lookup Weekly.template] in H.
    destruct (H Hsite) as [-> ->].
    destruct (markAsNotFound_sent (Weekly.remote world) number year
                (Weekly.d1 w)) as [J R].
    rewrite Hnum. by split; [|split].
  - intros caseInfo w Hfree Hsite.
    pose proof (weekly_check_notFound world caseInfo w) as H.
    cbv zeta in H. rewrite (split_last "/" _ Hfree) in H.
    cbn [lookup list_lookup Weekly.template] in H.
    destruct (H Hsite) as [-> _].
    by destruct (markAsNotFound_sent (Weekly.remote world)
                   (Weekly.application_number caseInfo) "undefined"
                   (Weekly.d1 w)) as [J _].
Qed.

Lemma weekly_marks_not_found_witness :
  let caseInfo := {| Weekly.case_id := 7;
                     Weekly.application_number := "152/18";
                     Weekly.current_event := Some "Application lodged" |} in
  let w := Weekly.constructor false Sample.lapsedDb in
  let w' := (Weekly.check Cases.gone caseInfo w).2 in
  journal (store (Weekly.d1 w'))
  = journal (store (Weekly.d1 w))
    ++ [Execute [MarkNotFound (Weekly.application_number caseInfo)]]
  /\ Weekly.stats w' = Weekly.incr_notFound (Weekly.stats w)
  /\ applications (db (store (Weekly.d1 w'))) !! "152/18"
     = Some (Engine.mark Sample.noon Sample.lapsed).
Proof.
  intros caseInfo w.
  destruct (weekly_marks_not_found Cases.gone) as [H _].
  destruct (H caseInfo w "152" "18") as (Hsent & Hstats & Hrow);
    [reflexivity.. |].
  split; [exact Hsent|]. split; [exact Hstats|].
  apply (Hrow eq_refl Sample.lapsed); reflexivity.
Defined.

(** ** The counter of the cache *)


Lemma executeSQL_counter rem sql (c : Z) :
  keeps (fun s => cacheCounter (adapter s) = c) (executeSQL rem sql).
Proof. intros s H. by rewrite executeSQL_adapter. Qed.

Lemma findOrCreateRepresentative_counter rem name (c : Z) :
  keeps (fun s => cacheCounter (adapter s) = c)
        (findOrCreateRepresentative rem name).
Proof.
  unfold findOrCreateRepresentative, cacheSet.
  repeat first [ apply executeSQL_counter | keeps_step ]; done.
Qed.

Lemma keeps_at {S A} (P : S -> Prop) (m : M S A) s r s' :
  keeps P m -> m s = (r, s') -> P s -> P s'.
Proof. intros K E H. specialize (K s H). by rewrite E in K. Qed.

Lemma representative_counter rem data (c : Z) :
  keeps (fun s => cacheCounter (adapter s) = c)
        (if hasRepresentative data
         then i ← findOrCreateRepresentative rem (representant data);
              mret (Some i)
         else mret None).
Proof.
  destruct (hasRepresentative data); [|apply keeps_ret].
  apply keeps_bind; [apply findOrCreateRepresentative_counter|].
  intros i. apply keeps_ret.
Qed.

(** X27. The counter of the cache counts the saves that return [true]:
    such a save adds one to it, or sets it to 0 and empties the cache
    when that makes 100, the [CACHE_FLUSH_INTERVAL]; a save that returns
    [false] leaves the counter as it was.  [saveApplication] answers
    nothing else. *)
Theorem cacheCounter_counts_saves rem data s :
  let counter := cacheCounter (adapter s) in
  let s' := (saveApplication rem data s).2 in
  match (saveApplication rem data s).1 with
  | Val true =>
      cacheCounter (adapter s') = nextCounter counter
      /\ (CACHE_FLUSH_INTERVAL <= counter + 1 -> repCache (adapter s') = ∅)
  | Val false => cacheCounter (adapter s') = counter
  | Exn _ => False
  end.
Proof.
  intros counter s'. subst s'.
  set (Q := fun t : D1 => cacheCounter (adapter t) = counter).
  assert (Q s) as H0 by done.
  unfold saveApplication, tryCatch.
  match goal with
  | |- context [match ?m s with _ => _ end] =>
      destruct (m s) as [[b|e] s1] eqn:E
  end; cbn [fst snd].
  - apply bind_ok in E as (representativeId & t1 & E1 & E).
    pose proof (keeps_at Q _ _ _ _ (representative_counter rem data counter)
                  E1 H0) as H1.
    apply bind_ok in E as (ids2 & t2 & E2 & E).
    pose proof (keeps_at Q _ _ _ _ (executeSQL_counter rem _ counter) E2 H1)
      as H2.
    apply bind_ok in E as (appIdResult & t3 & E3 & E).
    pose proof (keeps_at Q _ _ _ _ (executeSQL_counter rem _ counter) E3 H2)
      as H3.
    destruct (idMatch appIdResult) as [applicationId|]; [|done].
    apply bind_ok in E as (ids4 & t4 & E4 & E).
    pose proof (keeps_at Q _ _ _ _ (executeSQL_counter rem _ counter) E4 H3)
      as H4.
    apply bind_ok in E as ([] & t5 & E5 & E).
    injection E5 as <-. injection E as <- <-.
    unfold Q in H4. cbn. rewrite H4. unfold nextCounter.
    destruct (Z.leb_spec CACHE_FLUSH_INTERVAL (counter + 1)); cbn.
    + by split.
    + split; [done|]. lia.
  - cbv [mret M_ret]. cbn [snd].
    apply bind_exn in E as [E|(representativeId & t1 & E1 & E)].
    { exact (keeps_at Q _ _ _ _ (representative_counter rem data counter) E H0). }
    pose proof (keeps_at Q _ _ _ _ (representative_counter rem data counter)
                  E1 H0) as H1.
    apply bind_exn in E as [E|(ids2 & t2 & E2 & E)].
    { exact (keeps_at Q _ _ _ _ (executeSQL_counter rem _ counter) E H1). }
    pose proof (keeps_at Q _ _ _ _ (executeSQL_counter rem _ counter) E2 H1)
      as H2.
    apply bind_exn in E as [E|(appIdResult & t3 & E3 & E)].
    { exact (keeps_at Q _ _ _ _ (executeSQL_counter rem _ counter) E H2). }
    pose proof (keeps_at Q _ _ _ _ (executeSQL_counter rem _ counter) E3 H2)
      as H3.
    destruct (idMatch appIdResult) as [applicationId|];
      [|by injection E as _ <-].
    apply bind_exn in E as [E|(ids4 & t4 & E4 & E)].
    { exact (keeps_at Q _ _ _ _ (executeSQL_counter rem _ counter) E H3). }
    apply bind_exn in E as [E|([] & t5 & E5 & E)]; done.
Qed.

(** ** The weekly scraper and the import API *)

(** X28. The weekly scraper never uses the import API, with or without
    the credentials for it: every command of a weekly run goes through
    [wrangler d1 execute]. *)
Theorem weekly_never_imports world credentials database :
  Forall (fun c => isExecute c = true)
         (journal (store (Weekly.d1
            (Weekly.run world (Weekly.constructor credentials database)).2))).
Proof.
  apply (weekly_run_keeps world
           (fun st => Forall (fun c => isExecute c = true) (journal st))).
  - intros sql st H. rewrite submit_journal. apply Forall_app. split; [done|].
    by repeat constructor.
  - constructor.
Qed.

(** ** A page that fails to load *)

(** X29. An error inside the [try] of [scrapeECHRApplication] is not
    passed on: for a page that fails to load, as for a page without
    [#ResultPanel], the scraper returns [null].  So a check of the
    monthly loop on such a page counts the case as not found and not as
    an error, and a check of the weekly loop marks the case as not
    found. *)
Theorem failed_load_is_not_found :
  (forall e, scrape (Browser (Exn e) None) = NotFound)
  /\ (forall page,
        resultPanel page = false -> scrape (Browser (Val page) None) = NotFound)
  /\ (forall world r e,
        site world (visits r) (currentNumber r) (currentYear r)
        = scrape (Browser (Exn e) None) ->
        stats (this (attempt world r).2)
        = incr_notFound (incr_totalChecked (stats (this r))))
  /\ (forall world caseInfo w number year e,
        Weekly.application_number caseInfo = number +:+ "/" +:+ year ->
        slashFree number = true ->
        slashFree year = true ->
        Weekly.site world (Weekly.visits w) number year
        = scrape (Browser (Exn e) None) ->
        let w' := (Weekly.check world caseInfo w).2 in
        journal (store (Weekly.d1 w'))
        = journal (store (Weekly.d1 w))
          ++ [Execute [MarkNotFound (Weekly.application_number caseInfo)]]
        /\ Weekly.stats w' = Weekly.incr_notFound (Weekly.stats w)).
Proof.
  split; [done|]. split; [by intros page H; cbn; rewrite H|]. split.
  - intros world r e Hsite.
    destruct (attempt_spec world r) as (r' & -> & _ & _ & _ & _ & Hs & _).
    cbn [snd]. by rewrite Hs, Hsite.
  - intros world caseInfo w number year e Hnum Hn Hy Hsite w'. subst w'.
    pose proof (weekly_check_notFound world caseInfo w) as H.
    cbv zeta in H. rewrite Hnum, split_two in H by done.
    cbn [lookup list_lookup Weekly.template] in H.
    destruct (H Hsite) as [-> ->].
    destruct (markAsNotFound_sent (Weekly.remote world) number year
                (Weekly.d1 w)) as [J _].
    rewrite Hnum. by split.
Qed.

Lemma failed_load_is_not_found_witness :
  let r := initial Sample.shortConfig false Sample.emptyDb in
  stats (this (attempt Cases.flaky r).2)
  = incr_notFound (incr_totalChecked (stats (this r))).
Proof.
  intros r.
  destruct failed_load_is_not_found as (_ & _ & H & _).
  apply (H Cases.flaky r "Timeout 15000ms exceeded"). reflexivity.
Defined.

(** ** The calls of a save *)

Lemma executeSQL_sent rem sql s ids s' :
  executeSQL rem sql s = (Val ids, s') ->
  calls (store s') = S (calls (store s))
  /\ journal (store s') = journal (store s) ++ [Execute sql].
Proof.
  unfold executeSQL, submit.
  destruct (outcome _ _ _ _) as [reached r].
  destruct (_ && _); [|done]. destruct r as [ids'|]; [|done].
  by intros [= <- <-].
Qed.

(** X30. A save that returned [true] for a record without a
    representative, or with one whose id is in the cache, has made three
    calls: the upsert, the select of the id of the case, and the delete
    and insert of its events. *)
Theorem save_takes_three_calls rem data s s' :
  saveApplication rem data s = (Val true, s') ->
  hasRepresentative data = false
  \/ is_Some (repCache (adapter s) !! Js.interp (representant data)) ->
  exists representativeId applicationId,
    journal (store s')
    = journal (store s)
      ++ [Execute [appSQL data representativeId];
          Execute [SelectAppId (applicationNumber data)];
          Execute [DeleteEvents (EInt applicationId);
                   InsertEvents (eventValues (EInt applicationId) data)]]
    /\ calls (store s') = (calls (store s) + 3)%nat.
Proof.
  unfold saveApplication. intros H Hrep. apply tryCatch_ok in H; [|done].
  apply bind_ok in H as (representativeId & s1 & E1 & H).
  assert (s1 = s) as ->.
  { destruct (hasRepresentative data) eqn:Hh.
    - destruct Hrep as [|[i Hi]]; [done|].
      unfold findOrCreateRepresentative in E1.
      destruct (hasRepresentative_name _ Hh) as (name & Hname & Hne).
      rewrite Hname in *. cbn [Js.truthy Js.interp negb] in *.
      rewrite Hne in E1. cbn [negb] in E1.
      rewrite !bind_eq in E1. cbn [get] in E1. rewrite Hi in E1.
      by injection E1 as _ <-.
    - by injection E1 as _ <-. }
  apply bind_ok in H as (ids2 & s2 & E2 & H).
  apply executeSQL_sent in E2 as [C2 J2].
  apply bind_ok in H as (appIdResult & s3 & E3 & H).
  apply executeSQL_sent in E3 as [C3 J3].
  destruct (idMatch appIdResult) as [applicationId|]; [|done].
  apply bind_ok in H as (ids4 & s4 & E4 & H).
  apply executeSQL_sent in E4 as [C4 J4].
  apply bind_ok in H as ([] & s5 & E5 & H).
  injection E5 as <-. injection H as <-.
  exists representativeId, applicationId. cbn [store set_adapter].
  rewrite J4, J3, J2, C4, C3, C2, <- !app_assoc. split; [done|]. lia.
Qed.

Lemma save_takes_three_calls_witness :
  exists representativeId applicationId,
    journal (store (saveApplication Sample.reliable Cases.undated
                      (Sample.onDb false Sample.emptyDb)).2)
    = journal (store (Sample.onDb false Sample.emptyDb))
      ++ [Execute [appSQL Cases.undated representativeId];
          Execute [SelectAppId (applicationNumber Cases.undated)];
          Execute [DeleteEvents (EInt applicationId);
                   InsertEvents (eventValues (EInt applicationId)
                                             Cases.undated)]]
    /\ calls (store (saveApplication Sample.reliable Cases.undated
                       (Sample.onDb false Sample.emptyDb)).2)
       = (calls (store (Sample.onDb false Sample.emptyDb)) + 3)%nat.
Proof.
  apply (save_takes_three_calls Sample.reliable Cases.undated
           (Sample.onDb false Sample.emptyDb)).
  - vm_compute. reflexivity.
  - left. reflexivity.
Defined.
